(* ===== verification/_CoqProject ===== *)
-Q . S2P
Prelude.v
Mbuf.v
Cksum.v
SockBuf.v
Callout.v
PppDefs.v
Fsm.v
Lcp.v
IpFrag.v
Secrets.v
Random.v
Md5.v
Auth.v
Upap.v
Chap.v
SlCompress.v
PppFrame.v
PppWire.v
InPcb.v
TcpDefs.v
TcpReass.v
TcpSubr.v
TcpOutput.v
TcpTimer.v
TcpInput.v
TcpUsr.v
TcpStream.v
