(* ===== verification/Prelude.v ===== *)
(** * A verified model of the VxWorks network stack: [netinet] and its PPP

    The repository holds the sources of the VxWorks TCP/IP stack
    ([src/netinet], a BSD 4.4 descendant), of its PPP ([src/netinet/ppp], from
    ppp-2.1) and a collection of demonstration programs.  This library models
    the parts of the stack that carry its logic, from the buffers up to TCP
    and the authentication protocols of PPP, and proves what makes them
    correct.  Definitions have the names of the C functions, types and
    members they translate; parts of a long C function have names of their
    own, and a comment that says which part.

    ** Parts and how they interact

    - _Buffers_.  [Mbuf]: [uipc_mbuf.c] and [m_copydata] of [rtsock.c]: chains
      of mbufs over a pool of clusters.  [Cksum]: [in_cksum.c].  [SockBuf]:
      [uipc_sock2.c], socket buffers as queues of records of mbufs.
    - _IP_.  [IpFrag]: fragmentation in [ip_output.c], reassembly in
      [ip_input.c].  Packets are headers, options and data.  [InPcb]:
      [in_pcb.c], the protocol control blocks of TCP and UDP in their list and
      hash chains, with the choice of ports and local addresses.
    - _PPP_.  [Callout]: the timeouts of [pppLib.c], and the interface
      [Timers] through which every protocol sees them.  [PppDefs]: what the
      sources take from the missing [pppLib.h].  [Fsm]: the automaton of
      [fsm.c], whose client is a table of callbacks; [Lcp]: the callbacks of
      [lcp.c].  [Secrets]: [options.c] (words and authorization files),
      [pppSecretLib.c]; [Random]: [random.c]; [Md5]: [ppp_md5.c]; [Auth]:
      [auth.c], which implements the interface [AuthLayer] over [Secrets];
      [Upap] ([upap.c]) and [Chap] ([chap.c]) are clients of [AuthLayer] and
      [Timers], and [Chap] of [Md5] and [Random].  [SlCompress]:
      [sl_compress.c].  [PppFrame]: the driver [if_ppp.c], with its output
      queues, escapes and check sequence and its receiver, which works in place
      in mbufs; [PppWire]: the two ends of a line together.
    - _TCP_.  [TcpDefs]: the control block, connections and the interface
      [SoBuf] of socket buffers, [TcpReass]: the reassembly queue of
      [tcp_input.c]; [TcpSubr]: estimates ([tcp_subr.c], and the routines
      [tcp_xmit_timer], [tcp_mss], [tcp_setpersist]); [TcpOutput]:
      [tcp_output.c]; [TcpTimer]: [tcp_timer.c], [tcp_close], [tcp_drop],
      [tcp_respond]; [TcpInput]: [tcp_input.c]; [TcpUsr]: [tcp_usrreq.c];
      [TcpStream]: all of them together, under any sequence of segments,
      timeouts and user requests.

    ** How state and operations correspond to the code

    Stateful code passes its state explicitly: a record has the members of
    the C structure that the code keeps ([mbuf], [sockbuf], [fsm], [ipq],
    [upap_state], [chap_state], [slcompress], [tcpcb], ...), and an operation
    returns the new record.  Functions that can fail return an option or a
    sum; a panic, a fault (an access outside a buffer) and an exhausted fuel
    are values of their own, so that a theorem that an operation returns
    excludes them.  What an operation does to the outside (packets sent,
    indications, memory freed) is a log, the newest entry first, or the state
    of a parametric environment.  Integers are kept in [Z] with the
    conversion to their declared width written at each store ([u8], [u16],
    [u32], [s16], [s32] below).  Linked lists are lists; where a pointer
    into the list is state ([SlCompress], the tail pointers of [SockBuf]) it
    is an index.  Jumps of a long function ([tcp_input], [tcp_output],
    [ip_output]) are functions of the local variables.

    Code that is not in the repository is a parameter: the cluster pool
    ([Mbuf.NetBuf]), the macros and constants of the missing headers
    ([SockBuf.SockVar], [PppDefs.PppDefs], [Lcp.LcpDefs], [SlCompress.SlDefs],
    [TcpDefs.TcpDefs]), the clock, hash and login services.  Each such class
    has a class of laws beside it, which say what the code relies on (codes
    differ, a macro reads back what another wrote, an allocated cluster is
    large enough); the demonstrations at the end of each file give an
    instance.  [Timers], [AuthLayer] and [SoBuf] are interfaces between
    components: the clients are proved against them, and [Callout] and [Auth]
    prove the laws of the implementations.

    ** What the theorems show

    - _Buffers_: [m_adj], [m_pullup] have their specified effect on the bytes
      of a chain ([m_adj_spec], [m_pullup_spec]); both branches of the
      checksum equal RFC 1071 for any cut of the packet into mbufs, and a
      packet that carries its checksum verifies ([in_cksum_rfc1071],
      [in_cksum_asm_rfc1071], [in_cksum_verifies]); every sequence of
      operations on a socket buffer keeps the counters equal to the queue and
      panics exactly on a broken precondition ([sb_exec_spec]).
    - _IP_: what is fragmented is reassembled, in any order of arrival, with
      duplicates and overlaps ([fragment_roundtrip],
      [reassembly_any_order]); the queues are well formed and age
      ([ip_reachable_inv], [ip_slowtimo_expires]); the search of the hash
      chains implements that of the list ([pcb_lookup_refines]), no two
      connections, opened or accepted, are confused while no socket shares its
      port ([connections_distinct]), and the search for a free port ends
      exactly when there is one ([bind_any_port]).
    - _PPP_: the delta queue refines a list of deadlines
      ([timer_exec_refines]); the automaton implements the table of RFC 1661
      up to two entries ([fsm_step_table]), its indications and timers are
      consistent in every reachable state ([reachable_ok]), retransmission
      ends ([timeouts_terminate]), malformed packets have no effect; the
      option codecs of LCP round trip and a handshake leaves both sides with
      the same options ([lcp_ackci_exact], [lcp_handshake]); an authorization
      file yields its best entry ([scan_authfile_best]), a password is checked
      against the best entries of the table and of the file
      ([check_passwd_spec]) and the network phase opens only after the
      negotiated authentication ([network_needs_auth]); the generator's
      pointers stay within its table ([rng_well_formed]);
      MD5 is RFC 1321 however its input is cut ([md5_streaming]); PAP and
      CHAP exchanges of two such hosts agree on the result, end, and accept
      only right answers; header compression is a round trip over a line that
      loses nothing ([sl_roundtrip]), over a least recently used table
      ([find_conn_lru]); whatever the driver writes is received as the packets
      that were queued, for all maps of characters that requests can set
      ([transmit_receive]), requests, starts and characters in any order keep
      the interface in order and its mbufs filled ([requests_line_ok]), any
      characters from the line are handled within the mbufs
      ([receive_refines]), and damage to two adjacent octets is found
      ([damage_detected]).
    - _TCP_: segments in any order deliver the longest gap-free prefix of the
      stream ([reass_stream]); what [tcp_output] sends is what the buffer
      holds, also when a segment of a burst finds no mbuf
      ([tcp_output_truthful]), except for a configuration in which it does not
      return ([tcp_output_livelock]); a silent peer is given up
      ([tcp_gives_up]); and over whole runs of input, output, timers and user
      requests every data segment sent carries the bytes the user wrote at
      its place in the stream, while the send buffer is what was not
      acknowledged ([tcp_stream_safe], [tcp_handshake_stream]).  The last
      four assume that mbufs do not run out ([never_fails]): without a buffer
      a FIN that is sent again is counted twice
      ([fin_resent_without_buffer]).  The runs leave out [listen] on a
      connected socket, which moves the connection to LISTEN
      ([listen_on_connection]), and a TCP_MAXSEG below the 32 bytes that
      options may take.

    ** Bounds and fuel

    Loops of the code that are not structural recursion have fuel, computed
    by the definition or given as an argument, and the theorems show what
    amount is enough: the length of the chain for the checksum and the buffer
    loops, of the packet for the option parsers ([lcp_nakci], [lcp_reqci]), of
    the options for [ip_optcopy], of the payload for the fragments of a
    datagram, of the file for [scan_authfile], the number of slots for the
    search of [SlCompress].  For [tcp_output], whose [again] loop sends at
    least one byte a turn, the bytes of the send buffer plus two are enough
    ([TcpTimer.enough]), except in the configuration of
    [tcp_output_livelock], where no amount is.  Lengths of
    buffers are bounded as the code bounds them: a datagram by 65535 bytes, a
    window by 2^30 (the comparisons of sequence numbers need less than 2^31
    between the numbers compared), a PPP packet by the MRU.

    ** What is not modelled

    The parts of the stack that translate between interfaces without logic
    (raw sockets, protocol tables, tracing, statistics printing, the hooks of
    PPP), those that are mostly calls of the operating system or of a driver
    (the socket layer's blocking and wakeups, ARP and interface
    configuration), the routing tree and multicast routing, ICMP, IGMP and
    UDP, and [crypt], which nothing calls here.  In the modelled files:
    statistics counters, debug messages, printing of packets, interrupt
    masking ([splnet]; a handler runs to its end) and the branches the
    configuration compiles out.  The demonstration programs under
    [src/1.*] to [src/9.*] show how to call the operating system and have no
    state of their own worth a theorem, and the SNMP agents among them are
    generated from a MIB. *)
From Stdlib Require Import ZArith Lia List Bool.
From stdpp Require Export base tactics list numbers option.

Export ListNotations.

(** ** Notations and automation of the development *)

Declare Scope net_scope.
Delimit Scope net_scope with net.

Create HintDb net discriminated.
Create HintDb net_bytes discriminated.

(** Split an equation between tuples or results into its components. *)
Ltac tup_eq :=
  repeat match goal with
  | |- Some _ = Some _ => apply (f_equal Some)
  | |- (_, _) = (_, _) => apply (f_equal2 pair)
  end; try reflexivity.

(** ** Machine words

    [char], [short] and [int] values are kept as integers; a store to a
    field of a given width is written with one of these conversions. *)

Definition u8 (x : Z) : Z := (x mod 256)%Z.
Definition u16 (x : Z) : Z := (x mod 65536)%Z.
Definition u32 (x : Z) : Z := (x mod 4294967296)%Z.

(** Conversion to the signed 16-bit and 32-bit types. *)
Definition s16 (x : Z) : Z := ((x + 32768) mod 65536 - 32768)%Z.
Definition s32 (x : Z) : Z :=
  ((x + 2147483648) mod 4294967296 - 2147483648)%Z.

Lemma u8_range x : (0 <= u8 x < 256)%Z.
Proof. unfold u8. apply Z.mod_pos_bound; lia. Qed.

Lemma u16_range x : (0 <= u16 x < 65536)%Z.
Proof. unfold u16. apply Z.mod_pos_bound; lia. Qed.

Lemma u32_range x : (0 <= u32 x < 4294967296)%Z.
Proof. unfold u32. apply Z.mod_pos_bound; lia. Qed.

Lemma u8_id x : (0 <= x < 256)%Z → u8 x = x.
Proof. apply Z.mod_small. Qed.

Lemma u16_id x : (0 <= x < 65536)%Z → u16 x = x.
Proof. apply Z.mod_small. Qed.

Lemma u32_id x : (0 <= x < 4294967296)%Z → u32 x = x.
Proof. apply Z.mod_small. Qed.

Lemma s16_id x : (-32768 <= x < 32768)%Z → s16 x = x.
Proof. intros H. unfold s16. rewrite Z.mod_small; lia. Qed.

Lemma s32_id x : (-2147483648 <= x < 2147483648)%Z → s32 x = x.
Proof. intros H. unfold s32. rewrite Z.mod_small; lia. Qed.

Lemma s32_range x : (-2147483648 <= s32 x < 2147483648)%Z.
Proof.
  unfold s32. pose proof (Z.mod_pos_bound (x + 2147483648) 4294967296). lia.
Qed.

Lemma s16_range x : (-32768 <= s16 x < 32768)%Z.
Proof. unfold s16. pose proof (Z.mod_pos_bound (x + 32768) 65536). lia. Qed.

#[export] Hint Resolve u8_range u16_range u32_range s16_range s32_range : net.

(** Words put together from bytes. *)
Lemma lor_add a b k p : (0 <= k → p = 2 ^ k → a mod p = 0 → 0 <= b < p → Z.lor a b = a + b)%Z.
Proof.
  intros Hk -> Ha Hb. assert (Z.land a b = 0%Z) as Hl.
  { apply Z.bits_inj'. intros n Hn. rewrite Z.land_spec, Z.bits_0.
    destruct (Z.lt_ge_cases n k).
    - rewrite <- (Z.mod_pow2_bits_low a k n), Ha, Z.bits_0 by lia. done.
    - rewrite <- (Z.mod_small b (2 ^ k)), Z.mod_pow2_bits_high by lia. apply andb_false_r. }
  rewrite <- Z.lxor_lor, <- Z.add_nocarry_lxor by done. done.
Qed.

Lemma join16 v : (0 <= v < 65536 → Z.lor (Z.shiftl (u8 (Z.shiftr v 8)) 8) (u8 v) = v)%Z.
Proof.
  intros Hv. rewrite Z.shiftl_mul_pow2, Z.shiftr_div_pow2 by lia.
  change (2 ^ 8)%Z with 256%Z. pose proof (Z.div_mod v 256).
  rewrite u8_id by (split; [apply Z.div_pos; lia|apply Z.div_lt_upper_bound; lia]).
  rewrite (lor_add _ _ 8 256); [unfold u8; lia|lia|done|by apply Z.mod_mul|apply u8_range].
Qed.

(** ** Bytes *)

Definition is_byte (b : Z) : Prop := (0 <= b < 256)%Z.

#[export] Instance is_byte_dec b : Decision (is_byte b).
Proof. unfold is_byte. apply _. Defined.

(** A packet or buffer is a list of byte values. *)
Abbreviation bytes := (list Z).

Abbreviation Bytes l := (Forall is_byte l).

Lemma is_byte_u8 x : is_byte (u8 x).
Proof. apply u8_range. Qed.

Lemma Bytes_app l k : Bytes l → Bytes k → Bytes (l ++ k).
Proof. intros. by apply Forall_app_2. Qed.

Lemma Bytes_take n l : Bytes l → Bytes (take n l).
Proof. apply Forall_take. Qed.

Lemma Bytes_drop n l : Bytes l → Bytes (drop n l).
Proof. apply Forall_drop. Qed.

#[export] Hint Resolve is_byte_u8 Bytes_app Bytes_take Bytes_drop : net_bytes.

(** ** List lengths as C integers *)

(** The length of a buffer, as the [int] the code passes around. *)
Definition zlen {A} (l : list A) : Z := Z.of_nat (length l).

(** Prefix and suffix addressed by a C integer (negative counts are empty). *)
Definition ztake {A} (n : Z) (l : list A) : list A := take (Z.to_nat n) l.
Definition zdrop {A} (n : Z) (l : list A) : list A := drop (Z.to_nat n) l.

Section ZLists.
Context {A : Type}.
Implicit Types (l k : list A) (n m : Z).
Local Open Scope Z_scope.

Lemma zlen_nonneg l : 0 <= zlen l.
Proof. unfold zlen. lia. Qed.

Lemma zlen_nil : zlen (@nil A) = 0.
Proof. done. Qed.

Lemma zlen_cons x l : zlen (x :: l) = 1 + zlen l.
Proof. unfold zlen. simpl. lia. Qed.

Lemma zlen_app l k : zlen (l ++ k) = zlen l + zlen k.
Proof. unfold zlen. rewrite length_app. lia. Qed.

Lemma zlen_ztake n l : zlen (ztake n l) = Z.min (Z.max 0 n) (zlen l).
Proof. unfold zlen, ztake. rewrite length_take. lia. Qed.

Lemma zlen_zdrop n l : zlen (zdrop n l) = zlen l - Z.min (Z.max 0 n) (zlen l).
Proof. unfold zlen, zdrop. rewrite length_drop. lia. Qed.

Lemma zlen_replicate n (x : A) : 0 <= n → zlen (replicate (Z.to_nat n) x) = n.
Proof. intros. unfold zlen. rewrite length_replicate. lia. Qed.

Lemma ztake_all n l : zlen l <= n → ztake n l = l.
Proof. intros. unfold ztake, zlen in *. rewrite take_ge by lia. done. Qed.

Lemma zdrop_all n l : zlen l <= n → zdrop n l = [].
Proof. intros. unfold zdrop, zlen in *. rewrite drop_ge by lia. done. Qed.

Lemma ztake_neg n l : n <= 0 → ztake n l = [].
Proof. intros. unfold ztake. by replace (Z.to_nat n) with 0%nat by lia. Qed.

Lemma zdrop_neg n l : n <= 0 → zdrop n l = l.
Proof. intros. unfold zdrop. by replace (Z.to_nat n) with 0%nat by lia. Qed.

Lemma ztake_zdrop n l : ztake n l ++ zdrop n l = l.
Proof. apply take_drop. Qed.

Lemma ztake_app_le n l k : n <= zlen l → ztake n (l ++ k) = ztake n l.
Proof. intros. unfold ztake, zlen in *. apply take_app_le. lia. Qed.

Lemma ztake_app_ge n l k :
  zlen l <= n → ztake n (l ++ k) = l ++ ztake (n - zlen l) k.
Proof.
  intros. unfold ztake, zlen in *. rewrite take_app_ge by lia.
  by replace (Z.to_nat (n - Z.of_nat (length l)))
    with (Z.to_nat n - length l)%nat by lia.
Qed.

Lemma zdrop_app_le n l k : n <= zlen l → zdrop n (l ++ k) = zdrop n l ++ k.
Proof. intros. unfold zdrop, zlen in *. apply drop_app_le. lia. Qed.

Lemma zdrop_app_ge n l k :
  zlen l <= n → zdrop n (l ++ k) = zdrop (n - zlen l) k.
Proof.
  intros. unfold zdrop, zlen in *. rewrite drop_app_ge by lia.
  by replace (Z.to_nat (n - Z.of_nat (length l)))
    with (Z.to_nat n - length l)%nat by lia.
Qed.

Lemma ztake_ztake n m l : ztake n (ztake m l) = ztake (Z.min n m) l.
Proof.
  unfold ztake. rewrite take_take. f_equal. lia.
Qed.

Lemma zdrop_zdrop n m l :
  0 <= n → 0 <= m → zdrop n (zdrop m l) = zdrop (n + m) l.
Proof.
  intros. unfold zdrop. rewrite drop_drop. f_equal. lia.
Qed.
End ZLists.

Lemma Bytes_ztake n l : Bytes l → Bytes (ztake n l).
Proof. apply Forall_take. Qed.

Lemma Bytes_zdrop n l : Bytes l → Bytes (zdrop n l).
Proof. apply Forall_drop. Qed.

#[export] Hint Resolve Bytes_ztake Bytes_zdrop : net_bytes.

(** ** Results of reading

    A value, the end of the input, a memory access outside a buffer, or the
    exhaustion of the fuel of a definition. *)

Inductive rd (A : Type) := Rd (a : A) | RdEof | RdFault | RdFuel.
Arguments Rd {A}. Arguments RdEof {A}. Arguments RdFault {A}. Arguments RdFuel {A}.

Definition rd_bind {A B} (r : rd A) (f : A → rd B) : rd B :=
  match r with Rd a => f a | RdEof => RdEof | RdFault => RdFault | RdFuel => RdFuel end.

Lemma rd_bind_Rd {A B} (r : rd A) (f : A → rd B) b :
  rd_bind r f = Rd b → ∃ a, r = Rd a ∧ f a = Rd b.
Proof. destruct r; [by eauto|done..]. Qed.

Ltac rd_inv H :=
  match type of H with
  | rd_bind _ _ = Rd _ =>
      let a := fresh "a" in let E := fresh "E" in
      apply rd_bind_Rd in H as (a & E & H); cbv beta zeta in H; rd_inv H
  | Rd _ = Rd _ => injection H as <-
  | match ?x with _ => _ end = Rd _ => destruct x; cbv zeta in H; rd_inv H
  | _ => try discriminate H
  end.

Notation "'let!' ' p := e 'in' f" := (rd_bind e (fun x => match x with p => f end))
  (at level 10, p pattern, e at level 150, f at level 200, only parsing) : net_scope.

(** [GETCHAR], and the [n] bytes at a pointer that is moved behind them. *)
Definition getchar (inp : bytes) : rd (Z * bytes) :=
  match inp with c :: r => Rd (c, r) | [] => RdFault end.
Definition getbytes (n : Z) (inp : bytes) : rd (bytes * bytes) :=
  if (n <=? zlen inp)%Z then Rd (ztake n inp, zdrop n inp) else RdFault.

Lemma zlen_pos_cons (l : bytes) : (0 < zlen l)%Z → ∃ x r, l = x :: r.
Proof. destruct l; [done|eauto]. Qed.

Lemma getbytes_app l r : getbytes (zlen l) (l ++ r) = Rd (l, r).
Proof.
  unfold getbytes. rewrite zlen_app. pose proof (zlen_nonneg r).
  destruct (Z.leb_spec (zlen l) (zlen l + zlen r)); [|lia].
  rewrite ztake_app_le, ztake_all, zdrop_app_ge, Z.sub_diag, zdrop_neg by lia. done.
Qed.

Lemma getbytes_ok n inp : (n <= zlen inp)%Z → getbytes n inp = Rd (ztake n inp, zdrop n inp).
Proof. intros Hn. unfold getbytes. apply Z.leb_le in Hn. by rewrite Hn. Qed.

Create Rewrite HintDb zlen.
#[export] Hint Rewrite @zlen_nil @zlen_cons @zlen_app @zlen_ztake @zlen_zdrop
  : zlen.

Ltac zlen := autorewrite with zlen in *.
