(* ===== verification/Mbuf.v ===== *)
(** * Network buffers ([uipc_mbuf.c], [rtsock.c])

    An [mbuf] is a header that designates [m_len] bytes of a cluster,
    starting [m_off] bytes after the cluster's first byte.  Chains linked by
    [m_next] are lists.  The cluster pool ([netBufLib]) is not part of the
    sources: it is the class [NetBuf], whose laws ([NetBufLaws]) state what
    the code relies on. *)
From Stdlib Require Import ZArith Lia List Bool.
From stdpp Require Import base tactics list numbers option.
From S2P Require Import Prelude.

Local Open Scope Z_scope.

(** ** Data *)

(** The bits of [m_flags] the code tests; the remaining bits are kept as
    they are. *)
Record mflags := MkFlags {
  M_PKTHDR : bool;
  M_EOR : bool;
  M_EXT : bool;
  M_OTHER : Z
}.

Record pkthdr := MkPkthdr { ph_len : Z; ph_rcvif : Z }.

Record mbuf := MkMbuf {
  m_type : Z;
  m_flags : mflags;
  m_pkthdr : pkthdr;
  m_extBuf : Z;      (** address of the cluster *)
  m_ext : bytes;     (** contents of the cluster *)
  m_off : Z;         (** [m_data - m_extBuf] *)
  m_len : Z
}.

(** A chain linked by [m_next]; the null pointer is the empty list. *)
Abbreviation chain := (list mbuf).

Definition m_extSize (m : mbuf) : Z := zlen (m_ext m).
Definition m_data (m : mbuf) : Z := m_extBuf m + m_off m.

(** The bytes an mbuf designates. *)
Definition mdata (m : mbuf) : bytes := ztake (m_len m) (zdrop (m_off m) (m_ext m)).
Definition chain_bytes (c : chain) : bytes := concat (map mdata c).
Definition chain_len (c : chain) : Z := foldr (λ m acc, m_len m + acc) 0 c.

Definition mbuf_wf (m : mbuf) : Prop :=
  0 <= m_off m ∧ 0 <= m_len m ∧ m_off m + m_len m <= m_extSize m.
Abbreviation chain_wf c := (Forall mbuf_wf c).

(** Field updates. *)
Definition set_type t m := MkMbuf t (m_flags m) (m_pkthdr m) (m_extBuf m) (m_ext m) (m_off m) (m_len m).
Definition set_flags f m := MkMbuf (m_type m) f (m_pkthdr m) (m_extBuf m) (m_ext m) (m_off m) (m_len m).
Definition set_pkthdr h m := MkMbuf (m_type m) (m_flags m) h (m_extBuf m) (m_ext m) (m_off m) (m_len m).
Definition set_ext e m := MkMbuf (m_type m) (m_flags m) (m_pkthdr m) (m_extBuf m) e (m_off m) (m_len m).
Definition set_off o m := MkMbuf (m_type m) (m_flags m) (m_pkthdr m) (m_extBuf m) (m_ext m) o (m_len m).
Definition set_len l m := MkMbuf (m_type m) (m_flags m) (m_pkthdr m) (m_extBuf m) (m_ext m) (m_off m) l.

Definition set_M_PKTHDR b f := MkFlags b (M_EOR f) (M_EXT f) (M_OTHER f).
Definition set_M_EOR b f := MkFlags (M_PKTHDR f) b (M_EXT f) (M_OTHER f).
Definition has_pkthdr (m : mbuf) : bool := M_PKTHDR (m_flags m).
Definition set_phlen l m := set_pkthdr (MkPkthdr l (ph_rcvif (m_pkthdr m))) m.

(** [bcopy (src, mtod (m) + pos, zlen src)]: overwrite cluster bytes at
    offset [pos] from the start of the cluster. *)
Definition splice (pos : Z) (src buf : bytes) : bytes :=
  ztake pos buf ++ src ++ zdrop (pos + zlen src) buf.

(** ** Chains *)

(** [m_cat]: link chain [n] after the last mbuf of [m]. *)
Fixpoint m_cat (m n : chain) : chain :=
  match m with
  | [] => []
  | [x] => match n with [] => [x] | _ => x :: n end
  | x :: r => x :: m_cat r n
  end.

(** Trim-from-head loop of [m_adj]; also returns the count left to trim. *)
Fixpoint adj_head (c : chain) (len : Z) : chain * Z :=
  match c with
  | [] => ([], len)
  | m :: r =>
      if 0 <? len then
        if m_len m <=? len then
          let '(r', len') := adj_head r (len - m_len m) in (set_len 0 m :: r', len')
        else (set_off (m_off m + len) (set_len (m_len m - len) m) :: r, 0)
      else (c, len)
  end.

(** "Correct length for chain is count": truncate after [count] bytes and
    toss the data of the remaining mbufs. *)
Fixpoint adj_trunc (c : chain) (count : Z) : chain :=
  match c with
  | [] => []
  | m :: r =>
      if count <=? m_len m then set_len count m :: map (set_len 0) r
      else m :: adj_trunc r (count - m_len m)
  end.

Fixpoint map_last {A} (f : A → A) (l : list A) : list A :=
  match l with
  | [] => []
  | [x] => [f x]
  | x :: r => x :: map_last f r
  end.

Definition map_head {A} (f : A → A) (l : list A) : list A :=
  match l with [] => [] | x :: r => f x :: r end.

(** [m_adj]: trim [req_len] bytes from the head, or [- req_len] bytes from
    the tail when it is negative. *)
Definition m_adj (mp : chain) (req_len : Z) : chain :=
  match mp with
  | [] => []
  | m0 :: _ =>
      if 0 <=? req_len then
        let '(c, len) := adj_head mp req_len in
        if has_pkthdr m0
        then map_head (λ m, set_phlen (ph_len (m_pkthdr m) - (req_len - len)) m) c
        else c
      else
        let len := - req_len in
        let mlast := List.last mp m0 in
        if len <=? m_len mlast then
          let c := map_last (λ m, set_len (m_len m - len) m) mp in
          if has_pkthdr m0
          then map_head (λ m, set_phlen (ph_len (m_pkthdr m) - len) m) c
          else c
        else
          let count := Z.max 0 (chain_len mp - len) in
          let c := if has_pkthdr m0 then map_head (set_phlen count) mp else mp in
          adj_trunc c count
  end.

(** [m_copydata] (the copy in [rtsock.c]): [None] is the call of [panic]. *)
Fixpoint copydata_loop (c : chain) (off len : Z) : option bytes :=
  if 0 <? len then
    match c with
    | [] => None
    | m :: r =>
        let count := Z.min (m_len m - off) len in
        rest ← copydata_loop r 0 (len - count);
        Some (ztake count (zdrop off (mdata m)) ++ rest)
    end
  else Some [].

Fixpoint copydata_skip (c : chain) (off : Z) : option (chain * Z) :=
  if 0 <? off then
    match c with
    | [] => None
    | m :: r => if off <? m_len m then Some (c, off) else copydata_skip r (off - m_len m)
    end
  else Some (c, off).

Definition m_copydata (c : chain) (off len : Z) : option bytes :=
  if (off <? 0) || (len <? 0) then None
  else '(c', off') ← copydata_skip c off; copydata_loop c' off' len.

(** ** Allocation *)

(** The pool of [netBufLib], which is not part of the sources. *)
Class NetBuf (P : Type) := {
  mBlkGet : P → Z → Z → option mbuf * P;            (* pool, canWait, type *)
  mClGet : P → mbuf → Z → Z → bool → option mbuf * P; (* pool, mBlk, size, canWait, bestFit *)
  mBlkFree : P → mbuf → P;                          (* mBlk and cluster back to the pool *)
  pool_live : P → Z                                 (* mBlks handed out and not freed *)
}.

(** What the code relies on: an mBlk of the requested type without record
    or header flag; a cluster of at least the requested size (when the best
    fit is asked for) whose first byte the mBlk designates; and a pool that
    counts what it has handed out. *)
Class NetBufLaws P `{NetBuf P} := {
  mBlkGet_ok : ∀ p w t m p', mBlkGet p w t = (Some m, p') →
    m_type m = t ∧ has_pkthdr m = false ∧ M_EOR (m_flags m) = false ∧
    pool_live p' = pool_live p + 1;
  mBlkGet_none : ∀ p w t p', mBlkGet p w t = (None, p') → pool_live p' = pool_live p;
  mClGet_ok : ∀ p m s w b m' p', mClGet p m s w b = (Some m', p') →
    m_type m' = m_type m ∧ has_pkthdr m' = has_pkthdr m ∧
    M_EOR (m_flags m') = M_EOR (m_flags m) ∧
    m_off m' = 0 ∧ 0 < m_extSize m' ∧ (b = true → s <= m_extSize m') ∧
    pool_live p' = pool_live p;
  mClGet_none : ∀ p m s w b p', mClGet p m s w b = (None, p') →
    pool_live p' = pool_live p;
  mBlkFree_live : ∀ p m, pool_live (mBlkFree p m) = pool_live p - 1
}.

Section Alloc.
Context {P : Type} `{NetBuf P}.

(** [m_freem] (a macro over the pool's chain free). *)
Definition m_freem (p : P) (c : chain) : P := foldl mBlkFree p c.

Definition mBufClGet (p : P) (canWait type bufSize : Z) (bestFit : bool)
  : option mbuf * P :=
  match mBlkGet p canWait type with
  | (None, p) => (None, p)
  | (Some m, p) =>
      match mClGet p m bufSize canWait bestFit with
      | (Some m', p) => (Some m', p)
      | (None, p) => (None, mBlkFree p m)
      end
  end.

Definition mHdrClGet (p : P) (canWait type bufSize : Z) (bestFit : bool)
  : option mbuf * P :=
  match mBlkGet p canWait type with
  | (None, p) => (None, p)
  | (Some m, p) =>
      let m := set_flags (set_M_PKTHDR true (m_flags m)) m in
      match mClGet p m bufSize canWait bestFit with
      | (Some m', p) => (Some m', p)
      | (None, p) => (None, mBlkFree p m)
      end
  end.

(** [m_getclr]: the same with a zeroed cluster. *)
Definition m_getclr (p : P) (canWait type bufSize : Z) (bestFit : bool)
  : option mbuf * P :=
  match mBufClGet p canWait type bufSize bestFit with
  | (Some m, p) => (Some (set_ext (replicate (length (m_ext m)) 0) m), p)
  | (None, p) => (None, p)
  end.

(** [m_prepend]: [mh_align extSize len] is the offset the header macro
    [MH_ALIGN] moves [m_data] by. *)
Definition m_prepend (mh_align : Z → Z → Z) (p : P) (c : chain) (len how : Z)
  : option chain * P :=
  match c with
  | [] => (None, p)
  | m :: r =>
      match mBufClGet p how (m_type m) len true with
      | (None, p) => (None, m_freem p c)
      | (Some mn, p) =>
          let '(mn, m) :=
            if has_pkthdr m
            then (set_flags (m_flags m) (set_pkthdr (m_pkthdr m) mn),
                  set_flags (set_M_PKTHDR false (m_flags m)) m)
            else (mn, m) in
          let mn :=
            if len <? m_extSize mn
            then set_off (m_off mn + mh_align (m_extSize mn) len) mn else mn in
          (Some (set_len len mn :: m :: r), p)
      end
  end.

(** The copy loop of [m_pullup]: [m] receives bytes from the chain [n].
    [None] means the fuel ran out. *)
Fixpoint pullup_loop (fuel : nat) (max_protohdr : Z) (m : mbuf) (n : chain)
    (len space : Z) (p : P) : option (mbuf * chain * Z * P) :=
  match fuel with
  | O => None
  | S fuel =>
      match n with
      | [] => None
      | n0 :: nr =>
          let count := Z.min (Z.min (Z.max len max_protohdr) space) (m_len n0) in
          let m := set_len (m_len m + count)
            (set_ext (splice (m_off m + m_len m) (ztake count (mdata n0)) (m_ext m)) m) in
          let len := len - count in
          let space := space - count in
          let n0 := set_len (m_len n0 - count) n0 in
          let '(n, p) :=
            if m_len n0 =? 0 then (nr, mBlkFree p n0)
            else (set_off (m_off n0 + count) n0 :: nr, p) in
          if (0 <? len) && negb (bool_decide (n = []))
          then pullup_loop fuel max_protohdr m n len space p
          else Some (m, n, len, p)
      end
  end.

(** The part of [m_pullup] from the copy loop on: [do ... while], then
    either the chain [m -> n] or the [bad] exit. *)
Definition pullup_copy (max_protohdr : Z) (m : mbuf) (n : chain) (len : Z)
    (p : P) : option (option chain * P) :=
  let space := m_extSize m - (m_off m + m_len m) in
  '(m, n, len, p) ← pullup_loop (length n) max_protohdr m n len space p;
  Some (if 0 <? len then (None, m_freem (mBlkFree p m) n) else (Some (m :: n), p)).

(** [m_pullup]: make the first [len] bytes of the chain contiguous.  The
    outer [option] is [None] only when the loop does not end. *)
Definition m_pullup (M_DONTWAIT max_protohdr : Z) (p : P) (n : chain) (len : Z)
  : option (option chain * P) :=
  match n with
  | [] => None
  | n0 :: nr =>
      if (m_off n0 + len <? m_extSize n0) && negb (bool_decide (nr = [])) then
        if len <=? m_len n0 then Some (Some n, p)
        else pullup_copy max_protohdr n0 nr (len - m_len n0) p
      else
        match mBufClGet p M_DONTWAIT (m_type n0) len true with
        | (None, p) => Some (None, m_freem p n)
        | (Some m, p) =>
            let m := set_len 0 m in
            let '(m, n0) :=
              if has_pkthdr n0
              then (set_flags (m_flags n0) (set_pkthdr (m_pkthdr n0) m),
                    set_flags (set_M_PKTHDR false (m_flags n0)) n0)
              else (m, n0) in
            pullup_copy max_protohdr m (n0 :: nr) len p
        end
  end.
End Alloc.

(** ** Lemmas on mbufs and chains *)

Lemma mdata_zlen m : mbuf_wf m → zlen (mdata m) = m_len m.
Proof.
  intros (? & ? & ?). unfold mdata, m_extSize in *.
  rewrite zlen_ztake, zlen_zdrop. lia.
Qed.

Lemma chain_bytes_cons m c : chain_bytes (m :: c) = mdata m ++ chain_bytes c.
Proof. done. Qed.

Lemma chain_bytes_app c d : chain_bytes (c ++ d) = chain_bytes c ++ chain_bytes d.
Proof. unfold chain_bytes. by rewrite map_app, concat_app. Qed.

Lemma chain_len_nil : chain_len [] = 0.
Proof. done. Qed.

Lemma chain_len_cons m c : chain_len (m :: c) = m_len m + chain_len c.
Proof. done. Qed.

Lemma chain_len_app c d : chain_len (c ++ d) = chain_len c + chain_len d.
Proof. unfold chain_len. induction c; simpl in *; lia. Qed.

Lemma chain_bytes_zlen c : chain_wf c → zlen (chain_bytes c) = chain_len c.
Proof.
  induction 1 as [|m c Hm _ IH]; [done|].
  rewrite chain_bytes_cons, zlen_app, mdata_zlen, IH by done. done.
Qed.

Lemma chain_len_nonneg c : chain_wf c → 0 <= chain_len c.
Proof. intros. rewrite <- chain_bytes_zlen by done. apply zlen_nonneg. Qed.

Lemma mdata_set_phlen l m : mdata (set_phlen l m) = mdata m.
Proof. done. Qed.

Lemma chain_bytes_phlen f c :
  chain_bytes (map_head (λ m, set_phlen (f m) m) c) = chain_bytes c.
Proof. by destruct c. Qed.

Lemma chain_wf_phlen f c :
  chain_wf c → chain_wf (map_head (λ m, set_phlen (f m) m) c).
Proof. destruct 1; constructor; done. Qed.

Lemma mdata_set_len0 m : mdata (set_len 0 m) = [].
Proof. unfold mdata. simpl. by rewrite ztake_neg by lia. Qed.

Lemma mdata_set_len n m :
  0 <= n <= m_len m → mdata (set_len n m) = ztake n (mdata m).
Proof. intros. unfold mdata. simpl. rewrite ztake_ztake. f_equal. lia. Qed.

Lemma mdata_advance n m :
  mbuf_wf m → 0 <= n <= m_len m →
  mdata (set_off (m_off m + n) (set_len (m_len m - n) m)) = zdrop n (mdata m).
Proof.
  intros (? & ? & ?) ?. unfold mdata, m_extSize, zlen in *. simpl.
  unfold ztake, zdrop. rewrite skipn_firstn_comm, drop_drop.
  f_equal; [lia | f_equal; lia].
Qed.

Lemma chain_bytes_zeroed c : chain_bytes (map (set_len 0) c) = [].
Proof. induction c; [done|]. simpl. rewrite chain_bytes_cons, IHc. by rewrite mdata_set_len0. Qed.

Lemma mbuf_wf_set_len n m : mbuf_wf m → 0 <= n <= m_len m → mbuf_wf (set_len n m).
Proof. unfold mbuf_wf, m_extSize. simpl. lia. Qed.

Lemma mbuf_wf_advance n m :
  mbuf_wf m → 0 <= n <= m_len m →
  mbuf_wf (set_off (m_off m + n) (set_len (m_len m - n) m)).
Proof. unfold mbuf_wf, m_extSize. simpl. lia. Qed.

Lemma chain_wf_zeroed c : chain_wf c → chain_wf (map (set_len 0) c).
Proof.
  induction 1 as [|m c Hm]; constructor; [|done].
  apply mbuf_wf_set_len; [done|]. destruct Hm. lia.
Qed.

#[export] Hint Resolve mbuf_wf_set_len mbuf_wf_advance chain_wf_zeroed
  chain_wf_phlen chain_len_nonneg : net.

Lemma m_cat_app m n : m ≠ [] → m_cat m n = m ++ n.
Proof.
  induction m as [|x [|y m] IH]; intros; [done | by destruct n |].
  change (x :: m_cat (y :: m) n = (x :: y :: m) ++ n).
  rewrite IH by done. done.
Qed.

Lemma adj_head_spec c : ∀ len, chain_wf c → 0 <= len →
  let '(c', rest) := adj_head c len in
  chain_wf c' ∧ chain_bytes c' = zdrop len (chain_bytes c) ∧
  rest = Z.max 0 (len - chain_len c) ∧ map m_flags c' = map m_flags c ∧
  map m_pkthdr c' = map m_pkthdr c.
Proof.
  induction c as [|m c IH]; intros len Hwf Hlen; simpl.
  { repeat split; [done| |lia]. unfold zdrop, chain_bytes. simpl. by rewrite drop_nil. }
  inversion_clear Hwf as [|?? Hm Hc].
  pose proof (mdata_zlen m Hm) as Hz. pose proof (chain_len_nonneg c Hc).
  destruct (Z.ltb_spec 0 len).
  2:{ assert (len = 0) as -> by lia. simpl. repeat split; auto with net.
      destruct Hm. lia. }
  destruct (Z.leb_spec (m_len m) len).
  - specialize (IH (len - m_len m) Hc ltac:(lia)).
    destruct (adj_head c (len - m_len m)) as [c' rest].
    destruct IH as (Hwf' & Hb & Hr & Hf & Hp). repeat split.
    + constructor; [|done]. apply mbuf_wf_set_len; [done|]. destruct Hm; lia.
    + rewrite chain_bytes_cons, mdata_set_len0, Hb, chain_bytes_cons.
      rewrite zdrop_app_ge by lia. simpl. f_equal. lia.
    + lia.
    + simpl. by f_equal.
    + simpl. by f_equal.
  - repeat split; try done.
    + constructor; [|done]. apply mbuf_wf_advance; [done|lia].
    + rewrite !chain_bytes_cons, mdata_advance by (done || lia).
      by rewrite zdrop_app_le by lia.
    + lia.
Qed.

Lemma adj_trunc_spec c : ∀ count, chain_wf c → 0 <= count →
  chain_wf (adj_trunc c count) ∧
  chain_bytes (adj_trunc c count) = ztake count (chain_bytes c) ∧
  map m_flags (adj_trunc c count) = map m_flags c ∧
  map m_pkthdr (adj_trunc c count) = map m_pkthdr c.
Proof.
  induction c as [|m c IH]; intros count Hwf Hc0; simpl.
  { repeat split; try done. unfold ztake, chain_bytes. simpl. by rewrite take_nil. }
  inversion_clear Hwf as [|?? Hm Hc]. pose proof (mdata_zlen m Hm) as Hz.
  destruct (Z.leb_spec count (m_len m)).
  - repeat split.
    + constructor; [apply mbuf_wf_set_len; [done|lia] | by apply chain_wf_zeroed].
    + rewrite chain_bytes_cons, chain_bytes_zeroed, app_nil_r, chain_bytes_cons.
      rewrite ztake_app_le by lia. by apply mdata_set_len.
    + simpl. f_equal. rewrite map_map. done.
    + simpl. f_equal. rewrite map_map. done.
  - destruct (IH (count - m_len m) Hc ltac:(lia)) as (? & Hb & Hf & Hp). repeat split.
    + by constructor.
    + rewrite !chain_bytes_cons, Hb, ztake_app_ge by lia. do 2 f_equal. lia.
    + simpl. by f_equal.
    + simpl. by f_equal.
Qed.

Lemma map_last_app {A} (f : A → A) l x : map_last f (l ++ [x]) = l ++ [f x].
Proof.
  induction l as [|y l IH]; [done|].
  simpl. rewrite IH. by destruct l.
Qed.

Lemma last_snoc {A} (l : list A) x d : List.last (l ++ [x]) d = x.
Proof. induction l as [|y l IH]; [done|]. simpl. rewrite IH. by destruct l. Qed.

(** The trim-from-tail case that only touches the last mbuf. *)
Lemma adj_last_spec c m0 len :
  c ≠ [] → chain_wf c → 0 <= len <= m_len (List.last c m0) →
  let c' := map_last (λ m, set_len (m_len m - len) m) c in
  chain_wf c' ∧ chain_bytes c' = ztake (chain_len c - len) (chain_bytes c) ∧
  map m_flags c' = map m_flags c ∧ map m_pkthdr c' = map m_pkthdr c.
Proof.
  intros Hne Hwf Hlen. destruct (List.exists_last Hne) as (l & x & ->).
  rewrite last_snoc in Hlen. cbn zeta. rewrite map_last_app.
  apply Forall_app in Hwf as [Hl Hx]. inversion_clear Hx as [|?? Hx0 _]. rename Hx0 into Hx.
  pose proof (chain_bytes_zlen l Hl) as Hzl. repeat split.
  - apply Forall_app_2; [done|]. constructor; [|done].
    apply mbuf_wf_set_len; [done|lia].
  - rewrite !chain_bytes_app, chain_len_app. change (chain_len [x]) with (m_len x + 0).
    rewrite ztake_app_ge by lia. rewrite !chain_bytes_cons, mdata_set_len by lia.
    change (chain_bytes []) with (@nil Z). rewrite !app_nil_r.
    do 2 f_equal. lia.
  - rewrite !map_app. done.
  - rewrite !map_app. done.
Qed.

(** ** [m_adj] *)

(** The packet length recorded in the header of the chain, if it has one,
    is the length of the chain. *)
Definition hdr_consistent (c : chain) : Prop :=
  match c with
  | [] => True
  | m :: _ => has_pkthdr m = true → ph_len (m_pkthdr m) = chain_len c
  end.

Lemma chain_len_zlen c : chain_wf c → chain_len c = zlen (chain_bytes c).
Proof. intros. by rewrite chain_bytes_zlen. Qed.

Lemma chain_len_phlen f c :
  chain_len (map_head (λ m, set_phlen (f m) m) c) = chain_len c.
Proof. by destruct c. Qed.

Lemma hdr_consistent_head m0 r c f n :
  map m_flags c = map m_flags (m0 :: r) →
  map m_pkthdr c = map m_pkthdr (m0 :: r) →
  (∀ m, m_pkthdr m = m_pkthdr m0 → f m = n) →
  hdr_consistent (m0 :: r) → (ph_len (m_pkthdr m0) = chain_len (m0 :: r) → n = chain_len c) →
  hdr_consistent (if has_pkthdr m0 then map_head (λ m, set_phlen (f m) m) c else c).
Proof.
  intros Hf Hp Hfn Hcons Hn. destruct c as [|m c]; [done|].
  injection Hf as Hf0 _. injection Hp as Hp0 _. simpl in Hcons.
  destruct (has_pkthdr m0) eqn:E; simpl.
  - intros _. rewrite Hfn by done. by apply Hn, Hcons.
  - unfold has_pkthdr in *. rewrite Hf0, E. done.
Qed.

Lemma chain_bytes_if (b : bool) c f :
  chain_bytes (if b then map_head (λ m, set_phlen (f m) m) c else c) = chain_bytes c.
Proof. destruct b; [apply chain_bytes_phlen | done]. Qed.

Lemma chain_wf_if (b : bool) c f :
  chain_wf c → chain_wf (if b then map_head (λ m, set_phlen (f m) m) c else c).
Proof. destruct b; auto with net. Qed.

Lemma adj_trunc_phlen (b : bool) n c count :
  adj_trunc (if b then map_head (set_phlen n) c else c) count =
  (if b then map_head (set_phlen n) (adj_trunc c count) else adj_trunc c count).
Proof. destruct b, c as [|m c]; try done. simpl. by case_match. Qed.

(** C2: [m_adj] removes exactly the requested bytes from one end. *)
Theorem m_adj_spec (mp : chain) (req_len : Z) :
  chain_wf mp →
  chain_wf (m_adj mp req_len) ∧
  chain_bytes (m_adj mp req_len) =
    (if 0 <=? req_len then zdrop req_len (chain_bytes mp)
     else ztake (chain_len mp + req_len) (chain_bytes mp)) ∧
  (hdr_consistent mp → hdr_consistent (m_adj mp req_len)).
Proof.
  intros Hwf. destruct mp as [|m0 r].
  { repeat split; [done|]. unfold ztake, zdrop, chain_bytes. simpl.
    by rewrite take_nil, drop_nil; case_match. }
  unfold m_adj. destruct (Z.leb_spec 0 req_len).
  - pose proof (adj_head_spec (m0 :: r) req_len Hwf ltac:(lia)) as Hs.
    destruct (adj_head (m0 :: r) req_len) as [c len].
    destruct Hs as (Hc & Hb & Hl & Hf & Hp).
    pose proof (chain_len_nonneg _ Hwf). repeat split.
    + by apply chain_wf_if.
    + by rewrite chain_bytes_if.
    + intros Hcons.
      apply (hdr_consistent_head m0 r c _ (ph_len (m_pkthdr m0) - (req_len - len)));
        [done|done|by intros ? -> |done|].
      intros ->. rewrite (chain_len_zlen c Hc), Hb, zlen_zdrop.
      rewrite chain_bytes_zlen by done. lia.
  - destruct (Z.leb_spec (- req_len) (m_len (List.last (m0 :: r) m0))).
    + destruct (adj_last_spec (m0 :: r) m0 (- req_len)) as (Hc & Hb & Hf & Hp);
        [done|done|lia|]. repeat split.
      * by apply chain_wf_if.
      * rewrite chain_bytes_if, Hb. f_equal. lia.
      * intros Hcons.
        apply (hdr_consistent_head m0 r _ _ (ph_len (m_pkthdr m0) - - req_len));
          [done|done|by intros ? -> |done|].
        intros ->. rewrite (chain_len_zlen _ Hc), Hb, zlen_ztake.
        rewrite chain_bytes_zlen by done.
        assert (m_len (List.last (m0 :: r) m0) <= chain_len (m0 :: r)); [|lia].
        assert (m0 :: r ≠ []) as Hne by done.
        destruct (List.exists_last Hne) as (l & x & Hlx).
        rewrite Hlx, last_snoc, chain_len_app in *.
        apply Forall_app in Hwf as [Hl _].
        pose proof (chain_len_nonneg _ Hl). unfold chain_len at 2. simpl. lia.
    + rewrite adj_trunc_phlen.
      destruct (adj_trunc_spec (m0 :: r) (Z.max 0 (chain_len (m0 :: r) - - req_len)))
        as (Hc & Hb & Hf & Hp); [done|lia|].
      pose proof (chain_len_nonneg _ Hwf). repeat split.
      * by apply (chain_wf_if _ _ (λ _, _)).
      * rewrite (chain_bytes_if _ _ (λ _, _)), Hb.
        destruct (Z.le_gt_cases 0 (chain_len (m0 :: r) + req_len)).
        -- f_equal. lia.
        -- rewrite !ztake_neg by lia. done.
      * intros Hcons.
        apply (hdr_consistent_head m0 r _ (λ _, _) (Z.max 0 (chain_len (m0 :: r) - - req_len)));
          [done|done|done|done|].
        intros _. rewrite (chain_len_zlen _ Hc), Hb, zlen_ztake.
        rewrite chain_bytes_zlen by done. lia.
Qed.

(** ** [m_copydata] *)

Lemma copydata_skip_spec c : ∀ off, chain_wf c → 0 <= off →
  match copydata_skip c off with
  | None => chain_len c < off
  | Some (c', off') =>
      chain_wf c' ∧ 0 <= off' ∧ off <= chain_len c ∧
      (off' = 0 ∨ match c' with m :: _ => off' < m_len m | [] => False end) ∧
      chain_len c' - off' = chain_len c - off ∧
      zdrop off' (chain_bytes c') = zdrop off (chain_bytes c)
  end.
Proof.
  induction c as [|m c IH]; intros off Hwf Hoff; simpl.
  { destruct (Z.ltb_spec 0 off); simpl; [done|].
    assert (off = 0) as -> by lia. split_and!; try done. by left. }
  pose proof Hwf as Hwf0. inversion_clear Hwf as [|?? Hm Hc].
  pose proof (mdata_zlen m Hm) as Hz. pose proof (chain_len_nonneg c Hc).
  pose proof (chain_len_nonneg _ Hwf0). rewrite chain_len_cons in *.
  destruct (Z.ltb_spec 0 off).
  2:{ split_and!; try done; try lia. }
  destruct (Z.ltb_spec off (m_len m)).
  - split_and!; try done; try lia; rewrite ?chain_len_cons; lia.
  - specialize (IH (off - m_len m) Hc ltac:(destruct Hm; lia)).
    destruct (copydata_skip c (off - m_len m)) as [[c' off']|]; [|lia].
    destruct IH as (? & ? & ? & ? & ? & Hd). split_and!; try done; try lia.
    rewrite Hd, chain_bytes_cons, zdrop_app_ge by lia. f_equal. lia.
Qed.

Lemma copydata_loop_spec c : ∀ off len, chain_wf c → 0 <= off →
  (off = 0 ∨ match c with m :: _ => off < m_len m | [] => False end) →
  copydata_loop c off len =
  if len <=? Z.max 0 (chain_len c - off)
  then Some (ztake len (zdrop off (chain_bytes c))) else None.
Proof.
  induction c as [|m c IH]; intros off len Hwf Hoff Hin; cbn [copydata_loop].
  { destruct Hin as [->|[]]. rewrite chain_len_nil. change (Z.max 0 (0 - 0)) with 0.
    destruct (Z.ltb_spec 0 len), (Z.leb_spec len 0); try lia; [done|].
    by rewrite ztake_neg by lia. }
  inversion_clear Hwf as [|?? Hm Hc]. pose proof (mdata_zlen m Hm) as Hz.
  pose proof (chain_len_nonneg c Hc). destruct Hm as (Ho & Hl & _).
  rewrite chain_len_cons.
  destruct (Z.ltb_spec 0 len).
  2:{ destruct (Z.leb_spec len (Z.max 0 (m_len m + chain_len c - off))); [|lia].
      by rewrite ztake_neg by lia. }
  rewrite IH by (done || lia || by left). rewrite chain_bytes_cons.
  rewrite (zdrop_neg 0) by lia.
  destruct (Z.leb_spec (len - Z.min (m_len m - off) len) (Z.max 0 (chain_len c - 0))) as [Hle|Hle];
    destruct (Z.leb_spec len (Z.max 0 (m_len m + chain_len c - off))); try lia; simpl; [|done].
  f_equal. rewrite zdrop_app_le by lia.
  destruct (Z.le_gt_cases len (m_len m - off)).
  - rewrite Z.min_r by lia. rewrite (ztake_neg (len - len)), app_nil_r by lia.
    rewrite ztake_app_le; [done|]. rewrite zlen_zdrop. lia.
  - rewrite Z.min_l by lia. rewrite ztake_app_ge by (rewrite zlen_zdrop; lia).
    rewrite zlen_zdrop, (ztake_all (m_len m - off)) by (rewrite zlen_zdrop; lia).
    do 2 f_equal. lia.
Qed.

(** [m_copydata] returns the requested slice of the chain's data, and
    panics exactly when the slice does not lie within the chain. *)
Theorem m_copydata_spec (c : chain) (off len : Z) :
  chain_wf c →
  m_copydata c off len =
  if (0 <=? off) && (0 <=? len) && (off + len <=? chain_len c)
  then Some (ztake len (zdrop off (chain_bytes c))) else None.
Proof.
  intros Hwf. unfold m_copydata.
  destruct (Z.ltb_spec off 0), (Z.leb_spec 0 off); try lia; [done|].
  destruct (Z.ltb_spec len 0), (Z.leb_spec 0 len); try lia; [done|].
  pose proof (copydata_skip_spec c off Hwf ltac:(lia)) as Hs. simpl.
  destruct (copydata_skip c off) as [[c' off']|]; simpl.
  - destruct Hs as (Hc' & ? & ? & Hin & ? & Hd).
    rewrite copydata_loop_spec by done. rewrite Hd.
    destruct (Z.leb_spec len (Z.max 0 (chain_len c' - off'))),
      (Z.leb_spec (off + len) (chain_len c)); try lia; done.
  - destruct (Z.leb_spec (off + len) (chain_len c)); [|done].
    lia.
Qed.

(** ** [m_pullup] *)

Lemma zlen_splice pos src buf :
  0 <= pos → pos + zlen src <= zlen buf → zlen (splice pos src buf) = zlen buf.
Proof.
  intros. pose proof (zlen_nonneg src). unfold splice.
  rewrite !zlen_app, zlen_ztake, zlen_zdrop. lia.
Qed.

(** Appending [src] behind the data of an mbuf that has room for it. *)
Definition append_data (src : bytes) (m : mbuf) : mbuf :=
  set_len (m_len m + zlen src)
    (set_ext (splice (m_off m + m_len m) src (m_ext m)) m).

Lemma append_data_spec src m :
  mbuf_wf m → m_off m + m_len m + zlen src <= m_extSize m →
  mbuf_wf (append_data src m) ∧ mdata (append_data src m) = mdata m ++ src ∧
  m_extSize (append_data src m) = m_extSize m.
Proof.
  intros (Ho & Hl & He) Hroom. pose proof (zlen_nonneg src).
  assert (m_extSize (append_data src m) = m_extSize m) as Hs.
  { unfold m_extSize, append_data. simpl. apply zlen_splice; [lia | done]. }
  split_and!; [| |done].
  - unfold mbuf_wf. rewrite Hs. simpl. lia.
  - unfold mdata, append_data, splice. simpl. unfold m_extSize in *.
    rewrite zdrop_app_le by (rewrite zlen_ztake; lia).
    rewrite ztake_app_ge by (rewrite zlen_zdrop, zlen_ztake; lia).
    rewrite zlen_zdrop, zlen_ztake, ztake_app_ge by lia.
    rewrite (ztake_neg _ (zdrop _ _)), app_nil_r by lia. f_equal.
    unfold ztake, zdrop. rewrite firstn_skipn_comm. f_equal. f_equal. lia.
Qed.

Section PoolFacts.
Context {P : Type} `{NetBufLaws P}.

Lemma m_freem_live c : ∀ p : P,
  pool_live (m_freem p c) = pool_live p - Z.of_nat (length c).
Proof.
  unfold m_freem. induction c as [|m c IH]; intros p; simpl; [lia|].
  rewrite IH, mBlkFree_live. lia.
Qed.

Lemma mBufClGet_spec (p : P) w t s b :
  match mBufClGet p w t s b with
  | (Some m, p') =>
      m_type m = t ∧ has_pkthdr m = false ∧ M_EOR (m_flags m) = false ∧
      m_off m = 0 ∧ 0 < m_extSize m ∧ (b = true → s <= m_extSize m) ∧
      pool_live p' = pool_live p + 1
  | (None, p') => pool_live p' = pool_live p
  end.
Proof.
  unfold mBufClGet. destruct (mBlkGet p w t) as [[m|] p1] eqn:E1.
  - apply mBlkGet_ok in E1 as (Ht & Hh & He & Hl).
    destruct (mClGet p1 m s w b) as [[m'|] p2] eqn:E2.
    + apply mClGet_ok in E2 as (? & ? & ? & ? & ? & ? & ?).
      split_and!; try done; (congruence || lia).
    + apply mClGet_none in E2. rewrite mBlkFree_live. lia.
  - by apply mBlkGet_none in E1.
Qed.

(** What the copy loop of [m_pullup] does, given room for [len] bytes. *)
Lemma pullup_loop_spec mph fuel : ∀ m n len space (p : P),
  (length n <= fuel)%nat → n ≠ [] → mbuf_wf m → chain_wf n → 0 <= mph →
  space = m_extSize m - (m_off m + m_len m) → len <= space →
  ∃ m' n' len' p', pullup_loop fuel mph m n len space p = Some (m', n', len', p') ∧
    mbuf_wf m' ∧ chain_wf n' ∧
    mdata m' ++ chain_bytes n' = mdata m ++ chain_bytes n ∧
    len' = len - (m_len m' - m_len m) ∧ (0 < len' → n' = []) ∧
    pool_live p' = pool_live p - Z.of_nat (length n - length n') ∧
    (length n' <= length n)%nat.
Proof.
  induction fuel as [|fuel IH];
    intros m n len space p Hfuel Hne Hm Hn Hmph Hsp Hlen.
  { destruct n; [done | simpl in Hfuel; lia]. }
  destruct n as [|n0 nr]; [done|]. cbn [pullup_loop].
  inversion_clear Hn as [|?? Hn0 Hnr]. pose proof (mdata_zlen n0 Hn0) as Hz0.
  set (count := Z.min (Z.min (Z.max len mph) space) (m_len n0)).
  assert (0 <= count <= m_len n0) as Hcount.
  { unfold count. destruct Hn0, Hm. lia. }
  assert (zlen (ztake count (mdata n0)) = count) as Hzc by (rewrite zlen_ztake; lia).
  set (m1 := set_len (m_len m + count) _).
  assert (m1 = append_data (ztake count (mdata n0)) m) as Hm1.
  { unfold m1, append_data. by rewrite Hzc. }
  destruct (append_data_spec (ztake count (mdata n0)) m) as (Hwf1 & Hd1 & Hs1);
    [done | unfold count in *; lia|]. rewrite <- Hm1 in Hwf1, Hd1, Hs1.
  assert (m_off m1 = m_off m ∧ m_len m1 = m_len m + count) as [Ho1 Hl1] by done.
  change (m_len (set_len (m_len n0 - count) n0)) with (m_len n0 - count).
  destruct (Z.eqb_spec (m_len n0 - count) 0) as [Hall|Hpart].
  - (* the whole of [n0] was copied: it is freed *)
    assert (mdata n0 = ztake count (mdata n0)) as Hmd0 by (rewrite ztake_all; [done|lia]).
    destruct ((0 <? len - count) && negb (bool_decide (nr = []))) eqn:Ego.
    + apply andb_true_iff in Ego as [Ego1%Z.ltb_lt Ego2%negb_true_iff%bool_decide_eq_false_1].
      destruct (IH m1 nr (len - count) (space - count)
                  (mBlkFree p (set_len (m_len n0 - count) n0)))
        as (m' & n' & len' & p' & Heq & Hm' & Hn' & Hb & Hl' & Hlast & Hlive & Hlen');
        try done; [simpl in Hfuel; lia | lia | lia|].
      exists m', n', len', p'. rewrite Heq, mBlkFree_live in *.
      split_and!; try done; [|lia|cbn [length]; lia|cbn [length]; lia].
      rewrite Hb, Hd1, <- Hmd0, chain_bytes_cons. by rewrite app_assoc.
    + eexists _, _, _, _. split; [done|]. rewrite mBlkFree_live.
      split_and!; try done; [| lia| |cbn [length]; lia|cbn [length]; lia].
      * rewrite Hd1, <- Hmd0, chain_bytes_cons. by rewrite app_assoc.
      * intros Hl'%Z.ltb_lt. rewrite Hl' in Ego. simpl in Ego.
        by apply negb_false_iff, bool_decide_eq_true_1 in Ego.
  - (* part of [n0] is left: enough bytes were copied *)
    assert (len - count <= 0) as Hdone by (unfold count in *; lia).
    destruct (Z.ltb_spec 0 (len - count)); [lia|]. simpl.
    eexists _, _, _, _. split; [done|].
    split_and!; try done; [| |lia|lia|cbn [length]; lia].
    + constructor; [|done]. apply mbuf_wf_advance; [done|lia].
    + rewrite Hd1, !chain_bytes_cons. change (m_off (set_len _ n0)) with (m_off n0).
      rewrite mdata_advance by (done || lia).
      rewrite <- app_assoc, (app_assoc (ztake _ _)), ztake_zdrop. done.
Qed.

Lemma pullup_copy_spec mph m n len (p : P) :
  n ≠ [] → mbuf_wf m → chain_wf n → 0 <= mph →
  m_off m + m_len m + len <= m_extSize m →
  ∃ r p', pullup_copy mph m n len p = Some (r, p') ∧
    match r with
    | Some c => chain_wf c ∧ chain_bytes c = mdata m ++ chain_bytes n ∧
        (∃ m' r', c = m' :: r' ∧ m_len m + len <= m_len m') ∧
        pool_live p' = pool_live p + Z.of_nat (length c) - Z.of_nat (1 + length n)
    | None => chain_len n < len ∧
        pool_live p' = pool_live p - Z.of_nat (1 + length n)
    end.
Proof.
  intros Hne Hm Hn Hmph Hroom. unfold pullup_copy.
  destruct (pullup_loop_spec mph (length n) m n len
    (m_extSize m - (m_off m + m_len m)) p)
    as (m' & n' & len' & p' & -> & Hm' & Hn' & Hb & -> & Hlast & Hlive & Hlen');
    try done; [lia|]. cbn [mbind option_bind].
  destruct (Z.ltb_spec 0 (len - (m_len m' - m_len m))) as [Hlt|Hge];
    eexists _, _; (split; [done|]).
  - rewrite (Hlast Hlt) in *. split.
    + apply (f_equal zlen) in Hb. rewrite !zlen_app, !mdata_zlen in Hb by done.
      rewrite !chain_bytes_zlen, chain_len_nil in Hb by done. lia.
    + rewrite m_freem_live, mBlkFree_live, Hlive. cbn [length]. lia.
  - split_and!; [by constructor | done | | cbn [length]; lia].
    exists m', n'. split; [done|]. lia.
Qed.

(** C3: [m_pullup] on a well-formed chain always returns: either a chain
    with the same data whose first mbuf holds [len] bytes, or null with
    the whole chain returned to the pool, which happens only when the
    chain is too short or the pool is exhausted. *)
Theorem m_pullup_spec (M_DONTWAIT mph : Z) (p : P) (n0 : mbuf) (nr : chain) (len : Z) :
  chain_wf (n0 :: nr) → 0 <= mph →
  ∃ r p', m_pullup M_DONTWAIT mph p (n0 :: nr) len = Some (r, p') ∧
    match r with
    | Some c =>
        chain_wf c ∧ chain_bytes c = chain_bytes (n0 :: nr) ∧
        (∃ m' r', c = m' :: r' ∧ len <= m_len m') ∧
        pool_live p' = pool_live p + zlen c - zlen (n0 :: nr)
    | None =>
        (chain_len (n0 :: nr) < len ∨
         fst (mBufClGet p M_DONTWAIT (m_type n0) len true) = None) ∧
        pool_live p' = pool_live p - zlen (n0 :: nr)
    end.
Proof.
  intros Hwf Hmph. pose proof Hwf as Hwf0. inversion_clear Hwf as [|?? Hn0 Hnr].
  unfold m_pullup, zlen.
  destruct ((m_off n0 + len <? m_extSize n0) && negb (bool_decide (nr = []))) eqn:E.
  - apply andb_true_iff in E as [E1%Z.ltb_lt E2%negb_true_iff%bool_decide_eq_false_1].
    destruct (Z.leb_spec len (m_len n0)).
    + eexists _, _. split; [done|]. split_and!; try done; [|lia]. by eexists _, _.
    + destruct (pullup_copy_spec mph n0 nr (len - m_len n0) p)
        as (r & p' & -> & Hr); try done; [lia|].
      eexists _, _. split; [done|]. destruct r as [c|].
      * destruct Hr as (? & Hb & (m' & r' & -> & ?) & ?).
        split_and!; try done. eexists _, _. split; [done|lia].
      * destruct Hr. split; [left; rewrite chain_len_cons; lia | done].
  - pose proof (mBufClGet_spec p M_DONTWAIT (m_type n0) len true) as Hget.
    destruct (mBufClGet p M_DONTWAIT (m_type n0) len true) as [[m|] p1].
    2:{ eexists _, _. split; [done|]. split; [by right|].
        rewrite m_freem_live. lia. }
    destruct Hget as (_ & _ & _ & Hoff & Hpos & Hsz & Hlive).
    specialize (Hsz eq_refl).
    set (mn := if has_pkthdr n0 then _ else _).
    assert (∃ m1 n1, mn = (m1, n1) ∧ mbuf_wf m1 ∧ m_len m1 = 0 ∧ m_off m1 = 0 ∧
      m_extSize m1 = m_extSize m ∧ mbuf_wf n1 ∧ mdata n1 = mdata n0 ∧
      m_len n1 = m_len n0) as (m1 & n1 & -> & Hm1 & Hl1 & Ho1 & Hs1 & Hn1 & Hd1 & Hln1).
    { unfold mn. destruct (has_pkthdr n0); eexists _, _; (split; [done|]);
        split_and!; try done; unfold mbuf_wf, m_extSize in *; simpl; lia. }
    assert (mdata m1 = []) as Hmd1.
    { unfold mdata. rewrite Hl1. by apply ztake_neg. }
    destruct (pullup_copy_spec mph m1 (n1 :: nr) len p1) as (r & p' & -> & Hr);
      try done; [by constructor | lia|].
    eexists _, _. split; [done|]. destruct r as [c|].
    + destruct Hr as (? & Hb & (m' & r' & -> & ?) & ?). split_and!; try done.
      * by rewrite Hb, Hmd1, !chain_bytes_cons, Hd1.
      * eexists _, _. split; [done|lia].
      * cbn [length] in *. lia.
    + destruct Hr. split; [left; rewrite chain_len_cons in *; lia | cbn [length] in *; lia].
Qed.
End PoolFacts.

(** ** A concrete pool and sample chains

    [FreeCount] is a pool described by the number of free mBlks, with
    zeroed clusters of the requested size: it shows that [NetBufLaws] can
    be met, and the witnesses below run on it. *)
Definition no_flags : mflags := MkFlags false false false 0.

#[export] Instance FreeCount : NetBuf Z := {|
  mBlkGet free _ t :=
    if 0 <? free
    then (Some (MkMbuf t no_flags (MkPkthdr 0 0) 0 [] 0 0), free - 1)
    else (None, free);
  mClGet free m size _ _ :=
    (Some (set_off 0 (set_ext (replicate (Z.to_nat (Z.max 1 size)) 0) m)), free);
  mBlkFree free _ := free + 1;
  pool_live free := - free
|}.

#[export] Instance FreeCount_laws : NetBufLaws Z.
Proof.
  split; simpl.
  - intros p w t m p'. case_match; [|done]. intros [= <- <-]. split_and!; try done. lia.
  - intros p w t p'. case_match; [done|]. by intros [= <-].
  - intros p m s w b m' p' [= <- <-]. split_and!; try done; unfold m_extSize, zlen; simpl;
      rewrite length_replicate; lia.
  - done.
  - lia.
Qed.

(** An mbuf holding [data] at offset [off] of a cluster of [size] bytes. *)
Definition mk_mbuf (off size : Z) (data : bytes) : mbuf :=
  MkMbuf 1 no_flags (MkPkthdr 0 0) 0
    (replicate (Z.to_nat off) 0 ++ data ++
     replicate (Z.to_nat (size - off - zlen data)) 0) off (zlen data).

Definition sample_chain : chain :=
  [set_flags (set_M_PKTHDR true no_flags) (set_phlen 7 (mk_mbuf 2 16 [1; 2; 3]));
   mk_mbuf 0 4 [4; 5; 6; 7]].

Lemma sample_chain_wf : chain_wf sample_chain.
Proof. repeat constructor; vm_compute; discriminate. Qed.

Lemma m_adj_spec_witness :
  chain_wf sample_chain ∧ chain_bytes (m_adj sample_chain 5) = [6; 7].
Proof.
  split; [repeat constructor; vm_compute; discriminate|].
  pose proof (m_adj_spec sample_chain 5 sample_chain_wf) as (_ & Hb & _).
  rewrite Hb. reflexivity.
Defined.

Lemma m_copydata_spec_witness :
  chain_wf sample_chain ∧ m_copydata sample_chain 2 3 = Some [3; 4; 5].
Proof.
  split; [exact sample_chain_wf|].
  rewrite (m_copydata_spec sample_chain 2 3 sample_chain_wf). reflexivity.
Defined.

Lemma m_pullup_spec_witness :
  chain_wf sample_chain ∧
  ∃ c p', m_pullup 0 0 8 sample_chain 6 = Some (Some c, p') ∧
    chain_bytes c = [1; 2; 3; 4; 5; 6; 7].
Proof.
  split; [exact sample_chain_wf|].
  destruct (m_pullup_spec 0 0 8 (set_flags (set_M_PKTHDR true no_flags)
    (set_phlen 7 (mk_mbuf 2 16 [1; 2; 3]))) [mk_mbuf 0 4 [4; 5; 6; 7]] 6
    sample_chain_wf ltac:(lia)) as ([c|] & p' & Heq & Hr).
  - exists c, p'. split; [exact Heq|]. destruct Hr as (_ & Hb & _). exact Hb.
  - exfalso. vm_compute in Heq. discriminate.
Defined.
