(* ===== verification/Cksum.v ===== *)
(** * The Internet checksum ([in_cksum.c])

    [in_cksum] is the portable routine ([INCHKSUM_PORTABLE]): it walks an
    mbuf chain whose pieces may have any length and any alignment, summing
    aligned 16-bit words in a 32-bit [int].  [in_cksum_asm] is the other
    branch of the [#ifdef], over the architecture dependent [cksum].  Both
    are compared with the reference [rfc1071], which knows neither mbufs nor
    alignment. *)
From Stdlib Require Import ZArith Lia List Bool.
From stdpp Require Import base tactics list numbers option.
From S2P Require Import Prelude Mbuf.

Local Open Scope Z_scope.

(** ** The routine *)

Section Portable.
(** Byte order of the machine. *)
Variable little_endian : bool.

(** The [u_short] stored in two consecutive bytes. *)
Definition ushort (a b : Z) : Z := if little_endian then a + 256 * b else 256 * a + b.

Definition ADDCARRY (x : Z) : Z := if 65535 <? x then x - 65535 else x.

(** [l_util.l = sum; sum = l_util.s[0] + l_util.s[1]; ADDCARRY(sum)]. *)
Definition REDUCE (sum : Z) : Z := ADDCARRY (u32 sum mod 65536 + u32 sum / 65536).

(** [sum += w[0]; ...; sum += w[n-1]; w += n]. *)
Fixpoint add_words (n : nat) (sum : Z) (w : bytes) : Z * bytes :=
  match n, w with
  | S n, a :: b :: r => add_words n (s32 (sum + ushort a b)) r
  | _, _ => (sum, w)
  end.

(** [while ((mlen -= 2 * n) >= 0) { n words }]; returns the decremented
    [mlen]. *)
Fixpoint word_loop (n : nat) (fuel : nat) (sum : Z) (w : bytes) (mlen : Z)
  : Z * bytes * Z :=
  let mlen := mlen - 2 * Z.of_nat n in
  match fuel with
  | S fuel =>
      if 0 <=? mlen then
        let '(sum, w) := add_words n sum w in word_loop n fuel sum w mlen
      else (sum, w, mlen)
  | O => (sum, w, mlen)
  end.

Definition loop_fuel (mlen : Z) : nat := S (Z.to_nat mlen).

(** The locals that live across iterations: [sum], [mlen] (whose value -1
    marks a pending byte), [s_util.c[0]] and [len]. *)
Record cksum_state := MkCk { ck_sum : Z; ck_mlen : Z; ck_c0 : Z; ck_len : Z }.

(** "Force to even boundary": [byte_swapped] is the last component. *)
Definition align_even (sum : Z) (w : bytes) (addr mlen c0 : Z)
  : Z * bytes * Z * Z * bool :=
  if Z.odd addr && (0 <? mlen)
  then (s32 (REDUCE sum * 256), tail w, mlen - 1, List.hd 0 w, true)
  else (sum, w, mlen, c0, false).

(** The loops over an aligned region and what follows them. *)
Definition sum_region (sum : Z) (w : bytes) (mlen c0 : Z) (byte_swapped : bool)
    (len : Z) : cksum_state :=
  let '(sum, w, mlen) := word_loop 16 (loop_fuel mlen) sum w mlen in
  let mlen := mlen + 32 in
  let '(sum, w, mlen) := word_loop 4 (loop_fuel mlen) sum w mlen in
  let mlen := mlen + 8 in
  if (mlen =? 0) && negb byte_swapped then MkCk sum mlen c0 len
  else
    let sum := REDUCE sum in
    let '(sum, w, mlen) := word_loop 1 (loop_fuel mlen) sum w mlen in
    if byte_swapped then
      let sum := s32 (REDUCE sum * 256) in
      if mlen =? -1 then MkCk (s32 (sum + ushort c0 (List.hd 0 w))) 0 c0 len
      else MkCk sum (-1) c0 len
    else if mlen =? -1 then MkCk sum mlen (List.hd 0 w) len
    else MkCk sum mlen c0 len.

(** One iteration of the loop over the chain. *)
Definition cksum_mbuf (st : cksum_state) (m : mbuf) : cksum_state :=
  if m_len m =? 0 then st
  else
    let '(MkCk sum mlen c0 len) := st in
    let w := mdata m in
    let '(sum, w, addr, mlen, len) :=
      if mlen =? -1
      then (s32 (sum + ushort c0 (List.hd 0 w)), tail w, m_data m + 1, m_len m - 1, len - 1)
      else (sum, w, m_data m, m_len m, len) in
    let mlen := if len <? mlen then len else mlen in
    let len := len - mlen in
    let '(sum, w, mlen, c0, byte_swapped) := align_even sum w addr mlen c0 in
    sum_region sum w mlen c0 byte_swapped len.

Fixpoint cksum_chain (st : cksum_state) (c : chain) : cksum_state :=
  match c with
  | [] => st
  | m :: r => if ck_len st =? 0 then st else cksum_chain (cksum_mbuf st m) r
  end.

(** [in_cksum]: the checksum, and whether "out of data" was reported. *)
Definition in_cksum (m : chain) (len : Z) : Z * bool :=
  let st := cksum_chain (MkCk 0 0 0 len) m in
  let sum :=
    if ck_mlen st =? -1 then s32 (ck_sum st + ushort (ck_c0 st) 0) else ck_sum st in
  (Z.land (Z.lnot (REDUCE sum)) 65535, negb (ck_len st =? 0)).

(** The branch without [INCHKSUM_PORTABLE]: [cksum sum w mlen slen] is the
    architecture dependent routine. *)
Fixpoint in_cksum_asm_loop (cksum : Z → bytes → Z → Z → Z) (m : chain)
    (sum slen len : Z) : Z * Z :=
  match m with
  | [] => (sum, len)
  | x :: r =>
      if len =? 0 then (sum, len)
      else if 0 <? m_len x then
        let mlen := if len <? m_len x then len else m_len x in
        in_cksum_asm_loop cksum r (u16 (cksum sum (mdata x) mlen slen))
          (slen + mlen) (len - mlen)
      else in_cksum_asm_loop cksum r sum slen len
  end.

Definition in_cksum_asm (cksum : Z → bytes → Z → Z → Z) (m : chain) (len : Z)
  : Z * bool :=
  let '(sum, len) := in_cksum_asm_loop cksum m 0 0 len in
  (Z.land (Z.lnot sum) 65535, negb (len =? 0)).

(** ** The reference: RFC 1071 on a byte string *)

(** Sum of the 16-bit words, the last byte padded with zero. *)
Fixpoint word_sum (bs : bytes) : Z :=
  match bs with
  | [] => 0
  | [a] => ushort a 0
  | a :: b :: r => ushort a b + word_sum r
  end.

(** [while (sum >> 16) sum = (sum & 0xffff) + (sum >> 16)]. *)
Fixpoint fold_carries (fuel : nat) (sum : Z) : Z :=
  match fuel with
  | O => sum
  | S fuel =>
      if sum <? 65536 then sum
      else fold_carries fuel (Z.land sum 65535 + Z.shiftr sum 16)
  end.

Definition rfc1071 (bs : bytes) : Z :=
  let sum := word_sum bs in
  Z.land (Z.lnot (fold_carries (S (Z.to_nat (sum / 65535))) sum)) 65535.
End Portable.

(** ** One's complement congruence

    [a ≈ b]: the two sums fold to the same 16-bit one's complement number.
    Zero is kept apart from the other multiples of 65535, as folding does. *)
Definition oc_eq (a b : Z) : Prop :=
  0 <= a ∧ 0 <= b ∧ a mod 65535 = b mod 65535 ∧ (a = 0 ↔ b = 0).

Infix "≈" := oc_eq (at level 70, no associativity) : net_scope.
Local Open Scope net_scope.
Delimit Scope net_scope with net.

#[export] Instance oc_eq_sym : Symmetric oc_eq.
Proof. intros a b (? & ? & ? & ?). unfold oc_eq. split_and!; (done || lia). Qed.

#[export] Instance oc_eq_trans : Transitive oc_eq.
Proof.
  intros a b c (? & ? & Hab & ?) (? & ? & Hbc & ?). unfold oc_eq.
  rewrite Hab, Hbc. split_and!; (done || lia).
Qed.

#[export] Instance oc_eq_add : Proper (oc_eq ==> oc_eq ==> oc_eq) Z.add.
Proof.
  intros a b (? & ? & Hab & ?) c d (? & ? & Hcd & ?). unfold oc_eq.
  split_and!; [lia | lia | | lia].
  by rewrite Z.add_mod, Hab, Hcd, <- Z.add_mod.
Qed.

Lemma oc_eq_refl a : 0 <= a → a ≈ a.
Proof. done. Qed.

Lemma oc_eq_mul k a b : 0 <= k → a ≈ b → k * a ≈ k * b.
Proof.
  intros ? (? & ? & Hab & ?). unfold oc_eq. split_and!; [nia | nia | | nia].
  by rewrite Z.mul_mod, Hab, <- Z.mul_mod.
Qed.

(** Multiplying by 2^16 changes nothing. *)
Lemma oc_eq_65536 a : 0 <= a → 65536 * a ≈ a.
Proof.
  intros. unfold oc_eq. split_and!; [lia | lia | | lia].
  replace (65536 * a) with (a + a * 65535) by lia. apply Z.mod_add. lia.
Qed.

(** Two 16-bit numbers that are congruent have the same complement. *)
Lemma oc_eq_small a b : a <= 65535 → b <= 65535 → a ≈ b → a = b.
Proof.
  intros ? ? (? & ? & Hm & ?).
  destruct (Z.eq_dec a 65535) as [->|]; destruct (Z.eq_dec b 65535) as [->|];
    rewrite ?(Z.mod_small a) in Hm by lia; rewrite ?(Z.mod_small b) in Hm by lia;
    rewrite ?Z.mod_same in Hm by lia; lia.
Qed.

Lemma fold16 a : 0 <= a → a mod 65536 + a / 65536 ≈ a.
Proof.
  intros. pose proof (Z.mod_pos_bound a 65536 ltac:(lia)).
  pose proof (Z.div_pos a 65536 ltac:(lia) ltac:(lia)).
  rewrite (Z.div_mod a 65536) at 3 by lia. rewrite Z.add_comm.
  apply oc_eq_add; [|by apply oc_eq_refl; lia].
  symmetry. by apply oc_eq_65536.
Qed.

Lemma ADDCARRY_spec x : 0 <= x <= 131070 → ADDCARRY x ≈ x ∧ 0 <= ADDCARRY x <= 65535.
Proof.
  intros. unfold ADDCARRY. destruct (Z.ltb_spec 65535 x); [|split; [apply oc_eq_refl; lia | lia]].
  split; [|lia]. unfold oc_eq. split_and!; [lia | lia | | lia].
  replace x with ((x - 65535) + 1 * 65535) at 2 by lia. by rewrite Z.mod_add.
Qed.

(** ** The running sum

    The [int] that overflows still holds the sum modulo 2^32. *)
Lemma u32_s32 x : u32 (s32 x) = u32 x.
Proof.
  unfold u32, s32. rewrite Zminus_mod_idemp_l. f_equal. lia.
Qed.

Lemma s32_add x y : s32 (s32 x + y) = s32 (x + y).
Proof.
  unfold s32. f_equal.
  replace ((x + 2147483648) mod 4294967296 - 2147483648 + y + 2147483648)
    with ((x + 2147483648) mod 4294967296 + y) by lia.
  rewrite Zplus_mod_idemp_l. f_equal. lia.
Qed.

Lemma REDUCE_spec x :
  0 <= x < 4294967296 → REDUCE (s32 x) ≈ x ∧ 0 <= REDUCE (s32 x) <= 65535.
Proof.
  intros Hx. unfold REDUCE. rewrite u32_s32, u32_id by done.
  pose proof (Z.mod_pos_bound x 65536 ltac:(lia)).
  assert (0 <= x / 65536 < 65536).
  { split; [apply Z.div_pos; lia | apply Z.div_lt_upper_bound; lia]. }
  destruct (ADDCARRY_spec (x mod 65536 + x / 65536)) as [H1 H2]; [lia|].
  split; [|done]. rewrite H1. apply fold16. lia.
Qed.

(** ** Alternating weights *)

Section Weights.
Variable le : bool.

Definition weight (first : bool) : Z := if eqb first le then 1 else 256.

(** The weighted sum of a byte string that starts on the first ([true])
    or second byte of a word. *)
Fixpoint wsum (first : bool) (bs : bytes) : Z :=
  match bs with
  | [] => 0
  | a :: r => weight first * a + wsum (negb first) r
  end.

Lemma weight_pos b : 1 <= weight b <= 256.
Proof. unfold weight. case_match; lia. Qed.

Lemma ushort_weight a b : ushort le a b = weight true * a + weight false * b.
Proof. unfold ushort, weight. destruct le; simpl; lia. Qed.

Lemma ushort_range a b : is_byte a → is_byte b → 0 <= ushort le a b <= 65535.
Proof. unfold is_byte, ushort. destruct le; lia. Qed.

Lemma word_sum_wsum bs : word_sum le bs = wsum true bs.
Proof.
  revert bs. fix IH 1. intros [|a [|b r]]; [done | |].
  - cbn. rewrite ushort_weight. lia.
  - cbn. rewrite ushort_weight, IH. lia.
Qed.

Lemma wsum_nonneg f bs : Bytes bs → 0 <= wsum f bs.
Proof.
  intros H. revert f. induction H as [|a r [Ha _] _ IH]; intros f; [done|].
  cbn. specialize (IH (negb f)). pose proof (weight_pos f). nia.
Qed.

Lemma wsum_app f xs ys :
  wsum f (xs ++ ys) = wsum f xs + wsum (if Nat.even (length xs) then f else negb f) ys.
Proof.
  revert f. induction xs as [|x xs IH]; intros f; [done|].
  cbn [app wsum length]. rewrite IH, Nat.even_succ, <- Nat.negb_even.
  destruct (Nat.even (length xs)); rewrite ?negb_involutive; cbn; lia.
Qed.

Lemma weight_swap f a : 0 <= a → 256 * (weight f * a) ≈ weight (negb f) * a.
Proof.
  intros. unfold weight. destruct f, le; cbn [eqb negb]; rewrite ?Z.mul_1_l;
    try (apply oc_eq_refl; lia);
    rewrite Z.mul_assoc; by apply oc_eq_65536.
Qed.

(** Shifting the sum by eight bits is summing on the other alignment. *)
Lemma wsum_swap f bs : Bytes bs → 256 * wsum f bs ≈ wsum (negb f) bs.
Proof.
  intros H. revert f. induction H as [|a r [Ha _] Hr IH]; intros f; [done|].
  cbn [wsum]. rewrite Z.mul_add_distr_l.
  apply oc_eq_add; [by apply weight_swap | apply IH].
Qed.

(** A word costs at most 65535. *)
Lemma wsum_bound bs : Bytes bs → Nat.even (length bs) = true →
  wsum true bs <= 32768 * zlen bs.
Proof.
  revert bs. fix IH 1. intros [|a [|b r]] H He; [done | done |].
  inversion_clear H as [|?? Ha H']. inversion_clear H' as [|?? Hb Hr].
  cbn [wsum negb]. rewrite !zlen_cons.
  pose proof (ushort_range a b Ha Hb). rewrite ushort_weight in *.
  specialize (IH r Hr He). lia.
Qed.
End Weights.

(** ** The loops *)

Section Loops.
Variable le : bool.

Lemma add_words_spec n : ∀ T w, 2 * Z.of_nat n <= zlen w →
  add_words le n (s32 T) w =
    (s32 (T + wsum le true (ztake (2 * Z.of_nat n) w)), zdrop (2 * Z.of_nat n) w).
Proof.
  induction n as [|n IH]; intros T w Hw.
  { cbn [add_words]. rewrite ztake_neg, zdrop_neg, Z.add_0_r by lia. by destruct w. }
  destruct w as [|a [|b r]]; rewrite ?zlen_cons, ?zlen_nil in Hw; [lia | lia |].
  cbn [add_words]. rewrite s32_add, IH by lia. unfold ztake, zdrop.
  replace (Z.to_nat (2 * Z.of_nat (S n))) with (S (S (Z.to_nat (2 * Z.of_nat n)))) by lia.
  cbn [take drop wsum negb]. rewrite ushort_weight. f_equal. f_equal. lia.
Qed.

Lemma even_ztake {A} n k (l : list A) :
  n = 2 * k → 0 <= n <= zlen l → Nat.even (length (ztake n l)) = true.
Proof.
  intros -> H. unfold ztake, zlen in *. rewrite length_take, Nat.min_l by lia.
  apply Nat.even_spec. exists (Z.to_nat k). lia.
Qed.

Lemma wsum_ztake_split k n w : 0 <= k → 0 <= n → 2 * k + n <= zlen w →
  wsum le true (ztake (2 * k + n) w) =
  wsum le true (ztake (2 * k) w) + wsum le true (ztake n (zdrop (2 * k) w)).
Proof.
  intros. rewrite <- (ztake_zdrop (2 * k) w) at 1.
  rewrite ztake_app_ge by (rewrite zlen_ztake; lia). rewrite zlen_ztake, wsum_app.
  rewrite (even_ztake _ k) by lia. do 3 f_equal. lia.
Qed.

(** [while ((mlen -= 2n) >= 0)] consumes as many blocks of [n] words as
    there are. *)
Lemma word_loop_spec n fuel : ∀ T w mlen, (0 < n)%nat →
  0 <= mlen <= zlen w → mlen < Z.of_nat fuel →
  ∃ k, 0 <= k ∧ 2 * k <= mlen < 2 * k + 2 * Z.of_nat n ∧
    word_loop le n fuel (s32 T) w mlen =
      (s32 (T + wsum le true (ztake (2 * k) w)), zdrop (2 * k) w,
       mlen - 2 * k - 2 * Z.of_nat n).
Proof.
  induction fuel as [|fuel IH]; intros T w mlen Hn Hw Hf; [lia|]. cbn [word_loop].
  destruct (Z.leb_spec 0 (mlen - 2 * Z.of_nat n)) as [Hgo|Hstop].
  - rewrite add_words_spec by lia.
    destruct (IH (T + wsum le true (ztake (2 * Z.of_nat n) w))
      (zdrop (2 * Z.of_nat n) w) (mlen - 2 * Z.of_nat n)) as (k & ? & ? & ->);
      [done | rewrite zlen_zdrop; lia | lia |].
    exists (Z.of_nat n + k). split_and!; [lia | lia | lia |].
    rewrite zdrop_zdrop by lia. f_equal; [f_equal|].
    + f_equal. rewrite Z.mul_add_distr_l, wsum_ztake_split by lia. lia.
    + f_equal. lia.
    + lia.
  - exists 0. split_and!; [lia | lia | lia |].
    rewrite ztake_neg, zdrop_neg by lia. cbn [wsum]. by rewrite Z.add_0_r, Z.sub_0_r.
Qed.

(** The two unrolled loops one after the other. *)
Lemma two_loops_spec T w mlen : 0 <= mlen <= zlen w →
  ∃ k, 0 <= k ∧ 2 * k <= mlen < 2 * k + 8 ∧
    (let '(sum, w, mlen) := word_loop le 16 (loop_fuel mlen) (s32 T) w mlen in
     let mlen := mlen + 32 in
     word_loop le 4 (loop_fuel mlen) sum w mlen) =
      (s32 (T + wsum le true (ztake (2 * k) w)), zdrop (2 * k) w, mlen - 2 * k - 8).
Proof.
  intros Hw.
  destruct (word_loop_spec 16 (loop_fuel mlen) T w mlen) as (k & ? & ? & ->);
    [lia | lia | unfold loop_fuel; lia |]. cbn zeta.
  replace (mlen - 2 * k - 2 * Z.of_nat 16 + 32) with (mlen - 2 * k) by lia.
  destruct (word_loop_spec 4 (loop_fuel (mlen - 2 * k))
    (T + wsum le true (ztake (2 * k) w)) (zdrop (2 * k) w) (mlen - 2 * k))
    as (k' & ? & ? & ->); [lia | rewrite zlen_zdrop; lia | unfold loop_fuel; lia |].
  exists (k + k'). split_and!; [lia | lia | lia |].
  rewrite zdrop_zdrop by lia. f_equal; [f_equal|].
  - f_equal. rewrite Z.mul_add_distr_l, wsum_ztake_split by lia. lia.
  - f_equal. lia.
  - lia.
Qed.

(** What the state holds once the byte string [bs] has been consumed: a
    sum congruent to the sum of its words, except for the pending byte. *)
Definition ck_inv (st : cksum_state) (bs : bytes) : Prop :=
  ∃ T, ck_sum st = s32 T ∧ 0 <= T ∧
    if ck_mlen st =? -1 then
      is_byte (ck_c0 st) ∧ Nat.even (length bs) = false ∧
      T + weight le true * ck_c0 st ≈ wsum le true bs ∧
      T <= 16777000 + 32768 * (zlen bs - 1)
    else
      Nat.even (length bs) = true ∧ T ≈ wsum le true bs ∧
      T <= 16777000 + 32768 * zlen bs.

Lemma is_byte_hd l : Bytes l → is_byte (List.hd 0 l).
Proof. destruct 1; [done|]. done. Qed.
Hint Resolve Bytes_ztake Bytes_zdrop is_byte_hd wsum_nonneg : net.

(** Even number of bytes first, then at most one more. *)
Lemma split_last_byte n k (w : bytes) : 0 <= k → n = 2 * k ∨ n = 2 * k + 1 → n <= zlen w →
  ztake n w = ztake (2 * k) w ++ (if n =? 2 * k then [] else [List.hd 0 (zdrop (2 * k) w)]).
Proof.
  intros Hk Hn Hw. rewrite <- (ztake_zdrop (2 * k) w) at 1.
  rewrite ztake_app_ge by (rewrite zlen_ztake; lia). rewrite zlen_ztake. f_equal.
  destruct (Z.eqb_spec n (2 * k)); [apply ztake_neg; lia|].
  pose proof (zlen_zdrop (2 * k) w) as Hl.
  destruct (zdrop (2 * k) w) as [|b r]; [rewrite zlen_nil in Hl; lia|].
  unfold ztake. replace (Z.to_nat _) with 1%nat by lia. done.
Qed.

(** The reduce-and-last-words part of a region, shared by both cases. *)
Lemma last_words_spec T w mlen : 0 <= mlen <= zlen w → Bytes w →
  0 <= T < 4294967296 →
  ∃ k, 0 <= k ∧ (mlen = 2 * k ∨ mlen = 2 * k + 1) ∧
    word_loop le 1 (loop_fuel mlen) (REDUCE (s32 T)) w mlen =
      (s32 (REDUCE (s32 T) + wsum le true (ztake (2 * k) w)), zdrop (2 * k) w,
       mlen - 2 * k - 2) ∧
    REDUCE (s32 T) + wsum le true (ztake (2 * k) w) ≈
      T + wsum le true (ztake (2 * k) w) ∧
    REDUCE (s32 T) + wsum le true (ztake (2 * k) w) <= 65535 + 65536 * k.
Proof.
  intros Hw Hb HT. destruct (REDUCE_spec T HT) as [Hc Hr].
  destruct (word_loop_spec 1 (loop_fuel mlen) (REDUCE (s32 T)) w mlen)
    as (k & ? & ? & Heq); [lia | lia | unfold loop_fuel; lia |].
  rewrite s32_id in Heq by lia. rewrite Heq.
  exists k. split_and!; [lia | lia | f_equal; lia | |].
  - apply oc_eq_add; [done|]. apply oc_eq_refl. auto with net.
  - pose proof (wsum_bound le (ztake (2 * k) w) (Bytes_ztake _ _ Hb)) as Hbd.
    rewrite zlen_ztake, (even_ztake _ k) in Hbd by lia. specialize (Hbd eq_refl). lia.
Qed.

(** What a region contributes: [j] whole words and possibly a byte. *)
Lemma sum_region_eq T w mlen c0 sw len : 0 <= mlen <= zlen w → Bytes w →
  0 <= T → T + 32768 * mlen < 4294967296 →
  ∃ j S z, 0 <= j ∧ (mlen = 2 * j ∨ mlen = 2 * j + 1) ∧ z ≠ -1 ∧
    S ≈ T + wsum le true (ztake (2 * j) w) ∧ S <= Z.max T 65535 + 65536 * j ∧
    sum_region le (s32 T) w mlen c0 sw len =
      (let last := List.hd 0 (zdrop (2 * j) w) in
       if sw then
         if mlen =? 2 * j
         then MkCk (s32 (REDUCE (s32 S) * 256)) (-1) c0 len
         else MkCk (s32 (REDUCE (s32 S) * 256 + ushort le c0 last)) 0 c0 len
       else if mlen =? 2 * j then MkCk (s32 S) z c0 len
       else MkCk (s32 S) (-1) last len).
Proof.
  intros Hw Hb HT Hbd. destruct (two_loops_spec T w mlen Hw) as (k & ? & ? & Heq).
  unfold sum_region. destruct (word_loop le 16 _ _ _ _) as [[s1 w1] m1].
  cbn zeta in *. rewrite Heq. clear Heq s1 w1 m1.
  replace (mlen - 2 * k - 8 + 8) with (mlen - 2 * k) by lia.
  set (T1 := T + wsum le true (ztake (2 * k) w)).
  assert (0 <= wsum le true (ztake (2 * k) w) <= 65536 * k) as Hk.
  { split; [auto with net|].
    pose proof (wsum_bound le (ztake (2 * k) w) (Bytes_ztake _ _ Hb)) as Hx.
    rewrite zlen_ztake, (even_ztake _ k) in Hx by lia. specialize (Hx eq_refl). lia. }
  destruct ((mlen - 2 * k =? 0) && negb sw) eqn:E.
  - apply andb_true_iff in E as [E1%Z.eqb_eq E2%negb_true_iff]. subst sw.
    exists k, T1, (mlen - 2 * k). split_and!; [lia | lia | lia | | lia |].
    + apply oc_eq_refl. lia.
    + cbn zeta. by replace (mlen =? 2 * k) with true by (symmetry; apply Z.eqb_eq; lia).
  - destruct (last_words_spec T1 (zdrop (2 * k) w) (mlen - 2 * k))
      as (k' & ? & Hk' & Heq & Hoc & Hle); [rewrite zlen_zdrop; lia | auto with net | lia |].
    rewrite Heq, zdrop_zdrop by lia. clear Heq.
    replace (2 * k' + 2 * k) with (2 * (k + k')) by lia.
    replace (mlen - 2 * k - 2 * k' - 2 =? -1) with (negb (mlen =? 2 * (k + k')))
      by (destruct (Z.eqb_spec mlen (2 * (k + k'))); symmetry;
          [apply Z.eqb_neq | apply Z.eqb_eq]; lia).
    eexists (k + k'), _, (-2). split_and!; [lia | lia | lia | | |].
    2: { etrans; [apply Hle|]. lia. }
    + rewrite Hoc. unfold T1. rewrite Z.mul_add_distr_l, wsum_ztake_split, Z.add_assoc by lia.
      apply oc_eq_refl.
      pose proof (wsum_nonneg le true (ztake (2 * k') (zdrop (2 * k) w))
        (Bytes_ztake _ _ (Bytes_zdrop _ _ Hb))). lia.
    + cbn zeta. destruct sw, (Z.eqb_spec mlen (2 * (k + k'))); cbn [negb];
        rewrite ?s32_add; f_equal; try lia.
Qed.

(** One aligned-or-not region extends the consumed string. *)
Definition region_ok (T : Z) (bs : bytes) : Prop :=
  Nat.even (length bs) = true ∧ T ≈ wsum le true bs ∧ 0 <= T ∧
  T <= 16777000 + 32768 * zlen bs.

Lemma wsum_app_even bs x : Nat.even (length bs) = true →
  wsum le true (bs ++ x) = wsum le true bs + wsum le true x.
Proof. intros H. by rewrite wsum_app, H. Qed.

Lemma even_app {A} (xs ys : list A) :
  Nat.even (length (xs ++ ys)) = eqb (Nat.even (length xs)) (Nat.even (length ys)).
Proof. rewrite length_app, Nat.even_add. done. Qed.

Lemma aligned_region T bs w mlen c0 len :
  region_ok T bs → 0 <= mlen <= zlen w → Bytes w → Bytes bs →
  zlen bs + mlen <= 65535 →
  let st := sum_region le (s32 T) w mlen c0 false len in
  ck_inv st (bs ++ ztake mlen w) ∧ ck_len st = len.
Proof.
  intros (He & HT & H0 & Hbd) Hw Hb Hbs Hlen.
  pose proof (zlen_nonneg bs).
  destruct (sum_region_eq T w mlen c0 false len) as (j & S & z & Hj & Hm & Hz & HS & HSb & ->);
    [done | done | done | lia |]. cbn zeta.
  rewrite (split_last_byte mlen j w) by (done || lia).
  assert (S ≈ wsum le true (bs ++ ztake (2 * j) w)) as HS'.
  { rewrite wsum_app_even by done. rewrite HS. apply oc_eq_add; [done|].
    apply oc_eq_refl; auto with net. }
  assert (Nat.even (length (ztake (2 * j) w)) = true) as Hej by (apply (even_ztake _ j); lia).
  destruct (Z.eqb_spec mlen (2 * j)) as [Hev|Hodd].
  - split; [|done]. exists S. cbn [ck_sum ck_mlen]. split; [done|]. split; [apply HS|].
    destruct (Z.eqb_spec z (-1)); [done|]. rewrite app_nil_r, even_app, He, Hej.
    split_and!; [done | done |]. rewrite zlen_app, zlen_ztake. lia.
  - split; [|done]. exists S. cbn [ck_sum ck_mlen ck_c0]. split; [done|]. split; [apply HS|].
    cbn [Z.eqb Pos.eqb]. rewrite app_assoc. split_and!.
    + auto with net.
    + rewrite even_app, even_app, He, Hej. done.
    + rewrite (wsum_app_even (bs ++ _)) by (rewrite even_app, He, Hej; done).
      apply oc_eq_add; [done|]. cbn [wsum]. rewrite Z.add_0_r. apply oc_eq_refl.
      pose proof (weight_pos le true).
      pose proof (is_byte_hd (zdrop (2 * j) w) (Bytes_zdrop _ _ Hb)) as [? _]. nia.
    + rewrite zlen_app, zlen_app, zlen_ztake. change (zlen [_]) with 1. lia.
Qed.

(** The region of a word-unaligned mbuf: its first byte is kept aside and
    the rest is summed on the other byte lane. *)
Lemma swapped_region T bs b0 w mlen len :
  region_ok T bs → 0 <= mlen <= zlen w → Bytes (b0 :: w) → Bytes bs →
  zlen bs + mlen + 1 <= 65535 →
  let st := sum_region le (s32 (REDUCE (s32 T) * 256)) w mlen b0 true len in
  ck_inv st (bs ++ b0 :: ztake mlen w) ∧ ck_len st = len.
Proof.
  intros (He & HT & H0 & Hbd) Hw Hbb Hbs Hlen.
  pose proof (zlen_nonneg bs). inversion_clear Hbb as [|?? Hb0 Hb].
  destruct (REDUCE_spec T) as [HR HRb]; [lia|].
  destruct (sum_region_eq (REDUCE (s32 T) * 256) w mlen b0 true len)
    as (j & S & z & Hj & Hm & Hz & HS & HSb & ->);
    [done | done | lia | lia |]. cbn zeta.
  set (X := ztake (2 * j) w) in *.
  assert (Nat.even (length X) = true) as Hej by (apply (even_ztake _ j); lia).
  destruct (REDUCE_spec S) as [HR2 HR2b]; [split; [apply HS | lia]|].
  set (T2 := REDUCE (s32 S) * 256).
  assert (T2 ≈ wsum le true bs + wsum le false X) as HT2.
  { unfold T2. rewrite Z.mul_comm. etrans; [apply oc_eq_mul; [lia | apply HR2]|].
    etrans; [apply oc_eq_mul; [lia | apply HS]|]. rewrite Z.mul_add_distr_l.
    apply oc_eq_add; [|apply (wsum_swap le true); unfold X; auto with net].
    replace (256 * (REDUCE (s32 T) * 256)) with (65536 * REDUCE (s32 T)) by lia.
    etrans; [apply oc_eq_65536; lia|]. by rewrite HR. }
  assert (0 <= b0 < 256) as Hb0' by apply Hb0.
  pose proof (weight_pos le true) as Hwt.
  assert (weight le true * b0 ≈ weight le true * b0) as Hrefl by (apply oc_eq_refl; nia).
  rewrite (split_last_byte mlen j w) by (done || lia). fold X.
  destruct (Z.eqb_spec mlen (2 * j)) as [Hev|Hodd].
  - split; [|done]. exists T2. cbn [ck_sum ck_mlen ck_c0]. split; [done|].
    split; [lia|]. cbn [Z.eqb Pos.eqb]. rewrite app_nil_r. split_and!.
    + done.
    + rewrite even_app, He. cbn [length]. by rewrite Nat.even_succ, <- Nat.negb_even, Hej.
    + rewrite wsum_app_even by done. cbn [wsum negb].
      rewrite (oc_eq_add _ _ HT2 _ _ Hrefl).
      rewrite <- Z.add_assoc, (Z.add_comm (wsum le false X)). rewrite Z.add_assoc.
      apply oc_eq_refl.
      pose proof (wsum_nonneg le true bs Hbs).
      pose proof (wsum_nonneg le false X (Bytes_ztake _ _ Hb)). nia.
    + rewrite zlen_app, zlen_cons. pose proof (zlen_nonneg X). lia.
  - set (b1 := List.hd 0 _).
    assert (is_byte b1) as Hb1 by (unfold b1; auto with net).
    pose proof (ushort_range le b0 b1 Hb0 Hb1) as Hus.
    split; [|done]. exists (T2 + ushort le b0 b1). cbn [ck_sum ck_mlen ck_c0]. split; [done|].
    split; [lia|]. change (0 =? -1) with false. cbv iota. split_and!.
    + rewrite even_app, He. cbn [length]. rewrite Nat.even_succ, <- Nat.negb_even, even_app, Hej.
      done.
    + rewrite wsum_app_even by done. cbn [wsum negb]. rewrite wsum_app, Hej. cbn [wsum negb].
      rewrite ushort_weight in *. etrans; [apply oc_eq_add; [apply HT2 | apply oc_eq_refl; lia]|].
      rewrite Z.add_0_r. 
      replace (_ + _ + (_ + _)) with (wsum le true bs + (weight le true * b0 +
        (wsum le false X + weight le false * b1))) by lia.
      apply oc_eq_refl. pose proof (wsum_nonneg le true bs Hbs).
      pose proof (wsum_nonneg le false X (Bytes_ztake _ _ Hb)). lia.
    + rewrite zlen_app, zlen_cons, zlen_app. change (zlen [_]) with 1.
      pose proof (zlen_nonneg X). lia.
Qed.

(** Either kind of region. *)
Lemma region_step T bs w addr mlen c0 len :
  region_ok T bs → 0 <= mlen <= zlen w → Bytes w → Bytes bs →
  zlen bs + mlen <= 65535 →
  let st :=
    let '(sum, w, mlen, c0, sw) := align_even (s32 T) w addr mlen c0 in
    sum_region le sum w mlen c0 sw len in
  ck_inv st (bs ++ ztake mlen w) ∧ ck_len st = len.
Proof.
  intros Hok Hw Hb Hbs Hlen. unfold align_even.
  destruct (Z.odd addr && (0 <? mlen)) eqn:E; [|by apply aligned_region].
  apply andb_true_iff in E as [_ Hpos%Z.ltb_lt].
  destruct w as [|b0 w]; [change (zlen []) with 0 in Hw; lia|].
  rewrite zlen_cons in Hw. cbn [tail List.hd].
  replace (ztake mlen (b0 :: w)) with (b0 :: ztake (mlen - 1) w)
    by (unfold ztake; by replace (Z.to_nat mlen) with (S (Z.to_nat (mlen - 1))) by lia).
  apply swapped_region; done || lia.
Qed.

(** The byte that completes the pending word. *)
Lemma join_pending T bs c0 b :
  0 <= T → is_byte c0 → is_byte b → Bytes bs → Nat.even (length bs) = false →
  T + weight le true * c0 ≈ wsum le true bs → T <= 16777000 + 32768 * (zlen bs - 1) →
  region_ok (T + ushort le c0 b) (bs ++ [b]).
Proof.
  intros HT Hc Hb Hbs He Hoc Hbd. pose proof (ushort_range le c0 b Hc Hb).
  split_and!; [by rewrite even_app, He | | lia |].
  - rewrite wsum_app, He, ushort_weight, Z.add_assoc. apply oc_eq_add; [done|].
    cbn [wsum negb]. rewrite Z.add_0_r. apply oc_eq_refl.
    pose proof (weight_pos le false). destruct Hb. nia.
  - rewrite zlen_app. change (zlen [_]) with 1. lia.
Qed.

(** One mbuf. *)
Lemma cksum_mbuf_inv st bs m :
  ck_inv st bs → Bytes bs → mbuf_wf m → Bytes (mdata m) →
  0 < ck_len st → zlen bs + ck_len st <= 65535 →
  let n := Z.min (m_len m) (ck_len st) in
  ck_inv (cksum_mbuf le st m) (bs ++ ztake n (mdata m)) ∧
  ck_len (cksum_mbuf le st m) = ck_len st - n.
Proof.
  intros (T & HTs & HT & Hinv) Hbs Hm Hb Hl Hlen n.
  pose proof (mdata_zlen m Hm) as Hz. pose proof (zlen_nonneg bs).
  assert (0 <= m_len m) as Hml by apply Hm.
  unfold cksum_mbuf. destruct (Z.eqb_spec (m_len m) 0) as [Hz0|Hn0].
  { replace n with 0 by lia. rewrite ztake_neg, app_nil_r, Z.sub_0_r by lia.
    split; [by exists T | done]. }
  destruct st as [sum ml c0 len]. cbn [ck_sum ck_mlen ck_c0 ck_len] in *. subst sum.
  destruct (Z.eqb_spec ml (-1)) as [->|Hev].
  - destruct Hinv as (Hc & He & Hoc & Hbd).
    destruct (mdata m) as [|b w] eqn:Hd; [change (zlen []) with 0 in Hz; lia|].
    rewrite zlen_cons in Hz. inversion_clear Hb as [|?? Hb0 Hbw]. cbn [List.hd tail].
    replace (ztake n (b :: w)) with ([b] ++ ztake (n - 1) w)
      by (unfold ztake; by replace (Z.to_nat n) with (S (Z.to_nat (n - 1))) by lia).
    rewrite app_assoc, s32_add.
    replace (if len - 1 <? m_len m - 1 then len - 1 else m_len m - 1) with (n - 1)
      by (destruct (Z.ltb_spec (len - 1) (m_len m - 1)); lia).
    replace (len - n) with (len - 1 - (n - 1)) by lia.
    apply region_step; [by apply join_pending | lia | done | |].
    + apply Bytes_app; [done|]. by constructor.
    + rewrite zlen_app. change (zlen [_]) with 1. lia.
  - destruct Hinv as (He & Hoc & Hbd).
    replace (if len <? m_len m then len else m_len m) with n
      by (destruct (Z.ltb_spec len (m_len m)); lia).
    apply region_step; done || lia.
Qed.

(** The whole chain. *)
Lemma cksum_chain_inv c : ∀ st bs,
  ck_inv st bs → Bytes bs → chain_wf c → Bytes (chain_bytes c) →
  0 <= ck_len st → zlen bs + ck_len st <= 65535 →
  let n := Z.min (chain_len c) (ck_len st) in
  ck_inv (cksum_chain le st c) (bs ++ ztake n (chain_bytes c)) ∧
  ck_len (cksum_chain le st c) = ck_len st - n.
Proof.
  induction c as [|m c IH]; intros st bs Hinv Hbs Hwf Hb Hl Hlen n.
  { subst n. change (chain_len []) with 0. cbn [cksum_chain].
    rewrite ztake_neg, app_nil_r by lia. split; [done|lia]. }
  inversion_clear Hwf as [|?? Hm Hc]. pose proof (chain_len_nonneg c Hc).
  assert (0 <= m_len m) by apply Hm.
  subst n. rewrite chain_bytes_cons, chain_len_cons in *. cbn [cksum_chain].
  apply Forall_app in Hb as [Hb1 Hb2].
  destruct (Z.eqb_spec (ck_len st) 0) as [Hz0|Hn0].
  { rewrite ztake_neg, app_nil_r by lia. split; [done|lia]. }
  destruct (cksum_mbuf_inv st bs m) as [Hst Hst']; try done; [lia|].
  pose proof (mdata_zlen m Hm).
  destruct (IH (cksum_mbuf le st m) (bs ++ ztake (Z.min (m_len m) (ck_len st)) (mdata m)))
    as [Hr1 Hr2]; try done.
  - apply Bytes_app; [done|]. by apply Bytes_ztake.
  - lia.
  - rewrite zlen_app, zlen_ztake, Hst'. lia.
  - rewrite Hst' in Hr1, Hr2. split; [|lia].
    rewrite <- app_assoc in Hr1.
    replace (ztake (Z.min (m_len m + chain_len c) (ck_len st)) (mdata m ++ chain_bytes c))
      with (ztake (Z.min (m_len m) (ck_len st)) (mdata m) ++
            ztake (Z.min (chain_len c) (ck_len st - Z.min (m_len m) (ck_len st)))
              (chain_bytes c)); [done|].
    destruct (Z.le_ge_cases (ck_len st) (m_len m)).
    + rewrite (ztake_neg (Z.min (chain_len c) _)), app_nil_r by lia.
      rewrite ztake_app_le by lia. f_equal. lia.
    + rewrite ztake_app_ge by lia. rewrite (ztake_all (Z.min (m_len m) _)) by lia.
      f_equal. f_equal. lia.
Qed.
End Loops.

(** ** Results *)

Lemma fold_carries_spec fuel : ∀ a, 0 <= a → a / 65535 < Z.of_nat fuel →
  fold_carries fuel a ≈ a ∧ 0 <= fold_carries fuel a <= 65535.
Proof.
  induction fuel as [|fuel IH]; intros a Ha Hf.
  { pose proof (Z.div_pos a 65535). lia. }
  cbn [fold_carries]. destruct (Z.ltb_spec a 65536); [split; [by apply oc_eq_refl | lia]|].
  change 65535 with (Z.ones 16). rewrite Z.land_ones, Z.shiftr_div_pow2 by lia.
  change (2 ^ 16) with 65536. change (Z.ones 16) with 65535 in *.
  pose proof (Z.div_mod a 65536 ltac:(lia)).
  pose proof (Z.mod_pos_bound a 65536 ltac:(lia)).
  assert (1 <= a / 65536) by (apply Z.div_le_lower_bound; lia).
  destruct (IH (a mod 65536 + a / 65536)) as [Hf1 Hf2]; [lia | |].
  - replace (a mod 65536 + a / 65536) with (a + (- (a / 65536)) * 65535) by lia.
    rewrite Z.div_add by lia. lia.
  - split; [|done]. rewrite Hf1. by apply fold16.
Qed.

Lemma complement16 a : 0 <= a <= 65535 → Z.land (Z.lnot a) 65535 = 65535 - a.
Proof.
  intros. change 65535 with (Z.ones 16) at 1. rewrite Z.land_ones by lia.
  unfold Z.lnot. change (2 ^ 16) with 65536.
  replace (Z.pred (- a)) with ((65535 - a) + (-1) * 65536) by lia.
  rewrite Z.mod_add by lia. apply Z.mod_small. lia.
Qed.

Lemma rfc1071_spec le bs : Bytes bs →
  ∃ s, rfc1071 le bs = 65535 - s ∧ 0 <= s <= 65535 ∧ s ≈ wsum le true bs.
Proof.
  intros Hb. unfold rfc1071. rewrite word_sum_wsum.
  pose proof (wsum_nonneg le true bs Hb).
  destruct (fold_carries_spec (S (Z.to_nat (wsum le true bs / 65535))) (wsum le true bs))
    as [Hs1 Hs2]; [done | pose proof (Z.div_pos (wsum le true bs) 65535); lia |].
  rewrite complement16 by done. by eexists.
Qed.

(** What [in_cksum] computes, before the reference is unfolded. *)
Lemma in_cksum_value le c len : chain_wf c → Bytes (chain_bytes c) → 0 <= len <= 65535 →
  ∃ s, in_cksum le c len = (65535 - s, chain_len c <? len) ∧ 0 <= s <= 65535 ∧
    s ≈ wsum le true (ztake len (chain_bytes c)).
Proof.
  intros Hwf Hb Hlen. pose proof (chain_len_nonneg c Hwf).
  destruct (cksum_chain_inv le c (MkCk 0 0 0 len) []) as [(T & HTs & HT & Hinv) Hl];
    [by exists 0 | done | done | done | cbn [ck_len]; lia | cbn [ck_len]; change (zlen []) with 0; lia |].
  cbn [ck_len app] in *. rewrite <- chain_bytes_zlen in Hinv by done.
  assert (ztake (Z.min (zlen (chain_bytes c)) len) (chain_bytes c) =
          ztake len (chain_bytes c)) as Htk.
  { destruct (Z.le_ge_cases (zlen (chain_bytes c)) len).
    - by rewrite !ztake_all by lia.
    - f_equal. lia. }
  rewrite Htk in Hinv. pose proof (zlen_ztake len (chain_bytes c)) as Hz.
  unfold in_cksum. rewrite HTs, Hl.
  replace (negb (len - Z.min (chain_len c) len =? 0)) with (chain_len c <? len)
    by (destruct (Z.ltb_spec (chain_len c) len), (Z.eqb_spec (len - Z.min (chain_len c) len) 0);
        (done || lia)).
  destruct (ck_mlen _ =? -1).
  - destruct Hinv as (Hc & He & Hoc & Hbd). rewrite s32_add.
    assert (ushort le (ck_c0 (cksum_chain le (MkCk 0 0 0 len) c)) 0 =
            weight le true * ck_c0 (cksum_chain le (MkCk 0 0 0 len) c)) as Hus.
    { rewrite ushort_weight. lia. }
    pose proof (ushort_range le _ 0 Hc ltac:(done)). rewrite Hus in *.
    destruct (REDUCE_spec (T + weight le true * ck_c0 (cksum_chain le (MkCk 0 0 0 len) c)))
      as [HR HRb]; [lia|].
    rewrite complement16 by done. eexists. split_and!; [done | lia | lia |]. by rewrite HR.
  - destruct Hinv as (He & Hoc & Hbd). destruct (REDUCE_spec T) as [HR HRb]; [lia|].
    rewrite complement16 by done. eexists. split_and!; [done | lia | lia |]. by rewrite HR.
Qed.

(** C4: for every chain, whatever the lengths and alignments of its mbufs,
    and every length that fits an IP datagram, [in_cksum] returns the
    RFC 1071 checksum of the first [len] bytes of the chain, and reports
    "out of data" exactly when the chain is shorter than [len]. *)
Theorem in_cksum_rfc1071 le c len :
  chain_wf c → Bytes (chain_bytes c) → 0 <= len <= 65535 →
  in_cksum le c len = (rfc1071 le (ztake len (chain_bytes c)), chain_len c <? len).
Proof.
  intros Hwf Hb Hlen.
  destruct (in_cksum_value le c len) as (s & -> & Hs & Hoc); try done.
  destruct (rfc1071_spec le (ztake len (chain_bytes c))) as (s' & -> & Hs' & Hoc');
    [by apply Bytes_ztake|].
  rewrite (oc_eq_small s s'); [done | lia | lia |]. etrans; [done | by symmetry].
Qed.

(** The two bytes of a [u_short] stored in memory. *)
Definition store16 (le : bool) (v : Z) : bytes :=
  if le then [v mod 256; v / 256] else [v / 256; v mod 256].

Lemma store16_ushort le v : ∃ a b, store16 le v = [a; b] ∧ ushort le a b = v.
Proof.
  unfold store16, ushort. pose proof (Z.div_mod v 256 ltac:(lia)).
  destruct le; eexists _, _; (split; [done|]); lia.
Qed.

Lemma Bytes_field pre a b post : Bytes pre → is_byte a → is_byte b → Bytes post →
  Bytes (pre ++ [a; b] ++ post).
Proof.
  intros. apply Bytes_app; [done|]. apply Bytes_app; [|done].
  by apply Forall_cons_2; [|apply Forall_cons_2; [|apply Forall_nil_2]].
Qed.

(** C12: a packet whose checksum field (at an even offset, zero while the
    checksum was computed) receives the value returned by [in_cksum] passes
    verification: [in_cksum] over it returns 0, on every chain that holds
    the packet. *)
Theorem in_cksum_verifies le c c' pre post :
  chain_wf c → chain_wf c' → Bytes pre → Bytes post → Nat.even (length pre) = true →
  zlen pre + 2 + zlen post <= 65535 → 0 < wsum le true (pre ++ [0; 0] ++ post) →
  let len := zlen pre + 2 + zlen post in
  chain_bytes c = pre ++ [0; 0] ++ post →
  chain_bytes c' = pre ++ store16 le (fst (in_cksum le c len)) ++ post →
  in_cksum le c' len = (0, false).
Proof.
  intros Hwf Hwf' Hpre Hpost Heven Hlen Hpos len Hc Hc'.
  pose proof (zlen_nonneg pre). pose proof (zlen_nonneg post).
  assert (Bytes (chain_bytes c)) as Hb by (rewrite Hc; by apply Bytes_field).
  destruct (in_cksum_value le c len) as (s & Heq & Hs & Hoc); [done | done | lia |].
  rewrite Heq in Hc'. cbn [fst] in Hc'.
  destruct (store16_ushort le (65535 - s)) as (a & b & Hst & Hab).
  assert (is_byte a ∧ is_byte b) as [Ha Hbb].
  { unfold store16 in Hst. pose proof (Z.mod_pos_bound (65535 - s) 256 ltac:(lia)).
    assert (0 <= (65535 - s) / 256 < 256)
      by (split; [apply Z.div_pos | apply Z.div_lt_upper_bound]; lia).
    unfold is_byte. destruct le; injection Hst as <- <-; lia. }
  rewrite Hst in Hc'.
  assert (Bytes (chain_bytes c')) as Hb'
    by (rewrite Hc'; by apply Bytes_field).
  assert (zlen (chain_bytes c) = len ∧ zlen (chain_bytes c') = len) as [Hl Hl'].
  { rewrite Hc, Hc', !zlen_app. change (zlen [_; _]) with 2. lia. }
  destruct (in_cksum_value le c' len) as (s' & -> & Hs' & Hoc'); [done | done | lia |].
  rewrite <- (chain_bytes_zlen c') by done. rewrite Hl'.
  rewrite ztake_all in Hoc, Hoc' by lia. rewrite Hc in Hoc. rewrite Hc' in Hoc'.
  rewrite wsum_app, Heven in Hoc, Hoc', Hpos. cbn [wsum app negb] in Hoc, Hoc', Hpos.
  rewrite !Z.mul_0_r, !Z.add_0_l in Hoc, Hpos.
  replace (_ + _) with (65535 - s + (wsum le true pre + wsum le true post)) in Hoc'
    by (rewrite <- Hab, ushort_weight; lia).
  assert (s' ≈ 65535) as Hfin.
  { rewrite Hoc'. etrans; [apply oc_eq_add; [apply oc_eq_refl; lia | symmetry; apply Hoc]|].
    replace (65535 - s + s) with 65535 by lia. done. }
  rewrite (oc_eq_small s' 65535); [|lia|lia|done].
  f_equal. apply Z.ltb_ge. lia.
Qed.

Lemma even_of_nat n : Z.even (Z.of_nat n) = Nat.even n.
Proof.
  induction n as [|n IH]; [done|].
  by rewrite Nat2Z.inj_succ, Z.even_succ, Nat.even_succ, <- Z.negb_even, <- Nat.negb_even, IH.
Qed.

(** ** The branch over the architecture dependent [cksum] *)

Section Asm.
Variable le : bool.
Variable cksum : Z → bytes → Z → Z → Z.

(** [cksum sum w n slen] adds [n] bytes to a 16-bit one's complement sum
    of [slen] bytes. *)
Definition cksum_law : Prop := ∀ s w n slen,
  0 <= s <= 65535 → Bytes w → 0 <= n <= zlen w → 0 <= slen →
  0 <= cksum s w n slen <= 65535 ∧
  cksum s w n slen ≈ s + wsum le (Z.even slen) (ztake n w).

Hypothesis Hcksum : cksum_law.

Lemma asm_loop_spec c : ∀ s bs len,
  chain_wf c → Bytes (chain_bytes c) → 0 <= s <= 65535 → Bytes bs → 0 <= len →
  s ≈ wsum le true bs →
  let '(s', len') := in_cksum_asm_loop cksum c s (zlen bs) len in
  0 <= s' <= 65535 ∧ len' = len - Z.min (chain_len c) len ∧
  s' ≈ wsum le true (bs ++ ztake len (chain_bytes c)).
Proof.
  induction c as [|m c IH]; intros s bs len Hwf Hb Hs Hbs Hlen Hoc.
  { cbn [in_cksum_asm_loop]. change (chain_bytes []) with (@nil Z).
    rewrite ztake_all, app_nil_r, chain_len_nil by (change (zlen []) with 0; lia).
    split_and!; [lia | lia | lia | done]. }
  inversion_clear Hwf as [|?? Hm Hc]. pose proof (chain_len_nonneg c Hc).
  pose proof (mdata_zlen m Hm) as Hz. assert (0 <= m_len m) by apply Hm.
  rewrite chain_bytes_cons in *. rewrite chain_len_cons. cbn [in_cksum_asm_loop].
  apply Forall_app in Hb as [Hb1 Hb2].
  destruct (Z.eqb_spec len 0) as [->|Hl].
  { rewrite ztake_neg, app_nil_r by lia. split_and!; [lia | lia | lia | done]. }
  destruct (Z.ltb_spec 0 (m_len m)) as [Hp|Hn0].
  - set (n := if len <? m_len m then len else m_len m).
    assert (n = Z.min (m_len m) len) as Hn
      by (unfold n; destruct (Z.ltb_spec len (m_len m)); lia).
    destruct (Hcksum s (mdata m) n (zlen bs)) as [Hr Hoc']; [done | done | lia | |].
    { apply zlen_nonneg. }
    rewrite u16_id by lia.
    assert (zlen bs + n = zlen (bs ++ ztake n (mdata m))) as ->
      by (rewrite zlen_app, zlen_ztake; lia).
    specialize (IH (cksum s (mdata m) n (zlen bs)) (bs ++ ztake n (mdata m)) (len - n)).
    destruct (in_cksum_asm_loop _ _ _ _ _) as [s' len'].
    destruct IH as (Hs' & -> & Hoc''); [done | done | done | | lia | |].
    { apply Bytes_app; [done|]. by apply Bytes_ztake. }
    { rewrite Hoc', wsum_app. apply oc_eq_add; [done|].
      replace (if Nat.even (length bs) then true else negb true) with (Z.even (zlen bs))
        by (unfold zlen; rewrite even_of_nat; by case_match).
      apply oc_eq_refl, wsum_nonneg. by apply Bytes_ztake. }
    split_and!; [lia | lia | lia |]. rewrite Hoc'', <- app_assoc.
    destruct (Z.le_ge_cases len (m_len m)).
    + rewrite (ztake_neg (len - n)), app_nil_r, ztake_app_le by lia.
      replace n with len by lia. apply oc_eq_refl, wsum_nonneg.
      apply Bytes_app; [done|]. by apply Bytes_ztake.
    + rewrite ztake_app_ge, (ztake_all n) by lia. replace (len - zlen (mdata m)) with (len - n) by lia.
      apply oc_eq_refl, wsum_nonneg.
      repeat apply Bytes_app; try done. by apply Bytes_ztake.
  - assert (mdata m = []) as -> by (destruct (mdata m); [done | rewrite zlen_cons in Hz;
      pose proof (zlen_nonneg l); lia]).
    replace (m_len m) with 0 by lia. rewrite Z.add_0_l. by apply IH.
Qed.
End Asm.

(** the branch of [in_cksum] that calls the architecture dependent
    routine [cksum] computes the same function: the RFC 1071 checksum of the
    first [len] bytes, with the same "out of data" report, provided [cksum]
    adds its bytes to the 16-bit sum at the parity it is told. *)
Theorem in_cksum_asm_rfc1071 le cksum c len :
  cksum_law le cksum → chain_wf c → Bytes (chain_bytes c) → 0 <= len →
  in_cksum_asm cksum c len = (rfc1071 le (ztake len (chain_bytes c)), chain_len c <? len).
Proof.
  intros Hck Hwf Hb Hlen. unfold in_cksum_asm.
  pose proof (chain_len_nonneg c Hwf).
  pose proof (asm_loop_spec le cksum Hck c 0 [] len Hwf Hb) as Hloop.
  change (zlen []) with 0 in Hloop. destruct (in_cksum_asm_loop _ _ _ _ _) as [s len'].
  destruct Hloop as (Hs & -> & Hoc); [lia | done | done | done |].
  destruct (rfc1071_spec le (ztake len (chain_bytes c))) as (s' & -> & Hs' & Hoc');
    [by apply Bytes_ztake|].
  rewrite complement16 by done. f_equal.
  - rewrite (oc_eq_small s s'); [done | lia | lia |]. etrans; [done | by symmetry].
  - destruct (Z.ltb_spec (chain_len c) len), (Z.eqb_spec (len - Z.min (chain_len c) len) 0);
      (done || lia).
Qed.

(** ** Concrete inputs *)

(** A [cksum] that meets the law. *)
Definition simple_cksum (le : bool) (s : Z) (w : bytes) (n slen : Z) : Z :=
  let t := s + wsum le (Z.even slen) (ztake n w) in
  fold_carries (S (Z.to_nat (t / 65535))) t.

Lemma simple_cksum_law le : cksum_law le (simple_cksum le).
Proof.
  intros s w n slen Hs Hw Hn Hk. unfold simple_cksum.
  pose proof (wsum_nonneg le (Z.even slen) _ (Bytes_ztake n w Hw)).
  set (t := s + _). pose proof (Z.div_pos t 65535).
  destruct (fold_carries_spec (S (Z.to_nat (t / 65535))) t); [lia | lia | done].
Qed.

(** An IP header in three mbufs of odd lengths at odd addresses. *)
Definition sample_packet : chain :=
  [mk_mbuf 1 16 [0x45; 0; 0]; mk_mbuf 2 16 [0x73; 0; 0; 0x40; 0];
   mk_mbuf 3 32 [0x40; 0x11; 0; 0; 0xc0; 0xa8; 0; 1; 0xc0; 0xa8; 0; 0xc7]].

Definition sample_packet_summed : chain :=
  [mk_mbuf 1 32 [0x45; 0; 0; 0x73; 0; 0; 0x40; 0; 0x40; 0x11; 0xb8; 0x61; 0xc0];
   mk_mbuf 2 16 [0xa8; 0; 1; 0xc0; 0xa8; 0; 0xc7]].

Lemma sample_packet_wf : chain_wf sample_packet ∧ Bytes (chain_bytes sample_packet).
Proof.
  split; [repeat (apply Forall_cons_2 || apply Forall_nil_2);
    split_and!; vm_compute; discriminate | by vm_compute; compute_done].
Qed.

Lemma in_cksum_rfc1071_witness :
  in_cksum false sample_packet 20 = (0xb861, false).
Proof.
  destruct sample_packet_wf as [Hwf Hb].
  rewrite (in_cksum_rfc1071 false sample_packet 20 Hwf Hb ltac:(lia)). reflexivity.
Defined.

Lemma in_cksum_asm_rfc1071_witness :
  in_cksum_asm (simple_cksum false) sample_packet 20 = (0xb861, false).
Proof.
  destruct sample_packet_wf as [Hwf Hb].
  rewrite (in_cksum_asm_rfc1071 false (simple_cksum false) sample_packet 20
    (simple_cksum_law false) Hwf Hb ltac:(lia)). reflexivity.
Defined.

Lemma in_cksum_verifies_witness : in_cksum false sample_packet_summed 20 = (0, false).
Proof.
  destruct sample_packet_wf as [Hwf Hb].
  apply (in_cksum_verifies false sample_packet sample_packet_summed
    [0x45; 0; 0; 0x73; 0; 0; 0x40; 0; 0x40; 0x11]
    [0xc0; 0xa8; 0; 1; 0xc0; 0xa8; 0; 0xc7]); try reflexivity; try exact Hwf.
  - repeat (apply Forall_cons_2 || apply Forall_nil_2); split_and!; vm_compute; discriminate.
  - compute_done.
  - compute_done.
  - vm_compute; discriminate.
Defined.
