(* ===== verification/SockBuf.v ===== *)
(** * Socket buffers ([uipc_sock2.c])

    A socket buffer queues records; a record is an mbuf chain.  Records
    linked by [m_nextpkt] are a list of chains, the mbufs of a record linked
    by [m_next] a list.  The macros of [socketvar.h] ([sballoc], [sbfree],
    [sbspace]) are not part of the sources: they are the class [SockVar],
    with the laws that [sbcheck], the consistency check of the source, tests. *)
From Stdlib Require Import ZArith Lia Bool.
From stdpp Require Import base tactics list numbers option.
From S2P Require Import Prelude Mbuf.

Local Open Scope Z_scope.

(** ** Data *)

Record sockbuf := MkSb {
  sb_mb : list chain;      (** the records *)
  sb_cc : Z;               (** bytes of data *)
  sb_hiwat : Z;
  sb_mbcnt : Z;            (** buffer space in use *)
  sb_mbmax : Z;
  sb_lowat : Z;
  sb_lock : bool           (** [SB_LOCK] of [sb_flags] *)
}.

Definition set_mb r sb := MkSb r (sb_cc sb) (sb_hiwat sb) (sb_mbcnt sb) (sb_mbmax sb) (sb_lowat sb) (sb_lock sb).
Definition set_counts cc cnt sb := MkSb (sb_mb sb) cc (sb_hiwat sb) cnt (sb_mbmax sb) (sb_lowat sb) (sb_lock sb).
Definition set_limits hi mx lo sb := MkSb (sb_mb sb) (sb_cc sb) hi (sb_mbcnt sb) mx lo (sb_lock sb).

(** The space [sbcheck] charges for an mbuf. *)
Definition mbcost (MSIZE : Z) (m : mbuf) : Z :=
  MSIZE + (if M_EXT (m_flags m) then m_extSize m else 0).

(** The macros of [socketvar.h] and the constants of the headers. *)
Class SockVar := {
  MSIZE : Z;
  MCLBYTES : Z;
  CL_SIZE_MIN : Z;
  CL_SIZE_64 : Z;
  CL_SIZE_128 : Z;
  sb_max : Z;
  MT_SONAME : Z;
  MT_OOBDATA : Z;
  MT_CONTROL : Z;
  M_DONTWAIT : Z;
  sballoc : sockbuf → mbuf → sockbuf;
  sbfree : sockbuf → mbuf → sockbuf;
  sbspace : sockbuf → Z
}.

Class SockVarLaws `{SockVar} := {
  MSIZE_pos : 0 < MSIZE;
  sballoc_eq : ∀ sb m, sballoc sb m =
    set_counts (sb_cc sb + m_len m) (sb_mbcnt sb + mbcost MSIZE m) sb;
  sbfree_eq : ∀ sb m, sbfree sb m =
    set_counts (sb_cc sb - m_len m) (sb_mbcnt sb - mbcost MSIZE m) sb
}.

Section SockBuf.
Context `{SockVar} {P : Type} `{NetBuf P}.

(** ** [sbcompress] *)

Definition is_eor (m : mbuf) : bool := M_EOR (m_flags m).
Definition set_eor (b : bool) (m : mbuf) : mbuf := set_flags (set_M_EOR b (m_flags m)) m.

(** Append the bytes of [m] to the data of [n] ([bcopy] and [m_len +=]). *)
Definition copy_onto (n m : mbuf) : mbuf :=
  set_len (m_len n + m_len m)
    (set_ext (splice (m_off n + m_len n) (mdata m) (m_ext n)) n).

(** "or [((o = m->m_next) || (o = n)) && o->m_type == m->m_type]". *)
Definition same_type_neighbour (m : mbuf) (rest rec : chain) : bool :=
  match rest with
  | o :: _ => m_type o =? m_type m
  | [] => match list.last rec with Some n => m_type n =? m_type m | None => false end
  end.

(** The five conditions for copying the data of [m] into the cluster of [n]. *)
Definition can_compress (n m : mbuf) : bool :=
  negb (is_eor n) && (m_len m <? CL_SIZE_MIN) &&
  (m_off n + m_len n + m_len m <? m_extSize n) && (m_type n =? m_type m).

(** [rec] is the record being extended: its last mbuf is the variable [n]
    of the code, null when [rec] is empty. *)
Fixpoint compress_loop (sb : sockbuf) (p : P) (rec m : chain) (eor : bool)
  : sockbuf * P * chain * bool :=
  match m with
  | [] => (sb, p, rec, eor)
  | x :: rest =>
      let eor := eor || is_eor x in
      if (m_len x =? 0) && (negb eor || same_type_neighbour x rest rec)
      then compress_loop sb (mBlkFree p x) rec rest eor
      else
        match list.last rec with
        | Some n =>
            if can_compress n x then
              compress_loop (set_counts (sb_cc sb + m_len x) (sb_mbcnt sb) sb)
                (mBlkFree p x) (removelast rec ++ [copy_onto n x]) rest eor
            else compress_loop (sballoc sb x) p (rec ++ [set_eor false x]) rest eor
        | None => compress_loop (sballoc sb x) p (rec ++ [set_eor false x]) rest eor
        end
  end.

Definition sbcompress (sb : sockbuf) (p : P) (rec m : chain) : sockbuf * P * chain :=
  let '(sb, p, rec, eor) := compress_loop sb p rec m false in
  (sb, p, if eor then map_last (set_eor true) rec else rec).

(** ** Appending *)

(** "Put the first mbuf on the queue", the rest is compressed behind it;
    [pre] and [post] are the records before and after the new one. *)
Definition put_record (sb : sockbuf) (p : P) (pre : list chain) (m0 : mbuf)
    (m : chain) (post : list chain) : sockbuf * P :=
  let sb := sballoc sb m0 in
  let '(m0, m) :=
    match m with
    | x :: r => if is_eor m0 then (set_eor false m0, set_eor true x :: r) else (m0, m)
    | [] => (m0, [])
    end in
  let '(sb, p, rec) := sbcompress sb p [m0] m in
  (set_mb (pre ++ rec :: post) sb, p).

Definition sbappendrecord (sb : sockbuf) (p : P) (m0 : chain) : sockbuf * P :=
  match m0 with
  | [] => (sb, p)
  | x :: m => put_record sb p (sb_mb sb) x m []
  end.

(** Split a list of records into all but the last, and the last. *)
Definition split_records (rs : list chain) : list chain * chain :=
  (removelast rs, List.last rs []).

Definition sbappend (sb : sockbuf) (p : P) (m : chain) : sockbuf * P :=
  match m with
  | [] => (sb, p)
  | _ =>
      let '(pre, rec) := split_records (sb_mb sb) in
      if existsb is_eor rec then sbappendrecord sb p m
      else
        let '(sb, p, rec) := sbcompress sb p rec m in
        (set_mb (pre ++ match rec with [] => [] | _ => [rec] end) sb, p)
  end.

(** The scan of [sbinsertoob]: is this record out-of-band data, possibly
    after control mbufs? *)
Fixpoint oob_train (rec : chain) : bool :=
  match rec with
  | [] => false
  | m :: r =>
      if m_type m =? MT_OOBDATA then true
      else if m_type m =? MT_CONTROL then
        match r with [] => false | _ => oob_train r end
      else false
  end.

Fixpoint oob_split (rs : list chain) : list chain * list chain :=
  match rs with
  | [] => ([], [])
  | r :: rs' =>
      if oob_train r then let '(a, b) := oob_split rs' in (r :: a, b) else ([], rs)
  end.

Definition sbinsertoob (sb : sockbuf) (p : P) (m0 : chain) : sockbuf * P :=
  match m0 with
  | [] => (sb, p)
  | x :: m => let '(pre, post) := oob_split (sb_mb sb) in put_record sb p pre x m post
  end.

(** A record put whole at the end of the queue. *)
Definition enqueue (sb : sockbuf) (rec : chain) : sockbuf :=
  let sb := foldl sballoc sb rec in set_mb (sb_mb sb ++ [rec]) sb.

(** [sbappendaddr]: the outer [None] is the [panic] on a missing header;
    the result is the [int] of the code.  The address is the [asa->sa_len]
    bytes of [asa]. *)
Definition sbappendaddr (sb : sockbuf) (p : P) (asa : bytes) (m0 control : chain)
  : option (Z * sockbuf * P) :=
  match m0 with
  | m :: _ => if negb (has_pkthdr m) then None else Some tt
  | [] => Some tt
  end ≫= λ _,
  let space := zlen asa + match m0 with m :: _ => ph_len (m_pkthdr m) | [] => 0 end
               + chain_len control in
  if sbspace sb <? space then Some (0, sb, p)
  else if CL_SIZE_128 <? zlen asa then Some (0, sb, p)
  else
    match mBufClGet p M_DONTWAIT MT_SONAME CL_SIZE_128 true with
    | (None, p) => Some (0, sb, p)
    | (Some m, p) =>
        let m := set_ext (splice (m_off m) asa (m_ext m)) (set_len (zlen asa) m) in
        Some (1, enqueue sb (m :: control ++ m0), p)
    end.

(** [sbappendcontrol]: [None] is the [panic] on a null control chain. *)
Definition sbappendcontrol (sb : sockbuf) (m0 control : chain) : option (Z * sockbuf) :=
  match control with
  | [] => None
  | _ =>
      let space := chain_len control + chain_len m0 in
      if sbspace sb <? space then Some (0, sb)
      else Some (1, enqueue sb (control ++ m0))
  end.

(** ** Dropping *)

(** The first loop of [sbdrop]: [m] and [next] are the variables of the
    code, the rest of the current record and the records behind it.
    [None] is the [panic]. *)
Fixpoint drop_chain (sb : sockbuf) (p : P) (m : chain) (len : Z)
  : sockbuf * P * chain * Z :=
  match m with
  | [] => (sb, p, [], len)
  | x :: r =>
      if 0 <? len then
        if len <? m_len x then
          (set_counts (sb_cc sb - len) (sb_mbcnt sb) sb, p,
           set_off (m_off x + len) (set_len (m_len x - len) x) :: r, 0)
        else drop_chain (sbfree sb x) (mBlkFree p x) r (len - m_len x)
      else (sb, p, m, len)
  end.

Fixpoint drop_records (sb : sockbuf) (p : P) (m : chain) (next : list chain) (len : Z)
  : option (sockbuf * P * chain * list chain) :=
  let '(sb, p, m, len) := drop_chain sb p m len in
  if 0 <? len then
    match next with
    | [] => None
    | m' :: next' => drop_records sb p m' next' len
    end
  else Some (sb, p, m, next).

(** [while (m && m->m_len == 0)]. *)
Fixpoint drop_empty (sb : sockbuf) (p : P) (m : chain) : sockbuf * P * chain :=
  match m with
  | x :: r =>
      if m_len x =? 0 then drop_empty (sbfree sb x) (mBlkFree p x) r else (sb, p, m)
  | [] => (sb, p, [])
  end.

Definition sbdrop (sb : sockbuf) (p : P) (len : Z) : option (sockbuf * P) :=
  let '(m, next) := match sb_mb sb with m :: next => (m, next) | [] => ([], []) end in
  '(sb, p, m, next) ← drop_records sb p m next len;
  let '(sb, p, m) := drop_empty sb p m in
  Some (set_mb (match m with [] => next | _ => m :: next end) sb, p).

Definition sbdroprecord (sb : sockbuf) (p : P) : sockbuf * P :=
  match sb_mb sb with
  | [] => (sb, p)
  | m :: next => (foldl sbfree (set_mb next sb) m, foldl mBlkFree p m)
  end.

(** [while (sb->sb_mbcnt) sbdrop (sb, sb->sb_cc)]. *)
Fixpoint flush_loop (fuel : nat) (sb : sockbuf) (p : P) : option (sockbuf * P) :=
  match fuel with
  | O => None
  | S fuel =>
      if sb_mbcnt sb =? 0 then Some (sb, p)
      else '(sb, p) ← sbdrop sb p (sb_cc sb); flush_loop fuel sb p
  end.

(** [None] is one of the two panics (or a loop that does not end). *)
Definition sbflush (sb : sockbuf) (p : P) : option (sockbuf * P) :=
  if sb_lock sb then None
  else
    '(sb, p) ← flush_loop (S (length (sb_mb sb))) sb p;
    if negb (sb_cc sb =? 0) || negb (bool_decide (sb_mb sb = [])) then None
    else Some (sb, p).

(** ** Limits *)

Definition sbreserve (sb : sockbuf) (cc : Z) : Z * sockbuf :=
  if sb_max * MCLBYTES / (MSIZE + MCLBYTES) <? cc then (0, sb)
  else
    let lo := if cc <? sb_lowat sb then cc else sb_lowat sb in
    (1, set_limits cc (Z.min (cc * 5) sb_max) lo sb).

Definition sbrelease (sb : sockbuf) (p : P) : option (sockbuf * P) :=
  '(sb, p) ← sbflush sb p; Some (set_limits 0 0 (sb_lowat sb) sb, p).

(** [soreserve] on the send and receive buffers; [ENOBUFS] is the error. *)
Definition soreserve (ENOBUFS : Z) (snd rcv : sockbuf) (p : P) (sndcc rcvcc : Z)
  : option (Z * sockbuf * sockbuf * P) :=
  let '(ok, snd) := sbreserve snd sndcc in
  if ok =? 0 then Some (ENOBUFS, snd, rcv, p)
  else
    let '(ok, rcv) := sbreserve rcv rcvcc in
    if ok =? 0 then '(snd, p) ← sbrelease snd p; Some (ENOBUFS, snd, rcv, p)
    else
      let lowat v sb := set_limits (sb_hiwat sb) (sb_mbmax sb) v sb in
      let rcv := if sb_lowat rcv =? 0 then lowat 1 rcv else rcv in
      let snd := if sb_lowat snd =? 0 then lowat CL_SIZE_64 snd else snd in
      let snd := if sb_hiwat snd <? sb_lowat snd then lowat (sb_hiwat snd) snd else snd in
      Some (0, snd, rcv, p).

(** ** The operations together *)

Inductive sb_op :=
  | OpAppend (m : chain)
  | OpAppendRecord (m : chain)
  | OpInsertOob (m : chain)
  | OpAppendAddr (asa : bytes) (m0 control : chain)
  | OpAppendControl (m0 control : chain)
  | OpDrop (len : Z)
  | OpDropRecord
  | OpFlush
  | OpReserve (cc : Z).

(** One call: the value it returns (0 for the void functions), the buffer
    and the pool; [None] is a panic. *)
Definition sb_exec (op : sb_op) (sb : sockbuf) (p : P) : option (Z * sockbuf * P) :=
  match op with
  | OpAppend m => let '(sb, p) := sbappend sb p m in Some (0, sb, p)
  | OpAppendRecord m => let '(sb, p) := sbappendrecord sb p m in Some (0, sb, p)
  | OpInsertOob m => let '(sb, p) := sbinsertoob sb p m in Some (0, sb, p)
  | OpAppendAddr asa m0 control => sbappendaddr sb p asa m0 control
  | OpAppendControl m0 control =>
      '(r, sb) ← sbappendcontrol sb m0 control; Some (r, sb, p)
  | OpDrop len => '(sb, p) ← sbdrop sb p len; Some (0, sb, p)
  | OpDropRecord => let '(sb, p) := sbdroprecord sb p in Some (0, sb, p)
  | OpFlush => '(sb, p) ← sbflush sb p; Some (0, sb, p)
  | OpReserve cc => let '(r, sb) := sbreserve sb cc in Some (r, sb, p)
  end.

End SockBuf.

(** ** Lemmas *)

Definition chain_cost (MSIZE : Z) (c : chain) : Z := foldr (λ m acc, mbcost MSIZE m + acc) 0 c.
Definition records_cc (rs : list chain) : Z := foldr (λ c acc, chain_len c + acc) 0 rs.
Definition records_cost (MSIZE : Z) (rs : list chain) : Z :=
  foldr (λ c acc, chain_cost MSIZE c + acc) 0 rs.

(** What [sbcheck] checks, for every record, with the shape of the queue. *)
Definition sb_inv `{SockVar} (sb : sockbuf) : Prop :=
  sb_cc sb = records_cc (sb_mb sb) ∧
  sb_mbcnt sb = records_cost MSIZE (sb_mb sb) ∧
  Forall (λ r, r ≠ [] ∧ chain_wf r) (sb_mb sb).

(** The number of mbufs queued. *)
Definition records_mbufs (rs : list chain) : Z := zlen (concat rs).

(** The contents: one byte string per record. *)
Definition contents (sb : sockbuf) : list bytes := map chain_bytes (sb_mb sb).

Section Facts.
Context `{SockVarLaws} {P : Type} `{NetBufLaws P}.

Lemma chain_cost_app c d : chain_cost MSIZE (c ++ d) = chain_cost MSIZE c + chain_cost MSIZE d.
Proof. unfold chain_cost. induction c; simpl in *; lia. Qed.

Lemma chain_cost_cons m c : chain_cost MSIZE (m :: c) = mbcost MSIZE m + chain_cost MSIZE c.
Proof. done. Qed.

Lemma records_cc_app r s : records_cc (r ++ s) = records_cc r + records_cc s.
Proof. unfold records_cc. induction r; simpl in *; lia. Qed.

Lemma records_cost_app r s :
  records_cost MSIZE (r ++ s) = records_cost MSIZE r + records_cost MSIZE s.
Proof. unfold records_cost. induction r; simpl in *; lia. Qed.

Lemma mbcost_pos m : 0 < mbcost MSIZE m.
Proof.
  pose proof MSIZE_pos. unfold mbcost, m_extSize. pose proof (zlen_nonneg (m_ext m)).
  case_match; lia.
Qed.

Lemma chain_cost_nonneg c : 0 <= chain_cost MSIZE c.
Proof.
  induction c as [|m c IH]; [done|]. rewrite chain_cost_cons. pose proof (mbcost_pos m). lia.
Qed.

Lemma chain_bytes_single m : chain_bytes [m] = mdata m.
Proof. unfold chain_bytes. cbn. by rewrite app_nil_r. Qed.

Lemma chain_cost_single m : chain_cost MSIZE [m] = mbcost MSIZE m.
Proof. cbn. lia. Qed.

Lemma set_counts_eq sb cc cnt cc' cnt' :
  cc = cc' → cnt = cnt' → set_counts cc cnt sb = set_counts cc' cnt' sb.
Proof. by intros -> ->. Qed.

Lemma set_counts_counts sb a b c d :
  set_counts a b (set_counts c d sb) = set_counts a b sb.
Proof. done. Qed.

Lemma set_counts_id sb cc cnt :
  cc = sb_cc sb → cnt = sb_mbcnt sb → sb = set_counts cc cnt sb.
Proof. intros -> ->. by destruct sb. Qed.

Lemma foldl_sballoc c : ∀ sb, foldl sballoc sb c =
  set_counts (sb_cc sb + chain_len c) (sb_mbcnt sb + chain_cost MSIZE c) sb.
Proof.
  induction c as [|m c IH]; intros sb.
  { apply set_counts_id; rewrite ?chain_len_nil; cbn [chain_cost foldr]; lia. }
  cbn [foldl]. rewrite IH, sballoc_eq, chain_len_cons, chain_cost_cons.
  rewrite ?set_counts_counts; apply set_counts_eq; cbn [sb_cc sb_mbcnt set_counts]; lia.
Qed.

Lemma foldl_sbfree c : ∀ sb, foldl sbfree sb c =
  set_counts (sb_cc sb - chain_len c) (sb_mbcnt sb - chain_cost MSIZE c) sb.
Proof.
  induction c as [|m c IH]; intros sb.
  { apply set_counts_id; rewrite ?chain_len_nil; cbn [chain_cost foldr]; lia. }
  cbn [foldl]. rewrite IH, sbfree_eq, chain_len_cons, chain_cost_cons.
  rewrite ?set_counts_counts; apply set_counts_eq; cbn [sb_cc sb_mbcnt set_counts]; lia.
Qed.

(** *** [sbcompress] *)

Lemma copy_onto_spec n x : mbuf_wf n → mbuf_wf x →
  m_off n + m_len n + m_len x < m_extSize n →
  mbuf_wf (copy_onto n x) ∧ mdata (copy_onto n x) = mdata n ++ mdata x ∧
  mbcost MSIZE (copy_onto n x) = mbcost MSIZE n ∧ is_eor (copy_onto n x) = is_eor n.
Proof.
  intros Hn Hx Hroom. pose proof (mdata_zlen x Hx) as Hz.
  assert (copy_onto n x = append_data (mdata x) n) as ->.
  { unfold copy_onto, append_data. by rewrite Hz. }
  destruct (append_data_spec (mdata x) n Hn) as (? & ? & Hs); [lia|].
  split_and!; [done | done | | done]. unfold mbcost. by rewrite Hs.
Qed.

Lemma mbuf_wf_set_eor b m : mbuf_wf m → mbuf_wf (set_eor b m).
Proof. done. Qed.

Lemma mbcost_set_eor b m : mbcost MSIZE (set_eor b m) = mbcost MSIZE m.
Proof. done. Qed.

(** The data, the accounting and the pool through [sbcompress]. *)
Lemma compress_loop_spec m : ∀ sb (p : P) rec eor,
  chain_wf rec → chain_wf m →
  ∃ sb' p' rec', compress_loop sb p rec m eor = (sb', p', rec', eor || existsb is_eor m) ∧
    sb' = set_counts (sb_cc sb + chain_len m)
      (sb_mbcnt sb + (chain_cost MSIZE rec' - chain_cost MSIZE rec)) sb ∧
    chain_wf rec' ∧ chain_bytes rec' = chain_bytes rec ++ chain_bytes m ∧
    pool_live p' = pool_live p - (zlen rec + zlen m - zlen rec') ∧
    (rec ≠ [] → rec' ≠ []) ∧ existsb is_eor rec' = existsb is_eor rec.
Proof.
  induction m as [|x m IH]; intros sb p rec eor Hrec Hm.
  { exists sb, p, rec. cbn [compress_loop existsb]. rewrite orb_false_r.
    change (chain_bytes []) with (@nil Z). rewrite app_nil_r, chain_len_nil.
    split_and!; try done; [|change (zlen []) with 0; lia].
    apply set_counts_id; lia. }
  inversion_clear Hm as [|?? Hx Hm']. cbn [compress_loop existsb].
  rewrite chain_bytes_cons, chain_len_cons, zlen_cons, orb_assoc.
  destruct ((m_len x =? 0) && _) eqn:Edrop.
  { (* an empty mbuf is discarded *)
    apply andb_true_iff in Edrop as [Hz%Z.eqb_eq _].
    destruct (IH sb (mBlkFree p x) rec (eor || is_eor x) Hrec Hm')
      as (sb' & p' & rec' & -> & Hsb & Hwf & Hb & Hl & Hne & He).
    exists sb', p', rec'. rewrite mBlkFree_live in Hl. rewrite Hz.
    split_and!; try done; [|lia].
    rewrite Hb. unfold mdata. by rewrite Hz, ztake_neg. }
  destruct (list.last rec) as [n|] eqn:Elast.
  2:{ apply list.last_None in Elast. subst rec. rewrite app_nil_l.
    destruct (IH (sballoc sb x) p [set_eor false x] (eor || is_eor x))
      as (sb' & p' & rec' & -> & -> & Hwf & Hb & Hl & Hne & He); [by apply Forall_singleton | done |].
    eexists _, p', rec'. split; [done|]. rewrite sballoc_eq in *.
    change (zlen []) with 0 in *. change (zlen [_]) with 1 in Hl.
    split_and!; try done; [|by rewrite Hb, chain_bytes_single].
    rewrite ?set_counts_counts; apply set_counts_eq; cbn [sb_cc sb_mbcnt set_counts chain_cost foldr];
      rewrite ?mbcost_set_eor; lia. }
  apply list.last_Some in Elast; destruct Elast as [pre ->].
  rewrite Forall_app, Forall_singleton in Hrec. destruct Hrec as [Hpre Hn].
  destruct (can_compress n x) eqn:Ecan.
  - (* the data is copied onto [n] *)
    unfold can_compress in Ecan. rewrite !andb_true_iff in Ecan.
    destruct Ecan as (((_ & _) & Hroom%Z.ltb_lt) & _).
    destruct (copy_onto_spec n x Hn Hx Hroom) as (Hcw & Hcb & Hcc & Hce).
    rewrite removelast_last.
    destruct (IH (set_counts (sb_cc sb + m_len x) (sb_mbcnt sb) sb) (mBlkFree p x)
      (pre ++ [copy_onto n x]) (eor || is_eor x))
      as (sb' & p' & rec' & -> & -> & Hwf & Hb & Hl & Hne & He);
      [apply Forall_app_2; [done | by apply Forall_singleton] | done |].
    eexists _, p', rec'. split; [done|]. rewrite mBlkFree_live in Hl.
    rewrite !chain_cost_app, !chain_cost_single in *. rewrite Hcc.
    rewrite !zlen_app in *. change (zlen [_]) with 1 in *.
    split_and!; try done; [| |lia| |].
    + rewrite ?set_counts_counts; apply set_counts_eq; cbn [sb_cc sb_mbcnt set_counts]; lia.
    + by rewrite Hb, !chain_bytes_app, !chain_bytes_single, Hcb, <- !app_assoc.
    + intros _. by apply Hne; destruct pre.
    + rewrite He, !existsb_app. cbn. by rewrite Hce.
  - (* [x] is linked behind [n] *)
    destruct (IH (sballoc sb x) p ((pre ++ [n]) ++ [set_eor false x]) (eor || is_eor x))
      as (sb' & p' & rec' & -> & -> & Hwf & Hb & Hl & Hne & He);
      [repeat apply Forall_app_2; try done; by apply Forall_singleton | done |].
    eexists _, p', rec'. split; [done|]. rewrite sballoc_eq in *.
    rewrite !chain_cost_app, !chain_cost_single, mbcost_set_eor in *.
    rewrite !zlen_app in *. change (zlen [_]) with 1 in *.
    split_and!; try done; [| |lia| |].
    + rewrite ?set_counts_counts; apply set_counts_eq; cbn [sb_cc sb_mbcnt set_counts]; lia.
    + by rewrite Hb, !chain_bytes_app, !chain_bytes_single, <- !app_assoc.
    + intros _. by apply Hne; destruct pre.
    + rewrite He, !existsb_app. cbn. by rewrite orb_false_r.
Qed.

(** Setting [M_EOR] on the last mbuf changes no data and no account. *)
Lemma map_last_set_eor b rec :
  chain_bytes (map_last (set_eor b) rec) = chain_bytes rec ∧
  chain_cost MSIZE (map_last (set_eor b) rec) = chain_cost MSIZE rec ∧
  zlen (map_last (set_eor b) rec) = zlen rec ∧
  chain_len (map_last (set_eor b) rec) = chain_len rec ∧
  (chain_wf rec → chain_wf (map_last (set_eor b) rec)) ∧
  (rec ≠ [] → map_last (set_eor b) rec ≠ []).
Proof.
  destruct (decide (rec = [])) as [->|Hne]; [done|].
  destruct (exists_last Hne) as (pre & n & ->). rewrite map_last_app.
  rewrite !chain_bytes_app, !chain_bytes_single, !chain_cost_app, !chain_cost_single,
    !zlen_app, !chain_len_app, !Forall_app, !Forall_singleton.
  split_and!; try done. by destruct pre.
Qed.

Lemma sbcompress_spec sb (p : P) rec m :
  chain_wf rec → chain_wf m →
  ∃ p' rec', sbcompress sb p rec m =
      (set_counts (sb_cc sb + chain_len m)
         (sb_mbcnt sb + (chain_cost MSIZE rec' - chain_cost MSIZE rec)) sb, p', rec') ∧
    chain_wf rec' ∧ chain_bytes rec' = chain_bytes rec ++ chain_bytes m ∧
    pool_live p' = pool_live p - (zlen rec + zlen m - zlen rec') ∧
    (rec ≠ [] → rec' ≠ []).
Proof.
  intros Hrec Hm. unfold sbcompress.
  destruct (compress_loop_spec m sb p rec false Hrec Hm)
    as (sb' & p' & rec' & -> & -> & Hwf & Hb & Hl & Hne & _).
  destruct (map_last_set_eor true rec') as (H1' & H2' & H3' & _ & H4' & H5').
  destruct (false || existsb is_eor m).
  - exists p', (map_last (set_eor true) rec'). rewrite H1', H2', H3'. split_and!; auto.
  - by exists p', rec'.
Qed.

(** *** Records *)

Lemma records_cc_single c : records_cc [c] = chain_len c.
Proof. cbn. lia. Qed.

Lemma records_cost_single c : records_cost MSIZE [c] = chain_cost MSIZE c.
Proof. cbn. lia. Qed.

Lemma chain_len_bytes c d : chain_wf c → chain_wf d →
  chain_bytes c = chain_bytes d → chain_len c = chain_len d.
Proof. intros Hc Hd Heq. by rewrite <- !chain_bytes_zlen, Heq by done. Qed.

(** The invariant of a queue [rs], with its two totals. *)
Lemma sb_inv_intro sb rs cc cnt :
  cc = records_cc rs → cnt = records_cost MSIZE rs →
  Forall (λ r, r ≠ [] ∧ chain_wf r) rs → sb_inv (set_mb rs (set_counts cc cnt sb)).
Proof. done. Qed.

Lemma records_app_inv rs r : Forall (λ r, r ≠ [] ∧ chain_wf r) rs → r ≠ [] → chain_wf r →
  Forall (λ r, r ≠ [] ∧ chain_wf r) (rs ++ [r]).
Proof. intros. apply Forall_app_2; [done|]. by apply Forall_singleton. Qed.

Lemma records_mbufs_app r s : records_mbufs (r ++ s) = records_mbufs r + records_mbufs s.
Proof. unfold records_mbufs. by rewrite concat_app, zlen_app. Qed.

Lemma records_mbufs_single c : records_mbufs [c] = zlen c.
Proof. unfold records_mbufs. cbn. by rewrite app_nil_r. Qed.

(** *** Appending *)

Lemma put_record_spec sb (p : P) pre x m post :
  sb_inv sb → sb_mb sb = pre ++ post → chain_wf (x :: m) →
  let '(sb', p') := put_record sb p pre x m post in
  sb_inv sb' ∧ sb_lock sb' = sb_lock sb ∧
  contents sb' = map chain_bytes pre ++ chain_bytes (x :: m) :: map chain_bytes post ∧
  pool_live p' - records_mbufs (sb_mb sb') =
    pool_live p - records_mbufs (sb_mb sb) - zlen (x :: m).
Proof.
  intros (Hcc & Hcnt & Hrs) Hsplit Hwf. unfold put_record. rewrite sballoc_eq.
  apply Forall_cons_1 in Hwf as [Hx Hm].
  set (mn := match m with [] => _ | _ => _ end).
  assert (∃ x' m', mn = (x', m') ∧ mbuf_wf x' ∧ chain_wf m' ∧ mdata x' = mdata x ∧
    chain_bytes m' = chain_bytes m ∧ zlen m' = zlen m ∧ mbcost MSIZE x' = mbcost MSIZE x ∧
    chain_len m' = chain_len m) as (x' & m' & -> & Hx' & Hm' & Hbx & Hbm & Hlm & Hcx & Hcl).
  { unfold mn. destruct m as [|y m]; [by exists x, []|]. destruct (is_eor x).
    - eexists _, _. split; [done|]. apply Forall_cons_1 in Hm as [? ?]. split_and!; try done. by apply Forall_cons_2.
    - by exists x, (y :: m). }
  destruct (sbcompress_spec (set_counts (sb_cc sb + m_len x) (sb_mbcnt sb + mbcost MSIZE x) sb)
    p [x'] m') as (p' & rec & -> & Hwr & Hb & Hl & Hne); [by apply Forall_singleton | done |].
  rewrite Hsplit in *. rewrite !records_cc_app in Hcc. rewrite records_cost_app in Hcnt.
  apply Forall_app in Hrs as [Hpre Hpost].
  assert (chain_len rec = m_len x + chain_len m) as Hlr.
  { rewrite <- chain_bytes_zlen, Hb, zlen_app, chain_bytes_single, Hbx, Hbm, mdata_zlen,
      chain_bytes_zlen by done. done. }
  rewrite set_counts_counts. cbn [sb_cc sb_mbcnt set_counts sb_lock set_mb]. split_and!.
  - apply sb_inv_intro.
    + rewrite records_cc_app. change (records_cc (rec :: post)) with (chain_len rec + records_cc post).
      lia.
    + rewrite records_cost_app, chain_cost_single.
      change (records_cost MSIZE (rec :: post)) with
        (chain_cost MSIZE rec + records_cost MSIZE post). lia.
    + apply Forall_app_2; [done|]. apply Forall_cons_2; [|done]. split; [by apply Hne|done].
  - done.
  - unfold contents. cbn [sb_mb set_mb]. rewrite map_app. cbn [map].
    by rewrite Hb, chain_bytes_single, Hbx, Hbm.
  - cbn [sb_mb set_mb]. change (rec :: post) with ([rec] ++ post).
    rewrite !records_mbufs_app, records_mbufs_single, zlen_cons.
    change (zlen [_]) with 1 in Hl. lia.
Qed.

Lemma oob_split_app rs : fst (oob_split rs) ++ snd (oob_split rs) = rs.
Proof.
  induction rs as [|r rs IH]; [done|]. cbn. destruct (oob_train r); [|done].
  destruct (oob_split rs). cbn in *. by rewrite IH.
Qed.

Lemma split_records_app rs pre rec :
  split_records rs = (pre, rec) → rs = pre ++ match rec with [] => [] | _ => [rec] end ∨
  (∃ pre', rs = pre' ++ [[]]) .
Proof.
  intros [= <- <-]. destruct (decide (rs = [])) as [->|Hne]; [by left|].
  destruct (exists_last Hne) as (pre & r & ->). rewrite removelast_last, last_last.
  destruct r; [right; by eexists | by left].
Qed.

(** [sbappend] on the contents: a new record after one that has ended,
    otherwise more data for the last record. *)
Definition append_effect (ended : bool) (b : bytes) (rs rs' : list bytes) : Prop :=
  if ended then rs' = rs ++ [b]
  else (rs = [] ∧ b = [] ∧ rs' = []) ∨ rs' = removelast rs ++ [List.last rs [] ++ b].

Definition last_ended (sb : sockbuf) : bool := existsb is_eor (List.last (sb_mb sb) []).

Lemma records_snoc rs : Forall (λ r, r ≠ [] ∧ chain_wf r) rs →
  rs = [] ∨ ∃ pre rec, rs = pre ++ [rec] ∧ split_records rs = (pre, rec) ∧
    Forall (λ r, r ≠ [] ∧ chain_wf r) pre ∧ rec ≠ [] ∧ chain_wf rec.
Proof.
  intros Hrs. destruct (decide (rs = [])) as [->|Hne]; [by left|]. right.
  destruct (exists_last Hne) as (pre & r & ->). exists pre, r. unfold split_records.
  rewrite removelast_last, last_last, Forall_app, Forall_singleton in *.
  destruct Hrs as (? & ? & ?). by split_and!.
Qed.

Lemma sbappendrecord_spec sb (p : P) m : sb_inv sb → chain_wf m → m ≠ [] →
  let '(sb', p') := sbappendrecord sb p m in
  sb_inv sb' ∧ sb_lock sb' = sb_lock sb ∧ contents sb' = contents sb ++ [chain_bytes m] ∧
  pool_live p' - records_mbufs (sb_mb sb') =
    pool_live p - records_mbufs (sb_mb sb) - zlen m.
Proof.
  intros Hinv Hm Hne. destruct m as [|x m]; [done|]. unfold sbappendrecord.
  pose proof (put_record_spec sb p (sb_mb sb) x m [] Hinv) as Hput.
  destruct (put_record _ _ _ _ _ _). by apply Hput; [rewrite app_nil_r|].
Qed.

Lemma sbappend_spec sb (p : P) m : sb_inv sb → chain_wf m → m ≠ [] →
  let '(sb', p') := sbappend sb p m in
  sb_inv sb' ∧ sb_lock sb' = sb_lock sb ∧
  append_effect (last_ended sb) (chain_bytes m) (contents sb) (contents sb') ∧
  pool_live p' - records_mbufs (sb_mb sb') =
    pool_live p - records_mbufs (sb_mb sb) - zlen m.
Proof.
  intros Hinv Hm Hne. pose proof Hinv as (Hcc & Hcnt & Hrs).
  assert (sbappend sb p m = let '(pre, rec) := split_records (sb_mb sb) in
      if existsb is_eor rec then sbappendrecord sb p m
      else
        let '(sb, p, rec) := sbcompress sb p rec m in
        (set_mb (pre ++ match rec with [] => [] | _ => [rec] end) sb, p)) as ->
    by (by destruct m).
  unfold last_ended, append_effect, contents.
  destruct (records_snoc _ Hrs) as [Hnil|(pre & rec & Heq & Hsp & Hpre & Hrne & Hrec)].
  - rewrite Hnil. cbn [split_records List.last existsb removelast map].
    destruct (sbcompress_spec sb p [] m) as (p' & rec' & -> & Hw & Hb & Hl & _); [done|done|].
    rewrite Hnil in *. cbn in Hcc, Hcnt. cbn [chain_cost foldr] in *.
    assert (chain_len rec' = chain_len m) as Hlen by (by apply chain_len_bytes).
    change (zlen []) with 0 in Hl. change (records_mbufs []) with 0.
    destruct rec' as [|y rec']; cbn [app sb_lock sb_mb set_mb set_counts map];
      (split_and!; [apply sb_inv_intro | done | |]).
    + rewrite <- Hlen. cbn. lia.
    + cbn. lia.
    + done.
    + left. by split_and!.
    + change (records_mbufs []) with 0. change (zlen []) with 0 in Hl. lia.
    + rewrite records_cc_single. lia.
    + rewrite records_cost_single. lia.
    + by apply Forall_singleton.
    + right. by rewrite Hb.
    + rewrite records_mbufs_single. lia.
  - rewrite Hsp, Heq, last_last.
    destruct (existsb is_eor rec) eqn:Eeor.
    + pose proof (sbappendrecord_spec sb p m Hinv Hm Hne) as Hput.
      destruct (sbappendrecord sb p m). destruct Hput as (? & ? & Hc & ?).
      rewrite Heq in *. split_and!; try done. unfold contents in Hc. by rewrite Heq in Hc.
    + destruct (sbcompress_spec sb p rec m) as (p' & rec' & -> & Hw & Hb & Hl & Hne'); [done|done|].
      specialize (Hne' Hrne). destruct rec' as [|y r']; [done|].
      set (rec' := y :: r') in *. rewrite Heq in *.
      rewrite records_cc_app, records_cc_single in Hcc.
      rewrite records_cost_app, records_cost_single in Hcnt.
      assert (chain_len rec' = chain_len rec + chain_len m) as Hlen.
      { rewrite <- !chain_bytes_zlen, Hb, zlen_app by done. done. }
      cbn [sb_lock sb_mb set_mb set_counts]. split_and!; [apply sb_inv_intro | done | |].
      * rewrite records_cc_app, records_cc_single. lia.
      * rewrite records_cost_app, records_cost_single. lia.
      * by apply records_app_inv.
      * right. rewrite !map_app. cbn [map]. by rewrite removelast_last, last_last, Hb.
      * rewrite !records_mbufs_app, !records_mbufs_single. lia.
Qed.

(** A whole record at the end of the queue. *)
Lemma enqueue_spec sb rec : sb_inv sb → rec ≠ [] → chain_wf rec →
  sb_inv (enqueue sb rec) ∧ sb_lock (enqueue sb rec) = sb_lock sb ∧
  contents (enqueue sb rec) = contents sb ++ [chain_bytes rec] ∧
  records_mbufs (sb_mb (enqueue sb rec)) = records_mbufs (sb_mb sb) + zlen rec.
Proof.
  intros (Hcc & Hcnt & Hrs) Hne Hwf. unfold enqueue. rewrite foldl_sballoc.
  cbn [sb_mb sb_lock set_mb set_counts]. split_and!; [apply sb_inv_intro | done | |].
  - rewrite records_cc_app, records_cc_single. lia.
  - rewrite records_cost_app, records_cost_single. lia.
  - by apply records_app_inv.
  - unfold contents. cbn [sb_mb set_mb]. by rewrite map_app.
  - by rewrite records_mbufs_app, records_mbufs_single.
Qed.

(** *** Dropping *)

(** [sbdrop] on the contents. *)
Fixpoint drop_bytes (len : Z) (rs : list bytes) : list bytes :=
  match rs with
  | [] => []
  | r :: rest =>
      if zlen r <? len then drop_bytes (len - zlen r) rest
      else match zdrop len r with [] => rest | b => b :: rest end
  end.

Lemma drop_chain_spec m : ∀ sb (p : P) len, chain_wf m → 0 <= len →
  ∃ p' m', drop_chain sb p m len =
      (set_counts (sb_cc sb - Z.min len (chain_len m))
         (sb_mbcnt sb - (chain_cost MSIZE m - chain_cost MSIZE m')) sb, p', m',
       len - Z.min len (chain_len m)) ∧
    chain_wf m' ∧ chain_bytes m' = zdrop len (chain_bytes m) ∧
    pool_live p' = pool_live p - (zlen m - zlen m') ∧ (chain_len m < len → m' = []).
Proof.
  induction m as [|x m IH]; intros sb p len Hwf Hlen.
  { exists p, []. cbn [drop_chain]. rewrite chain_len_nil, Z.min_r, Z.sub_0_r by lia.
    split_and!; [|done|by rewrite zdrop_all|lia|done].
    tup_eq; [apply set_counts_id; lia | lia]. }
  apply Forall_cons_1 in Hwf as [Hx Hm]. pose proof (chain_len_nonneg m Hm).
  pose proof (mdata_zlen x Hx) as Hz. assert (0 <= m_len x) by apply Hx.
  cbn [drop_chain]. rewrite chain_len_cons, chain_bytes_cons.
  destruct (Z.ltb_spec 0 len) as [Hpos|Hz0].
  2:{ exists p, (x :: m). replace (Z.min len (m_len x + chain_len m)) with 0 by lia.
      rewrite zdrop_neg, Z.sub_0_r by lia. split_and!; [|by apply Forall_cons_2|done|lia|lia].
      tup_eq; [apply set_counts_id; lia | lia]. }
  destruct (Z.ltb_spec len (m_len x)) as [Hpart|Hall].
  - exists p, (set_off (m_off x + len) (set_len (m_len x - len) x) :: m). replace (Z.min len (m_len x + chain_len m)) with len by lia.
    split; [tup_eq; [|lia]; apply set_counts_eq; [done|];
      rewrite !chain_cost_cons; unfold mbcost, m_extSize; cbn; lia|].
    split_and!.
    + apply Forall_cons_2; [|done]. apply mbuf_wf_advance; [done|lia].
    + rewrite chain_bytes_cons, mdata_advance, zdrop_app_le by (done || lia). done.
    + rewrite !zlen_cons. lia.
    + lia.
  - destruct (IH (sbfree sb x) (mBlkFree p x) (len - m_len x)) as (p' & m' & -> & Hw & Hb & Hl & Hnil);
      [done | lia |].
    exists p', m'. rewrite sbfree_eq, set_counts_counts. cbn [sb_cc sb_mbcnt set_counts].
    rewrite mBlkFree_live in Hl. split_and!; [|done| |rewrite zlen_cons; lia|intros; apply Hnil; lia].
    + rewrite chain_cost_cons. tup_eq; [apply set_counts_eq; lia | lia].
    + rewrite Hb, zdrop_app_ge by lia. by rewrite Hz.
Qed.

Lemma records_cc_nonneg rs : Forall (λ r, r ≠ [] ∧ chain_wf r) rs → 0 <= records_cc rs.
Proof.
  induction 1 as [|r rs [_ Hr] _ IH]; [done|].
  pose proof (chain_len_nonneg r Hr).
  change (0 <= chain_len r + records_cc rs). lia.
Qed.

Lemma drop_records_spec next : ∀ sb (p : P) m len,
  chain_wf m → Forall (λ r, r ≠ [] ∧ chain_wf r) next → 0 <= len →
  if len <=? chain_len m + records_cc next then
    ∃ p' m' next', drop_records sb p m next len =
        Some (set_counts (sb_cc sb - len)
          (sb_mbcnt sb - (chain_cost MSIZE m + records_cost MSIZE next -
             chain_cost MSIZE m' - records_cost MSIZE next')) sb, p', m', next') ∧
      chain_wf m' ∧ Forall (λ r, r ≠ [] ∧ chain_wf r) next' ∧
      match chain_bytes m' with
      | [] => map chain_bytes next'
      | b => b :: map chain_bytes next'
      end = drop_bytes len (chain_bytes m :: map chain_bytes next) ∧
      pool_live p' - zlen m' - records_mbufs next' =
        pool_live p - zlen m - records_mbufs next ∧
      chain_len m' + records_cc next' = chain_len m + records_cc next - len
  else drop_records sb p m next len = None.
Proof.
  induction next as [|r next IH]; intros sb p m len Hm Hnext Hlen;
    cbn [drop_records drop_bytes];
    destruct (drop_chain_spec m sb p len Hm Hlen) as (p' & m' & -> & Hw & Hb & Hl & Hnil);
    pose proof (chain_len_nonneg m Hm);
    assert (chain_len m' = chain_len m - Z.min len (chain_len m)) as Hcl
      by (rewrite <- chain_bytes_zlen, Hb, zlen_zdrop, chain_bytes_zlen by done; lia);
    rewrite chain_bytes_zlen by done.
  - change (records_cc []) with 0. change (records_cost MSIZE []) with 0.
    destruct (Z.leb_spec len (chain_len m + 0)) as [Hle|Hgt].
    + destruct (Z.ltb_spec 0 (len - Z.min len (chain_len m))); [lia|].
      exists p', m', []. change (records_cost MSIZE []) with 0. cbn [map].
      destruct (Z.ltb_spec (chain_len m) len); [lia|].
      split_and!; [|done|done|by rewrite Hb|lia|change (records_cc []) with 0; lia].
      tup_eq; apply set_counts_eq; lia.
    + by destruct (Z.ltb_spec 0 (len - Z.min len (chain_len m))); [|lia].
  - apply Forall_cons_1 in Hnext as [[Hrne Hr] Hnext].
    pose proof (chain_len_nonneg r Hr).
    change (records_cc (r :: next)) with (chain_len r + records_cc next).
    change (records_cost MSIZE (r :: next)) with
      (chain_cost MSIZE r + records_cost MSIZE next).
    change (r :: next) with ([r] ++ next). rewrite records_mbufs_app, records_mbufs_single.
    cbn [app map].
    destruct (Z.ltb_spec 0 (len - Z.min len (chain_len m))) as [Hgo|Hstop].
    + destruct (Z.ltb_spec (chain_len m) len); [|lia].
      rewrite Hnil in * by done.
      specialize (IH (set_counts (sb_cc sb - Z.min len (chain_len m))
        (sb_mbcnt sb - (chain_cost MSIZE m - chain_cost MSIZE [])) sb) p' r
        (len - Z.min len (chain_len m)) Hr Hnext ltac:(lia)).
      replace (len - Z.min len (chain_len m) <=? chain_len r + records_cc next)
        with (len <=? chain_len m + (chain_len r + records_cc next)) in IH
        by (destruct (Z.leb_spec len (chain_len m + (chain_len r + records_cc next)));
            symmetry; [apply Z.leb_le | apply Z.leb_gt]; lia).
      destruct (len <=? _); [|done].
      destruct IH as (p2 & m2 & next2 & -> & ? & ? & Hb2 & Hl2 & Hc2).
      exists p2, m2, next2. rewrite set_counts_counts. cbn [sb_cc sb_mbcnt set_counts].
      change (chain_cost MSIZE []) with 0. change (zlen []) with 0 in *.
      replace (len - Z.min len (chain_len m)) with (len - chain_len m) in * by lia.
      split_and!; [|done|done| | |].
      * tup_eq; apply set_counts_eq; lia.
      * rewrite Hb2. cbn [drop_bytes]. by rewrite chain_bytes_zlen by done.
      * lia.
      * lia.
    + replace (len <=? chain_len m + (chain_len r + records_cc next)) with true
        by (symmetry; apply Z.leb_le; pose proof (records_cc_nonneg next Hnext); lia).
      exists p', m', ([r] ++ next). rewrite records_mbufs_app, records_mbufs_single.
      destruct (Z.ltb_spec (chain_len m) len); [lia|].
      replace (Z.min len (chain_len m)) with len by lia.
      change (records_cost MSIZE ([r] ++ next)) with
        (chain_cost MSIZE r + records_cost MSIZE next).
      change (records_cc ([r] ++ next)) with (chain_len r + records_cc next).
      split_and!; [|done|by apply Forall_cons_2| |lia|lia].
      * tup_eq; apply set_counts_eq; lia.
      * by rewrite Hb.
Qed.

Lemma drop_empty_spec m : ∀ sb (p : P), chain_wf m →
  ∃ p' m', drop_empty sb p m =
      (set_counts (sb_cc sb) (sb_mbcnt sb - (chain_cost MSIZE m - chain_cost MSIZE m')) sb,
       p', m') ∧
    chain_wf m' ∧ chain_bytes m' = chain_bytes m ∧ (m' = [] ↔ chain_bytes m = []) ∧
    pool_live p' = pool_live p - (zlen m - zlen m').
Proof.
  induction m as [|x m IH]; intros sb p Hwf.
  { exists p, []. split_and!; [|done|done|done|lia].
    cbn [drop_empty]. tup_eq. apply set_counts_id; lia. }
  apply Forall_cons_1 in Hwf as [Hx Hm]. pose proof (mdata_zlen x Hx) as Hz.
  cbn [drop_empty]. rewrite chain_bytes_cons.
  destruct (Z.eqb_spec (m_len x) 0) as [Hx00|Hne].
  - destruct (IH (sbfree sb x) (mBlkFree p x) Hm) as (p' & m' & -> & Hw & Hb & Hnil & Hl).
    assert (mdata x = []) as Hx0 by (unfold mdata; rewrite Hx00; by apply ztake_neg).
    exists p', m'. rewrite sbfree_eq, set_counts_counts, Hx0, zlen_cons, chain_cost_cons.
    rewrite mBlkFree_live in Hl. cbn [sb_cc sb_mbcnt set_counts app].
    split_and!; [|done|done|done|lia]. tup_eq. apply set_counts_eq; lia.
  - exists p, (x :: m). split_and!; [|by apply Forall_cons_2|done| |lia].
    + tup_eq. apply set_counts_id; lia.
    + split; [done|]. intros [Hx0 _]%app_eq_nil. rewrite Hx0 in Hz. by rewrite <- Hz in Hne.
Qed.

Lemma concat_contents_zlen sb : sb_inv sb → zlen (concat (contents sb)) = sb_cc sb.
Proof.
  intros (-> & _ & Hrs). unfold contents.
  induction Hrs as [|r rs [_ Hr] _ IH]; [done|]. cbn [map concat].
  rewrite zlen_app, IH, chain_bytes_zlen by done. done.
Qed.

Lemma sbdrop_spec sb (p : P) len : sb_inv sb → 0 <= len →
  if len <=? sb_cc sb then
    ∃ sb' p', sbdrop sb p len = Some (sb', p') ∧ sb_inv sb' ∧ sb_lock sb' = sb_lock sb ∧
      contents sb' = drop_bytes len (contents sb) ∧
      pool_live p' - records_mbufs (sb_mb sb') = pool_live p - records_mbufs (sb_mb sb)
  else sbdrop sb p len = None.
Proof.
  intros (Hcc & Hcnt & Hrs) Hlen. unfold sbdrop, contents.
  set (mn := match sb_mb sb with [] => _ | _ => _ end).
  assert (∃ m next, mn = (m, next) ∧ chain_wf m ∧
    Forall (λ r, r ≠ [] ∧ chain_wf r) next ∧ sb_cc sb = chain_len m + records_cc next ∧
    sb_mbcnt sb = chain_cost MSIZE m + records_cost MSIZE next ∧
    records_mbufs (sb_mb sb) = zlen m + records_mbufs next ∧
    drop_bytes len (map chain_bytes (sb_mb sb)) =
      drop_bytes len (chain_bytes m :: map chain_bytes next))
    as (m & next & -> & Hm & Hnext & Hcc' & Hcnt' & Hmb & Hdrop).
  { unfold mn. destruct (sb_mb sb) as [|m next].
    { exists [], []. split_and!; try done. cbn [map drop_bytes].
      rewrite zdrop_all by (change (zlen (chain_bytes [])) with 0; lia). by case_match. }
    apply Forall_cons_1 in Hrs as [[_ Hm] Hnext]. exists m, next. split_and!; try done.
    unfold records_mbufs. cbn [concat]. by rewrite zlen_app. }
  rewrite Hcc', Hmb.
  pose proof (drop_records_spec next sb p m len Hm Hnext Hlen) as Hdr.
  destruct (len <=? _) eqn:Ele; [|by rewrite Hdr].
  destruct Hdr as (p1 & m1 & next1 & -> & Hm1 & Hnext1 & Hb1 & Hl1 & Hc1).
  cbn [mbind option_bind].
  destruct (drop_empty_spec m1 (set_counts (sb_cc sb - len)
    (sb_mbcnt sb - (chain_cost MSIZE m + records_cost MSIZE next -
      chain_cost MSIZE m1 - records_cost MSIZE next1)) sb) p1 Hm1)
    as (p2 & m2 & -> & Hm2 & Hb2 & Hnil & Hl2).
  eexists _, p2. split; [done|]. rewrite set_counts_counts.
  cbn [sb_cc sb_mbcnt sb_mb sb_lock set_counts set_mb].
  assert (chain_len m2 = chain_len m1) as Hc2 by (by apply chain_len_bytes).
  rewrite Hdrop, <- Hb1. destruct m2 as [|y m2].
  - rewrite (proj1 Hnil eq_refl) in *. change (chain_cost MSIZE []) with 0 in *.
    change (zlen []) with 0 in Hl2. change (chain_len []) with 0 in *.
    split_and!; [apply sb_inv_intro; [lia | lia | done] | done | done | lia].
  - destruct (chain_bytes m1) eqn:Eb; [by pose proof (proj2 Hnil eq_refl)|].
    set (m2' := y :: m2) in *.
    split_and!; [apply sb_inv_intro; [| |apply Forall_cons_2; done] | done | |].
    + change (records_cc (m2' :: next1)) with (chain_len m2' + records_cc next1). lia.
    + change (records_cost MSIZE (m2' :: next1)) with
        (chain_cost MSIZE m2' + records_cost MSIZE next1). lia.
    + cbn [map]. by rewrite Hb2.
    + change (m2' :: next1) with ([m2'] ++ next1).
      rewrite records_mbufs_app, records_mbufs_single. lia.
Qed.

Lemma foldl_mBlkFree c : ∀ p : P, pool_live (foldl mBlkFree p c) = pool_live p - zlen c.
Proof. apply m_freem_live. Qed.

Lemma sbdroprecord_spec sb (p : P) : sb_inv sb →
  let '(sb', p') := sbdroprecord sb p in
  sb_inv sb' ∧ sb_lock sb' = sb_lock sb ∧ contents sb' = tail (contents sb) ∧
  pool_live p' - records_mbufs (sb_mb sb') = pool_live p - records_mbufs (sb_mb sb).
Proof.
  intros Hinv. pose proof Hinv as (Hcc & Hcnt & Hrs). unfold sbdroprecord, contents.
  destruct (sb_mb sb) as [|m next] eqn:Emb; [by rewrite Emb|].
  rewrite foldl_sbfree, foldl_mBlkFree. cbn [set_counts set_mb sb_mb sb_lock sb_cc sb_mbcnt].
  apply Forall_cons_1 in Hrs as [[_ Hm] Hnext].
  change (records_cc (m :: next)) with (chain_len m + records_cc next) in Hcc.
  change (records_cost MSIZE (m :: next)) with
    (chain_cost MSIZE m + records_cost MSIZE next) in Hcnt.
  split_and!; [|done|done|].
  - unfold sb_inv. cbn [sb_cc sb_mbcnt set_counts set_mb sb_mb]. split_and!; [lia | lia | done].
  - unfold records_mbufs. cbn [concat]. rewrite zlen_app. lia.
Qed.

(** *** Flushing *)

Lemma drop_bytes_all rs : rs ≠ [] →
  (length (drop_bytes (zlen (concat rs)) rs) < length rs)%nat.
Proof.
  induction rs as [|r rs IH]; intros Hne; [done|]. cbn [drop_bytes concat].
  rewrite zlen_app. pose proof (zlen_nonneg (concat rs)).
  destruct (Z.ltb_spec (zlen r) (zlen r + zlen (concat rs))) as [Hlt|Hge].
  - replace (zlen r + zlen (concat rs) - zlen r) with (zlen (concat rs)) by lia.
    destruct rs as [|r' rs]; [change (zlen (concat (@nil bytes))) with 0 in Hlt; lia|].
    specialize (IH ltac:(done)). cbn [length] in *. lia.
  - rewrite zdrop_all by lia. cbn [length]. lia.
Qed.

Lemma records_cost_nonneg rs : 0 <= records_cost MSIZE rs.
Proof.
  induction rs as [|r rs IH]; [done|]. pose proof (chain_cost_nonneg r).
  change (0 <= chain_cost MSIZE r + records_cost MSIZE rs). lia.
Qed.

Lemma mbcnt_zero sb : sb_inv sb → sb_mbcnt sb = 0 → sb_mb sb = [].
Proof.
  intros (_ & -> & Hrs) Hzero. destruct Hrs as [|r rs [Hne _] Hrs]; [done|].
  destruct r as [|m r]; [done|]. exfalso.
  pose proof (records_cost_nonneg rs).
  change (records_cost MSIZE ((m :: r) :: rs)) with
    (mbcost MSIZE m + chain_cost MSIZE r + records_cost MSIZE rs) in Hzero.
  pose proof (mbcost_pos m). pose proof (chain_cost_nonneg r). lia.
Qed.

Lemma flush_loop_spec fuel : ∀ sb (p : P), sb_inv sb →
  (length (sb_mb sb) < fuel)%nat →
  ∃ sb' p', flush_loop fuel sb p = Some (sb', p') ∧ sb_inv sb' ∧ sb_mb sb' = [] ∧
    sb_lock sb' = sb_lock sb ∧ pool_live p' = pool_live p - records_mbufs (sb_mb sb).
Proof.
  induction fuel as [|fuel IH]; intros sb p Hinv Hf; [lia|]. cbn [flush_loop].
  destruct (Z.eqb_spec (sb_mbcnt sb) 0) as [Hz|Hnz].
  - pose proof (mbcnt_zero sb Hinv Hz) as Hnil. exists sb, p. rewrite Hnil.
    change (records_mbufs []) with 0. split_and!; (done || lia).
  - assert (0 <= sb_cc sb) as Hcc0
      by (rewrite <- concat_contents_zlen by done; apply zlen_nonneg).
    pose proof (sbdrop_spec sb p (sb_cc sb) Hinv Hcc0) as Hd. rewrite Z.leb_refl in Hd.
    destruct Hd as (sb1 & p1 & -> & Hinv1 & Hl1 & Hc1 & Hp1). cbn [mbind option_bind].
    assert (sb_mb sb ≠ []) as Hne.
    { intros Hnil. destruct Hinv as (_ & Hcnt & _). rewrite Hnil in Hcnt. done. }
    destruct (IH sb1 p1 Hinv1) as (sb2 & p2 & -> & Hinv2 & Hnil2 & Hl2 & Hp2).
    + assert (length (sb_mb sb1) < length (sb_mb sb))%nat; [|lia].
      rewrite <- (length_map chain_bytes (sb_mb sb1)), <- (length_map chain_bytes (sb_mb sb)).
      fold (contents sb1) (contents sb). rewrite Hc1, <- concat_contents_zlen by done.
      apply drop_bytes_all. unfold contents. by destruct (sb_mb sb).
    + exists sb2, p2. split_and!; try done; [congruence|lia].
Qed.

Lemma sbflush_spec sb (p : P) : sb_inv sb →
  if sb_lock sb then sbflush sb p = None
  else ∃ sb' p', sbflush sb p = Some (sb', p') ∧ sb_inv sb' ∧ sb_mb sb' = [] ∧
    sb_lock sb' = false ∧ pool_live p' = pool_live p - records_mbufs (sb_mb sb).
Proof.
  intros Hinv. unfold sbflush. destruct (sb_lock sb) eqn:Elock; [done|].
  destruct (flush_loop_spec (S (length (sb_mb sb))) sb p Hinv ltac:(lia))
    as (sb' & p' & -> & Hinv' & Hnil & Hl & Hp). cbn [mbind option_bind].
  pose proof Hinv' as (Hcc & _ & _). rewrite Hnil in *. rewrite Hcc. cbn.
  exists sb', p'. split_and!; try done. congruence.
Qed.

(** ** What the operations promise *)

(** The arguments are well-formed chains. *)
Definition op_wf (op : sb_op) : Prop :=
  match op with
  | OpAppend m | OpAppendRecord m | OpInsertOob m => chain_wf m
  | OpAppendAddr _ m0 control | OpAppendControl m0 control => chain_wf m0 ∧ chain_wf control
  | OpDrop len => 0 <= len
  | _ => True
  end.

(** What the callers must ensure; otherwise the code panics. *)
Definition op_pre (op : sb_op) (sb : sockbuf) : bool :=
  match op with
  | OpAppendAddr _ (m :: _) _ => has_pkthdr m
  | OpAppendControl _ control => negb (bool_decide (control = []))
  | OpDrop len => len <=? sb_cc sb
  | OpFlush => negb (sb_lock sb)
  | _ => true
  end.

(** Abstract contents before and after a call that returned [r]. *)
Definition op_effect (op : sb_op) (r : Z) (sb : sockbuf) (rs rs' : list bytes) : Prop :=
  match op with
  | OpAppend [] | OpAppendRecord [] | OpInsertOob [] => rs' = rs
  | OpAppend m => append_effect (last_ended sb) (chain_bytes m) rs rs'
  | OpAppendRecord m => rs' = rs ++ [chain_bytes m]
  | OpInsertOob m =>
      let n := length (fst (oob_split (sb_mb sb))) in
      rs' = take n rs ++ chain_bytes m :: drop n rs
  | OpAppendAddr asa m0 control =>
      rs' = if r =? 0 then rs else rs ++ [asa ++ chain_bytes control ++ chain_bytes m0]
  | OpAppendControl m0 control =>
      rs' = if r =? 0 then rs else rs ++ [chain_bytes control ++ chain_bytes m0]
  | OpDrop len => rs' = drop_bytes len rs
  | OpDropRecord => rs' = tail rs
  | OpFlush => rs' = []
  | OpReserve _ => rs' = rs
  end.

(** The mbufs of the caller that now belong to the buffer. *)
Definition op_taken (op : sb_op) (r : Z) : Z :=
  match op with
  | OpAppend m | OpAppendRecord m | OpInsertOob m => zlen m
  | OpAppendAddr _ m0 control | OpAppendControl m0 control =>
      if r =? 0 then 0 else zlen control + zlen m0
  | _ => 0
  end.

(** Everything a successful call ensures. *)
Definition op_post (op : sb_op) (sb : sockbuf) (p : P) (r : Z) (sb' : sockbuf) (p' : P) : Prop :=
  sb_inv sb' ∧ sb_lock sb' = sb_lock sb ∧
  op_effect op r sb (contents sb) (contents sb') ∧
  pool_live p' - records_mbufs (sb_mb sb') =
    pool_live p - records_mbufs (sb_mb sb) - op_taken op r.

Lemma sbinsertoob_post sb (p : P) m : sb_inv sb → chain_wf m →
  let '(sb', p') := sbinsertoob sb p m in op_post (OpInsertOob m) sb p 0 sb' p'.
Proof.
  intros Hinv Hm. destruct m as [|x m].
  { unfold op_post. cbn. split_and!; try done. change (zlen []) with 0. lia. }
  unfold sbinsertoob, op_post. cbn [op_effect op_taken].
  pose proof (oob_split_app (sb_mb sb)) as Happ.
  destruct (oob_split (sb_mb sb)) as [pre post]. cbn [fst snd] in *.
  pose proof (put_record_spec sb p pre x m post Hinv (eq_sym Happ) Hm) as Hput.
  destruct (put_record _ _ _ _ _ _) as [sb' p']. destruct Hput as (? & ? & Hc & ?).
  split_and!; try done. rewrite Hc. unfold contents. rewrite <- Happ, map_app.
  rewrite <- (length_map chain_bytes pre), take_app_length, drop_app_length. done.
Qed.

Lemma sbappendaddr_post sb (p : P) asa m0 control :
  sb_inv sb → chain_wf m0 → chain_wf control →
  if op_pre (OpAppendAddr asa m0 control) sb then
    ∃ r sb' p', sbappendaddr sb p asa m0 control = Some (r, sb', p') ∧
      op_post (OpAppendAddr asa m0 control) sb p r sb' p'
  else sbappendaddr sb p asa m0 control = None.
Proof.
  intros Hinv Hm Hc. unfold sbappendaddr. cbn [op_pre].
  set (chk := match m0 with [] => _ | _ => _ end : option unit).
  assert (chk = if match m0 with [] => true | m :: _ => has_pkthdr m end
                then Some tt else None) as -> by (unfold chk; destruct m0; [done|];
    by destruct (has_pkthdr _)).
  destruct (match m0 with [] => true | m :: _ => has_pkthdr m end); [|done].
  cbn [mbind option_bind].
  assert (op_post (OpAppendAddr asa m0 control) sb p 0 sb p) as Hsame.
  { unfold op_post. cbn. split_and!; try done. lia. }
  destruct (sbspace sb <? _); [by eexists _, _, _|].
  destruct (Z.ltb_spec CL_SIZE_128 (zlen asa)); [by eexists _, _, _|].
  pose proof (mBufClGet_spec p M_DONTWAIT MT_SONAME CL_SIZE_128 true) as Hget.
  destruct (mBufClGet _ _ _ _ _) as [[m|] p1].
  2:{ eexists _, _, _. split; [done|]. unfold op_post in *. rewrite Hget. done. }
  destruct Hget as (_ & _ & _ & Hoff & Hpos & Hsz & Hlive). specialize (Hsz eq_refl).
  rewrite Hoff. set (nm := set_ext (splice 0 asa (m_ext m)) (set_len (zlen asa) m)).
  assert (mbuf_wf nm ∧ mdata nm = asa) as [Hnm Hd].
  { assert (nm = append_data asa (set_len 0 m)) as ->.
    { unfold nm, append_data. cbn. rewrite Hoff. done. }
    destruct (append_data_spec asa (set_len 0 m)) as (? & Hd & _).
    - unfold mbuf_wf, m_extSize in *. cbn. lia.
    - unfold m_extSize in *. cbn. lia.
    - split; [done|]. by rewrite Hd, mdata_set_len0. }
  assert (chain_wf (nm :: control ++ m0)) as Hwf.
  { apply Forall_cons_2; [done|]. by apply Forall_app_2. }
  destruct (enqueue_spec sb (nm :: control ++ m0) Hinv ltac:(done) Hwf) as (? & ? & Hcs & Hmb).
  eexists _, _, _. split; [done|]. unfold op_post. cbn [op_effect op_taken].
  change (1 =? 0) with false. split_and!; try done.
  - rewrite Hcs, chain_bytes_cons, Hd, chain_bytes_app. done.
  - rewrite Hmb, zlen_cons, zlen_app. lia.
Qed.

Lemma sbappendcontrol_post sb (p : P) m0 control :
  sb_inv sb → chain_wf m0 → chain_wf control →
  if op_pre (OpAppendControl m0 control) sb then
    ∃ r sb', sbappendcontrol sb m0 control = Some (r, sb') ∧
      op_post (OpAppendControl m0 control) sb p r sb' p
  else sbappendcontrol sb m0 control = None.
Proof.
  intros Hinv Hm Hc. destruct control as [|c control]; [done|].
  cbn [op_pre]. rewrite bool_decide_eq_false_2 by done. cbn [negb].
  unfold sbappendcontrol. destruct (sbspace sb <? _).
  { eexists _, _. split; [done|]. unfold op_post. cbn. split_and!; try done. lia. }
  eexists _, _. split; [done|].
  destruct (enqueue_spec sb ((c :: control) ++ m0) Hinv ltac:(done)) as (? & ? & Hcs & Hmb);
    [by apply Forall_app_2|].
  unfold op_post. cbn [op_effect op_taken]. change (1 =? 0) with false. split_and!; try done.
  - by rewrite Hcs, chain_bytes_app.
  - rewrite Hmb, zlen_app. lia.
Qed.

(** C13: on a buffer whose counters agree with its queue ([sb_inv], what
    [sbcheck] checks), every socket buffer operation panics exactly when its
    precondition fails; otherwise it returns, keeps the counters in
    agreement, changes the queued byte strings as specified, and neither
    leaks nor double-frees an mbuf. *)
Theorem sb_exec_spec op sb (p : P) : sb_inv sb → op_wf op →
  if op_pre op sb then
    ∃ r sb' p', sb_exec op sb p = Some (r, sb', p') ∧ op_post op sb p r sb' p'
  else sb_exec op sb p = None.
Proof.
  intros Hinv Hwf. destruct op as [m|m|m|asa m0 c|m0 c|len| | |cc]; cbn [sb_exec op_wf] in *.
  - destruct m as [|x m]; [by eexists _, _, _; split; [done|]; unfold op_post; cbn;
      split_and!; try done; change (zlen []) with 0; lia|].
    pose proof (sbappend_spec sb p (x :: m) Hinv Hwf ltac:(done)) as Hs.
    destruct (sbappend _ _ _). cbn [op_pre]. eexists _, _, _. by split.
  - destruct m as [|x m]; [by eexists _, _, _; split; [done|]; unfold op_post; cbn;
      split_and!; try done; change (zlen []) with 0; lia|].
    pose proof (sbappendrecord_spec sb p (x :: m) Hinv Hwf ltac:(done)) as Hs.
    destruct (sbappendrecord _ _ _). cbn [op_pre]. eexists _, _, _. by split.
  - pose proof (sbinsertoob_post sb p m Hinv Hwf) as Hs.
    destruct (sbinsertoob _ _ _). cbn [op_pre]. eexists _, _, _. by split.
  - destruct Hwf. by apply sbappendaddr_post.
  - pose proof (sbappendcontrol_post sb p m0 c Hinv (proj1 Hwf) (proj2 Hwf)) as Hs.
    destruct (op_pre _ _); [|by rewrite Hs].
    destruct Hs as (r & sb' & -> & Hp). by eexists _, _, _.
  - pose proof (sbdrop_spec sb p len Hinv Hwf) as Hs. cbn [op_pre].
    destruct (len <=? sb_cc sb); [|by rewrite Hs].
    destruct Hs as (sb' & p' & -> & ? & ? & ? & ?). eexists _, _, _. split; [done|].
    unfold op_post. cbn [op_effect op_taken]. split_and!; try done. lia.
  - pose proof (sbdroprecord_spec sb p Hinv) as Hs. destruct (sbdroprecord _ _). cbn [op_pre].
    eexists _, _, _. split; [done|]. unfold op_post. cbn [op_effect op_taken].
    rewrite Z.sub_0_r. done.
  - pose proof (sbflush_spec sb p Hinv) as Hs. cbn [op_pre].
    destruct (sb_lock sb) eqn:El; cbn [negb]; [by rewrite Hs|].
    destruct Hs as (sb' & p' & -> & ? & Hnil & ? & ?). eexists _, _, _. split; [done|].
    unfold op_post, contents. cbn [op_effect op_taken]. rewrite Hnil, El.
    split_and!; try done. change (records_mbufs []) with 0. lia.
  - unfold sbreserve. cbn [op_pre]. destruct (_ <? cc);
      (eexists _, _, _; split; [done|]; unfold op_post; cbn; split_and!; try done; lia).
Qed.
End Facts.

(** ** A concrete buffer

    The macros of BSD's [socketvar.h], with a small cluster pool. *)
#[export] Instance BsdSockVar : SockVar := {|
  MSIZE := 128; MCLBYTES := 2048; CL_SIZE_MIN := 128; CL_SIZE_64 := 64;
  CL_SIZE_128 := 128; sb_max := 262144;
  MT_SONAME := 8; MT_OOBDATA := 15; MT_CONTROL := 14; M_DONTWAIT := 1;
  sballoc sb m := set_counts (sb_cc sb + m_len m) (sb_mbcnt sb + mbcost 128 m) sb;
  sbfree sb m := set_counts (sb_cc sb - m_len m) (sb_mbcnt sb - mbcost 128 m) sb;
  sbspace sb := Z.min (sb_hiwat sb - sb_cc sb) (sb_mbmax sb - sb_mbcnt sb)
|}.

#[export] Instance BsdSockVar_laws : SockVarLaws.
Proof. by split. Qed.

Definition empty_sockbuf : sockbuf := MkSb [] 0 8192 0 16384 1 false.

Definition one_record : sockbuf := MkSb [sample_chain] 7 8192 256 16384 1 false.

Lemma sb_exec_spec_witness :
  sb_inv one_record ∧
  ∃ r sb' p', sb_exec (OpDrop 4) one_record 8 = Some (r, sb', p') ∧
    contents sb' = [[5; 6; 7]] ∧ p' = 9.
Proof.
  assert (sb_inv one_record) as Hinv.
  { split; [reflexivity|]. split; [reflexivity|].
    apply Forall_singleton. split; [done | exact sample_chain_wf]. }
  split; [exact Hinv|].
  destruct (sb_exec_spec (OpDrop 4) one_record 8 Hinv ltac:(done))
    as (r & sb' & p' & Heq & _ & _ & Hc & _).
  exists r, sb', p'. split; [exact Heq|]. split; [exact Hc|].
  vm_compute in Heq. by injection Heq.
Defined.
