(* ===== verification/Callout.v ===== *)
(** * The PPP timeout queue ([pppLib.c])

    [ppp_timeout], [ppp_untimeout], [adjtimeout] and [alrm] keep one interval
    timer and a queue of callouts in which each entry holds its delay after
    the entry before it.  The queue is compared with the list of absolute
    deadlines it stands for.  A callout is named by its function and argument,
    here a key of any type with decidable equality.

    The interface [Timers] is what the protocol automata (file Fsm) rely on:
    it counts the pending timeouts of each key; the queue implements it. *)
From Stdlib Require Import ZArith Lia Bool.
From stdpp Require Import base tactics list numbers option sorting.
From S2P Require Import Prelude.

Local Open Scope Z_scope.

(** ** The interface *)

(** [TIMEOUT], [UNTIMEOUT] and the number of pending timeouts of a key. *)
Class Timers (K T : Type) := {
  TIMEOUT : K → Z → T → T;
  UNTIMEOUT : K → T → T;
  pending : K → T → nat
}.

Class TimersLaws (K T : Type) `{EqDecision K} `{Timers K T} := {
  pending_TIMEOUT : ∀ k k' s t,
    pending k (TIMEOUT k' s t) = (if decide (k = k') then S (pending k t) else pending k t);
  pending_UNTIMEOUT : ∀ k k' t,
    pending k (UNTIMEOUT k' t) = (if decide (k = k') then pred (pending k t) else pending k t)
}.

(** ** The queue *)

Section Callout.
Context {K : Type} `{EqDecision K}.

Record callout := MkCallout { c_key : K; c_time : Z }.

(** [ppp_if[unit]->callout], [schedtime], and the interval timer: the value
    last given to [timer_settime] (0 disarms it) and when it was given. *)
Record ppp_timer := MkTimer {
  callouts : list callout;
  schedtime : Z;
  it_value : Z;
  it_set : Z
}.

(** [timer_settime] followed by [time (&schedtime)]. *)
Definition settime (now : Z) (q : list callout) (v : Z) : ppp_timer :=
  MkTimer q now v now.

Definition with_queue (q : list callout) (t : ppp_timer) : ppp_timer :=
  MkTimer q (schedtime t) (it_value t) (it_set t).

Definition add_time (d : Z) (q : list callout) : list callout :=
  match q with
  | [] => []
  | c :: r => MkCallout (c_key c) (c_time c + d) :: r
  end.

(** The insertion loop of [ppp_timeout]. *)
Fixpoint callout_insert (k : K) (seconds : Z) (q : list callout) : list callout :=
  match q with
  | c :: r =>
      if c_time c <=? seconds then c :: callout_insert k (seconds - c_time c) r
      else MkCallout k seconds :: add_time (- seconds) q
  | [] => [MkCallout k seconds]
  end.

(** Whether the new callout became the first one. *)
Definition inserted_first (seconds : Z) (q : list callout) : bool :=
  match q with [] => true | c :: _ => seconds <? c_time c end.

Definition ppp_timeout (now : Z) (k : K) (seconds : Z) (t : ppp_timer) : ppp_timer :=
  let q := callout_insert k seconds (callouts t) in
  if inserted_first seconds (callouts t) then settime now q seconds else with_queue q t.

(** The loop of [ppp_untimeout]: unlink the first match and give its time to
    the next entry. *)
Fixpoint callout_remove (k : K) (q : list callout) : list callout :=
  match q with
  | [] => []
  | c :: r => if decide (c_key c = k) then add_time (c_time c) r else c :: callout_remove k r
  end.

Definition ppp_untimeout (now : Z) (k : K) (t : ppp_timer) : ppp_timer :=
  let q := callout_remove k (callouts t) in
  match callouts t with
  | c :: _ =>
      if decide (c_key c = k)
      then settime now q (match q with [] => 0 | c' :: _ => c_time c' end)
      else with_queue q t
  | [] => with_queue q t
  end.

Definition adjtimeout (now : Z) (t : ppp_timer) : ppp_timer :=
  match callouts t with
  | [] => t
  | c :: _ =>
      let timediff := now - schedtime t in
      if (timediff <? 0) || (c_time c <=? timediff) then t
      else with_queue (add_time (- timediff) (callouts t)) t
  end.

(** The entries after the first that are scheduled for the same time. *)
Fixpoint same_time (q : list callout) : list callout * list callout :=
  match q with
  | c :: r => if c_time c =? 0 then let '(a, b) := same_time r in (c :: a, b) else ([], q)
  | [] => ([], [])
  end.

(** [alrm]: the keys whose routines are called, in order, and the queue the
    routines find. *)
Definition alrm (now : Z) (t : ppp_timer) : list K * ppp_timer :=
  match callouts t with
  | [] => ([], t)
  | c :: r =>
      let '(same, rest) := same_time r in
      (map c_key (c :: same),
       match rest with
       | [] => with_queue [] t
       | c' :: _ => settime now rest (c_time c')
       end)
  end.

(** ** The deadlines the queue stands for *)

(** Deadlines of a queue whose delays count from [base]. *)
Fixpoint deadlines (base : Z) (q : list callout) : list (Z * K) :=
  match q with
  | [] => []
  | c :: r => (base + c_time c, c_key c) :: deadlines (base + c_time c) r
  end.

(** Insertion behind the entries that are not later. *)
Fixpoint insert_deadline (d : Z) (k : K) (ds : list (Z * K)) : list (Z * K) :=
  match ds with
  | (d', k') :: r => if d' <=? d then (d', k') :: insert_deadline d k r else (d, k) :: ds
  | [] => [(d, k)]
  end.

(** Removal of the first entry of a key. *)
Fixpoint remove_key (k : K) (ds : list (Z * K)) : list (Z * K) :=
  match ds with
  | [] => []
  | (d, k') :: r => if decide (k' = k) then r else (d, k') :: remove_key k r
  end.

(** The queue [t], whose delays count from [base], stands for the deadlines
    [ds], and the interval timer is armed for the first of them. *)
Definition timer_ok (base : Z) (t : ppp_timer) (ds : list (Z * K)) : Prop :=
  deadlines base (callouts t) = ds ∧
  Forall (λ c, 0 <= c_time c) (callouts t) ∧
  match ds with
  | [] => True
  | (d, _) :: _ => base < d ∧ 0 < it_value t ∧ it_set t + it_value t = d
  end.

(** ** Lemmas *)

Lemma deadlines_add_time base d q : deadlines base (add_time d q) = deadlines (base + d) q.
Proof.
  destruct q as [|c r]; [done|]. cbn [add_time deadlines c_time c_key].
  by replace (base + (c_time c + d)) with (base + d + c_time c) by lia.
Qed.

Lemma deadlines_insert k : ∀ q base s,
  deadlines base (callout_insert k s q) = insert_deadline (base + s) k (deadlines base q).
Proof.
  induction q as [|c r IH]; intros base s; [done|].
  cbn [callout_insert deadlines insert_deadline].
  destruct (Z.leb_spec (c_time c) s), (Z.leb_spec (base + c_time c) (base + s)); try lia.
  - cbn [deadlines]. rewrite IH. do 2 f_equal. lia.
  - cbn [deadlines c_time c_key]. rewrite deadlines_add_time. cbn [deadlines].
    do 2 f_equal; [f_equal; lia|]. f_equal. lia.
Qed.

Lemma deadlines_remove k : ∀ q base,
  deadlines base (callout_remove k q) = remove_key k (deadlines base q).
Proof.
  induction q as [|c r IH]; intros base; [done|].
  cbn [callout_remove deadlines remove_key]. destruct (decide (c_key c = k)).
  - apply deadlines_add_time.
  - cbn [deadlines]. by rewrite IH.
Qed.

Lemma insert_nonneg k : ∀ q s, 0 <= s → Forall (λ c, 0 <= c_time c) q →
  Forall (λ c, 0 <= c_time c) (callout_insert k s q).
Proof.
  induction q as [|c r IH]; intros s Hs Hq; cbn [callout_insert].
  { by apply Forall_singleton. }
  apply Forall_cons_1 in Hq as [Hc Hr]. destruct (Z.leb_spec (c_time c) s).
  - apply Forall_cons_2; [done|]. apply IH; [lia|done].
  - repeat apply Forall_cons_2; cbn; (lia || done).
Qed.

Lemma remove_nonneg k : ∀ q, Forall (λ c, 0 <= c_time c) q →
  Forall (λ c, 0 <= c_time c) (callout_remove k q).
Proof.
  induction q as [|c r IH]; intros Hq; cbn [callout_remove]; [done|].
  apply Forall_cons_1 in Hq as [Hc Hr]. destruct (decide (c_key c = k)).
  - destruct r as [|c' r]; [done|]. apply Forall_cons_1 in Hr as [Hc' Hr].
    apply Forall_cons_2; [cbn; lia | done].
  - apply Forall_cons_2; [done | by apply IH].
Qed.

(** All deadlines are at or after the base. *)
Lemma deadlines_ge : ∀ q base, Forall (λ c, 0 <= c_time c) q →
  Forall (λ dk, base <= fst dk) (deadlines base q).
Proof.
  induction q as [|c r IH]; intros base Hq; cbn [deadlines]; [done|].
  apply Forall_cons_1 in Hq as [Hc Hr]. apply Forall_cons_2; [cbn; lia|].
  eapply List.Forall_impl; [|by apply IH]. intros [d k]. cbn. lia.
Qed.

Definition due (now : Z) (dk : Z * K) : bool := fst dk =? now.

Lemma due_refl now k : due now (now, k) = true.
Proof. apply Z.eqb_refl. Qed.

Lemma filter_later now ds : Forall (λ dk, now < fst dk) ds →
  List.filter (due now) ds = [] ∧ List.filter (λ dk, negb (due now dk)) ds = ds.
Proof.
  induction 1 as [|[d k] r Hd _ [IH1 IH2]]; [done|]. cbn [fst] in Hd. cbn [List.filter].
  replace (due now (d, k)) with false by (symmetry; apply Z.eqb_neq; cbn; lia).
  cbn [negb]. by rewrite IH1, IH2.
Qed.

(** The split of [alrm] is the split by deadline. *)
Lemma same_time_due : ∀ q base, Forall (λ c, 0 <= c_time c) q →
  let '(a, b) := same_time q in
  q = a ++ b ∧ Forall (λ c, 0 <= c_time c) b ∧
  List.filter (due base) (deadlines base q) = map (λ c, (base, c_key c)) a ∧
  List.filter (λ dk, negb (due base dk)) (deadlines base q) = deadlines base b ∧
  match b with [] => True | c :: _ => 0 < c_time c end.
Proof.
  induction q as [|c r IH]; intros base Hq; cbn [same_time]; [done|].
  apply Forall_cons_1 in Hq as [Hc Hr]. destruct (Z.eqb_spec (c_time c) 0) as [Hz|Hnz].
  - specialize (IH base Hr). destruct (same_time r) as [a b].
    destruct IH as (-> & Hb & Hf1 & Hf2 & Hh). cbn [deadlines List.filter map].
    rewrite Hz, Z.add_0_r, due_refl. cbn [negb].
    rewrite Hf1, Hf2. by split_and!.
  - cbn [deadlines map app].
    assert (Forall (λ dk, base < fst dk) ((base + c_time c, c_key c) ::
      deadlines (base + c_time c) r)) as Hlater.
    { apply Forall_cons_2; [cbn; lia|].
      eapply List.Forall_impl; [|by apply deadlines_ge]. intros [d k]. cbn. lia. }
    destruct (filter_later base _ Hlater) as [-> ->].
    split_and!; try done; [by apply Forall_cons_2 | lia].
Qed.

(** ** Results *)

Inductive timer_op := OpTimeout (k : K) (seconds : Z) | OpUntimeout (k : K) | OpAlarm.

Definition timer_exec (now : Z) (op : timer_op) (t : ppp_timer) : list K * ppp_timer :=
  match op with
  | OpTimeout k s => ([], ppp_timeout now k s t)
  | OpUntimeout k => ([], ppp_untimeout now k t)
  | OpAlarm => alrm now t
  end.

(** The same operations on absolute deadlines. *)
Definition deadline_exec (now : Z) (op : timer_op) (ds : list (Z * K))
  : list K * list (Z * K) :=
  match op with
  | OpTimeout k s => ([], insert_deadline (now + s) k ds)
  | OpUntimeout k => ([], remove_key k ds)
  | OpAlarm =>
      (map snd (List.filter (due now) ds), List.filter (λ dk, negb (due now dk)) ds)
  end.

(** When an operation may run: requests at the time the delays count from,
    alarms when the interval timer expires. *)
Definition timer_time (base now : Z) (op : timer_op) (t : ppp_timer) : Prop :=
  match op with
  | OpTimeout _ s => now = base ∧ 0 < s
  | OpUntimeout _ => now = base
  | OpAlarm => callouts t ≠ [] ∧ now = it_set t + it_value t
  end.

Lemma callouts_timeout now k s t :
  callouts (ppp_timeout now k s t) = callout_insert k s (callouts t).
Proof. unfold ppp_timeout. by destruct (inserted_first _ _). Qed.

Lemma callouts_untimeout now k t :
  callouts (ppp_untimeout now k t) = callout_remove k (callouts t).
Proof.
  unfold ppp_untimeout. destruct (callouts t) as [|c r]; [done|].
  by destruct (decide (c_key c = k)).
Qed.

Lemma timeout_ok base k s t ds : timer_ok base t ds → 0 < s →
  timer_ok base (ppp_timeout base k s t) (insert_deadline (base + s) k ds).
Proof.
  intros (<- & Hq & Hit) Hs.
  split_and!; [by rewrite callouts_timeout, deadlines_insert |
    rewrite callouts_timeout; apply insert_nonneg; [lia|done] |].
  unfold ppp_timeout. destruct (callouts t) as [|c r]; cbn [inserted_first deadlines insert_deadline].
  - cbn. lia.
  - cbn [deadlines] in Hit. destruct (Z.ltb_spec s (c_time c)).
    + destruct (Z.leb_spec (base + c_time c) (base + s)); [lia|]. cbn. lia.
    + destruct (Z.leb_spec (base + c_time c) (base + s)); [|lia]. cbn. lia.
Qed.

Lemma untimeout_ok base k t ds : timer_ok base t ds →
  timer_ok base (ppp_untimeout base k t) (remove_key k ds).
Proof.
  intros (<- & Hq & Hit).
  split_and!; [by rewrite callouts_untimeout, deadlines_remove |
    rewrite callouts_untimeout; by apply remove_nonneg |].
  unfold ppp_untimeout. destruct (callouts t) as [|c r]; [done|].
  cbn [deadlines remove_key callout_remove] in *. destruct (decide (c_key c = k)); [|done].
  apply Forall_cons_1 in Hq as [Hc Hr]. destruct r as [|c' r]; [done|].
  apply Forall_cons_1 in Hr as [Hc1 _]. cbn. lia.
Qed.

Lemma alrm_ok base now t ds : timer_ok base t ds → callouts t ≠ [] →
  now = it_set t + it_value t →
  let '(fired, t') := alrm now t in
  fired = map snd (List.filter (due now) ds) ∧
  timer_ok now t' (List.filter (λ dk, negb (due now dk)) ds).
Proof.
  intros (<- & Hq & Hit) Hne Hnow. unfold alrm.
  destruct (callouts t) as [|c r]; [done|]. cbn [deadlines] in Hit.
  apply Forall_cons_1 in Hq as [Hc Hr].
  pose proof (same_time_due r (base + c_time c) Hr) as Hst.
  destruct (same_time r) as [a b]. destruct Hst as (-> & Hb & Hf1 & Hf2 & Hh).
  assert (base + c_time c = now) as Hn by lia. rewrite Hn in Hf1, Hf2.
  cbn [deadlines List.filter]. rewrite Hn, due_refl. cbn [negb map snd].
  rewrite Hf1, Hf2. split; [by rewrite map_map|].
  destruct b as [|c' b']; [done|]. split_and!; try done; cbn; lia.
Qed.

(** C14: seen as absolute deadlines, a timeout request inserts its deadline
    behind the ones that are not later, a cancellation removes the first
    entry of the key and moves no other deadline, and an alarm calls exactly
    the routines whose deadline is the current time, in order; after each the
    interval timer is armed for the first remaining deadline. *)
Theorem timer_exec_refines base now op t ds :
  timer_ok base t ds → timer_time base now op t →
  let '(fired, t') := timer_exec now op t in
  let '(fired_spec, ds') := deadline_exec now op ds in
  fired = fired_spec ∧ timer_ok now t' ds'.
Proof.
  intros Hok. destruct op as [k s|k|]; cbn [timer_exec deadline_exec timer_time].
  - intros [-> Hs]. split; [done|]. by apply timeout_ok.
  - intros ->. split; [done|]. by apply untimeout_ok.
  - intros [Hne Hnow]. exact (alrm_ok base now t ds Hok Hne Hnow).
Qed.

(** The adjustment before an operation that is not an alarm. *)
Lemma adjtimeout_base now t ds :
  timer_ok (schedtime t) t ds → schedtime t <= now →
  match ds with [] => True | (d, _) :: _ => now < d end →
  timer_ok now (adjtimeout now t) ds.
Proof.
  intros (<- & Hq & Hit) Hle Hlt. unfold adjtimeout.
  destruct (callouts t) as [|c r] eqn:Eq; cbn [deadlines] in *.
  { unfold timer_ok. by rewrite Eq. }
  destruct (Z.ltb_spec (now - schedtime t) 0), (Z.leb_spec (c_time c) (now - schedtime t));
    try lia. cbn [orb].
  apply Forall_cons_1 in Hq as [Hc Hr].
  unfold timer_ok. cbn [callouts with_queue add_time deadlines c_time c_key it_set it_value].
  split_and!; try (cbn in *; lia).
  - f_equal; f_equal; lia.
  - apply Forall_cons_2; [cbn; lia | done].
Qed.

(** [adjtimeout] leaves [schedtime] alone, so that a second adjustment in
    the same period subtracts the elapsed time again. *)
Lemma adjtimeout_twice now now' t c r :
  callouts t = c :: r → schedtime t <= now → now <= now' →
  (now - schedtime t) + (now' - schedtime t) < c_time c →
  deadlines now' (callouts (adjtimeout now' (adjtimeout now t))) =
  deadlines (schedtime t - (now - schedtime t)) (callouts t).
Proof.
  intros Eq Hle1 Hle2 Hlt. unfold adjtimeout at 2. rewrite Eq.
  destruct (Z.ltb_spec (now - schedtime t) 0), (Z.leb_spec (c_time c) (now - schedtime t));
    try lia. cbn [orb]. unfold adjtimeout. cbn [callouts with_queue add_time schedtime c_time].
  destruct (Z.ltb_spec (now' - schedtime t) 0),
    (Z.leb_spec (c_time c + - (now - schedtime t)) (now' - schedtime t)); try lia.
  cbn. f_equal; [f_equal; lia | f_equal; lia].
Qed.

(** ** The queue implements the interface *)

Definition count_key (k : K) (q : list callout) : nat :=
  length (List.filter (λ c, bool_decide (c_key c = k)) q).

Lemma count_cons k c q : count_key k (c :: q) =
  (if decide (c_key c = k) then S (count_key k q) else count_key k q).
Proof.
  unfold count_key. cbn. destruct (decide (c_key c = k)).
  - by rewrite bool_decide_eq_true_2.
  - by rewrite bool_decide_eq_false_2.
Qed.

Lemma count_add_time k d q : count_key k (add_time d q) = count_key k q.
Proof. destruct q as [|c r]; [done|]. cbn [add_time]. by rewrite !count_cons. Qed.

Lemma count_insert k k' : ∀ q s, count_key k (callout_insert k' s q) =
  (if decide (k = k') then S (count_key k q) else count_key k q).
Proof.
  induction q as [|c r IH]; intros s; cbn [callout_insert].
  { rewrite count_cons. cbn. destruct (decide (k = k')), (decide (k' = k)); congruence. }
  destruct (c_time c <=? s).
  - rewrite !count_cons, IH. by destruct (decide (k = k')), (decide (c_key c = k)).
  - rewrite count_cons, count_add_time. cbn [c_key].
    destruct (decide (k = k')), (decide (k' = k)); congruence.
Qed.

Lemma count_remove k k' : ∀ q, count_key k (callout_remove k' q) =
  (if decide (k = k') then pred (count_key k q) else count_key k q).
Proof.
  induction q as [|c r IH]; cbn [callout_remove]; [by destruct (decide (k = k'))|].
  rewrite (count_cons k c r). destruct (decide (c_key c = k')) as [Hk'|Hk'].
  - rewrite count_add_time. destruct (decide (c_key c = k)), (decide (k = k')); simpl; congruence.
  - rewrite count_cons, IH. destruct (decide (c_key c = k)), (decide (k = k')); simpl; congruence.
Qed.

(** The queue with the current time. *)
#[export] Instance callout_timers : Timers K (Z * ppp_timer) := {|
  TIMEOUT k s t := (fst t, ppp_timeout (fst t) k s (snd t));
  UNTIMEOUT k t := (fst t, ppp_untimeout (fst t) k (snd t));
  pending k t := count_key k (callouts (snd t))
|}.

#[export] Instance callout_timers_laws : TimersLaws K (Z * ppp_timer).
Proof.
  split; intros; cbn [pending TIMEOUT UNTIMEOUT callout_timers fst snd].
  - by rewrite callouts_timeout, count_insert.
  - by rewrite callouts_untimeout, count_remove.
Qed.

End Callout.

(** ** Concrete queues *)

(** Timeouts of 3 s and 10 s, set at time 0. *)
Definition two_timeouts : ppp_timer (K := nat) :=
  ppp_timeout 0 2%nat 10 (ppp_timeout 0 1%nat 3 (MkTimer [] 0 0 0)).

Lemma timer_exec_refines_witness :
  timer_ok 0 two_timeouts [(3, 1%nat); (10, 2%nat)] ∧
  fst (timer_exec 3 OpAlarm two_timeouts) = [1%nat].
Proof.
  assert (timer_ok 0 two_timeouts [(3, 1%nat); (10, 2%nat)]) as Hok.
  { split; [reflexivity|]. split; [repeat constructor; vm_compute; discriminate|].
    repeat split. }
  split; [exact Hok|].
  assert (timer_time 0 3 OpAlarm two_timeouts) as Ht by (split; [discriminate|reflexivity]).
  pose proof (timer_exec_refines 0 3 OpAlarm two_timeouts _ Hok Ht) as Href.
  destruct (timer_exec 3 OpAlarm two_timeouts) as [fired t'].
  destruct Href as [-> _]. reflexivity.
Defined.

(** two I/O events between alarms make [adjtimeout] count the first
    interval twice: with a timeout due at time 10 and adjustments at times 3
    and 4, the queue stands for a deadline at time 7, so that a 5 second
    timeout requested at time 4 (due at 9) is queued behind it. *)
Theorem adjtimeout_counts_twice :
  let t := ppp_timeout 0 1%nat 10 (MkTimer [] 0 0 0) in
  let t' := adjtimeout 4 (adjtimeout 3 t) in
  timer_ok 0 t [(10, 1%nat)] ∧ it_set t' + it_value t' = 10 ∧
  deadlines 4 (callouts t') = [(7, 1%nat)] ∧
  map c_key (callouts (ppp_timeout 4 2%nat 5 t')) = [1%nat; 2%nat].
Proof.
  cbn zeta. split_and!; try reflexivity; repeat constructor; vm_compute; discriminate.
Qed.
