(* ===== verification/PppDefs.v ===== *)
(** * What the PPP sources take from [pppLib.h]

    The packet codes, header sizes and the byte macros ([GETCHAR], [GETSHORT],
    [PUTLONG], [MAKEHEADER], ...) are defined in a header that is not part of
    the sources.  They are the class [PppDefs]; [PppDefsLaws] states what the
    protocols rely on: the codes differ, the macros read back what they
    wrote, and a header is as long as its name says. *)
From Stdlib Require Import ZArith Lia Bool.
From stdpp Require Import base tactics list sets numbers option.
From S2P Require Import Prelude.

Local Open Scope Z_scope.

Class PppDefs := {
  HEADERLEN : Z;                  (** code, id and length *)
  DLLHEADERLEN : Z;
  MAKEHEADER : Z → bytes;         (** data link header for a protocol *)
  PUTSHORT : Z → bytes;
  GETSHORT : Z → Z → Z;
  PUTLONG : Z → bytes;
  GETLONG : Z → Z → Z → Z → Z;
  CONFREQ : Z; CONFACK : Z; CONFNAK : Z; CONFREJ : Z;
  TERMREQ : Z; TERMACK : Z; CODEREJ : Z
}.

Class PppDefsLaws `{PppDefs} := {
  HEADERLEN_eq : HEADERLEN = 4;
  MAKEHEADER_len : ∀ proto, zlen (MAKEHEADER proto) = DLLHEADERLEN;
  GETSHORT_range : ∀ a b, is_byte a → is_byte b → 0 <= GETSHORT a b < 65536;
  PUTSHORT_get : ∀ x, 0 <= x < 65536 →
    ∃ a b, PUTSHORT x = [a; b] ∧ is_byte a ∧ is_byte b ∧ GETSHORT a b = x;
  GETLONG_range : ∀ a b c d, is_byte a → is_byte b → is_byte c → is_byte d →
    0 <= GETLONG a b c d < 4294967296;
  PUTLONG_get : ∀ x, 0 <= x < 4294967296 →
    ∃ a b c d, PUTLONG x = [a; b; c; d] ∧ is_byte a ∧ is_byte b ∧ is_byte c ∧ is_byte d ∧
      GETLONG a b c d = x;
  GETSHORT_put : ∀ a b, is_byte a → is_byte b → PUTSHORT (GETSHORT a b) = [a; b];
  GETLONG_put : ∀ a b c d, is_byte a → is_byte b → is_byte c → is_byte d →
    PUTLONG (GETLONG a b c d) = [a; b; c; d];
  codes_distinct :
    NoDup [CONFREQ; CONFACK; CONFNAK; CONFREJ; TERMREQ; TERMACK; CODEREJ];
  codes_bytes :
    Bytes [CONFREQ; CONFACK; CONFNAK; CONFREJ; TERMREQ; TERMACK; CODEREJ]
}.

Section Defs.
Context `{PppDefsLaws}.

Lemma PUTSHORT_len x : 0 <= x < 65536 → zlen (PUTSHORT x) = 2.
Proof. intros Hx. by destruct (PUTSHORT_get x Hx) as (a & b & -> & _). Qed.

Lemma PUTLONG_len x : 0 <= x < 4294967296 → zlen (PUTLONG x) = 4.
Proof. intros Hx. by destruct (PUTLONG_get x Hx) as (a & b & c & d & -> & _). Qed.

Lemma PUTSHORT_bytes x : 0 <= x < 65536 → Bytes (PUTSHORT x).
Proof.
  intros Hx. destruct (PUTSHORT_get x Hx) as (a & b & -> & Ha & Hb & _).
  repeat apply Forall_cons_2; done.
Qed.

Lemma PUTLONG_bytes x : 0 <= x < 4294967296 → Bytes (PUTLONG x).
Proof.
  intros Hx. destruct (PUTLONG_get x Hx) as (a & b & c & d & -> & Ha & Hb & Hc & Hd & _).
  repeat apply Forall_cons_2; done.
Qed.

(** Two encodings of the same number are the same bytes. *)
Lemma GETSHORT_inj a b x y : Bytes [a; b] → Bytes [x; y] →
  GETSHORT a b = GETSHORT x y → [a; b] = [x; y].
Proof.
  intros Hab Hxy E. apply Forall_cons_1 in Hab as [Ha Hab], Hxy as [Hx Hxy].
  apply Forall_cons_1 in Hab as [Hb _], Hxy as [Hy _].
  by rewrite <- (GETSHORT_put a b), <- (GETSHORT_put x y), E by done.
Qed.

Lemma GETLONG_inj a b c d x y z w : Bytes [a; b; c; d] → Bytes [x; y; z; w] →
  GETLONG a b c d = GETLONG x y z w → [a; b; c; d] = [x; y; z; w].
Proof.
  intros Hab Hxy E.
  repeat match goal with H : Forall _ (_ :: _) |- _ => apply Forall_cons_1 in H as [? H] end.
  by rewrite <- (GETLONG_put a b c d), <- (GETLONG_put x y z w), E by done.
Qed.

(** What the lower layer hands to a protocol: the data link header is gone. *)
Definition payload (p : bytes) : bytes := zdrop DLLHEADERLEN p.

Lemma payload_packet proto r : payload (MAKEHEADER proto ++ r) = r.
Proof.
  unfold payload. pose proof (MAKEHEADER_len proto) as E. pose proof (zlen_nonneg (MAKEHEADER proto)).
  rewrite zdrop_app_ge by lia. rewrite E, Z.sub_diag. by apply zdrop_neg.
Qed.

(** The header that [upap_input] and [ChapInput] read: code, id and length.
    A packet that is too short for it, or for the length it gives, is
    dropped; otherwise [k] is given code, id, the rest of the packet, and the
    length behind the header. *)
Definition get_header {B} (headerlen : Z) (packet : bytes) (dropped : B)
    (k : Z → Z → bytes → Z → rd B) : rd B :=
  if zlen packet <? headerlen then Rd dropped
  else
    rd_bind (getchar packet) (λ '(code, inp),
    rd_bind (getchar inp) (λ '(id, inp),
    rd_bind (getchar inp) (λ '(hi, inp),
    rd_bind (getchar inp) (λ '(lo, inp),
    let len := GETSHORT hi lo in
    if len <? headerlen then Rd dropped
    else if zlen packet <? len then Rd dropped
    else k code id inp (len - headerlen))))).

Lemma get_header_packet {B} code id body (dropped : B) k : zlen body + 4 < 65536 →
  get_header 4 ([code; id] ++ PUTSHORT (4 + zlen body) ++ body) dropped k =
  k code id body (zlen body).
Proof.
  intros Hl. pose proof (zlen_nonneg body).
  destruct (PUTSHORT_get (4 + zlen body)) as (a & b & -> & _ & _ & Hg); [lia|].
  unfold get_header. cbn [app rd_bind getchar]. rewrite !zlen_cons, Hg.
  destruct (Z.ltb_spec (1 + (1 + (1 + (1 + zlen body)))) 4); [lia|].
  destruct (Z.ltb_spec (4 + zlen body) 4); [lia|].
  destruct (Z.ltb_spec (1 + (1 + (1 + (1 + zlen body)))) (4 + zlen body)); [lia|].
  by replace (4 + zlen body - 4) with (zlen body) by lia.
Qed.

Lemma get_header_cases {B} packet (dropped : B) k : Bytes packet →
  get_header 4 packet dropped k = Rd dropped ∨
  ∃ code id hi lo body, packet = [code; id; hi; lo] ++ body ∧ is_byte code ∧ is_byte id ∧
    Bytes body ∧ GETSHORT hi lo - 4 <= zlen body ∧ 0 <= GETSHORT hi lo - 4 ∧
    get_header 4 packet dropped k = k code id body (GETSHORT hi lo - 4).
Proof.
  intros Hb. unfold get_header. destruct (Z.ltb_spec (zlen packet) 4) as [|Hl]; [by left|].
  destruct packet as [|code [|id [|hi [|lo body]]]];
    try (exfalso; clear -Hl; unfold zlen in Hl; cbn [length] in Hl; lia).
  cbn [rd_bind getchar]. rewrite !zlen_cons.
  destruct (Z.ltb_spec (GETSHORT hi lo) 4); [by left|].
  destruct (Z.ltb_spec (1 + (1 + (1 + (1 + zlen body)))) (GETSHORT hi lo)); [by left|].
  right. exists code, id, hi, lo, body.
  apply Forall_cons_1 in Hb as [Hc Hb]. apply Forall_cons_1 in Hb as [Hi Hb].
  do 2 apply Forall_cons_1 in Hb as [_ Hb]. split_and!; done || lia.
Qed.

(** The codes answered to a Configure-Request differ. *)
Lemma reply_codes : CONFACK ≠ CONFNAK ∧ CONFACK ≠ CONFREJ ∧ CONFNAK ≠ CONFREJ.
Proof.
  pose proof codes_distinct as Hd. apply NoDup_cons_1_2 in Hd.
  pose proof (NoDup_cons_1_1 _ _ Hd). apply NoDup_cons_1_2 in Hd.
  pose proof (NoDup_cons_1_1 _ _ Hd). set_solver.
Qed.
End Defs.

#[export] Hint Resolve PUTSHORT_bytes PUTLONG_bytes : net_bytes.

(** ** The values of RFC 1661, RFC 1662 and network byte order *)

Definition be16 (x : Z) : bytes := [x / 256; x mod 256].
Definition be32 (x : Z) : bytes :=
  [x / 16777216; x / 65536 mod 256; x / 256 mod 256; x mod 256].

#[export] Instance rfc_ppp_defs : PppDefs := {|
  HEADERLEN := 4; DLLHEADERLEN := 4;
  MAKEHEADER proto := [255; 3; proto / 256; proto mod 256];
  PUTSHORT := be16; GETSHORT a b := 256 * a + b;
  PUTLONG := be32;
  GETLONG a b c d := 16777216 * a + 65536 * b + 256 * c + d;
  CONFREQ := 1; CONFACK := 2; CONFNAK := 3; CONFREJ := 4;
  TERMREQ := 5; TERMACK := 6; CODEREJ := 7
|}.

Lemma div_lt_byte x n : 0 < n → 0 <= x < 256 * n → is_byte (x / n).
Proof.
  intros Hn Hx. split; [apply Z.div_pos; lia | apply Z.div_lt_upper_bound; lia].
Qed.

Lemma mod_byte x : is_byte (x mod 256).
Proof. apply Z.mod_pos_bound. lia. Qed.

#[export] Instance rfc_ppp_defs_laws : PppDefsLaws.
Proof.
  split; cbn [HEADERLEN MAKEHEADER DLLHEADERLEN PUTSHORT GETSHORT PUTLONG GETLONG rfc_ppp_defs
    CONFREQ CONFACK CONFNAK CONFREJ TERMREQ TERMACK CODEREJ].
  - done.
  - done.
  - unfold is_byte. lia.
  - intros x Hx. exists (x / 256), (x mod 256). split_and!; [done | | apply mod_byte |].
    + apply div_lt_byte; lia.
    + symmetry. apply Z.div_mod. lia.
  - unfold is_byte. lia.
  - intros x Hx. eexists _, _, _, _. split; [done|].
    split_and!; try apply mod_byte; [apply div_lt_byte; lia|].
    pose proof (Z.div_mod x 256 ltac:(lia)). pose proof (Z.div_mod (x / 256) 256 ltac:(lia)).
    pose proof (Z.div_mod (x / 65536) 256 ltac:(lia)).
    rewrite Zdiv.Zdiv_Zdiv in * by lia. change (256 * 256) with 65536 in *.
    change (65536 * 256) with 16777216 in *. lia.
  - unfold is_byte. intros a b Ha Hb. unfold be16. f_equal; [|f_equal].
    + rewrite Z.mul_comm, Z.div_add_l, Z.div_small by lia. lia.
    + rewrite Z.add_comm, Z.mul_comm, Z.mod_add, Z.mod_small by lia. lia.
  - unfold is_byte. intros a b c d Ha Hb Hc Hd. unfold be32.
    assert (∀ q n r, 0 < n → 0 <= r < n → (q * n + r) / n = q ∧ (q * n + r) mod n = r) as Hdm.
    { intros q n r Hn Hr. split.
      - rewrite Z.div_add_l, Z.div_small by lia. lia.
      - rewrite Z.add_comm, Z.mod_add, Z.mod_small by lia. lia. }
    destruct (Hdm a 16777216 (65536 * b + 256 * c + d)) as [E1 _]; [lia|lia|].
    destruct (Hdm (256 * a + b) 65536 (256 * c + d)) as [E2 _]; [lia|lia|].
    destruct (Hdm (65536 * a + 256 * b + c) 256 d) as [E3 E4]; [lia|lia|].
    destruct (Hdm a 256 b) as [_ E5]; [lia|lia|].
    destruct (Hdm (256 * a + b) 256 c) as [_ E6]; [lia|lia|].
    replace (16777216 * a + 65536 * b + 256 * c + d)
      with (a * 16777216 + (65536 * b + 256 * c + d)) by lia. rewrite E1.
    replace (a * 16777216 + (65536 * b + 256 * c + d))
      with ((256 * a + b) * 65536 + (256 * c + d)) by lia. rewrite E2.
    replace ((256 * a + b) * 65536 + (256 * c + d))
      with ((65536 * a + 256 * b + c) * 256 + d) by lia. rewrite E3, E4.
    replace (256 * a + b) with (a * 256 + b) by lia. rewrite E5.
    replace (65536 * a + 256 * b + c) with ((256 * a + b) * 256 + c) by lia. by rewrite E6.
  - compute_done.
  - repeat apply Forall_cons_2; try done; split; done.
Qed.
