(* ===== verification/Fsm.v ===== *)
(** * The PPP option negotiation automaton ([ppp/fsm.c])

    [fsm] is the structure the control protocols (LCP, IPCP) share.  Its
    client is a table of callbacks over a state of its own ([U]); a null
    callback is [None].  Timers come from the interface [Timers] (file
    Callout), and the packets and indications the automaton produces are
    recorded in order of production, the newest first. *)
From Stdlib Require Import ZArith Lia Bool.
From stdpp Require Import base tactics list numbers option.
From S2P Require Import Prelude Callout PppDefs.

Local Open Scope Z_scope.

(** ** Data *)

Inductive fsm_state :=
  | INITIAL | STARTING | CLOSED | STOPPED | CLOSING | STOPPING
  | REQSENT | ACKRCVD | ACKSENT | OPENED.

#[export] Instance fsm_state_eq_dec : EqDecision fsm_state.
Proof. solve_decision. Defined.

Record fsm := MkFsm {
  state : fsm_state;
  OPT_PASSIVE : bool;          (** bits of [flags] *)
  OPT_RESTART : bool;
  OPT_SILENT : bool;
  id : Z;
  reqid : Z;
  retransmits : Z;
  nakloops : Z;
  timeouttime : Z;
  maxconfreqtransmits : Z;
  maxtermtransmits : Z;
  maxnakloops : Z;
  protocol : Z
}.

Definition with_state st f := MkFsm st (OPT_PASSIVE f) (OPT_RESTART f) (OPT_SILENT f) (id f) (reqid f) (retransmits f) (nakloops f) (timeouttime f) (maxconfreqtransmits f) (maxtermtransmits f) (maxnakloops f) (protocol f).
Definition with_ids i r f := MkFsm (state f) (OPT_PASSIVE f) (OPT_RESTART f) (OPT_SILENT f) i r (retransmits f) (nakloops f) (timeouttime f) (maxconfreqtransmits f) (maxtermtransmits f) (maxnakloops f) (protocol f).
Definition with_counts rt nl f := MkFsm (state f) (OPT_PASSIVE f) (OPT_RESTART f) (OPT_SILENT f) (id f) (reqid f) rt nl (timeouttime f) (maxconfreqtransmits f) (maxtermtransmits f) (maxnakloops f) (protocol f).

(** What the automaton does besides changing its state. *)
Inductive event :=
  | Output (packet : bytes)    (** [output], a framed packet *)
  | Client                     (** the string CLIENT sent to the peer *)
  | Up | Down | Starting | Finished | Retransmit.

(** The callbacks.  [cb_addci] returns the options it wrote, at most as many
    bytes as it is given; [cb_reqci] the reply code and the bytes of the
    reply that it left in the input buffer. *)
Record callbacks (U : Type) := {
  cb_resetci : option (fsm → U → U);
  cb_cilen : option (fsm → U → Z);
  cb_addci : option (fsm → U → Z → U * bytes);
  cb_ackci : option (fsm → U → bytes → bool * U);
  cb_nakci : option (fsm → U → bytes → bool * U);
  cb_rejci : option (fsm → U → bytes → bool * U);
  cb_reqci : option (fsm → U → bytes → bool → Z * bytes * U);
  cb_up : option (fsm → U → U);
  cb_down : option (fsm → U → U);
  cb_starting : option (fsm → U → U);
  cb_finished : option (fsm → U → U);
  cb_reopens : fsm → bool;     (** [cb_finished] ends by calling [fsm_open] *)
  cb_retransmit : option (fsm → U → U);
  cb_extcode : option (fsm → U → Z → Z → bytes → bool * U)
}.
Arguments cb_resetci {U}. Arguments cb_cilen {U}. Arguments cb_addci {U}.
Arguments cb_ackci {U}. Arguments cb_nakci {U}. Arguments cb_rejci {U}.
Arguments cb_reqci {U}. Arguments cb_up {U}. Arguments cb_down {U}.
Arguments cb_starting {U}. Arguments cb_finished {U}. Arguments cb_retransmit {U}.
Arguments cb_extcode {U}. Arguments cb_reopens {U}.

(** The automaton, its client, the timers and what was produced so far. *)
Record sys (U T : Type) := MkSys { fs : fsm; cli : U; tms : T; log : list event }.
Arguments MkSys {U T}. Arguments fs {U T}. Arguments cli {U T}.
Arguments tms {U T}. Arguments log {U T}.

(** [s |> f]: do [f] next. *)
Notation "s |> f" := (f s) (at level 50, left associativity, only parsing) : net_scope.
Local Open Scope net_scope.

Section Fsm.
Context {U T K : Type} `{EqDecision K} `{Timers K T} `{PppDefs}.
Variable cb : callbacks U.
Variable fsm_key : K.              (** [fsm_timeout] and its argument *)
Variable peer_mru : U → Z.         (** [ppp_if[unit]->peer_mru] *)
Variable wants_passive : U → bool. (** [lcp_wantoptions.passive] or [.silent] is set *)
Variable reqid_none : Z.           (** the value of [reqid] after [reqid = -1] *)

Abbreviation sys := (sys U T).

(** *** Steps *)

Definition upd (g : fsm → fsm) (s : sys) : sys := MkSys (g (fs s)) (cli s) (tms s) (log s).
Definition set_state (st : fsm_state) (s : sys) : sys := upd (with_state st) s.
Definition set_retransmits (n : Z) (s : sys) : sys :=
  upd (λ f, with_counts n (nakloops f) f) s.
Definition set_nakloops (n : Z) (s : sys) : sys :=
  upd (λ f, with_counts (retransmits f) n f) s.
Definition set_reqid (r : Z) (s : sys) : sys := upd (λ f, with_ids (id f) r f) s.
(** [f->reqid = ++f->id], an 8-bit counter. *)
Definition new_id (s : sys) : sys := upd (λ f, with_ids (u8 (id f + 1)) (u8 (id f + 1)) f) s.
Definition emit (e : event) (s : sys) : sys := MkSys (fs s) (cli s) (tms s) (e :: log s).
Definition set_cli (u : U) (s : sys) : sys := MkSys (fs s) u (tms s) (log s).
Definition PPP_TIMEOUT (s : sys) : sys :=
  MkSys (fs s) (cli s) (TIMEOUT fsm_key (timeouttime (fs s)) (tms s)) (log s).
Definition PPP_UNTIMEOUT (s : sys) : sys :=
  MkSys (fs s) (cli s) (UNTIMEOUT fsm_key (tms s)) (log s).

(** [if (f->callbacks->x) ( *f->callbacks->x)(f)]. *)
Definition call (x : option (fsm → U → U)) (s : sys) : sys :=
  match x with Some g => set_cli (g (fs s) (cli s)) s | None => s end.
Definition notify (e : event) (x : option (fsm → U → U)) (s : sys) : sys :=
  match x with Some g => set_cli (g (fs s) (cli s)) (emit e s) | None => s end.

Definition up := notify Up (cb_up cb).
Definition down := notify Down (cb_down cb).
Definition starting := notify Starting (cb_starting cb).
Definition finished := notify Finished (cb_finished cb).
Definition retransmit := notify Retransmit (cb_retransmit cb).

(** [fsm_sdata]: the packet is cut to the peer's MRU. *)
Definition fsm_sdata (code i : Z) (data : bytes) (s : sys) : sys :=
  let mru := peer_mru (cli s) in
  let datalen := if mru - HEADERLEN <? zlen data then mru - HEADERLEN else zlen data in
  let outlen := datalen + HEADERLEN in
  emit (Output (MAKEHEADER (protocol (fs s)) ++ [u8 code; u8 i] ++ PUTSHORT outlen ++
                ztake datalen data)) s.

Definition negotiating (st : fsm_state) : bool :=
  match st with REQSENT | ACKRCVD | ACKSENT => true | _ => false end.

Definition fsm_sconfreq (retransmit : bool) (s : sys) : sys :=
  let s := if negotiating (state (fs s)) then s
           else set_nakloops 0 (call (cb_resetci cb) s) in
  let s := if retransmit then s
           else new_id (set_retransmits (maxconfreqtransmits (fs s)) s) in
  let s := if wants_passive (cli s) then emit Client s else s in
  let '(s, ci) :=
    match cb_cilen cb, cb_addci cb with
    | Some cilen, Some addci =>
        let n := cilen (fs s) (cli s) in
        let room := peer_mru (cli s) - HEADERLEN in
        let '(u, ci) := addci (fs s) (cli s) (if room <? n then room else n) in
        (set_cli u s, ci)
    | _, _ => (s, [])
    end in
  let s := fsm_sdata CONFREQ (reqid (fs s)) ci s in
  PPP_TIMEOUT (set_retransmits (retransmits (fs s) - 1) s).

(** "Init restart counter, send Terminate-Request". *)
Definition send_termreq (s : sys) : sys :=
  let s := new_id s in
  let s := fsm_sdata TERMREQ (reqid (fs s)) [] s in
  let s := PPP_TIMEOUT s in
  set_retransmits (retransmits (fs s) - 1) s.

(** *** Events from the lower layer and the administrator *)

Definition fsm_lowerup (s : sys) : sys :=
  match state (fs s) with
  | INITIAL => s |> set_state CLOSED
  | STARTING =>
      if OPT_SILENT (fs s) then s |> set_state STOPPED
      else s |> fsm_sconfreq false |> set_state REQSENT
  | _ => s
  end.

Definition fsm_lowerdown (s : sys) : sys :=
  match state (fs s) with
  | CLOSED => s |> set_state INITIAL
  | STOPPED => s |> set_state STARTING |> starting
  | CLOSING => s |> set_state INITIAL |> PPP_UNTIMEOUT
  | STOPPING | REQSENT | ACKRCVD | ACKSENT => s |> set_state STARTING |> PPP_UNTIMEOUT
  | OPENED => s |> down |> set_state STARTING
  | _ => s
  end.

Definition open_restart (s : sys) : sys :=
  if OPT_RESTART (fs s) then s |> fsm_lowerdown |> fsm_lowerup else s.

Definition fsm_open (s : sys) : sys :=
  match state (fs s) with
  | INITIAL => s |> set_state STARTING |> starting
  | CLOSED =>
      if OPT_SILENT (fs s) then s |> set_state STOPPED
      else s |> fsm_sconfreq false |> set_state REQSENT
  | CLOSING => s |> set_state STOPPING |> open_restart
  | STOPPED | OPENED => s |> open_restart
  | _ => s
  end.

(** The call of the [finished] callback, which may reopen the automaton. *)
Definition finish (s : sys) : sys :=
  let s := finished s in if cb_reopens cb (fs s) then fsm_open s else s.

Definition fsm_close (s : sys) : sys :=
  match state (fs s) with
  | STARTING => s |> set_state INITIAL
  | STOPPED => s |> set_state CLOSED
  | STOPPING => s |> set_state CLOSING
  | REQSENT | ACKRCVD | ACKSENT | OPENED =>
      let s := if decide (state (fs s) = OPENED) then down s else PPP_UNTIMEOUT s in
      s |> set_retransmits (maxtermtransmits (fs s)) |> send_termreq |> set_state CLOSING
  | _ => s
  end.

Definition fsm_timeout (s : sys) : sys :=
  match state (fs s) with
  | CLOSING | STOPPING =>
      if retransmits (fs s) <=? 0 then
        s |> set_state (if decide (state (fs s) = CLOSING) then CLOSED else STOPPED) |> finish
      else s |> send_termreq
  | REQSENT | ACKRCVD | ACKSENT =>
      if retransmits (fs s) <=? 0 then
        let s := set_state STOPPED s in
        if OPT_PASSIVE (fs s) then s else finish s
      else
        let s := s |> retransmit |> fsm_sconfreq true in
        if decide (state (fs s) = ACKRCVD) then set_state REQSENT s else s
  | _ => s
  end.

Definition fsm_protreject (s : sys) : sys :=
  match state (fs s) with
  | CLOSING => s |> PPP_UNTIMEOUT |> set_state CLOSED |> finish
  | CLOSED => s |> set_state CLOSED |> finish
  | STOPPING | REQSENT | ACKRCVD | ACKSENT =>
      s |> PPP_UNTIMEOUT |> set_state STOPPED |> finish
  | STOPPED => s |> set_state STOPPED |> finish
  | OPENED =>
      let s := down s in
      s |> set_retransmits (maxtermtransmits (fs s)) |> send_termreq |> set_state STOPPING
  | _ => s
  end.

(** *** Packets *)

Definition fsm_rconfreq_reply (i : Z) (inp : bytes) (s : sys) : sys :=
  let '(code, reply, s) :=
    match cb_reqci cb with
    | Some reqci =>
        let reject_if_disagree := maxnakloops (fs s) <=? nakloops (fs s) in
        let '(code, reply, u) := reqci (fs s) (cli s) inp reject_if_disagree in
        (code, reply, set_cli u s)
    | None => (if zlen inp =? 0 then CONFACK else CONFREJ, inp, s)
    end in
  let s := fsm_sdata code i reply s in
  if code =? CONFACK then
    let s :=
      if decide (state (fs s) = ACKRCVD)
      then s |> PPP_UNTIMEOUT |> set_state OPENED |> up
      else s |> set_state ACKSENT in
    set_nakloops 0 s
  else
    let s := if decide (state (fs s) = ACKRCVD) then s else set_state REQSENT s in
    if code =? CONFNAK then set_nakloops (nakloops (fs s) + 1) s else s.

Definition fsm_rconfreq (i : Z) (inp : bytes) (s : sys) : sys :=
  match state (fs s) with
  | CLOSED => s |> fsm_sdata TERMACK i []
  | CLOSING | STOPPING => s
  | OPENED => s |> down |> fsm_sconfreq false |> fsm_rconfreq_reply i inp
  | STOPPED => s |> fsm_sconfreq false |> set_state REQSENT |> fsm_rconfreq_reply i inp
  | _ => s |> fsm_rconfreq_reply i inp
  end.

Definition fsm_rconfack (i : Z) (inp : bytes) (s : sys) : sys :=
  if negb (i =? reqid (fs s)) then s
  else
    let '(ok, s) :=
      match cb_ackci cb with
      | Some ackci => let '(ok, u) := ackci (fs s) (cli s) inp in (ok, set_cli u s)
      | None => (zlen inp =? 0, s)
      end in
    if negb ok then s
    else
      let s := set_reqid reqid_none s in
      match state (fs s) with
      | CLOSED | STOPPED => s |> fsm_sdata TERMACK i []
      | REQSENT => s |> set_state ACKRCVD |> set_retransmits (maxconfreqtransmits (fs s))
      | ACKRCVD => s |> fsm_sconfreq false |> set_state REQSENT
      | ACKSENT =>
          s |> PPP_UNTIMEOUT |> set_state OPENED
            |> set_retransmits (maxconfreqtransmits (fs s)) |> up
      | OPENED => s |> down |> fsm_sconfreq false |> set_state REQSENT
      | _ => s
      end.

Definition fsm_rconfnakrej (code i : Z) (inp : bytes) (s : sys) : sys :=
  if negb (i =? reqid (fs s)) then s
  else
    let '(ok, s) :=
      match (if code =? CONFNAK then cb_nakci cb else cb_rejci cb) with
      | Some proc => let '(ok, u) := proc (fs s) (cli s) inp in (ok, set_cli u s)
      | None => (false, s)
      end in
    if negb ok then s
    else
      let s := set_reqid reqid_none s in
      match state (fs s) with
      | CLOSED | STOPPED => s |> fsm_sdata TERMACK i []
      | REQSENT | ACKSENT => s |> PPP_UNTIMEOUT |> fsm_sconfreq false
      | ACKRCVD => s |> fsm_sconfreq false |> set_state REQSENT
      | OPENED => s |> down |> fsm_sconfreq false |> set_state REQSENT
      | _ => s
      end.

Definition fsm_rtermreq (i : Z) (s : sys) : sys :=
  let s :=
    match state (fs s) with
    | ACKRCVD | ACKSENT => s |> set_state REQSENT
    | OPENED => s |> down |> set_retransmits 0 |> set_state STOPPING |> PPP_TIMEOUT
    | _ => s
    end in
  s |> fsm_sdata TERMACK i [].

Definition fsm_rtermack (s : sys) : sys :=
  match state (fs s) with
  | CLOSING => s |> set_state CLOSED |> finish
  | STOPPING => s |> set_state STOPPED |> finish
  | ACKRCVD => s |> set_state REQSENT
  | OPENED => s |> down |> fsm_sconfreq false
  | _ => s
  end.

Definition fsm_rcoderej (inp : bytes) (s : sys) : sys :=
  if zlen inp <? HEADERLEN then s
  else if decide (state (fs s) = ACKRCVD) then s |> set_state REQSENT else s.

(** The [default] case: a code the automaton does not know. *)
Definition fsm_unknown (code i : Z) (inpacket inp : bytes) (s : sys) : sys :=
  let '(ok, s) :=
    match cb_extcode cb with
    | Some extcode =>
        let '(ok, u) := extcode (fs s) (cli s) code i inp in (ok, set_cli u s)
    | None => (false, s)
    end in
  if ok then s
  else
    let s := upd (λ f, with_ids (u8 (id f + 1)) (reqid f) f) s in
    fsm_sdata CODEREJ (id (fs s)) inpacket s.

Definition fsm_dispatch (code i : Z) (inpacket inp : bytes) (s : sys) : sys :=
  if code =? CONFREQ then fsm_rconfreq i inp s
  else if code =? CONFACK then fsm_rconfack i inp s
  else if (code =? CONFNAK) || (code =? CONFREJ) then fsm_rconfnakrej code i inp s
  else if code =? TERMREQ then fsm_rtermreq i s
  else if code =? TERMACK then fsm_rtermack s
  else if code =? CODEREJ then fsm_rcoderej inp s
  else fsm_unknown code i inpacket inp s.

(** The header of a packet: code, id and the [len] bytes it announces,
    header included; [None] when the packet is dropped. *)
Definition fsm_header (inpacket : bytes) : option (Z * Z * bytes) :=
  match inpacket with
  | code :: i :: hi :: lo :: _ =>
      let len := GETSHORT hi lo in
      if len <? HEADERLEN then None
      else if zlen inpacket <? len then None
      else Some (code, i, ztake len inpacket)
  | _ => None
  end.

Definition fsm_input (inpacket : bytes) (s : sys) : sys :=
  if zlen inpacket <? HEADERLEN then s
  else
    match fsm_header inpacket with
    | None => s
    | Some (code, i, p) =>
        match state (fs s) with
        | INITIAL | STARTING => s
        | _ => fsm_dispatch code i p (zdrop HEADERLEN p) s
        end
    end.

End Fsm.

(** [fsm_init]; [seed] is what [random] returned. *)
Definition fsm_init (DEFTIMEOUT DEFMAXCONFREQS DEFMAXTERMREQS DEFMAXNAKLOOPS : Z)
    (seed : Z) (f : fsm) : fsm :=
  MkFsm INITIAL false false false (u8 seed) (reqid f) (retransmits f) (nakloops f)
    DEFTIMEOUT DEFMAXCONFREQS DEFMAXTERMREQS DEFMAXNAKLOOPS (protocol f).

(** ** The state transition table of RFC 1661 (section 4.1) *)

Inductive rfc_event :=
  | EvUp | EvDown | EvOpen | EvClose | EvTOplus | EvTOminus
  | EvRCRplus | EvRCRminus | EvRCA | EvRCN | EvRTR | EvRTA
  | EvRUC | EvRXJplus | EvRXJminus.

Inductive rfc_action := tlu | tld | tls | tlf | scr | sca | scn | str | sta | scj.

Definition rfc_table (st : fsm_state) (ev : rfc_event) : list rfc_action * fsm_state :=
  match ev, st with
  | EvUp, INITIAL => ([], CLOSED)
  | EvUp, STARTING => ([scr], REQSENT)
  | EvDown, CLOSED => ([], INITIAL)
  | EvDown, STOPPED => ([tls], STARTING)
  | EvDown, CLOSING => ([], INITIAL)
  | EvDown, (STOPPING | REQSENT | ACKRCVD | ACKSENT) => ([], STARTING)
  | EvDown, OPENED => ([tld], STARTING)
  | EvOpen, INITIAL => ([tls], STARTING)
  | EvOpen, CLOSED => ([scr], REQSENT)
  | EvOpen, CLOSING => ([], STOPPING)
  | EvClose, STARTING => ([tlf], INITIAL)
  | EvClose, STOPPED => ([], CLOSED)
  | EvClose, STOPPING => ([], CLOSING)
  | EvClose, (REQSENT | ACKRCVD | ACKSENT) => ([str], CLOSING)
  | EvClose, OPENED => ([tld; str], CLOSING)
  | EvTOplus, (CLOSING | STOPPING) => ([str], st)
  | EvTOplus, (REQSENT | ACKRCVD) => ([scr], REQSENT)
  | EvTOplus, ACKSENT => ([scr], ACKSENT)
  | EvTOminus, CLOSING => ([tlf], CLOSED)
  | EvTOminus, (STOPPING | REQSENT | ACKRCVD | ACKSENT) => ([tlf], STOPPED)
  | (EvRCRplus | EvRCRminus | EvRCA | EvRCN | EvRTR), CLOSED => ([sta], CLOSED)
  | EvRCRplus, STOPPED => ([scr; sca], ACKSENT)
  | EvRCRplus, (REQSENT | ACKSENT) => ([sca], ACKSENT)
  | EvRCRplus, ACKRCVD => ([sca; tlu], OPENED)
  | EvRCRplus, OPENED => ([tld; scr; sca], ACKSENT)
  | EvRCRminus, STOPPED => ([scr; scn], REQSENT)
  | EvRCRminus, (REQSENT | ACKSENT) => ([scn], REQSENT)
  | EvRCRminus, ACKRCVD => ([scn], ACKRCVD)
  | EvRCRminus, OPENED => ([tld; scr; scn], REQSENT)
  | (EvRCA | EvRCN | EvRTR), STOPPED => ([sta], STOPPED)
  | EvRCA, REQSENT => ([], ACKRCVD)
  | EvRCA, ACKRCVD => ([scr], REQSENT)
  | EvRCA, ACKSENT => ([tlu], OPENED)
  | (EvRCA | EvRCN), OPENED => ([tld; scr], REQSENT)
  | EvRCN, (REQSENT | ACKRCVD) => ([scr], REQSENT)
  | EvRCN, ACKSENT => ([scr], ACKSENT)
  | EvRTR, (CLOSING | STOPPING | REQSENT) => ([sta], st)
  | EvRTR, (ACKRCVD | ACKSENT) => ([sta], REQSENT)
  | EvRTR, OPENED => ([tld; sta], STOPPING)
  | EvRTA, CLOSING => ([tlf], CLOSED)
  | EvRTA, STOPPING => ([tlf], STOPPED)
  | EvRTA, ACKRCVD => ([], REQSENT)
  | EvRTA, OPENED => ([tld; scr], REQSENT)
  | EvRUC, (INITIAL | STARTING) => ([], st)
  | EvRUC, _ => ([scj], st)
  | EvRXJplus, ACKRCVD => ([], REQSENT)
  | EvRXJminus, (CLOSED | CLOSING) => ([tlf], CLOSED)
  | EvRXJminus, (STOPPED | STOPPING | REQSENT | ACKRCVD | ACKSENT) => ([tlf], STOPPED)
  | EvRXJminus, OPENED => ([tld; str], STOPPING)
  | _, _ => ([], st)
  end.

(** The two entries in which the code differs from the table: Close in
    Starting does not signal This-Layer-Finished, and a Terminate-Ack in
    Opened leaves the state at Opened. *)
Definition code_table (st : fsm_state) (ev : rfc_event) : list rfc_action * fsm_state :=
  match ev, st with
  | EvClose, STARTING => ([], INITIAL)
  | EvRTA, OPENED => ([tld; scr], OPENED)
  | _, _ => rfc_table st ev
  end.

(** ** Inputs of the automaton *)

Inductive input :=
  | InUp | InDown | InOpen | InClose | InTimeout | InProtreject
  | InPacket (code i : Z) (inpacket inp : bytes).

Section Theory.
Context {U T K : Type} `{TimersLaws K T} `{PppDefsLaws}.
Variable cb : callbacks U.
Variable fsm_key : K.
Variable peer_mru : U → Z.
Variable wants_passive : U → bool.
Variable reqid_none : Z.

Abbreviation sys := (sys U T).
Local Abbreviation sconfreq := (fsm_sconfreq cb fsm_key peer_mru wants_passive).
Local Abbreviation sdata := (fsm_sdata peer_mru).

(** One input; a packet comes with its parsed code, id and data, and is
    ignored before the lower layer is up. *)
Definition fsm_step (i : input) (s : sys) : sys :=
  match i with
  | InUp => fsm_lowerup cb fsm_key peer_mru wants_passive s
  | InDown => fsm_lowerdown cb fsm_key s
  | InOpen => fsm_open cb fsm_key peer_mru wants_passive s
  | InClose => fsm_close cb fsm_key peer_mru s
  | InTimeout => fsm_timeout cb fsm_key peer_mru wants_passive s
  | InProtreject => fsm_protreject cb fsm_key peer_mru wants_passive s
  | InPacket code i inpacket inp =>
      match state (fs s) with
      | INITIAL | STARTING => s
      | _ => fsm_dispatch cb fsm_key peer_mru wants_passive reqid_none code i inpacket inp s
      end
  end.

(** The action an output stands for. *)
Definition code_action (code : Z) : option rfc_action :=
  if code =? CONFREQ then Some scr
  else if code =? CONFACK then Some sca
  else if (code =? CONFNAK) || (code =? CONFREJ) then Some scn
  else if code =? TERMREQ then Some str
  else if code =? TERMACK then Some sta
  else if code =? CODEREJ then Some scj
  else None.

Definition packet_action (p : bytes) : option rfc_action :=
  match zdrop DLLHEADERLEN p with code :: _ => code_action code | [] => None end.

Definition action_of (e : event) : option rfc_action :=
  match e with
  | Output p => packet_action p
  | Up => Some tlu | Down => Some tld | Starting => Some tls | Finished => Some tlf
  | Client | Retransmit => None
  end.

(** The actions so far, the newest first. *)
Definition actions (s : sys) : list rfc_action := omap action_of (log s).

(** The reply of the client to a Configure-Request, when the automaton asks
    for it. *)
Definition rconfreq_asks (s : sys) : sys :=
  match state (fs s) with
  | OPENED => sconfreq false (down cb s)
  | STOPPED => set_state REQSENT (sconfreq false s)
  | _ => s
  end.

Definition reply_code (inp : bytes) (s : sys) : Z :=
  let s := rconfreq_asks s in
  match cb_reqci cb with
  | Some reqci =>
      fst (fst (reqci (fs s) (cli s) inp (maxnakloops (fs s) <=? nakloops (fs s))))
  | None => if zlen inp =? 0 then CONFACK else CONFREJ
  end.

Definition accepts (x : option (fsm → U → bytes → bool * U)) (dflt : bool)
    (i : Z) (inp : bytes) (s : sys) : bool :=
  (i =? reqid (fs s)) &&
  match x with Some g => fst (g (fs s) (cli s) inp) | None => dflt end.

(** The event of the table an input stands for; [None] when the code tosses
    the packet or the client handles it. *)
Definition rfc_class (i : input) (s : sys) : option rfc_event :=
  match i with
  | InUp => Some EvUp
  | InDown => Some EvDown
  | InOpen => Some EvOpen
  | InClose => Some EvClose
  | InTimeout => Some (if retransmits (fs s) <=? 0 then EvTOminus else EvTOplus)
  | InProtreject => Some EvRXJminus
  | InPacket code i inpacket inp =>
      if code =? CONFREQ then
        Some (if reply_code inp s =? CONFACK then EvRCRplus else EvRCRminus)
      else if code =? CONFACK then
        if accepts (cb_ackci cb) (zlen inp =? 0) i inp s then Some EvRCA else None
      else if code =? CONFNAK then
        if accepts (cb_nakci cb) false i inp s then Some EvRCN else None
      else if code =? CONFREJ then
        if accepts (cb_rejci cb) false i inp s then Some EvRCN else None
      else if code =? TERMREQ then Some EvRTR
      else if code =? TERMACK then Some EvRTA
      else if code =? CODEREJ then
        if zlen inp <? HEADERLEN then None else Some EvRXJplus
      else
        match cb_extcode cb with
        | Some g => if fst (g (fs s) (cli s) code i inp) then None else Some EvRUC
        | None => Some EvRUC
        end
  end.

(** The client has the indication callbacks and answers a Configure-Request
    with one of the three reply codes. *)
Definition client_ok : Prop :=
  cb_up cb ≠ None ∧ cb_down cb ≠ None ∧ cb_starting cb ≠ None ∧ cb_finished cb ≠ None ∧
  match cb_reqci cb with
  | Some reqci => ∀ f u inp b,
      let code := fst (fst (reqci f u inp b)) in
      code = CONFACK ∨ code = CONFNAK ∨ code = CONFREJ
  | None => True
  end ∧
  ∀ f, OPT_RESTART f = false → cb_reopens cb f = false.

(** No option flag of the implementation is set. *)
Definition no_flags (f : fsm) : Prop :=
  OPT_PASSIVE f = false ∧ OPT_RESTART f = false ∧ OPT_SILENT f = false.

(** *** What the steps do to the state and the actions *)

Lemma state_call x (s : sys) : fs (call x s) = fs s.
Proof. by destruct x. Qed.

Lemma state_notify e x (s : sys) : fs (notify e x s) = fs s.
Proof. by destruct x. Qed.

Lemma actions_emit e (s : sys) : actions (emit e s) =
  match action_of e with Some a => a :: actions s | None => actions s end.
Proof. unfold actions. cbn. by destruct (action_of e). Qed.

Lemma actions_upd g (s : sys) : actions (upd g s) = actions s.
Proof. done. Qed.

Lemma actions_set_cli u (s : sys) : actions (set_cli u s) = actions s.
Proof. done. Qed.

Lemma actions_TIMEOUT (s : sys) : actions (PPP_TIMEOUT fsm_key s) = actions s.
Proof. done. Qed.

Lemma actions_UNTIMEOUT (s : sys) : actions (PPP_UNTIMEOUT fsm_key s) = actions s.
Proof. done. Qed.

Lemma actions_call x (s : sys) : actions (call x s) = actions s.
Proof. by destruct x. Qed.

Lemma actions_notify e x (s : sys) a : x ≠ None → action_of e = Some a →
  actions (notify e x s) = a :: actions s.
Proof. intros Hx He. destruct x; [|done]. unfold actions. cbn. by rewrite He. Qed.

Lemma actions_retransmit (s : sys) : actions (retransmit cb s) = actions s.
Proof. unfold retransmit. by destruct (cb_retransmit cb). Qed.

Lemma actions_sdata c i d (s : sys) : is_byte c →
  actions (sdata c i d s) =
    match code_action c with Some a => a :: actions s | None => actions s end.
Proof.
  intros Hc. unfold fsm_sdata. rewrite actions_emit. cbn [action_of]. unfold packet_action.
  rewrite zdrop_app_ge by (rewrite MAKEHEADER_len; lia).
  rewrite MAKEHEADER_len, Z.sub_diag, zdrop_neg by lia. cbn [app].
  by rewrite u8_id by apply Hc.
Qed.

(** The codes, one by one. *)
Lemma code_cases :
  is_byte CONFREQ ∧ is_byte CONFACK ∧ is_byte CONFNAK ∧ is_byte CONFREJ ∧
  is_byte TERMREQ ∧ is_byte TERMACK ∧ is_byte CODEREJ ∧
  code_action CONFREQ = Some scr ∧ code_action CONFACK = Some sca ∧
  code_action CONFNAK = Some scn ∧ code_action CONFREJ = Some scn ∧
  code_action TERMREQ = Some str ∧ code_action TERMACK = Some sta ∧
  code_action CODEREJ = Some scj.
Proof.
  pose proof codes_bytes as Hb. pose proof codes_distinct as Hd.
  repeat match goal with
  | H : Forall _ (_ :: _) |- _ => apply Forall_cons_1 in H as [? H]
  end.
  assert (∀ x y, x ≠ y → (x =? y) = false) as Hneq by (intros; by apply Z.eqb_neq).
  repeat match goal with
  | H : NoDup (_ :: _) |- _ =>
      let Hn := fresh "Hn" in
      pose proof (NoDup_cons_1_1 _ _ H) as Hn; apply NoDup_cons_1_2 in H;
      repeat (apply not_elem_of_cons in Hn as [? Hn]); clear Hn
  end.
  unfold code_action. rewrite !Z.eqb_refl.
  split_and!; try done; repeat (rewrite Hneq by congruence; cbn [orb]); rewrite ?orb_true_r; done.
Qed.

Lemma state_sconfreq r (s : sys) : state (fs (sconfreq r s)) = state (fs s).
Proof.
  unfold fsm_sconfreq. repeat case_match; simplify_eq; cbn; by rewrite ?state_call.
Qed.

Lemma actions_sconfreq r (s : sys) : actions (sconfreq r s) = scr :: actions s.
Proof.
  destruct code_cases as (Hb & _ & _ & _ & _ & _ & _ & Hc & _).
  unfold fsm_sconfreq. repeat case_match; simplify_eq;
    rewrite actions_TIMEOUT; unfold set_retransmits; rewrite actions_upd, actions_sdata, Hc by done;
    rewrite ?actions_set_cli; rewrite ?actions_emit; cbn [action_of];
    unfold new_id, set_nakloops; rewrite ?actions_upd, ?actions_call; done.
Qed.

Lemma state_termreq (s : sys) : state (fs (send_termreq fsm_key peer_mru s)) = state (fs s).
Proof. done. Qed.

Lemma actions_termreq (s : sys) : actions (send_termreq fsm_key peer_mru s) = str :: actions s.
Proof.
  destruct code_cases as (_ & _ & _ & _ & Hb & _ & _ & _ & _ & _ & _ & Hc & _).
  unfold send_termreq, set_retransmits. rewrite actions_upd, actions_TIMEOUT, actions_sdata by done.
  by rewrite Hc.
Qed.

Lemma state_set_state st (s : sys) : state (fs (set_state st s)) = st.
Proof. done. Qed.
Lemma state_set_retransmits n (s : sys) : state (fs (set_retransmits n s)) = state (fs s).
Proof. done. Qed.
Lemma state_set_nakloops n (s : sys) : state (fs (set_nakloops n s)) = state (fs s).
Proof. done. Qed.
Lemma state_set_reqid n (s : sys) : state (fs (set_reqid n s)) = state (fs s).
Proof. done. Qed.
Lemma state_set_cli u (s : sys) : fs (set_cli u s) = fs s.
Proof. done. Qed.
Lemma state_TIMEOUT (s : sys) : fs (PPP_TIMEOUT fsm_key s) = fs s.
Proof. done. Qed.
Lemma state_UNTIMEOUT (s : sys) : fs (PPP_UNTIMEOUT fsm_key s) = fs s.
Proof. done. Qed.
Lemma state_sdata c i d (s : sys) : fs (sdata c i d s) = fs s.
Proof. done. Qed.
Lemma state_up (s : sys) : fs (up cb s) = fs s.
Proof. apply state_notify. Qed.
Lemma state_down (s : sys) : fs (down cb s) = fs s.
Proof. apply state_notify. Qed.
Lemma state_starting (s : sys) : fs (starting cb s) = fs s.
Proof. apply state_notify. Qed.
Lemma state_finished (s : sys) : fs (finished cb s) = fs s.
Proof. apply state_notify. Qed.
Lemma state_retransmit (s : sys) : fs (retransmit cb s) = fs s.
Proof. apply state_notify. Qed.
Lemma actions_set_state st (s : sys) : actions (set_state st s) = actions s.
Proof. done. Qed.
Lemma actions_set_retransmits n (s : sys) : actions (set_retransmits n s) = actions s.
Proof. done. Qed.
Lemma actions_set_nakloops n (s : sys) : actions (set_nakloops n s) = actions s.
Proof. done. Qed.
Lemma actions_set_reqid n (s : sys) : actions (set_reqid n s) = actions s.
Proof. done. Qed.
End Theory.

Section Table.
Context {U T K : Type} `{TimersLaws K T} `{PppDefsLaws}.
Variable cb : callbacks U.
Variable fsm_key : K.
Variable peer_mru : U → Z.
Variable wants_passive : U → bool.
Variable reqid_none : Z.
Hypothesis Hclient : client_ok cb.

Abbreviation sys := (sys U T).
Local Abbreviation step := (fsm_step cb fsm_key peer_mru wants_passive reqid_none).
Local Abbreviation sdata := (fsm_sdata peer_mru).

Lemma actions_up (s : sys) : actions (up cb s) = tlu :: actions s.
Proof. apply actions_notify; [apply Hclient | done]. Qed.
Lemma actions_down (s : sys) : actions (down cb s) = tld :: actions s.
Proof. apply actions_notify; [apply Hclient | done]. Qed.
Lemma actions_starting (s : sys) : actions (starting cb s) = tls :: actions s.
Proof. apply actions_notify; [apply Hclient | done]. Qed.
Lemma actions_finished (s : sys) : actions (finished cb s) = tlf :: actions s.
Proof. apply actions_notify; [apply Hclient | done]. Qed.

Lemma finish_eq (s : sys) : OPT_RESTART (fs s) = false →
  finish cb fsm_key peer_mru wants_passive s = finished cb s.
Proof.
  intros Hr. unfold finish. rewrite state_finished.
  destruct Hclient as (_ & _ & _ & _ & _ & Hno). by rewrite Hno.
Qed.

Lemma actions_TERMACK i d (s : sys) : actions (sdata TERMACK i d s) = sta :: actions s.
Proof.
  destruct code_cases as (_ & _ & _ & _ & _ & Hb & _ & _ & _ & _ & _ & _ & Hc & _).
  by rewrite actions_sdata, Hc.
Qed.

Lemma actions_CODEREJ i d (s : sys) : actions (sdata CODEREJ i d s) = scj :: actions s.
Proof.
  destruct code_cases as (_ & _ & _ & _ & _ & _ & Hb & _ & _ & _ & _ & _ & _ & Hc).
  by rewrite actions_sdata, Hc.
Qed.

(** Rewrite the state and the actions of a step. *)
Ltac fsm_rw :=
  repeat first
  [ rewrite state_set_state | rewrite state_set_retransmits | rewrite state_set_nakloops
  | rewrite state_set_reqid | rewrite state_set_cli | rewrite state_TIMEOUT
  | rewrite state_UNTIMEOUT | rewrite state_sdata | rewrite state_up | rewrite state_down
  | rewrite state_starting | rewrite state_finished | rewrite state_retransmit
  | rewrite state_sconfreq | rewrite state_termreq
  | rewrite actions_up | rewrite actions_down | rewrite actions_starting
  | rewrite actions_finished | rewrite actions_retransmit | rewrite actions_TERMACK
  | rewrite actions_CODEREJ | rewrite actions_sconfreq | rewrite actions_termreq
  | rewrite actions_set_state | rewrite actions_set_retransmits
  | rewrite actions_set_nakloops | rewrite actions_set_reqid | rewrite actions_set_cli
  | rewrite actions_TIMEOUT | rewrite actions_UNTIMEOUT ].

(** The state after and the actions of a call, against an entry of a table. *)
Definition does (s s' : sys) (entry : list rfc_action * fsm_state) : Prop :=
  state (fs s') = snd entry ∧ actions s' = rev (fst entry) ++ actions s.

Ltac entry := unfold does; fsm_rw; cbn [fst snd rev app]; split; first [congruence | done].

Lemma lowerup_does (s : sys) : no_flags (fs s) →
  does s (fsm_lowerup cb fsm_key peer_mru wants_passive s) (code_table (state (fs s)) EvUp).
Proof.
  intros (_ & _ & Hs). unfold fsm_lowerup. rewrite Hs.
  destruct (state (fs s)) eqn:E; cbn [code_table rfc_table]; entry.
Qed.

Lemma lowerdown_does (s : sys) :
  does s (fsm_lowerdown cb fsm_key s) (code_table (state (fs s)) EvDown).
Proof.
  unfold fsm_lowerdown. destruct (state (fs s)) eqn:E; cbn [code_table rfc_table]; entry.
Qed.

Lemma open_does (s : sys) : no_flags (fs s) →
  does s (fsm_open cb fsm_key peer_mru wants_passive s) (code_table (state (fs s)) EvOpen).
Proof.
  intros (_ & Hr & Hs). unfold fsm_open, open_restart. cbn [fs set_state upd OPT_RESTART with_state].
  rewrite Hr, Hs. destruct (state (fs s)) eqn:E; cbn [code_table rfc_table]; entry.
Qed.

Lemma close_does (s : sys) :
  does s (fsm_close cb fsm_key peer_mru s) (code_table (state (fs s)) EvClose).
Proof.
  unfold fsm_close. destruct (state (fs s)) eqn:E; cbn [code_table rfc_table decide decide_rel];
    try (rewrite decide_False by done); try (rewrite decide_True by done); entry.
Qed.

Lemma timeout_does (s : sys) : no_flags (fs s) →
  does s (fsm_timeout cb fsm_key peer_mru wants_passive s)
    (code_table (state (fs s)) (if retransmits (fs s) <=? 0 then EvTOminus else EvTOplus)).
Proof.
  intros (Hp & Hr & _). unfold fsm_timeout. cbn [fs set_state upd OPT_PASSIVE with_state].
  rewrite Hp. fsm_rw. rewrite ?finish_eq by done.
  destruct (state (fs s)) eqn:E, (retransmits (fs s) <=? 0); cbn [code_table rfc_table];
    repeat first [rewrite decide_True by done | rewrite decide_False by done]; entry.
Qed.

Lemma protreject_does (s : sys) : OPT_RESTART (fs s) = false →
  does s (fsm_protreject cb fsm_key peer_mru wants_passive s) (code_table (state (fs s)) EvRXJminus).
Proof.
  intros Hr. unfold fsm_protreject.
  destruct (state (fs s)) eqn:E; cbn [code_table rfc_table]; rewrite ?finish_eq by done; entry.
Qed.

Lemma rtermreq_does i (s : sys) :
  state (fs s) ≠ INITIAL → state (fs s) ≠ STARTING →
  does s (fsm_rtermreq cb fsm_key peer_mru i s) (code_table (state (fs s)) EvRTR).
Proof.
  intros. unfold fsm_rtermreq. destruct (state (fs s)) eqn:E; cbn [code_table rfc_table];
    congruence || entry.
Qed.

Lemma rtermack_does (s : sys) : OPT_RESTART (fs s) = false →
  does s (fsm_rtermack cb fsm_key peer_mru wants_passive s) (code_table (state (fs s)) EvRTA).
Proof.
  intros Hr. unfold fsm_rtermack.
  destruct (state (fs s)) eqn:E; cbn [code_table rfc_table]; rewrite ?finish_eq by done; entry.
Qed.

Lemma rcoderej_does inp (s : sys) : (zlen inp <? HEADERLEN) = false →
  does s (fsm_rcoderej inp s) (code_table (state (fs s)) EvRXJplus).
Proof.
  intros Hl. unfold fsm_rcoderej. rewrite Hl.
  destruct (state (fs s)) eqn:E; cbn [code_table rfc_table];
    repeat first [rewrite decide_True by done | rewrite decide_False by done]; entry.
Qed.

(** A Configure-Ack, Nak or Reject is tossed or is the event of the table. *)
Lemma rconfack_does i inp (s : sys) : state (fs s) ≠ INITIAL → state (fs s) ≠ STARTING →
  does s (fsm_rconfack cb fsm_key peer_mru wants_passive reqid_none i inp s)
    (if accepts (cb_ackci cb) (zlen inp =? 0) i inp s
     then code_table (state (fs s)) EvRCA else ([], state (fs s))).
Proof.
  intros. unfold fsm_rconfack, accepts. destruct (i =? reqid (fs s)); [|entry].
  cbn [negb andb].
  destruct (match cb_ackci cb with Some _ => _ | None => _ end) as [ok s1] eqn:E1.
  assert (fs s1 = fs s ∧ actions s1 = actions s ∧
    ok = match cb_ackci cb with
         | Some g => fst (g (fs s) (cli s) inp) | None => zlen inp =? 0 end) as (Hf & Ha & <-).
  { destruct (cb_ackci cb) as [g|]; [destruct (g _ _ _)|]; by simplify_eq. }
  unfold does. rewrite <- Hf, <- Ha. rewrite <- Hf in *. destruct ok; cbn [negb]; [|entry].
  fsm_rw. destruct (state (fs s1)) eqn:E; cbn [code_table rfc_table]; congruence || entry.
Qed.

Lemma rconfnakrej_does code i inp (s : sys) :
  state (fs s) ≠ INITIAL → state (fs s) ≠ STARTING →
  does s (fsm_rconfnakrej cb fsm_key peer_mru wants_passive reqid_none code i inp s)
    (if accepts (if code =? CONFNAK then cb_nakci cb else cb_rejci cb) false i inp s
     then code_table (state (fs s)) EvRCN else ([], state (fs s))).
Proof.
  intros. unfold fsm_rconfnakrej, accepts. destruct (i =? reqid (fs s)); [|entry].
  cbn [negb andb]. set (proc := if code =? CONFNAK then _ else _).
  destruct (match proc with Some _ => _ | None => _ end) as [ok s1] eqn:E1.
  assert (fs s1 = fs s ∧ actions s1 = actions s ∧
    ok = match proc with Some g => fst (g (fs s) (cli s) inp) | None => false end)
    as (Hf & Ha & <-).
  { destruct proc as [g|]; [destruct (g _ _ _)|]; by simplify_eq. }
  unfold does. rewrite <- Hf, <- Ha. rewrite <- Hf in *. destruct ok; cbn [negb]; [|entry].
  fsm_rw. destruct (state (fs s1)) eqn:E; cbn [code_table rfc_table]; congruence || entry.
Qed.

(** The reply part of a Configure-Request. *)
Definition reply_entry (ack : bool) (st : fsm_state) : list rfc_action * fsm_state :=
  if ack then
    if decide (st = ACKRCVD) then ([sca; tlu], OPENED) else ([sca], ACKSENT)
  else ([scn], if decide (st = ACKRCVD) then ACKRCVD else REQSENT).

Definition code_of_reply (inp : bytes) (s : sys) : Z :=
  match cb_reqci cb with
  | Some reqci =>
      fst (fst (reqci (fs s) (cli s) inp (maxnakloops (fs s) <=? nakloops (fs s))))
  | None => if zlen inp =? 0 then CONFACK else CONFREJ
  end.

Lemma code_of_reply_cases inp (s : sys) :
  code_of_reply inp s = CONFACK ∨ code_of_reply inp s = CONFNAK ∨
  code_of_reply inp s = CONFREJ.
Proof.
  unfold code_of_reply. destruct Hclient as (_ & _ & _ & _ & Hreq & _).
  destruct (cb_reqci cb) as [reqci|]; [apply Hreq|]. case_match; auto.
Qed.

Lemma rconfreq_reply_does i inp (s : sys) :
  does s (fsm_rconfreq_reply cb fsm_key peer_mru i inp s)
    (reply_entry (code_of_reply inp s =? CONFACK) (state (fs s))).
Proof.
  pose proof (code_of_reply_cases inp s) as Hcode. unfold fsm_rconfreq_reply.
  destruct (match cb_reqci cb with Some _ => _ | None => _ end) as [[code reply] s1] eqn:E1.
  assert (fs s1 = fs s ∧ actions s1 = actions s ∧ code = code_of_reply inp s)
    as (Hf & Ha & ->).
  { unfold code_of_reply. destruct (cb_reqci cb) as [g|]; [|by simplify_eq].
    destruct (g _ _ _ _) as [[? ?] ?]. by simplify_eq. }
  unfold does. rewrite <- Hf, <- Ha. clear E1. set (c := code_of_reply inp s) in *.
  destruct code_cases as (_ & Hb1 & Hb2 & Hb3 & _ & _ & _ & _ & Hc1 & Hc2 & Hc3 & _).
  destruct reply_codes as (Hn1 & Hn2 & Hn3).
  assert (actions (sdata c i reply s1) =
    (if c =? CONFACK then sca else scn) :: actions s1) as Hs.
  { destruct (Z.eqb_spec c CONFACK) as [->|Hne]; [by rewrite actions_sdata, Hc1|].
    destruct Hcode as [|[-> | ->]]; [done | |]; by rewrite actions_sdata, ?Hc2, ?Hc3. }
  fsm_rw. unfold reply_entry. destruct (c =? CONFACK).
  - destruct (decide (state (fs s1) = ACKRCVD)); fsm_rw; rewrite Hs; done.
  - destruct (c =? CONFNAK), (decide (state (fs s1) = ACKRCVD)); fsm_rw; rewrite Hs;
      cbn; by split; try congruence.
Qed.

Lemma rconfreq_does i inp (s : sys) : state (fs s) ≠ INITIAL → state (fs s) ≠ STARTING →
  does s (fsm_rconfreq cb fsm_key peer_mru wants_passive i inp s)
    (code_table (state (fs s))
      (if reply_code cb fsm_key peer_mru wants_passive inp s =? CONFACK
       then EvRCRplus else EvRCRminus)).
Proof.
  intros. set (c := reply_code _ _ _ _ inp s =? CONFACK).
  pose proof (rconfreq_reply_does i inp
    (rconfreq_asks cb fsm_key peer_mru wants_passive s)) as Hr.
  change (code_of_reply inp _ =? CONFACK) with c in Hr. unfold does, reply_entry in Hr.
  unfold fsm_rconfreq, rconfreq_asks in *.
  destruct (state (fs s)) eqn:E; try congruence; revert Hr; fsm_rw; rewrite ?E; destruct c;
    cbn [code_table rfc_table];
    repeat first [rewrite decide_True by done | rewrite decide_False by done];
    unfold does; cbn [fst snd rev app]; intros [Hr1 Hr2]; rewrite ?Hr1, ?Hr2; fsm_rw;
    split; first [congruence | done].
Qed.

Lemma unknown_does code i inpacket inp (s : sys) :
  state (fs s) ≠ INITIAL → state (fs s) ≠ STARTING →
  does s (fsm_unknown cb peer_mru code i inpacket inp s)
    (match (match cb_extcode cb with
            | Some g => if fst (g (fs s) (cli s) code i inp) then None else Some EvRUC
            | None => Some EvRUC end) with
     | Some ev => code_table (state (fs s)) ev
     | None => ([], state (fs s)) end).
Proof.
  intros. unfold fsm_unknown, does.
  destruct (cb_extcode cb) as [g|]; [destruct (g _ _ _ _ _) as [ok u]; destruct ok|];
    cbn [fst snd]; fsm_rw; [done| |];
    rewrite actions_upd, ?actions_set_cli; destruct (state (fs s)) eqn:E; try congruence;
    cbn [code_table rfc_table fst snd rev app state fs upd with_ids set_cli]; done.
Qed.

Lemma dispatch_does code i inpacket inp (s : sys) :
  code ≠ TERMACK ∨ OPT_RESTART (fs s) = false →
  state (fs s) ≠ INITIAL → state (fs s) ≠ STARTING →
  does s (fsm_dispatch cb fsm_key peer_mru wants_passive reqid_none code i inpacket inp s)
    (match rfc_class cb fsm_key peer_mru wants_passive (InPacket code i inpacket inp) s with
     | Some ev => code_table (state (fs s)) ev
     | None => ([], state (fs s)) end).
Proof.
  intros Hr Hi Hs. unfold fsm_dispatch, rfc_class.
  destruct (code =? CONFREQ); [by apply rconfreq_does|].
  destruct (code =? CONFACK).
  { pose proof (rconfack_does i inp s Hi Hs) as Hd. by destruct (accepts _ _ _ _ _). }
  pose proof (rconfnakrej_does code i inp s Hi Hs) as Hn.
  destruct (code =? CONFNAK); cbn [orb]; [by destruct (accepts _ _ _ _ _)|].
  destruct (code =? CONFREJ); [by destruct (accepts _ _ _ _ _)|].
  destruct (code =? TERMREQ); [by apply rtermreq_does|].
  destruct (Z.eqb_spec code TERMACK); [apply rtermack_does; by destruct Hr|].
  destruct (code =? CODEREJ); [|by apply unknown_does].
  destruct (zlen inp <? HEADERLEN) eqn:El; [|by apply rcoderej_does].
  unfold fsm_rcoderej. rewrite El. done.
Qed.

(** C15: with no option flag set, every input drives the automaton through
    the state transition table of RFC 1661: the new state is the table's and
    the indications and packets produced are the table's actions in order,
    except for the two entries of [code_table]; an input that stands for no
    event changes neither. *)
Theorem fsm_step_table i (s : sys) : no_flags (fs s) →
  let '(acts, st) :=
    match rfc_class cb fsm_key peer_mru wants_passive i s with
    | Some ev => code_table (state (fs s)) ev
    | None => ([], state (fs s))
    end in
  state (fs (step i s)) = st ∧ actions (step i s) = rev acts ++ actions s.
Proof.
  intros Hf. enough (does s (step i s)
    (match rfc_class cb fsm_key peer_mru wants_passive i s with
     | Some ev => code_table (state (fs s)) ev | None => ([], state (fs s)) end)) as Hd
    by (by destruct (match rfc_class _ _ _ _ i s with Some _ => _ | None => _ end)
          as [acts st]).
  destruct i as [| | | | | |code i inpacket inp]; cbn [fsm_step];
    [by apply lowerup_does | by apply lowerdown_does | by apply open_does
    | by apply close_does | by apply timeout_does | by apply protreject_does, Hf|].
  destruct (state (fs s)) eqn:E;
    try (rewrite <- E; apply dispatch_does; [right; apply Hf | congruence | congruence]);
    (cbn [rfc_class]; repeat case_match; simplify_eq; unfold does; rewrite ?E; done).
Qed.

(** ** Reachable states *)

(** The last indication to the upper layer, among the actions newest first. *)
Fixpoint link_up (acts : list rfc_action) : bool :=
  match acts with
  | tlu :: _ => true
  | tld :: _ => false
  | _ :: r => link_up r
  | [] => false
  end.

(** The states in which the restart timer must run. *)
Definition timed (st : fsm_state) : bool :=
  match st with
  | CLOSING | STOPPING | REQSENT | ACKRCVD | ACKSENT => true
  | _ => false
  end.

(** The states in which Configure-Requests are being exchanged. *)
Definition exchanging (st : fsm_state) : bool :=
  match st with REQSENT | ACKRCVD | ACKSENT | OPENED => true | _ => false end.

Definition pend (s : sys) : nat := pending fsm_key (tms s).

(** [reachable s]: the automaton starts in Initial and takes inputs; an
    alarm removes timers from the queue ([t'] is the queue it leaves) and
    calls [fsm_timeout] one or more times; the environment may change the
    client, the option flags, and the timers of others. *)
Inductive reachable : sys → Prop :=
  | reach_init s : state (fs s) = INITIAL → log s = [] → reachable s
  | reach_input s i : reachable s → i ≠ InTimeout → reachable (step i s)
  | reach_alarm s t' n : reachable s →
      reachable (Nat.iter (S n) (step InTimeout) (MkSys (fs s) (cli s) t' (log s)))
  | reach_env s p r q u' t' : reachable s → pending fsm_key t' = pend s →
      reachable (MkSys (MkFsm (state (fs s)) p r q (id (fs s)) (reqid (fs s))
        (retransmits (fs s)) (nakloops (fs s)) (timeouttime (fs s))
        (maxconfreqtransmits (fs s)) (maxtermtransmits (fs s)) (maxnakloops (fs s))
        (protocol (fs s))) u' t' (log s)).

(** *** The link is up only in Opened *)

Ltac split_flags :=
  repeat match goal with
  | |- context [if OPT_SILENT ?x then _ else _] => destruct (OPT_SILENT x)
  | |- context [if OPT_PASSIVE ?x then _ else _] => destruct (OPT_PASSIVE x)
  | |- context [if retransmits ?x <=? 0 then _ else _] => destruct (retransmits x <=? 0)
  end.

Definition up_ok (s : sys) : Prop := link_up (actions s) = true → state (fs s) = OPENED.

Lemma table_up_ok ev (s s' : sys) :
  up_ok s → does s s' (code_table (state (fs s)) ev) → up_ok s'.
Proof.
  unfold up_ok, does. intros Hs [-> ->].
  destruct ev, (state (fs s)); cbn; try done; intros Hl; first [done | by specialize (Hs Hl)].
Qed.

Lemma same_up_ok (s s' : sys) : up_ok s →
  does s s' ([], state (fs s)) → up_ok s'.
Proof. unfold up_ok, does. intros Hs [-> ->]. done. Qed.

Lemma lowerup_up_ok (s : sys) :
  up_ok s → up_ok (fsm_lowerup cb fsm_key peer_mru wants_passive s).
Proof.
  unfold up_ok, fsm_lowerup. intros Hs.
  destruct (state (fs s)) eqn:E; try (by rewrite E);
    split_flags; fsm_rw; cbn; intros Hl; by specialize (Hs Hl).
Qed.

Lemma restart_up_ok (s : sys) :
  up_ok s → up_ok (open_restart cb fsm_key peer_mru wants_passive s).
Proof.
  intros Hs. unfold open_restart. destruct (OPT_RESTART _); [|done].
  apply lowerup_up_ok. eapply table_up_ok; [done | apply lowerdown_does].
Qed.

Lemma open_up_ok (s : sys) :
  up_ok s → up_ok (fsm_open cb fsm_key peer_mru wants_passive s).
Proof.
  intros Hs. unfold fsm_open. destruct (state (fs s)) eqn:E; try done;
    try (by apply restart_up_ok);
    try (apply restart_up_ok; unfold up_ok in *; fsm_rw; rewrite E in Hs; by intros Hl%Hs);
    split_flags; unfold up_ok in *; fsm_rw; cbn; rewrite E in Hs;
    by intros Hl%Hs.
Qed.

Lemma finish_up_ok (s : sys) :
  up_ok s → up_ok (finish cb fsm_key peer_mru wants_passive s).
Proof.
  intros Hs. unfold finish.
  assert (up_ok (finished cb s)) as Hf by (unfold up_ok in *; fsm_rw; exact Hs).
  destruct (cb_reopens _ _); [by apply open_up_ok | done].
Qed.

Lemma not_up (s s' : sys) : up_ok s → state (fs s) ≠ OPENED →
  actions s' = actions s → up_ok s'.
Proof. unfold up_ok. intros Hs Hne ->. by intros Hl%Hs. Qed.

Lemma protreject_up_ok (s : sys) :
  up_ok s → up_ok (fsm_protreject cb fsm_key peer_mru wants_passive s).
Proof.
  intros Hs. unfold fsm_protreject. destruct (state (fs s)) eqn:E; try done;
    try (apply finish_up_ok; apply (not_up s); [done | congruence | by fsm_rw]);
    unfold up_ok; fsm_rw; done.
Qed.

Lemma rtermack_up_ok (s : sys) :
  up_ok s → up_ok (fsm_rtermack cb fsm_key peer_mru wants_passive s).
Proof.
  intros Hs. unfold fsm_rtermack. destruct (state (fs s)) eqn:E; try done;
    try (apply finish_up_ok; apply (not_up s); [done | congruence | by fsm_rw]);
    try (apply (not_up s); [done | congruence | by fsm_rw]);
    unfold up_ok; fsm_rw; done.
Qed.

Lemma timeout_up_ok (s : sys) :
  up_ok s → up_ok (fsm_timeout cb fsm_key peer_mru wants_passive s).
Proof.
  intros Hs. unfold fsm_timeout.
  destruct (state (fs s)) eqn:E; try done; split_flags;
    repeat first [rewrite decide_True by done | rewrite decide_False by done];
    try (apply finish_up_ok; apply (not_up s); [done | congruence | by fsm_rw]);
    unfold up_ok in *; fsm_rw; rewrite ?E;
    repeat first [rewrite decide_True by done | rewrite decide_False by done];
    fsm_rw; rewrite ?E; cbn; intros Hl; specialize (Hs Hl); congruence.
Qed.

Lemma dispatch_TERMACK i inpacket inp (s : sys) :
  fsm_dispatch cb fsm_key peer_mru wants_passive reqid_none TERMACK i inpacket inp s =
  fsm_rtermack cb fsm_key peer_mru wants_passive s.
Proof.
  pose proof codes_distinct as Hd. unfold fsm_dispatch.
  repeat match goal with
  | H : NoDup (_ :: _) |- _ =>
      let Hn := fresh "Hn" in
      pose proof (NoDup_cons_1_1 _ _ H) as Hn; apply NoDup_cons_1_2 in H;
      repeat (apply not_elem_of_cons in Hn as [? Hn]); clear Hn
  end.
  repeat (match goal with |- context [TERMACK =? ?c] =>
    replace (TERMACK =? c) with false by (symmetry; apply Z.eqb_neq; congruence) end).
  by rewrite Z.eqb_refl.
Qed.

Lemma step_up_ok i (s : sys) : up_ok s → up_ok (step i s).
Proof.
  intros Hs. destruct i as [| | | | | |code i inpacket inp]; cbn [fsm_step].
  - by apply lowerup_up_ok.
  - eapply table_up_ok; [done | apply lowerdown_does].
  - by apply open_up_ok.
  - eapply table_up_ok; [done | apply close_does].
  - by apply timeout_up_ok.
  - by apply protreject_up_ok.
  - destruct (decide (state (fs s) = INITIAL)) as [Hi|Hi]; [by rewrite Hi|].
    destruct (decide (state (fs s) = STARTING)) as [Hst|Hst]; [by rewrite Hst|].
    assert (up_ok (fsm_dispatch cb fsm_key peer_mru wants_passive reqid_none
      code i inpacket inp s)) as Hup.
    { destruct (decide (code = TERMACK)) as [->|Hc].
      - rewrite dispatch_TERMACK. by apply rtermack_up_ok.
      - pose proof (dispatch_does code i inpacket inp s (or_introl Hc) Hi Hst) as Hd.
        destruct (rfc_class _ _ _ _ _ s) as [ev|];
          [by eapply table_up_ok | by eapply same_up_ok]. }
    by destruct (state (fs s)).
Qed.

(** *** The restart timer runs while it is needed *)

Local Abbreviation sconfreq := (fsm_sconfreq cb fsm_key peer_mru wants_passive).

Lemma pend_TIMEOUT (s : sys) : pend (PPP_TIMEOUT fsm_key s) = S (pend s).
Proof. unfold pend. cbn. by rewrite pending_TIMEOUT, decide_True. Qed.

Lemma pend_notify e x (s : sys) : pend (notify e x s) = pend s.
Proof. by destruct x. Qed.

Lemma tms_call x (s : sys) : tms (call x s) = tms s.
Proof. by destruct x. Qed.


Lemma pend_sconfreq r (s : sys) : pend (sconfreq r s) = S (pend s).
Proof.
  unfold fsm_sconfreq. repeat case_match; simplify_eq; rewrite pend_TIMEOUT; f_equal;
    unfold pend; cbn; by rewrite ?tms_call.
Qed.

Lemma pend_termreq (s : sys) : pend (send_termreq fsm_key peer_mru s) = S (pend s).
Proof. exact (pend_TIMEOUT (sdata TERMREQ _ [] (new_id s))). Qed.

Lemma pend_set_state st (s : sys) : pend (set_state st s) = pend s.
Proof. done. Qed.
Lemma pend_set_retransmits n (s : sys) : pend (set_retransmits n s) = pend s.
Proof. done. Qed.
Lemma pend_set_nakloops n (s : sys) : pend (set_nakloops n s) = pend s.
Proof. done. Qed.
Lemma pend_set_reqid n (s : sys) : pend (set_reqid n s) = pend s.
Proof. done. Qed.
Lemma pend_set_cli u (s : sys) : pend (set_cli u s) = pend s.
Proof. done. Qed.
Lemma pend_sdata c i d (s : sys) : pend (sdata c i d s) = pend s.
Proof. done. Qed.

Ltac pend_rw :=
  unfold up, down, starting, finished, retransmit;
  repeat first
  [ rewrite pend_TIMEOUT | rewrite pend_sconfreq | rewrite pend_termreq
  | rewrite pend_notify | rewrite pend_set_state | rewrite pend_set_retransmits
  | rewrite pend_set_nakloops | rewrite pend_set_reqid | rewrite pend_set_cli
  | rewrite pend_sdata ].

Definition timer_ok (s : sys) : Prop := timed (state (fs s)) = true → (0 < pend s)%nat.

(** Solve a branch: compute the state, then either it needs no timer or
    one was just started or was there before. *)
Ltac timer_branch :=
  unfold timer_ok in *; fsm_rw; pend_rw; cbn [timed] in *;
  repeat match goal with E : state (fs _) = _ |- _ => rewrite E in * end;
  cbn [timed] in *; first [done | lia | intros; lia | solve [auto]].

Lemma lowerup_timer (s : sys) :
  timer_ok s → timer_ok (fsm_lowerup cb fsm_key peer_mru wants_passive s).
Proof.
  intros Hs. unfold fsm_lowerup. destruct (state (fs s)) eqn:E; split_flags; timer_branch.
Qed.

Lemma lowerdown_timer (s : sys) : timer_ok s → timer_ok (fsm_lowerdown cb fsm_key s).
Proof. intros Hs. unfold fsm_lowerdown. destruct (state (fs s)) eqn:E; timer_branch. Qed.

Lemma restart_timer (s : sys) :
  timer_ok s → timer_ok (open_restart cb fsm_key peer_mru wants_passive s).
Proof.
  intros Hs. unfold open_restart. destruct (OPT_RESTART _); [|done].
  by apply lowerup_timer, lowerdown_timer.
Qed.

Lemma open_timer (s : sys) :
  timer_ok s → timer_ok (fsm_open cb fsm_key peer_mru wants_passive s).
Proof.
  intros Hs. unfold fsm_open.
  destruct (state (fs s)) eqn:E; try (apply restart_timer); split_flags; timer_branch.
Qed.

Lemma close_timer (s : sys) : timer_ok s → timer_ok (fsm_close cb fsm_key peer_mru s).
Proof.
  intros Hs. unfold fsm_close. destruct (state (fs s)) eqn:E;
    repeat first [rewrite decide_True by done | rewrite decide_False by done]; timer_branch.
Qed.

Lemma finish_timer (s : sys) :
  timer_ok s → timer_ok (finish cb fsm_key peer_mru wants_passive s).
Proof.
  intros Hs. unfold finish.
  assert (timer_ok (finished cb s)) as Hf by (unfold timer_ok in *; fsm_rw; by pend_rw).
  destruct (cb_reopens _ _); [by apply open_timer | done].
Qed.

(** Whatever the queue the alarm left. *)
Lemma timeout_timer (s : sys) :
  timer_ok (fsm_timeout cb fsm_key peer_mru wants_passive s).
Proof.
  unfold fsm_timeout. destruct (state (fs s)) eqn:E; split_flags;
    repeat first [rewrite decide_True by done | rewrite decide_False by done];
    try (by apply finish_timer); unfold timer_ok; fsm_rw; rewrite ?E;
    repeat first [rewrite decide_True by done | rewrite decide_False by done];
    fsm_rw; rewrite ?E; pend_rw; cbn [timed]; first [done | intros; lia].
Qed.

Lemma protreject_timer (s : sys) :
  timer_ok s → timer_ok (fsm_protreject cb fsm_key peer_mru wants_passive s).
Proof.
  intros Hs. unfold fsm_protreject.
  destruct (state (fs s)) eqn:E; try (by apply finish_timer); timer_branch.
Qed.

Lemma reply_timer i inp (s : sys) : exchanging (state (fs s)) = true → (0 < pend s)%nat →
  timer_ok (fsm_rconfreq_reply cb fsm_key peer_mru i inp s).
Proof.
  intros He Hp. unfold fsm_rconfreq_reply.
  destruct (match cb_reqci cb with Some _ => _ | None => _ end) as [[code reply] s1] eqn:E1.
  assert (fs s1 = fs s ∧ pend s1 = pend s) as [Hf Hp1].
  { destruct (cb_reqci cb) as [g|]; [destruct (g _ _ _ _) as [[? ?] ?]|]; by simplify_eq. }
  clear E1. unfold timer_ok. fsm_rw.
  destruct (code =? CONFACK); [|destruct (code =? CONFNAK)];
    destruct (decide (state (fs s1) = ACKRCVD)); fsm_rw; pend_rw; done || lia.
Qed.

Lemma rconfreq_timer i inp (s : sys) :
  state (fs s) ≠ INITIAL → state (fs s) ≠ STARTING → timer_ok s →
  timer_ok (fsm_rconfreq cb fsm_key peer_mru wants_passive i inp s).
Proof.
  intros Hi Hst Hs. unfold fsm_rconfreq. destruct (state (fs s)) eqn:E; try done;
    try timer_branch; try (apply reply_timer; fsm_rw; pend_rw; rewrite ?E; [done|]; try lia;
         apply Hs; by rewrite E).
Qed.

(** A packet the client is asked about: only the client's state changes. *)
Lemma timer_ok_same (s s' : sys) : timer_ok s → state (fs s') = state (fs s) →
  pend s' = pend s → timer_ok s'.
Proof. unfold timer_ok. by intros Hs -> ->. Qed.

Lemma rconfack_timer i inp (s : sys) : timer_ok s →
  timer_ok (fsm_rconfack cb fsm_key peer_mru wants_passive reqid_none i inp s).
Proof.
  intros Hs. unfold fsm_rconfack. destruct (negb _); [done|].
  destruct (match cb_ackci cb with Some _ => _ | None => _ end) as [ok s1] eqn:E1.
  assert (timer_ok s1) as Hs1.
  { apply (timer_ok_same s); [done| |]; (destruct (cb_ackci cb) as [g|];
      [destruct (g _ _ _)|]; by simplify_eq). }
  clear E1 Hs. destruct ok; cbn [negb]; [|done]. fsm_rw.
  destruct (state (fs s1)) eqn:E; timer_branch.
Qed.

Lemma rconfnakrej_timer code i inp (s : sys) : timer_ok s →
  timer_ok (fsm_rconfnakrej cb fsm_key peer_mru wants_passive reqid_none code i inp s).
Proof.
  intros Hs. unfold fsm_rconfnakrej. destruct (negb _); [done|].
  set (proc := if code =? CONFNAK then _ else _).
  destruct (match proc with Some _ => _ | None => _ end) as [ok s1] eqn:E1.
  assert (timer_ok s1) as Hs1.
  { apply (timer_ok_same s); [done| |]; (destruct proc as [g|];
      [destruct (g _ _ _)|]; by simplify_eq). }
  clear E1 Hs. destruct ok; cbn [negb]; [|done]. fsm_rw.
  destruct (state (fs s1)) eqn:E; timer_branch.
Qed.

Lemma dispatch_timer code i inpacket inp (s : sys) :
  state (fs s) ≠ INITIAL → state (fs s) ≠ STARTING → timer_ok s →
  timer_ok (fsm_dispatch cb fsm_key peer_mru wants_passive reqid_none code i inpacket inp s).
Proof.
  intros Hi Hst Hs. unfold fsm_dispatch.
  destruct (code =? CONFREQ); [by apply rconfreq_timer|].
  destruct (code =? CONFACK); [by apply rconfack_timer|].
  destruct ((code =? CONFNAK) || _); [by apply rconfnakrej_timer|].
  destruct (code =? TERMREQ).
  { unfold fsm_rtermreq. destruct (state (fs s)) eqn:E; timer_branch. }
  destruct (code =? TERMACK).
  { unfold fsm_rtermack.
    destruct (state (fs s)) eqn:E; try (by apply finish_timer); timer_branch. }
  destruct (code =? CODEREJ).
  { unfold fsm_rcoderej. destruct (zlen inp <? HEADERLEN); [done|].
    destruct (decide (state (fs s) = ACKRCVD)) as [E|]; [timer_branch|done]. }
  apply (timer_ok_same s); [done| |]; unfold fsm_unknown;
    (destruct (cb_extcode cb) as [g|]; [destruct (g _ _ _ _ _) as [[] ?]|]; done).
Qed.

Lemma step_timer i (s : sys) : timer_ok s → timer_ok (step i s).
Proof.
  intros Hs. destruct i as [| | | | | |code i inpacket inp]; cbn [fsm_step].
  - by apply lowerup_timer.
  - by apply lowerdown_timer.
  - by apply open_timer.
  - by apply close_timer.
  - apply timeout_timer.
  - by apply protreject_timer.
  - destruct (decide (state (fs s) = INITIAL)) as [Hi|Hi]; [by rewrite Hi|].
    destruct (decide (state (fs s) = STARTING)) as [Hst|Hst]; [by rewrite Hst|].
    pose proof (dispatch_timer code i inpacket inp s Hi Hst Hs). by destruct (state (fs s)).
Qed.

(** C16: in every reachable state, whatever the packets, the timing and the
    client, the upper layers have been told that the link is up only if the
    automaton is in Opened, and a restart timer is pending whenever the
    automaton waits for the peer, so that it cannot wait for ever. *)
Theorem reachable_ok (s : sys) : reachable s →
  (link_up (actions s) = true → state (fs s) = OPENED) ∧
  (timed (state (fs s)) = true → (0 < pending fsm_key (tms s))%nat).
Proof.
  change (reachable s → up_ok s ∧ timer_ok s). induction 1
    as [s Hi Hl|s i Hr [IH1 IH2] Hi|s t' n Hr [IH1 IH2]|s p r q u' t' Hr [IH1 IH2] Hp].
  - unfold up_ok, timer_ok, actions. by rewrite Hl, Hi.
  - split; [by apply step_up_ok | by apply step_timer].
  - split; [|apply timeout_timer].
    assert (up_ok (MkSys (fs s) (cli s) t' (log s))) as Hup by exact IH1.
    generalize (MkSys (fs s) (cli s) t' (log s)), Hup. clear Hup. intros s' Hup.
    generalize (S n). intros m. induction m as [|m IH]; [done|]. by apply step_up_ok.
  - split; [exact IH1|]. unfold timer_ok, pend in *. cbn. by rewrite Hp.
Qed.

(** *** Termination of the retransmissions *)

Lemma retransmits_sconfreq (s : sys) :
  retransmits (fs (sconfreq true s)) = retransmits (fs s) - 1.
Proof.
  unfold fsm_sconfreq. repeat case_match; simplify_eq; cbn; by rewrite ?state_call.
Qed.

Lemma restart_sconfreq r (s : sys) :
  OPT_RESTART (fs (sconfreq r s)) = OPT_RESTART (fs s).
Proof.
  unfold fsm_sconfreq. repeat case_match; simplify_eq; cbn; by rewrite ?state_call.
Qed.

Lemma retransmits_retransmit (s : sys) : fs (retransmit cb s) = fs s.
Proof. apply state_notify. Qed.

Definition timeout := fsm_timeout cb fsm_key peer_mru wants_passive.

Lemma timeout_last (s : sys) : OPT_RESTART (fs s) = false → timed (state (fs s)) = true → retransmits (fs s) <= 0 →
  state (fs (timeout s)) = CLOSED ∨ state (fs (timeout s)) = STOPPED.
Proof.
  intros Hno Ht Hr. unfold timeout, fsm_timeout.
  replace (retransmits (fs s) <=? 0) with true by (symmetry; by apply Z.leb_le).
  destruct (state (fs s)) eqn:E; try done; split_flags; rewrite ?finish_eq by done; fsm_rw;
    repeat first [rewrite decide_True by done | rewrite decide_False by done]; auto.
Qed.

Lemma timeout_more (s : sys) : timed (state (fs s)) = true → 0 < retransmits (fs s) →
  timed (state (fs (timeout s))) = true ∧
  retransmits (fs (timeout s)) = retransmits (fs s) - 1 ∧
  OPT_RESTART (fs (timeout s)) = OPT_RESTART (fs s).
Proof.
  intros Ht Hr. unfold timeout, fsm_timeout.
  replace (retransmits (fs s) <=? 0) with false by (symmetry; by apply Z.leb_gt).
  destruct (state (fs s)) eqn:E; try done; fsm_rw; rewrite ?E;
    repeat first [rewrite decide_True by done | rewrite decide_False by done];
    fsm_rw; rewrite ?E; (split; [done|]); unfold set_state;
    cbn [fs upd retransmits OPT_RESTART with_state];
    rewrite ?retransmits_sconfreq, ?restart_sconfreq, ?retransmits_retransmit; done.
Qed.

(** C17: a peer that never answers is given up: from any state in which the
    automaton waits for the peer, one more timeout than the restart counter
    says takes it to Closed or Stopped (unless it is configured to restart). *)
Theorem timeouts_terminate (s : sys) :
  OPT_RESTART (fs s) = false → timed (state (fs s)) = true →
  let s' := Nat.iter (S (Z.to_nat (retransmits (fs s)))) timeout s in
  state (fs s') = CLOSED ∨ state (fs s') = STOPPED.
Proof.
  remember (Z.to_nat (retransmits (fs s))) as n eqn:Hn. revert s Hn.
  induction n as [|n IH]; intros s Hn Hno Ht.
  - apply timeout_last; [done|done|lia].
  - rewrite Nat.iter_succ_r. destruct (timeout_more s Ht ltac:(lia)) as (Ht' & Hr' & Hno').
    apply IH; [lia|by rewrite Hno'|done].
Qed.

(** *** Packets *)

Lemma fsm_header_prefix p c i q : fsm_header p = Some (c, i, q) →
  ∃ junk, p = q ++ junk ∧ HEADERLEN <= zlen q ∧ ∀ junk', fsm_header (q ++ junk') = Some (c, i, q).
Proof.
  unfold fsm_header. destruct p as [|c' [|i' [|hi [|lo r]]]]; try done.
  destruct (Z.ltb_spec (GETSHORT hi lo) HEADERLEN) as [|Hge]; [done|].
  destruct (Z.ltb_spec (zlen (c' :: i' :: hi :: lo :: r)) (GETSHORT hi lo)) as [|Hle]; [done|].
  intros [= -> -> <-]. set (n := GETSHORT hi lo) in *. rewrite HEADERLEN_eq in *.
  set (p := c :: i :: hi :: lo :: r) in *.
  assert (zlen (ztake n p) = n) as Hl by (rewrite zlen_ztake; lia).
  exists (zdrop n p). rewrite ztake_zdrop. split_and!; [done | lia |]. intros junk'.
  assert (∃ r', ztake n p = c :: i :: hi :: lo :: r') as [r' Hr'].
  { assert (Z.to_nat n = 4 + (Z.to_nat n - 4))%nat as Hn by lia.
    unfold ztake, p. rewrite Hn. by eexists. }
  rewrite Hr' in *. cbn [app]. fold n.
  destruct (Z.ltb_spec n 4); [lia|].
  change (c :: i :: hi :: lo :: r' ++ junk') with ((c :: i :: hi :: lo :: r') ++ junk').
  rewrite zlen_app, Hl. pose proof (zlen_nonneg junk').
  destruct (Z.ltb_spec (n + zlen junk') n); [lia|].
  rewrite ztake_app_le, ztake_all by lia. done.
Qed.

(** C18: [fsm_input] drops every packet with a short header, a length field
    smaller than a header or larger than the packet, leaving the whole state
    unchanged; from any other packet it takes exactly the bytes the length
    field announces, and what follows them has no influence. *)
Theorem fsm_input_header p (s : sys) :
  let input p := fsm_input cb fsm_key peer_mru wants_passive reqid_none p s in
  match fsm_header p with
  | None => input p = s
  | Some (c, i, q) =>
      HEADERLEN <= zlen q ∧ (∃ junk, p = q ++ junk) ∧
      input p = step (InPacket c i q (zdrop HEADERLEN q)) s ∧
      ∀ junk, input (q ++ junk) = input p
  end.
Proof.
  cbn zeta. unfold fsm_input. destruct (fsm_header p) as [[[c i] q]|] eqn:Eh.
  - destruct (fsm_header_prefix p c i q Eh) as (junk & -> & Hq & Hjunk).
    assert (∀ j, (zlen (q ++ j) <? HEADERLEN) = false) as Hlen.
    { intros j. rewrite zlen_app. pose proof (zlen_nonneg j). apply Z.ltb_ge. lia. }
    rewrite Hlen. cbn [fsm_step]. split_and!; [done | by exists junk | done |].
    intros j. by rewrite Hlen, Hjunk.
  - by destruct (zlen p <? HEADERLEN).
Qed.

(** every packet the automaton sends fits the peer's MRU, and the peer's
    [fsm_input] reads back the code, the id and the data, cut to the MRU. *)
Theorem fsm_sdata_roundtrip c i data (s : sys) :
  is_byte c → is_byte i → HEADERLEN <= peer_mru (cli s) < 65536 →
  ∃ pkt, sdata c i data s = emit (Output (MAKEHEADER (protocol (fs s)) ++ pkt)) s ∧
    zlen pkt <= peer_mru (cli s) ∧ fsm_header pkt = Some (c, i, pkt) ∧
    zdrop HEADERLEN pkt = ztake (peer_mru (cli s) - HEADERLEN) data.
Proof.
  intros Hc Hi Hmru. unfold fsm_sdata. set (mru := peer_mru (cli s)) in *.
  set (n := if _ <? _ then _ else _). pose proof (zlen_nonneg data).
  assert (n = Z.min (mru - HEADERLEN) (zlen data)) as Hn
    by (unfold n; destruct (Z.ltb_spec (mru - HEADERLEN) (zlen data)); lia).
  assert (ztake n data = ztake (mru - HEADERLEN) data) as Ht.
  { destruct (Z.le_ge_cases (mru - HEADERLEN) (zlen data)).
    - f_equal. lia.
    - by rewrite !ztake_all by lia. }
  rewrite HEADERLEN_eq in *.
  destruct (PUTSHORT_get (n + 4)) as (hi & lo & Hp & Hhi & Hlo & Hg); [lia|].
  rewrite Hp, !u8_id, Ht by (apply Hc || apply Hi). eexists. split; [done|].
  cbn [app]. rewrite !zlen_cons. rewrite zlen_ztake. split_and!; [lia| |done].
  unfold fsm_header. rewrite Hg, HEADERLEN_eq, !zlen_cons, zlen_ztake.
  destruct (Z.ltb_spec (n + 4) 4); [lia|].
  destruct (Z.ltb_spec (1 + (1 + (1 + (1 + Z.min (Z.max 0 (mru - 4)) (zlen data))))) (n + 4));
    [lia|].
  rewrite ztake_all; [done|]. rewrite !zlen_cons, zlen_ztake. lia.
Qed.

(** *** The Nak loop counter *)

(** Told to reject, the client does not answer with a Nak. *)
Definition client_rejects : Prop :=
  match cb_reqci cb with
  | Some reqci => ∀ f u inp, fst (fst (reqci f u inp true)) ≠ CONFNAK
  | None => True
  end.

(** The counter and its limit, both read from the automaton. *)
Definition naks (s : sys) : Z * Z := (nakloops (fs s), maxnakloops (fs s)).

Lemma naks_sconfreq r (s : sys) : naks (sconfreq r s) =
  (if negotiating (state (fs s)) then nakloops (fs s) else 0, maxnakloops (fs s)).
Proof.
  unfold fsm_sconfreq, naks. repeat case_match; simplify_eq; cbn; by rewrite ?state_call.
Qed.
Lemma naks_notify e x (s : sys) : naks (notify e x s) = naks s.
Proof. by destruct x. Qed.
Lemma naks_termreq (s : sys) : naks (send_termreq fsm_key peer_mru s) = naks s.
Proof. done. Qed.
Lemma naks_set_state st (s : sys) : naks (set_state st s) = naks s.
Proof. done. Qed.
Lemma naks_set_retransmits n (s : sys) : naks (set_retransmits n s) = naks s.
Proof. done. Qed.
Lemma naks_set_nakloops n (s : sys) : naks (set_nakloops n s) = (n, snd (naks s)).
Proof. done. Qed.
Lemma naks_TIMEOUT (s : sys) : naks (PPP_TIMEOUT fsm_key s) = naks s.
Proof. done. Qed.
Lemma naks_UNTIMEOUT (s : sys) : naks (PPP_UNTIMEOUT fsm_key s) = naks s.
Proof. done. Qed.
Lemma naks_sdata c i d (s : sys) : naks (sdata c i d s) = naks s.
Proof. done. Qed.

Ltac naks_rw :=
  unfold up, down, starting, finished, retransmit;
  repeat first
  [ rewrite naks_sconfreq | rewrite naks_notify | rewrite naks_termreq
  | rewrite naks_set_state | rewrite naks_set_retransmits | rewrite naks_set_nakloops
  | rewrite naks_TIMEOUT | rewrite naks_UNTIMEOUT | rewrite naks_sdata ].

Definition naks_ok (s : sys) : Prop :=
  exchanging (state (fs s)) = true → 0 <= fst (naks s) <= Z.max 0 (snd (naks s)).

Ltac naks_branch :=
  unfold naks_ok in *; fsm_rw; naks_rw; fsm_rw; rewrite ?state_notify; cbn [exchanging] in *;
  repeat match goal with E : state (fs _) = _ |- _ => rewrite E in * end;
  cbn [exchanging negotiating fst snd naks] in *;
  first [done | lia | solve [intros; lia] | solve [auto]].

Lemma lowerup_naks (s : sys) :
  naks_ok s → naks_ok (fsm_lowerup cb fsm_key peer_mru wants_passive s).
Proof.
  intros Hs. unfold fsm_lowerup. destruct (state (fs s)) eqn:E; split_flags; naks_branch.
Qed.

Lemma lowerdown_naks (s : sys) : naks_ok s → naks_ok (fsm_lowerdown cb fsm_key s).
Proof. intros Hs. unfold fsm_lowerdown. destruct (state (fs s)) eqn:E; naks_branch. Qed.

Lemma restart_naks (s : sys) :
  naks_ok s → naks_ok (open_restart cb fsm_key peer_mru wants_passive s).
Proof.
  intros Hs. unfold open_restart. destruct (OPT_RESTART _); [|done].
  by apply lowerup_naks, lowerdown_naks.
Qed.

Lemma open_naks (s : sys) :
  naks_ok s → naks_ok (fsm_open cb fsm_key peer_mru wants_passive s).
Proof.
  intros Hs. unfold fsm_open.
  destruct (state (fs s)) eqn:E; try (apply restart_naks); split_flags; naks_branch.
Qed.

Lemma finish_naks (s : sys) :
  naks_ok s → naks_ok (finish cb fsm_key peer_mru wants_passive s).
Proof.
  intros Hs. unfold finish.
  assert (naks_ok (finished cb s)) as Hf
    by (unfold naks_ok in *; fsm_rw; unfold finished; by rewrite naks_notify).
  destruct (cb_reopens _ _); [by apply open_naks | done].
Qed.

Lemma timeout_naks (s : sys) : naks_ok s → naks_ok (timeout s).
Proof.
  intros Hs. unfold timeout, fsm_timeout.
  destruct (state (fs s)) eqn:E; split_flags;
    repeat first [rewrite decide_True by done | rewrite decide_False by done];
    try (by apply finish_naks); fsm_rw; rewrite ?E;
    repeat first [rewrite decide_True by done | rewrite decide_False by done]; naks_branch.
Qed.

(** The reply: a Nak is counted only below the limit. *)
Lemma reply_naks i inp (s : sys) : client_rejects →
  0 <= fst (naks s) <= Z.max 0 (snd (naks s)) →
  naks_ok (fsm_rconfreq_reply cb fsm_key peer_mru i inp s).
Proof.
  intros Hrej Hn. unfold fsm_rconfreq_reply.
  destruct (match cb_reqci cb with Some _ => _ | None => _ end) as [[code reply] s1] eqn:E1.
  assert (naks s1 = naks s ∧ (code = CONFNAK → fst (naks s) < snd (naks s))) as [Hn1 Hlt].
  { unfold client_rejects in Hrej. destruct (cb_reqci cb) as [g|].
    - unfold naks. cbn [fst snd]. destruct (Z.leb_spec (maxnakloops (fs s)) (nakloops (fs s))).
      + specialize (Hrej (fs s) (cli s) inp). destruct (g _ _ _ _) as [[? ?] ?].
        simplify_eq. split; [done|]. by intros ->.
      + destruct (g _ _ _ _) as [[? ?] ?]. by simplify_eq.
    - simplify_eq. split; [done|]. destruct reply_codes as (? & ? & ?).
      case_match; congruence. }
  clear E1. unfold naks_ok. rewrite <- Hn1 in *.
  destruct (code =? CONFACK); [|destruct (Z.eqb_spec code CONFNAK) as [Hc|]];
    destruct (decide (state (fs (sdata code i reply s1)) = ACKRCVD)); naks_rw; cbn [fst snd];
    try lia; intros _; specialize (Hlt Hc); unfold naks in *; cbn in *; lia.
Qed.

Lemma naks_ok_same (s s' : sys) : naks_ok s → state (fs s') = state (fs s) →
  naks s' = naks s → naks_ok s'.
Proof. unfold naks_ok. by intros Hs -> ->. Qed.

Lemma rconfreq_naks i inp (s : sys) : client_rejects →
  state (fs s) ≠ INITIAL → state (fs s) ≠ STARTING → naks_ok s →
  naks_ok (fsm_rconfreq cb fsm_key peer_mru wants_passive i inp s).
Proof.
  intros Hrej Hi Hst Hs. unfold fsm_rconfreq. destruct (state (fs s)) eqn:E; try done;
    try naks_branch; apply reply_naks; try done; naks_rw; fsm_rw; rewrite ?state_notify, ?E;
    cbn [negotiating fst snd]; try lia; apply Hs; by rewrite E.
Qed.

Lemma rconfack_naks i inp (s : sys) : naks_ok s →
  naks_ok (fsm_rconfack cb fsm_key peer_mru wants_passive reqid_none i inp s).
Proof.
  intros Hs. unfold fsm_rconfack. destruct (negb _); [done|].
  destruct (match cb_ackci cb with Some _ => _ | None => _ end) as [ok s1] eqn:E1.
  assert (naks_ok (set_reqid reqid_none s1)) as Hs1.
  { apply (naks_ok_same s); [done| |]; (destruct (cb_ackci cb) as [g|];
      [destruct (g _ _ _)|]; by simplify_eq). }
  destruct ok; cbn [negb];
    [|apply (naks_ok_same s); [done| |]; (destruct (cb_ackci cb) as [g|];
      [destruct (g _ _ _)|]; by simplify_eq)].
  clear E1 Hs. generalize dependent (set_reqid reqid_none s1). clear s1. intros s1 Hs1.
  destruct (state (fs s1)) eqn:E; naks_branch.
Qed.

Lemma rconfnakrej_naks code i inp (s : sys) : naks_ok s →
  naks_ok (fsm_rconfnakrej cb fsm_key peer_mru wants_passive reqid_none code i inp s).
Proof.
  intros Hs. unfold fsm_rconfnakrej. destruct (negb _); [done|].
  set (proc := if code =? CONFNAK then _ else _).
  destruct (match proc with Some _ => _ | None => _ end) as [ok s1] eqn:E1.
  assert (naks_ok (set_reqid reqid_none s1)) as Hs1.
  { apply (naks_ok_same s); [done| |]; (destruct proc as [g|];
      [destruct (g _ _ _)|]; by simplify_eq). }
  destruct ok; cbn [negb];
    [|apply (naks_ok_same s); [done| |]; (destruct proc as [g|];
      [destruct (g _ _ _)|]; by simplify_eq)].
  clear E1 Hs. generalize dependent (set_reqid reqid_none s1). clear s1. intros s1 Hs1.
  destruct (state (fs s1)) eqn:E; naks_branch.
Qed.

Lemma dispatch_naks code i inpacket inp (s : sys) : client_rejects →
  state (fs s) ≠ INITIAL → state (fs s) ≠ STARTING → naks_ok s →
  naks_ok (fsm_dispatch cb fsm_key peer_mru wants_passive reqid_none code i inpacket inp s).
Proof.
  intros Hrej Hi Hst Hs. unfold fsm_dispatch.
  destruct (code =? CONFREQ); [by apply rconfreq_naks|].
  destruct (code =? CONFACK); [by apply rconfack_naks|].
  destruct ((code =? CONFNAK) || _); [by apply rconfnakrej_naks|].
  destruct (code =? TERMREQ).
  { unfold fsm_rtermreq. destruct (state (fs s)) eqn:E; naks_branch. }
  destruct (code =? TERMACK).
  { unfold fsm_rtermack.
    destruct (state (fs s)) eqn:E; try (by apply finish_naks); naks_branch. }
  destruct (code =? CODEREJ).
  { unfold fsm_rcoderej. destruct (zlen inp <? HEADERLEN); [done|].
    destruct (decide (state (fs s) = ACKRCVD)) as [E|]; [naks_branch|done]. }
  apply (naks_ok_same s); [done| |]; unfold fsm_unknown;
    (destruct (cb_extcode cb) as [g|]; [destruct (g _ _ _ _ _) as [[] ?]|]; done).
Qed.

Lemma step_naks i (s : sys) : client_rejects → naks_ok s → naks_ok (step i s).
Proof.
  intros Hrej Hs. destruct i as [| | | | | |code i inpacket inp]; cbn [fsm_step].
  - by apply lowerup_naks.
  - by apply lowerdown_naks.
  - by apply open_naks.
  - unfold fsm_close. destruct (state (fs s)) eqn:E;
      repeat first [rewrite decide_True by done | rewrite decide_False by done]; naks_branch.
  - by apply timeout_naks.
  - unfold fsm_protreject.
    destruct (state (fs s)) eqn:E; try (by apply finish_naks); naks_branch.
  - destruct (decide (state (fs s) = INITIAL)) as [Hi|Hi]; [by rewrite Hi|].
    destruct (decide (state (fs s) = STARTING)) as [Hst|Hst]; [by rewrite Hst|].
    pose proof (dispatch_naks code i inpacket inp s Hrej Hi Hst Hs).
    by destruct (state (fs s)).
Qed.

(** if the client, once told to reject what it disagrees with, does not
    answer with a Configure-Nak, then at most [maxnakloops] Naks are sent in
    a negotiation: two peers cannot Nak each other for ever. *)
Theorem reachable_naks (s : sys) : client_rejects → reachable s →
  exchanging (state (fs s)) = true → 0 <= nakloops (fs s) <= Z.max 0 (maxnakloops (fs s)).
Proof.
  intros Hrej. change (reachable s → naks_ok s).
  induction 1 as [s Hi Hl|s i Hr IH Hi|s t' n Hr IH|s p r q u' t' Hr IH Hp].
  - unfold naks_ok. by rewrite Hi.
  - by apply step_naks.
  - assert (naks_ok (MkSys (fs s) (cli s) t' (log s))) as Hok by exact IH.
    generalize (MkSys (fs s) (cli s) t' (log s)), Hok. clear Hok. intros s' Hok.
    generalize (S n). intros m. induction m as [|m IHm]; [done|]. by apply step_naks.
  - exact IH.
Qed.
End Table.

(** ** A concrete client

    It asks for one option (bytes 1 2) and answers any request that carries
    options with a Nak until it is told to reject. *)
Definition toy_client : callbacks unit := {|
  cb_resetci := None;
  cb_cilen := Some (λ _ _, 2);
  cb_addci := Some (λ _ u n, (u, ztake n [1; 2]));
  cb_ackci := Some (λ _ u inp, (bool_decide (inp = [1; 2]), u));
  cb_nakci := None; cb_rejci := None;
  cb_reqci := Some (λ _ u inp (reject : bool),
    if zlen inp =? 0 then (2, inp, u) else if reject then (4, inp, u) else (3, inp, u));
  cb_up := Some (λ _ u, u); cb_down := Some (λ _ u, u);
  cb_starting := Some (λ _ u, u); cb_finished := Some (λ _ u, u);
  cb_reopens := λ _, false;
  cb_retransmit := None; cb_extcode := None
|}.

Lemma toy_client_ok : client_ok toy_client.
Proof.
  split_and!; try done. intros f u inp b. cbn.
  destruct (zlen inp =? 0), b; auto.
Qed.

Lemma toy_client_rejects : client_rejects toy_client.
Proof. intros f u inp. cbn. by destruct (zlen inp =? 0). Qed.

Definition toy_sys : sys unit (Z * ppp_timer (K := unit)) :=
  MkSys (fsm_init 3 10 2 5 0 (MkFsm INITIAL false false false 0 0 0 0 0 0 0 0 49185))
    tt (0, MkTimer [] 0 0 0) [].

Definition toy_step := fsm_step (T := Z * ppp_timer (K := unit)) toy_client tt
  (λ _, 1500) (λ _, false) (-1).

(** Up, Open, and the peer's Ack of the request that was sent. *)
Definition toy_run := toy_step (InPacket 2 1 [2; 1; 0; 6; 1; 2] [1; 2])
  (toy_step InOpen (toy_step InUp toy_sys)).

Lemma toy_run_reachable : reachable toy_client tt (λ _, 1500) (λ _, false) (-1) toy_run.
Proof.
  apply reach_input; [|done]. apply reach_input; [|done]. apply reach_input; [|done].
  by apply reach_init.
Qed.

Lemma fsm_step_table_witness :
  client_ok toy_client ∧
  state (fs (toy_step (InPacket 1 7 [1; 7; 0; 4] []) toy_run)) = OPENED.
Proof.
  split; [exact toy_client_ok|].
  pose proof (fsm_step_table toy_client tt (λ _, 1500) (λ _, false) (-1) toy_client_ok
    (InPacket 1 7 [1; 7; 0; 4] []) toy_run ltac:(by split_and!)) as Ht.
  exact (proj1 Ht).
Defined.

Lemma reachable_ok_witness :
  reachable toy_client tt (λ _, 1500) (λ _, false) (-1) toy_run ∧
  (0 < pending tt (tms toy_run))%nat.
Proof.
  split; [exact toy_run_reachable|].
  apply (reachable_ok toy_client tt (λ _, 1500) (λ _, false) (-1) toy_client_ok toy_run
    toy_run_reachable). reflexivity.
Defined.

Lemma timeouts_terminate_witness :
  timed (state (fs toy_run)) = true ∧
  state (fs (Nat.iter 11 (timeout toy_client tt (λ _, 1500) (λ _, false)) toy_run)) = STOPPED.
Proof.
  split; [reflexivity|].
  destruct (timeouts_terminate toy_client tt (λ _, 1500) (λ _, false) toy_client_ok toy_run
    eq_refl eq_refl) as [H|H]; vm_compute in H; [discriminate | exact eq_refl].
Defined.

Lemma fsm_input_header_witness :
  fsm_header [2; 1; 0; 6; 1; 2; 9; 9] = Some (2, 1, [2; 1; 0; 6; 1; 2]) ∧
  fsm_input toy_client tt (λ _, 1500) (λ _, false) (-1) [2; 1; 0; 6; 1; 2; 9; 9]
    (toy_step InOpen (toy_step InUp toy_sys)) = toy_run.
Proof.
  split; [reflexivity|].
  pose proof (fsm_input_header toy_client tt (λ _, 1500) (λ _, false) (-1)
    [2; 1; 0; 6; 1; 2; 9; 9] (toy_step InOpen (toy_step InUp toy_sys))) as (_ & _ & Hi & _).
  change (zdrop HEADERLEN _) with [1; 2] in Hi. exact Hi.
Defined.

Lemma fsm_sdata_roundtrip_witness :
  ∃ pkt, fsm_sdata (T := unit) (λ _, 6) 1 9 [10; 11; 12] (MkSys (fs toy_sys) tt tt []) =
      MkSys (fs toy_sys) tt tt [Output (MAKEHEADER 49185 ++ pkt)] ∧
    fsm_header pkt = Some (1, 9, pkt) ∧ zdrop 4 pkt = [10; 11].
Proof.
  destruct (fsm_sdata_roundtrip (T := unit) (λ _ : unit, 6) 1 9 [10; 11; 12]
    (MkSys (fs toy_sys) tt tt [])) as (pkt & Heq & _ & Hh & Hd);
    [split; done | split; done | split; done|].
  exists pkt. split; [exact Heq|]. split; [exact Hh|]. exact Hd.
Defined.

Lemma reachable_naks_witness :
  exchanging (state (fs toy_run)) = true ∧ nakloops (fs toy_run) <= 5.
Proof.
  split; [reflexivity|].
  apply (reachable_naks toy_client tt (λ _, 1500) (λ _, false) (-1)
    toy_run toy_client_rejects toy_run_reachable eq_refl).
Defined.
