(* ===== verification/Lcp.v ===== *)
(** * The Link Control Protocol's options ([ppp/lcp.c])

    LCP negotiates the options of the link with the automaton of file Fsm.
    Here are its option records, the encoding of its Configure-Request
    ([lcp_addci]), and the callbacks that judge the peer's replies
    ([lcp_ackci], [lcp_nakci], [lcp_rejci]) and requests ([lcp_reqci]).  The
    option numbers and limits of [pppLib.h] are the class [LcpDefs], the
    random numbers of [magic] a function of a generator state. *)
From Stdlib Require Import ZArith Lia Bool.
From stdpp Require Import base tactics list numbers option.
From S2P Require Import Prelude PppDefs Callout Fsm.

Local Open Scope Z_scope.

(** ** Data *)

Class LcpDefs := {
  CI_MRU : Z; CI_ASYNCMAP : Z; CI_AUTHTYPE : Z; CI_QUALITY : Z;
  CI_MAGICNUMBER : Z; CI_PCOMPRESSION : Z; CI_ACCOMPRESSION : Z;
  CHAP : Z; UPAP : Z; LQR : Z; CHAP_DIGEST_MD5 : Z;
  MINMRU : Z; DEFMRU : Z; MAXMRU : Z; MTU : Z
}.

Class LcpDefsLaws `{LcpDefs} := {
  ci_distinct : NoDup [CI_MRU; CI_ASYNCMAP; CI_AUTHTYPE; CI_QUALITY; CI_MAGICNUMBER;
    CI_PCOMPRESSION; CI_ACCOMPRESSION];
  ci_bytes : Bytes [CI_MRU; CI_ASYNCMAP; CI_AUTHTYPE; CI_QUALITY; CI_MAGICNUMBER;
    CI_PCOMPRESSION; CI_ACCOMPRESSION];
  CHAP_UPAP : CHAP ≠ UPAP;
  protos_range : 0 <= CHAP < 65536 ∧ 0 <= UPAP < 65536 ∧ 0 <= LQR < 65536
}.

(** Length of each type of configuration option. *)
Definition CILEN_VOID : Z := 2.
Definition CILEN_SHORT : Z := 4.
Definition CILEN_CHAP : Z := 5.
Definition CILEN_LONG : Z := 6.
Definition CILEN_LQR : Z := 8.

Record lcp_options := MkOpts {
  passive : bool;
  silent : bool;
  restart : bool;
  neg_mru : bool;
  mru : Z;
  neg_asyncmap : bool;
  asyncmap : Z;
  neg_upap : bool;
  neg_chap : bool;
  chap_mdtype : Z;
  neg_magicnumber : bool;
  magicnumber : Z;
  numloops : Z;
  neg_pcompression : bool;
  neg_accompression : bool;
  neg_lqr : bool;
  lqr_period : Z
}.

Definition set_neg_mru (v : bool) (o : lcp_options) : lcp_options :=
  MkOpts (passive o) (silent o) (restart o) v (mru o) (neg_asyncmap o) (asyncmap o)
    (neg_upap o) (neg_chap o) (chap_mdtype o) (neg_magicnumber o) (magicnumber o) (numloops o)
    (neg_pcompression o) (neg_accompression o) (neg_lqr o) (lqr_period o).
Definition set_mru (v : Z) (o : lcp_options) : lcp_options :=
  MkOpts (passive o) (silent o) (restart o) (neg_mru o) v (neg_asyncmap o) (asyncmap o)
    (neg_upap o) (neg_chap o) (chap_mdtype o) (neg_magicnumber o) (magicnumber o) (numloops o)
    (neg_pcompression o) (neg_accompression o) (neg_lqr o) (lqr_period o).
Definition set_neg_asyncmap (v : bool) (o : lcp_options) : lcp_options :=
  MkOpts (passive o) (silent o) (restart o) (neg_mru o) (mru o) v (asyncmap o) (neg_upap o)
    (neg_chap o) (chap_mdtype o) (neg_magicnumber o) (magicnumber o) (numloops o)
    (neg_pcompression o) (neg_accompression o) (neg_lqr o) (lqr_period o).
Definition set_asyncmap (v : Z) (o : lcp_options) : lcp_options :=
  MkOpts (passive o) (silent o) (restart o) (neg_mru o) (mru o) (neg_asyncmap o) v
    (neg_upap o) (neg_chap o) (chap_mdtype o) (neg_magicnumber o) (magicnumber o) (numloops o)
    (neg_pcompression o) (neg_accompression o) (neg_lqr o) (lqr_period o).
Definition set_neg_upap (v : bool) (o : lcp_options) : lcp_options :=
  MkOpts (passive o) (silent o) (restart o) (neg_mru o) (mru o) (neg_asyncmap o)
    (asyncmap o) v (neg_chap o) (chap_mdtype o) (neg_magicnumber o) (magicnumber o)
    (numloops o) (neg_pcompression o) (neg_accompression o) (neg_lqr o) (lqr_period o).
Definition set_neg_chap (v : bool) (o : lcp_options) : lcp_options :=
  MkOpts (passive o) (silent o) (restart o) (neg_mru o) (mru o) (neg_asyncmap o) (asyncmap o)
    (neg_upap o) v (chap_mdtype o) (neg_magicnumber o) (magicnumber o) (numloops o)
    (neg_pcompression o) (neg_accompression o) (neg_lqr o) (lqr_period o).
Definition set_chap_mdtype (v : Z) (o : lcp_options) : lcp_options :=
  MkOpts (passive o) (silent o) (restart o) (neg_mru o) (mru o) (neg_asyncmap o) (asyncmap o)
    (neg_upap o) (neg_chap o) v (neg_magicnumber o) (magicnumber o) (numloops o)
    (neg_pcompression o) (neg_accompression o) (neg_lqr o) (lqr_period o).
Definition set_neg_magicnumber (v : bool) (o : lcp_options) : lcp_options :=
  MkOpts (passive o) (silent o) (restart o) (neg_mru o) (mru o) (neg_asyncmap o) (asyncmap o)
    (neg_upap o) (neg_chap o) (chap_mdtype o) v (magicnumber o) (numloops o)
    (neg_pcompression o) (neg_accompression o) (neg_lqr o) (lqr_period o).
Definition set_magicnumber (v : Z) (o : lcp_options) : lcp_options :=
  MkOpts (passive o) (silent o) (restart o) (neg_mru o) (mru o) (neg_asyncmap o) (asyncmap o)
    (neg_upap o) (neg_chap o) (chap_mdtype o) (neg_magicnumber o) v (numloops o)
    (neg_pcompression o) (neg_accompression o) (neg_lqr o) (lqr_period o).
Definition set_numloops (v : Z) (o : lcp_options) : lcp_options :=
  MkOpts (passive o) (silent o) (restart o) (neg_mru o) (mru o) (neg_asyncmap o) (asyncmap o)
    (neg_upap o) (neg_chap o) (chap_mdtype o) (neg_magicnumber o) (magicnumber o) v
    (neg_pcompression o) (neg_accompression o) (neg_lqr o) (lqr_period o).
Definition set_neg_pcompression (v : bool) (o : lcp_options) : lcp_options :=
  MkOpts (passive o) (silent o) (restart o) (neg_mru o) (mru o) (neg_asyncmap o) (asyncmap o)
    (neg_upap o) (neg_chap o) (chap_mdtype o) (neg_magicnumber o) (magicnumber o)
    (numloops o) v (neg_accompression o) (neg_lqr o) (lqr_period o).
Definition set_neg_accompression (v : bool) (o : lcp_options) : lcp_options :=
  MkOpts (passive o) (silent o) (restart o) (neg_mru o) (mru o) (neg_asyncmap o) (asyncmap o)
    (neg_upap o) (neg_chap o) (chap_mdtype o) (neg_magicnumber o) (magicnumber o) (numloops o)
    (neg_pcompression o) v (neg_lqr o) (lqr_period o).
Definition set_neg_lqr (v : bool) (o : lcp_options) : lcp_options :=
  MkOpts (passive o) (silent o) (restart o) (neg_mru o) (mru o) (neg_asyncmap o) (asyncmap o)
    (neg_upap o) (neg_chap o) (chap_mdtype o) (neg_magicnumber o) (magicnumber o) (numloops o)
    (neg_pcompression o) (neg_accompression o) v (lqr_period o).
Definition set_lqr_period (v : Z) (o : lcp_options) : lcp_options :=
  MkOpts (passive o) (silent o) (restart o) (neg_mru o) (mru o) (neg_asyncmap o) (asyncmap o)
    (neg_upap o) (neg_chap o) (chap_mdtype o) (neg_magicnumber o) (magicnumber o) (numloops o)
    (neg_pcompression o) (neg_accompression o) (neg_lqr o) v.

(** [BZERO]. *)
Definition zero_options : lcp_options :=
  MkOpts false false false false 0 false 0 false false 0 false 0 0 false false false 0.

(** The option records of a unit: wanted, to be requested, of the peer,
    allowed; the peer's MRU; and the state of the random numbers. *)
Record lcp (R : Type) := MkLcp {
  wantoptions : lcp_options;
  gotoptions : lcp_options;
  hisoptions : lcp_options;
  allowoptions : lcp_options;
  peer_mru : Z;
  rng : R
}.
Arguments MkLcp {R}. Arguments wantoptions {R}. Arguments gotoptions {R}.
Arguments hisoptions {R}. Arguments allowoptions {R}. Arguments peer_mru {R}.
Arguments rng {R}.

Definition set_go {R} (go : lcp_options) (u : lcp R) : lcp R :=
  MkLcp (wantoptions u) go (hisoptions u) (allowoptions u) (peer_mru u) (rng u).
Definition set_ho {R} (ho : lcp_options) (u : lcp R) : lcp R :=
  MkLcp (wantoptions u) (gotoptions u) ho (allowoptions u) (peer_mru u) (rng u).
Definition set_rng {R} (r : R) (u : lcp R) : lcp R :=
  MkLcp (wantoptions u) (gotoptions u) (hisoptions u) (allowoptions u) (peer_mru u) r.

Section Lcp.
Context `{PppDefs} `{LcpDefs} {R : Type}.
Variable magic : R → Z * R.

(** ** Our request *)

(** [lcp_init] sets the wanted and the allowed options. *)
Definition lcp_init (u : lcp R) : lcp R :=
  MkLcp
    (MkOpts false false false true DEFMRU false 0 false false CHAP_DIGEST_MD5
       true (magicnumber (wantoptions u)) (numloops (wantoptions u)) true true false
       (lqr_period (wantoptions u)))
    (gotoptions u) (hisoptions u)
    (MkOpts (passive (allowoptions u)) (silent (allowoptions u)) (restart (allowoptions u))
       true MAXMRU true 0 true true CHAP_DIGEST_MD5
       true (magicnumber (allowoptions u)) (numloops (allowoptions u)) true true false
       (lqr_period (allowoptions u)))
    (peer_mru u) (rng u).

Definition lcp_resetci (u : lcp R) : lcp R :=
  let '(m, r) := magic (rng u) in
  let wo := set_numloops 0 (set_magicnumber m (wantoptions u)) in
  MkLcp wo wo (hisoptions u) (allowoptions u) MTU r.

Definition lenci (n : Z) (neg : bool) : Z := if neg then n else 0.

Definition lcp_cilen (go : lcp_options) : Z :=
  lenci CILEN_SHORT (neg_mru go) + lenci CILEN_LONG (neg_asyncmap go) +
  lenci CILEN_CHAP (neg_chap go) + lenci CILEN_SHORT (negb (neg_chap go) && neg_upap go) +
  lenci CILEN_LQR (neg_lqr go) + lenci CILEN_LONG (neg_magicnumber go) +
  lenci CILEN_VOID (neg_pcompression go) + lenci CILEN_VOID (neg_accompression go).

Definition addci_void (opt : Z) (neg : bool) : bytes :=
  if neg then [u8 opt; CILEN_VOID] else [].
Definition addci_short (opt : Z) (neg : bool) (val : Z) : bytes :=
  if neg then [u8 opt; CILEN_SHORT] ++ PUTSHORT val else [].
Definition addci_chap (opt : Z) (neg : bool) (val digest : Z) : bytes :=
  if neg then [u8 opt; CILEN_CHAP] ++ PUTSHORT val ++ [u8 digest] else [].
Definition addci_long (opt : Z) (neg : bool) (val : Z) : bytes :=
  if neg then [u8 opt; CILEN_LONG] ++ PUTLONG val else [].
Definition addci_lqr (opt : Z) (neg : bool) (val : Z) : bytes :=
  if neg then [u8 opt; CILEN_LQR] ++ PUTSHORT LQR ++ PUTLONG val else [].

Definition lcp_addci (go : lcp_options) : bytes :=
  addci_short CI_MRU (neg_mru go) (mru go) ++
  addci_long CI_ASYNCMAP (neg_asyncmap go) (asyncmap go) ++
  addci_chap CI_AUTHTYPE (neg_chap go) CHAP (chap_mdtype go) ++
  addci_short CI_AUTHTYPE (negb (neg_chap go) && neg_upap go) UPAP ++
  addci_lqr CI_QUALITY (neg_lqr go) (lqr_period go) ++
  addci_long CI_MAGICNUMBER (neg_magicnumber go) (magicnumber go) ++
  addci_void CI_PCOMPRESSION (neg_pcompression go) ++
  addci_void CI_ACCOMPRESSION (neg_accompression go).

(** ** The peer's Ack *)

(** Each check returns the rest of the packet; [None] is [goto bad]. *)
Definition ackci_void (opt : Z) (neg : bool) (p : bytes) : option bytes :=
  if neg then
    match p with
    | t :: l :: r => if negb (l =? CILEN_VOID) || negb (t =? opt) then None else Some r
    | _ => None
    end
  else Some p.

Definition ackci_short (opt : Z) (neg : bool) (val : Z) (p : bytes) : option bytes :=
  if neg then
    match p with
    | t :: l :: a :: b :: r =>
        if negb (l =? CILEN_SHORT) || negb (t =? u8 opt) then None
        else if negb (GETSHORT a b =? u16 val) then None else Some r
    | _ => None
    end
  else Some p.

Definition ackci_chap (opt : Z) (neg : bool) (val digest : Z) (p : bytes) : option bytes :=
  if neg then
    match p with
    | t :: l :: a :: b :: d :: r =>
        if negb (l =? CILEN_CHAP) || negb (t =? u8 opt) then None
        else if negb (GETSHORT a b =? u16 val) then None
        else if negb (d =? u8 digest) then None else Some r
    | _ => None
    end
  else Some p.

Definition ackci_long (opt : Z) (neg : bool) (val : Z) (p : bytes) : option bytes :=
  if neg then
    match p with
    | t :: l :: a :: b :: c :: d :: r =>
        if negb (l =? CILEN_LONG) || negb (t =? u8 opt) then None
        else if negb (GETLONG a b c d =? u32 val) then None else Some r
    | _ => None
    end
  else Some p.

Definition ackci_lqr (opt : Z) (neg : bool) (val : Z) (p : bytes) : option bytes :=
  if neg then
    match p with
    | t :: l :: x :: y :: a :: b :: c :: d :: r =>
        if negb (l =? CILEN_LQR) || negb (t =? u8 opt) then None
        else if negb (GETSHORT x y =? LQR) then None
        else if negb (GETLONG a b c d =? u32 val) then None else Some r
    | _ => None
    end
  else Some p.

Definition ackci_all (go : lcp_options) (p : bytes) : option bytes :=
  p ← ackci_short CI_MRU (neg_mru go) (mru go) p;
  p ← ackci_long CI_ASYNCMAP (neg_asyncmap go) (asyncmap go) p;
  p ← ackci_chap CI_AUTHTYPE (neg_chap go) CHAP (chap_mdtype go) p;
  p ← ackci_short CI_AUTHTYPE (negb (neg_chap go) && neg_upap go) UPAP p;
  p ← ackci_lqr CI_QUALITY (neg_lqr go) (lqr_period go) p;
  p ← ackci_long CI_MAGICNUMBER (neg_magicnumber go) (magicnumber go) p;
  p ← ackci_void CI_PCOMPRESSION (neg_pcompression go) p;
  ackci_void CI_ACCOMPRESSION (neg_accompression go) p.

Definition lcp_ackci (go : lcp_options) (p : bytes) : bool :=
  match ackci_all go p with Some [] => true | _ => false end.

(** ** The peer's Nak and Reject *)

(** The test of the NAKCI and REJCI macros: the option is one we requested
    and it comes next; its value and the rest of the packet. *)
Definition take_void (opt : Z) (neg : bool) (p : bytes) : option bytes :=
  match p with
  | t :: l :: r => if neg && (l =? CILEN_VOID) && (t =? opt) then Some r else None
  | _ => None
  end.

Definition take_short (opt : Z) (neg : bool) (p : bytes) : option (Z * bytes) :=
  match p with
  | t :: l :: a :: b :: r =>
      if neg && (l =? CILEN_SHORT) && (t =? opt) then Some (GETSHORT a b, r) else None
  | _ => None
  end.

Definition take_chap (opt : Z) (neg : bool) (p : bytes) : option (Z * Z * bytes) :=
  match p with
  | t :: l :: a :: b :: d :: r =>
      if neg && (l =? CILEN_CHAP) && (t =? opt) then Some (GETSHORT a b, d, r) else None
  | _ => None
  end.

Definition take_long (opt : Z) (neg : bool) (p : bytes) : option (Z * bytes) :=
  match p with
  | t :: l :: a :: b :: c :: d :: r =>
      if neg && (l =? CILEN_LONG) && (t =? opt) then Some (GETLONG a b c d, r) else None
  | _ => None
  end.

Definition take_lqr (opt : Z) (neg : bool) (p : bytes) : option (Z * Z * bytes) :=
  match p with
  | t :: l :: x :: y :: a :: b :: c :: d :: r =>
      if neg && (l =? CILEN_LQR) && (t =? opt)
      then Some (GETSHORT x y, GETLONG a b c d, r) else None
  | _ => None
  end.

(** The options of a Nak that we requested: the options to try next, those
    seen, the rest of the packet, whether the line looks looped back, and
    the random numbers. *)
Definition nakci_options (wo go : lcp_options) (p : bytes) (r : R)
  : lcp_options * lcp_options * bytes * bool * R :=
  let try := go in
  let no := zero_options in
  let '(try, no, p) :=
    match take_short CI_MRU (neg_mru go) p with
    | Some (cishort, p) =>
        (if (cishort <=? mru wo) || (cishort <? DEFMRU) then set_mru cishort try else try,
         set_neg_mru true no, p)
    | None => (try, no, p)
    end in
  let '(try, no, p) :=
    match take_long CI_ASYNCMAP (neg_asyncmap go) p with
    | Some (cilong, p) =>
        (set_asyncmap (Z.lor (asyncmap go) cilong) try, set_neg_asyncmap true no, p)
    | None => (try, no, p)
    end in
  let '(try, no, p) :=
    match take_chap CI_AUTHTYPE (neg_chap go) p with
    | Some (_, _, p) => (set_neg_chap false try, set_neg_chap true no, p)
    | None => (try, no, p)
    end in
  let '(try, no, p) :=
    if negb (neg_chap go) then
      match take_short CI_AUTHTYPE (neg_upap go) p with
      | Some (_, p) => (set_neg_upap false try, set_neg_upap true no, p)
      | None => (try, no, p)
      end
    else (try, no, p) in
  let '(try, no, p) :=
    match take_lqr CI_QUALITY (neg_lqr go) p with
    | Some (cishort, cilong, p) =>
        (if negb (cishort =? LQR) then set_neg_lqr false try else set_lqr_period cilong try,
         set_neg_lqr true no, p)
    | None => (try, no, p)
    end in
  let '(try, no, p, looped_back, r) :=
    match take_long CI_MAGICNUMBER (neg_magicnumber go) p with
    | Some (_, p) =>
        let '(m, r) := magic r in
        (set_numloops (numloops try + 1) (set_magicnumber m try),
         set_neg_magicnumber true no, p, true, r)
    | None => (try, no, p, false, r)
    end in
  let '(try, no, p) :=
    match take_void CI_PCOMPRESSION (neg_pcompression go) p with
    | Some p => (set_neg_pcompression false try, set_neg_pcompression true no, p)
    | None => (try, no, p)
    end in
  let '(try, no, p) :=
    match take_void CI_ACCOMPRESSION (neg_accompression go) p with
    | Some p => (set_neg_accompression false try, set_neg_accompression true no, p)
    | None => (try, no, p)
    end in
  (try, no, p, looped_back, r).

(** Is an option that we did not request acceptable in a Nak?  The switch of
    the loop over the remaining options. *)
Definition nak_extra_ok (go no : lcp_options) (citype cilen : Z) : bool :=
  if citype =? CI_MRU then negb (neg_mru go || neg_mru no || negb (cilen =? CILEN_SHORT))
  else if citype =? CI_ASYNCMAP then
    negb (neg_asyncmap go || neg_asyncmap no || negb (cilen =? CILEN_LONG))
  else if citype =? CI_AUTHTYPE then
    negb (neg_chap go || neg_chap no || neg_upap go || neg_upap no)
  else if citype =? CI_MAGICNUMBER then
    negb (neg_magicnumber go || neg_magicnumber no || negb (cilen =? CILEN_LONG))
  else if citype =? CI_PCOMPRESSION then
    negb (neg_pcompression go || neg_pcompression no || negb (cilen =? CILEN_VOID))
  else if citype =? CI_ACCOMPRESSION then
    negb (neg_accompression go || neg_accompression no || negb (cilen =? CILEN_VOID))
  else if citype =? CI_QUALITY then
    negb (neg_lqr go || neg_lqr no || negb (cilen =? CILEN_LQR))
  else false.

(** [while (len > CILEN_VOID)]: the pointer and the length both move by
    [cilen].  [None]: the loop has not ended within the fuel. *)
Fixpoint nakci_rest (fuel : nat) (go no : lcp_options) (p : bytes) : option bool :=
  match fuel with
  | O => None
  | S fuel =>
      if CILEN_VOID <? zlen p then
        match p with
        | citype :: cilen :: _ =>
            if zlen p <? cilen then Some false
            else if nak_extra_ok go no citype cilen
            then nakci_rest fuel go no (zdrop cilen p)
            else Some false
        | _ => Some false
        end
      else Some (zlen p =? 0)
  end.

(** [lcp_nakci]; [None] when it does not return within the fuel. *)
Definition lcp_nakci (fuel : nat) (st : fsm_state) (u : lcp R) (p : bytes)
  : option (bool * lcp R) :=
  let '(try, no, p, looped_back, r) :=
    nakci_options (wantoptions u) (gotoptions u) p (rng u) in
  ok ← nakci_rest fuel (gotoptions u) no p;
  Some (ok, set_rng r
    (if ok && negb (bool_decide (st = OPENED)) then set_go try u else u)).

(** One REJCI macro: the options to try and the rest; [None] is [goto bad]. *)
Definition rejci (taken : option (bool * bytes)) (clear : lcp_options → lcp_options)
    (x : lcp_options * bytes) : option (lcp_options * bytes) :=
  match taken with
  | Some (true, p) => Some (clear (fst x), p)
  | Some (false, _) => None
  | None => Some x
  end.

Definition rej_void (opt : Z) (neg : bool) (p : bytes) : option (bool * bytes) :=
  match take_void opt neg p with Some p => Some (true, p) | None => None end.
Definition rej_short (opt : Z) (neg : bool) (val : Z) (p : bytes) : option (bool * bytes) :=
  match take_short opt neg p with Some (v, p) => Some (v =? u16 val, p) | None => None end.
Definition rej_chap (opt : Z) (neg : bool) (val digest : Z) (p : bytes)
  : option (bool * bytes) :=
  match take_chap opt neg p with
  | Some (v, d, p) => Some ((v =? u16 val) && (d =? u8 digest), p)
  | None => None
  end.
Definition rej_long (opt : Z) (neg : bool) (val : Z) (p : bytes) : option (bool * bytes) :=
  match take_long opt neg p with Some (v, p) => Some (v =? u32 val, p) | None => None end.
Definition rej_lqr (opt : Z) (neg : bool) (val : Z) (p : bytes) : option (bool * bytes) :=
  match take_lqr opt neg p with
  | Some (q, v, p) => Some ((q =? LQR) && (v =? val), p)
  | None => None
  end.

Definition rejci_all (go : lcp_options) (p : bytes) : option (lcp_options * bytes) :=
  let x := (go, p) in
  x ← rejci (rej_short CI_MRU (neg_mru go) (mru go) x.2) (set_neg_mru false) x;
  x ← rejci (rej_long CI_ASYNCMAP (neg_asyncmap go) (asyncmap go) x.2)
        (set_neg_asyncmap false) x;
  x ← rejci (rej_chap CI_AUTHTYPE (neg_chap go) CHAP (chap_mdtype go) x.2)
        (set_neg_chap false) x;
  x ← (if negb (neg_chap go)
       then rejci (rej_short CI_AUTHTYPE (neg_upap go) UPAP x.2) (set_neg_upap false) x
       else Some x);
  x ← rejci (rej_lqr CI_QUALITY (neg_lqr go) (lqr_period go) x.2) (set_neg_lqr false) x;
  x ← rejci (rej_long CI_MAGICNUMBER (neg_magicnumber go) (magicnumber go) x.2)
        (set_neg_magicnumber false) x;
  x ← rejci (rej_void CI_PCOMPRESSION (neg_pcompression go) x.2)
        (set_neg_pcompression false) x;
  rejci (rej_void CI_ACCOMPRESSION (neg_accompression go) x.2) (set_neg_accompression false) x.

Definition lcp_rejci (st : fsm_state) (u : lcp R) (p : bytes) : bool * lcp R :=
  match rejci_all (gotoptions u) p with
  | Some (try, []) => (true, if decide (st = OPENED) then u else set_go try u)
  | _ => (false, u)
  end.

(** ** The peer's request *)

(** A verdict on one option: the code, what is added to the Nak, the peer's
    options and the random numbers. *)
Definition verdict : Type := Z * bytes * lcp_options * R.

Definition nak_chap (ao : lcp_options) : bytes :=
  [u8 CI_AUTHTYPE; CILEN_CHAP] ++ PUTSHORT CHAP ++ [u8 (chap_mdtype ao)].
Definition nak_upap : bytes := [u8 CI_AUTHTYPE; CILEN_SHORT] ++ PUTSHORT UPAP.

(** [case CI_AUTHTYPE]. *)
Definition reqci_auth (ao ho : lcp_options) (cilen : Z) (p : bytes) (r : R) : verdict :=
  match p with
  | a :: b :: p =>
      if (cilen <? CILEN_SHORT) || negb (neg_upap ao || neg_chap ao) then (CONFREJ, [], ho, r)
      else
        let cishort := GETSHORT a b in
        if cishort =? UPAP then
          if neg_chap ho || negb (cilen =? CILEN_SHORT) then (CONFREJ, [], ho, r)
          else if negb (neg_upap ao) then (CONFNAK, nak_chap ao, ho, r)
          else (CONFACK, [], set_neg_upap true ho, r)
        else if cishort =? CHAP then
          if neg_upap ho || negb (cilen =? CILEN_CHAP) then (CONFREJ, [], ho, r)
          else if negb (neg_chap ao) then (CONFNAK, nak_upap, ho, r)
          else
            let cichar := List.hd 0 p in
            if negb (cichar =? u8 (chap_mdtype ao)) then (CONFNAK, nak_chap ao, ho, r)
            else (CONFACK, [], set_neg_chap true (set_chap_mdtype cichar ho), r)
        else (CONFNAK, if neg_chap ao then nak_chap ao else nak_upap, ho, r)
  | _ => (CONFREJ, [], ho, r)
  end.

(** The switch on the option type; [p] are the bytes after type and length. *)
Definition reqci_option (go ao ho : lcp_options) (citype cilen : Z) (p : bytes) (r : R)
  : verdict :=
  if citype =? CI_MRU then
    match p with
    | [a; b] =>
        if negb (neg_mru ao) || negb (cilen =? CILEN_SHORT) then (CONFREJ, [], ho, r)
        else
          let cishort := GETSHORT a b in
          if cishort <? MINMRU then (CONFNAK, [], ho, r)
          else (CONFACK, [], set_mru cishort (set_neg_mru true ho), r)
    | _ => (CONFREJ, [], ho, r)
    end
  else if citype =? CI_ASYNCMAP then
    match p with
    | [a; b; c; d] =>
        if negb (neg_asyncmap ao) || negb (cilen =? CILEN_LONG) then (CONFREJ, [], ho, r)
        else
          let cilong := GETLONG a b c d in
          if negb (Z.ldiff (asyncmap ao) cilong =? 0) then (CONFNAK, [], ho, r)
          else (CONFACK, [], set_asyncmap cilong (set_neg_asyncmap true ho), r)
    | _ => (CONFREJ, [], ho, r)
    end
  else if citype =? CI_AUTHTYPE then reqci_auth ao ho cilen p r
  else if citype =? CI_QUALITY then
    match p with
    | [x; y; a; b; c; d] =>
        if negb (neg_lqr ao) || negb (cilen =? CILEN_LQR) then (CONFREJ, [], ho, r)
        else if negb (GETSHORT x y =? LQR) then
          (CONFNAK, [u8 CI_QUALITY; CILEN_LQR] ++ PUTSHORT LQR ++ PUTLONG (lqr_period ao), ho, r)
        else (CONFACK, [], ho, r)
    | _ => (CONFREJ, [], ho, r)
    end
  else if citype =? CI_MAGICNUMBER then
    match p with
    | [a; b; c; d] =>
        if negb (neg_magicnumber ao || neg_magicnumber go) || negb (cilen =? CILEN_LONG)
        then (CONFREJ, [], ho, r)
        else
          let cilong := GETLONG a b c d in
          if neg_magicnumber go && (cilong =? magicnumber go) then
            let '(m, r) := magic r in
            (CONFNAK, [u8 CI_MAGICNUMBER; CILEN_LONG] ++ PUTLONG m, ho, r)
          else (CONFACK, [], set_magicnumber cilong (set_neg_magicnumber true ho), r)
    | _ => (CONFREJ, [], ho, r)
    end
  else if citype =? CI_PCOMPRESSION then
    if negb (neg_pcompression ao) || negb (cilen =? CILEN_VOID) then (CONFREJ, [], ho, r)
    else (CONFACK, [], set_neg_pcompression true ho, r)
  else if citype =? CI_ACCOMPRESSION then
    if negb (neg_accompression ao) || negb (cilen =? CILEN_VOID) then (CONFREJ, [], ho, r)
    else (CONFACK, [], set_neg_accompression true ho, r)
  else (CONFREJ, [], ho, r).

(** The variables of the loop: the return code, the Nak and Reject frames
    built so far, the peer's options, the random numbers. *)
Record reqci_state := MkReq {
  rq_rc : Z; rq_nak : bytes; rq_rej : bytes; rq_ho : lcp_options; rq_rng : R
}.

(** [endswitch]: account for the verdict on the option [cip]. *)
Definition reqci_endswitch (reject_if_disagree : bool) (citype : Z) (cip : bytes)
    (v : verdict) (st : reqci_state) : reqci_state :=
  let '(orc, nak, ho, r) := v in
  let st := MkReq (rq_rc st) (rq_nak st ++ nak) (rq_rej st) ho r in
  if (orc =? CONFACK) && negb (rq_rc st =? CONFACK) then st
  else
    let reject := MkReq CONFREJ (rq_nak st) (rq_rej st ++ cip) ho r in
    if orc =? CONFNAK then
      if reject_if_disagree && negb (citype =? CI_MAGICNUMBER) then reject
      else if rq_rc st =? CONFREJ then st
      else MkReq CONFNAK (rq_nak st) (rq_rej st) ho r
    else if orc =? CONFREJ then reject
    else st.

Fixpoint reqci_loop (fuel : nat) (reject_if_disagree : bool) (go ao : lcp_options)
    (p : bytes) (st : reqci_state) : reqci_state :=
  match fuel with
  | O => st
  | S fuel =>
      match p with
      | [] => st
      | citype :: cilen :: body =>
          if (cilen <? 2) || (zlen p <? cilen) then
            reqci_endswitch reject_if_disagree 0 (ztake (u8 (zlen p)) p)
              (CONFREJ, [], rq_ho st, rq_rng st) st
          else
            let v := reqci_option go ao (rq_ho st) citype cilen
                       (ztake (cilen - 2) body) (rq_rng st) in
            reqci_loop fuel reject_if_disagree go ao (zdrop cilen p)
              (reqci_endswitch reject_if_disagree citype (ztake cilen p) v st)
      | [_] =>
          reqci_endswitch reject_if_disagree 0 (ztake (u8 (zlen p)) p)
            (CONFREJ, [], rq_ho st, rq_rng st) st
      end
  end.

(** [lcp_reqci]: the reply code, the reply and the new state. *)
Definition lcp_reqci (u : lcp R) (inp : bytes) (reject_if_disagree : bool)
  : Z * bytes * lcp R :=
  let st := reqci_loop (length inp) reject_if_disagree (gotoptions u) (allowoptions u) inp
              (MkReq CONFACK [] [] zero_options (rng u)) in
  let out :=
    if rq_rc st =? CONFACK then inp
    else if rq_rc st =? CONFNAK then rq_nak st else rq_rej st in
  (rq_rc st, out, set_rng (rq_rng st) (set_ho (rq_ho st) u)).

(** ** Opening and closing *)

(** [lcp_open]: the option flags of the automaton. *)
Definition lcp_flags (wo : lcp_options) (f : fsm) : fsm :=
  MkFsm (state f) (passive wo) (passive wo || silent wo) (silent wo) (id f) (reqid f)
    (retransmits f) (nakloops f) (timeouttime f) (maxconfreqtransmits f)
    (maxtermtransmits f) (maxnakloops f) (protocol f).

(** [lcp_finished] reopens the automaton for the next connection. *)
Definition lcp_finished_reopens (f : fsm) : bool :=
  (bool_decide (state f = STOPPED) || bool_decide (state f = CLOSED)) && OPT_RESTART f.

End Lcp.

(** ** Lemmas *)

(** The values of the options fit their fields. *)
Definition opts_wf (o : lcp_options) : Prop :=
  0 <= mru o < 65536 ∧ 0 <= asyncmap o < 4294967296 ∧ is_byte (chap_mdtype o) ∧
  0 <= magicnumber o < 4294967296 ∧ 0 <= lqr_period o < 4294967296.

Section Facts.
Context `{PppDefsLaws} `{LcpDefsLaws} {R : Type}.
Variable magic : R → Z * R.

Lemma ci_is_byte : is_byte CI_MRU ∧ is_byte CI_ASYNCMAP ∧ is_byte CI_AUTHTYPE ∧
  is_byte CI_QUALITY ∧ is_byte CI_MAGICNUMBER ∧ is_byte CI_PCOMPRESSION ∧
  is_byte CI_ACCOMPRESSION.
Proof.
  pose proof ci_bytes as Hb.
  repeat match goal with
  | H : Forall _ (_ :: _) |- _ => apply Forall_cons_1 in H as [? H]
  end. done.
Qed.

Lemma ci_eqb x y : x ≠ y → (x =? y) = false.
Proof. intros. by apply Z.eqb_neq. Qed.

(** The option numbers, pairwise. *)
Lemma ci_neq :
  (CI_ASYNCMAP ≠ CI_MRU ∧ CI_AUTHTYPE ≠ CI_MRU ∧ CI_QUALITY ≠ CI_MRU ∧
   CI_MAGICNUMBER ≠ CI_MRU ∧ CI_PCOMPRESSION ≠ CI_MRU ∧ CI_ACCOMPRESSION ≠ CI_MRU) ∧
  (CI_AUTHTYPE ≠ CI_ASYNCMAP ∧ CI_QUALITY ≠ CI_ASYNCMAP ∧ CI_MAGICNUMBER ≠ CI_ASYNCMAP ∧
   CI_PCOMPRESSION ≠ CI_ASYNCMAP ∧ CI_ACCOMPRESSION ≠ CI_ASYNCMAP) ∧
  (CI_QUALITY ≠ CI_AUTHTYPE ∧ CI_MAGICNUMBER ≠ CI_AUTHTYPE ∧
   CI_PCOMPRESSION ≠ CI_AUTHTYPE ∧ CI_ACCOMPRESSION ≠ CI_AUTHTYPE) ∧
  (CI_MAGICNUMBER ≠ CI_QUALITY ∧ CI_PCOMPRESSION ≠ CI_QUALITY ∧
   CI_ACCOMPRESSION ≠ CI_QUALITY) ∧
  (CI_PCOMPRESSION ≠ CI_MAGICNUMBER ∧ CI_ACCOMPRESSION ≠ CI_MAGICNUMBER) ∧
  CI_ACCOMPRESSION ≠ CI_PCOMPRESSION.
Proof.
  pose proof ci_distinct as Hd.
  repeat match goal with
  | H : NoDup (_ :: _) |- _ =>
      let Hn := fresh "Hn" in
      pose proof (NoDup_cons_1_1 _ _ H) as Hn; apply NoDup_cons_1_2 in H;
      repeat (apply not_elem_of_cons in Hn as [? Hn]); clear Hn
  end.
  split_and!; congruence.
Qed.

(** *** The encoding and its check *)

Ltac bytes_inv :=
  repeat match goal with
  | H : Forall _ (_ :: _) |- _ => apply Forall_cons_1 in H as [? H]
  end.

(** Decides the tests of a check from the outside in. *)
Ltac eqb_cases :=
  repeat match goal with
  | |- context [negb (?x =? ?y)] => destruct (Z.eqb_spec x y); cbn [negb orb]
  end.

Lemma ackci_void_spec opt neg p r : is_byte opt →
  ackci_void opt neg p = Some r ↔ p = addci_void opt neg ++ r.
Proof.
  intros Ho. unfold ackci_void, addci_void. destruct neg; [|naive_solver].
  rewrite u8_id by apply Ho.
  destruct p as [|t [|l p]]; eqb_cases; subst; naive_solver.
Qed.

Lemma ackci_short_spec opt neg v p r : is_byte opt → 0 <= v < 65536 → Bytes p →
  ackci_short opt neg v p = Some r ↔ p = addci_short opt neg v ++ r.
Proof.
  intros Ho Hv Hp. unfold ackci_short, addci_short. destruct neg; [|naive_solver].
  rewrite u8_id, u16_id by (apply Ho || apply Hv).
  destruct (PUTSHORT_get v Hv) as (x & y & -> & Hx & Hy & Hg).
  destruct p as [|t [|l [|a [|b p]]]]; try (split; discriminate).
  split.
  - bytes_inv. eqb_cases; intros [= ->]; subst t l.
    assert ([a; b] = [x; y]) as [= -> ->]; [|done].
    apply GETSHORT_inj; [repeat apply Forall_cons_2; done .. | congruence].
  - intros [= -> -> -> -> ->]. by rewrite Hg, !Z.eqb_refl.
Qed.

Lemma ackci_chap_spec opt neg v g p r : is_byte opt → 0 <= v < 65536 → is_byte g → Bytes p →
  ackci_chap opt neg v g p = Some r ↔ p = addci_chap opt neg v g ++ r.
Proof.
  intros Ho Hv Hgb Hp. unfold ackci_chap, addci_chap. destruct neg; [|naive_solver].
  rewrite !u8_id, u16_id by (apply Ho || apply Hv || apply Hgb).
  destruct (PUTSHORT_get v Hv) as (x & y & -> & Hx & Hy & Hg).
  destruct p as [|t [|l [|a [|b [|d p]]]]]; try (split; discriminate).
  split.
  - bytes_inv. eqb_cases; intros [= ->]; subst t l d.
    assert ([a; b] = [x; y]) as [= -> ->]; [|done].
    apply GETSHORT_inj; [repeat apply Forall_cons_2; done .. | congruence].
  - intros [= -> -> -> -> -> ->]. by rewrite Hg, !Z.eqb_refl.
Qed.

Lemma ackci_long_spec opt neg v p r : is_byte opt → 0 <= v < 4294967296 → Bytes p →
  ackci_long opt neg v p = Some r ↔ p = addci_long opt neg v ++ r.
Proof.
  intros Ho Hv Hp. unfold ackci_long, addci_long. destruct neg; [|naive_solver].
  rewrite u8_id, u32_id by (apply Ho || apply Hv).
  destruct (PUTLONG_get v Hv) as (x & y & z & w & -> & Hx & Hy & Hz & Hw & Hg).
  destruct p as [|t [|l [|a [|b [|c [|d p]]]]]]; try (split; discriminate).
  split.
  - bytes_inv. eqb_cases; intros [= ->]; subst t l.
    assert ([a; b; c; d] = [x; y; z; w]) as [= -> -> -> ->]; [|done].
    apply GETLONG_inj; [repeat apply Forall_cons_2; done .. | congruence].
  - intros [= -> -> -> -> -> -> ->]. by rewrite Hg, !Z.eqb_refl.
Qed.

Lemma ackci_lqr_spec opt neg v p r : is_byte opt → 0 <= v < 4294967296 → Bytes p →
  ackci_lqr opt neg v p = Some r ↔ p = addci_lqr opt neg v ++ r.
Proof.
  intros Ho Hv Hp. unfold ackci_lqr, addci_lqr. destruct neg; [|naive_solver].
  rewrite u8_id, u32_id by (apply Ho || apply Hv).
  destruct (PUTSHORT_get LQR ltac:(apply protos_range)) as (q & q' & -> & Hq & Hq' & Hgq).
  destruct (PUTLONG_get v Hv) as (x & y & z & w & -> & Hx & Hy & Hz & Hw & Hg).
  destruct p as [|t [|l [|k [|k' [|a [|b [|c [|d p]]]]]]]]; try (split; discriminate).
  split.
  - bytes_inv. eqb_cases; intros [= ->]; subst t l.
    assert ([k; k'] = [q; q']) as [= -> ->];
      [apply GETSHORT_inj; [repeat apply Forall_cons_2; done .. | congruence]|].
    assert ([a; b; c; d] = [x; y; z; w]) as [= -> -> -> ->]; [|done].
    apply GETLONG_inj; [repeat apply Forall_cons_2; done .. | congruence].
  - intros [= -> -> -> -> -> -> -> -> ->]. by rewrite Hgq, Hg, !Z.eqb_refl.
Qed.

(** [f] consumes exactly the bytes [a]. *)
Definition eats (f : bytes → option bytes) (a : bytes) : Prop :=
  ∀ p r, Bytes p → f p = Some r ↔ p = a ++ r.

Lemma eats_bind f g a b : eats f a → eats g b → eats (λ p, f p ≫= g) (a ++ b).
Proof.
  intros Hf Hg p r Hp. split.
  - intros (q & Eq & Er)%bind_Some. apply Hf in Eq as ->; [|done].
    apply Hg in Er as ->; [by rewrite app_assoc|].
    by apply Forall_app in Hp as [_ Hp].
  - intros ->. rewrite <- !app_assoc in *.
    rewrite (proj2 (Hf _ _ Hp) eq_refl). simpl.
    apply Hg; [by apply Forall_app in Hp as [_ Hp]|done].
Qed.

Lemma ackci_all_spec go : opts_wf go → eats (ackci_all go) (lcp_addci go).
Proof.
  intros (? & ? & ? & ? & ?). pose proof ci_is_byte as (? & ? & ? & ? & ? & ? & ?).
  pose proof protos_range as (? & ? & ?). unfold ackci_all, lcp_addci.
  repeat apply eats_bind; intros q r Hq; first
    [ by apply ackci_short_spec | by apply ackci_long_spec | by apply ackci_chap_spec
    | by apply ackci_lqr_spec | by apply ackci_void_spec ].
Qed.

Lemma addci_len go : opts_wf go → zlen (lcp_addci go) = lcp_cilen go.
Proof.
  intros (? & ? & ? & ? & ?). pose proof protos_range as (? & ? & ?).
  unfold lcp_addci, lcp_cilen. rewrite !zlen_app, !Z.add_assoc.
  unfold addci_short, addci_long, addci_chap, addci_lqr, addci_void, lenci.
  repeat match goal with
  | |- _ + _ = _ + _ => f_equal
  | |- context [if ?b then _ else _] => destruct b
  end; rewrite ?zlen_app, ?PUTSHORT_len, ?PUTLONG_len by done; done.
Qed.

(** C19: The check of a Configure-Ack accepts exactly the options of our
    Configure-Request, byte for byte and with nothing missing or left over,
    and [lcp_cilen] announces the number of these bytes. *)
Theorem lcp_ackci_exact (go : lcp_options) (p : bytes) : opts_wf go → Bytes p →
  lcp_ackci go p = bool_decide (p = lcp_addci go) ∧ zlen (lcp_addci go) = lcp_cilen go.
Proof.
  intros Hgo Hp. split; [|by apply addci_len]. symmetry.
  unfold lcp_ackci. case_bool_decide as Hd.
  - rewrite (proj2 (ackci_all_spec go Hgo p [] Hp)); [done|]. by rewrite app_nil_r.
  - destruct (ackci_all go p) as [[|b r]|] eqn:E; try done.
    apply ackci_all_spec in E; [|done..]. by rewrite app_nil_r in E.
Qed.

(** *** Naks *)

Ltac take_solve :=
  split;
  [ intros; repeat case_match; simplify_eq;
    repeat match goal with
    | H : _ && _ = true |- _ => apply andb_prop in H as [? ?]
    | H : (_ =? _) = true |- _ => apply Z.eqb_eq in H
    end; subst; eauto 10
  | intros;
    repeat match goal with
    | H : _ ∧ _ |- _ => destruct H
    | H : ∃ _, _ |- _ => destruct H
    end; subst; cbn; rewrite ?Z.eqb_refl; done ].

Lemma take_void_Some o n p r : take_void o n p = Some r ↔ n = true ∧ p = o :: CILEN_VOID :: r.
Proof. unfold take_void. take_solve. Qed.

Lemma take_short_Some o n p v r : take_short o n p = Some (v, r) ↔
  n = true ∧ ∃ a b, p = o :: CILEN_SHORT :: a :: b :: r ∧ v = GETSHORT a b.
Proof. unfold take_short. take_solve. Qed.

Lemma take_chap_Some o n p v d r : take_chap o n p = Some (v, d, r) ↔
  n = true ∧ ∃ a b, p = o :: CILEN_CHAP :: a :: b :: d :: r ∧ v = GETSHORT a b.
Proof. unfold take_chap. take_solve. Qed.

Lemma take_long_Some o n p v r : take_long o n p = Some (v, r) ↔
  n = true ∧ ∃ a b c d, p = o :: CILEN_LONG :: a :: b :: c :: d :: r ∧ v = GETLONG a b c d.
Proof. unfold take_long. take_solve. Qed.

Lemma take_lqr_Some o n p q v r : take_lqr o n p = Some (q, v, r) ↔
  n = true ∧ ∃ x y a b c d, p = o :: CILEN_LQR :: x :: y :: a :: b :: c :: d :: r ∧
    q = GETSHORT x y ∧ v = GETLONG a b c d.
Proof. unfold take_lqr. take_solve. Qed.

(** [try] asks for no more than [go] did: options are only dropped, the
    asyncmap only grows, a new MRU is within the limits of [lcp_nakci]. *)
Definition nak_le (wo go try : lcp_options) : Prop :=
  (passive try, silent try, restart try) = (passive go, silent go, restart go) ∧
  (neg_mru try, neg_asyncmap try, neg_magicnumber try) =
    (neg_mru go, neg_asyncmap go, neg_magicnumber go) ∧
  (mru try = mru go ∨ mru try <= mru wo ∨ mru try < DEFMRU) ∧
  Z.land (asyncmap go) (asyncmap try) = asyncmap go ∧
  (neg_upap try → neg_upap go) ∧ (neg_chap try → neg_chap go) ∧
  chap_mdtype try = chap_mdtype go ∧
  (numloops try = numloops go ∧ magicnumber try = magicnumber go ∨
   numloops try = numloops go + 1) ∧
  (neg_pcompression try → neg_pcompression go) ∧
  (neg_accompression try → neg_accompression go) ∧
  (neg_lqr try → neg_lqr go).

(** The invariant of the stages of [nakci_options]: [mg] tells whether the
    magic number has not been reached yet. *)
Definition nak_stage (wo go : lcp_options) (p0 : bytes) (mg : bool)
    (x : lcp_options * lcp_options * bytes) : Prop :=
  let '(try, no, p) := x in
  nak_le wo go try ∧ (mg → numloops try = numloops go) ∧ ∃ k, p0 = k ++ p.

Lemma suffix_app (p0 k l r : bytes) : p0 = k ++ l ++ r → ∃ k, p0 = k ++ r.
Proof. intros ->. exists (k ++ l). by rewrite app_assoc. Qed.

(** What the stages establish. *)
Definition nak_post (wo go : lcp_options) (p0 : bytes)
    (x : lcp_options * lcp_options * bytes * bool * R) : Prop :=
  let '(try, no, p, looped_back, r) := x in nak_le wo go try ∧ ∃ k, p0 = k ++ p.

(** One stage: the first [match] of the goal preserves [nak_stage]. *)
Ltac nak_step mg :=
  lazymatch goal with
  | St : nak_stage ?wo ?go ?p0 _ _ |- nak_post _ _ _ (match ?X with _ => _ end) =>
      let T := fresh "T" in
      assert (nak_stage wo go p0 mg X) as T; [|clear St; destruct X as [[? ?] ?]; rename T into St]
  end.

Lemma land_lor_self a b : Z.land a (Z.lor a b) = a.
Proof.
  apply Z.bits_inj'. intros n Hn. rewrite Z.land_spec, Z.lor_spec.
  by destruct (Z.testbit a n).
Qed.

(** The effect of an option on the fields of [nak_le]. *)
Ltac nak_field :=
  repeat match goal with H : _ ∧ _ |- _ => destruct H | H : ∃ _, _ |- _ => destruct H end;
  unfold nak_stage, nak_le in *; cbn in *;
  repeat match goal with H : _ ∧ _ |- _ => destruct H | H : ∃ _, _ |- _ => destruct H end;
  subst; split_and!;
  first
    [ assumption | done | tauto
    | apply land_lor_self
    | eexists (_ ++ [_; _; _; _; _; _; _; _]); rewrite <- app_assoc; reflexivity
    | eexists (_ ++ [_; _; _; _; _; _]); rewrite <- app_assoc; reflexivity
    | eexists (_ ++ [_; _; _; _; _]); rewrite <- app_assoc; reflexivity
    | eexists (_ ++ [_; _; _; _]); rewrite <- app_assoc; reflexivity
    | eexists (_ ++ [_; _]); rewrite <- app_assoc; reflexivity
    | eexists [_; _; _; _]; reflexivity
    | right; f_equal; auto; fail
    | match goal with Em : _ || _ = true |- _ => right; apply orb_prop in Em; lia end ].

(** Case analysis of one stage. *)
Ltac nak_take :=
  repeat match goal with
  | |- nak_stage _ _ _ _ (if negb ?b then _ else _) => destruct b; cbn [negb]; try done
  | |- nak_stage _ _ _ _ (match ?t with _ => _ end) =>
      let E := fresh "E" in
      destruct t as [?|] eqn:E; [|try done];
      repeat match goal with x : _ * _ |- _ => destruct x as [? ?] end;
      try first [ apply take_short_Some in E | apply take_long_Some in E
            | apply take_chap_Some in E | apply take_lqr_Some in E
            | apply take_void_Some in E ]
  | |- context [if ?b then _ else _] => let Em := fresh "Em" in destruct b eqn:Em
  end.

Lemma nakci_options_post wo go p0 r :
  nak_post wo go p0 (nakci_options magic wo go p0 r).
Proof.
  assert (nak_stage wo go p0 true (go, zero_options, p0)) as St.
  { split; [|split; [done|by exists []]].
    split_and!; try done; [by left|apply Z.land_diag|by left]. }
  unfold nakci_options.
  do 5 (nak_step true; [nak_take; nak_field|]).
  destruct (take_long _ _ _) as [[v q]|] eqn:E.
  - apply take_long_Some in E. destruct (magic r) as [m r'].
    do 2 (nak_step false; [nak_take; nak_field|]). by destruct St as (? & ? & ?).
  - do 2 (nak_step true; [nak_take; nak_field|]). by destruct St as (? & ? & ?).
Qed.
(** An option we did not ask for is at least a header long, unless it is an
    authentication type and we asked for none. *)
Lemma nak_extra_len go no t c : neg_chap go || neg_upap go = true →
  nak_extra_ok go no t c = true → 2 <= c.
Proof.
  intros Ha. unfold nak_extra_ok.
  repeat match goal with |- context [if ?x =? ?y then _ else _] => destruct (x =? y) end;
    intros E; try discriminate; apply negb_true_iff in E.
  all: try (apply orb_false_iff in E as [_ E]; apply negb_false_iff, Z.eqb_eq in E;
            rewrite E; done).
  by destruct (neg_chap go), (neg_upap go), (neg_chap no), (neg_upap no).
Qed.

Lemma nakci_rest_returns fuel go no p : neg_chap go || neg_upap go = true →
  (length p < fuel)%nat → is_Some (nakci_rest fuel go no p).
Proof.
  intros Ha. revert p. induction fuel as [|fuel IH]; intros p Hf; [lia|]. cbn [nakci_rest].
  case_match; [|by eexists].
  destruct p as [|t [|c p]]; [by eexists..|].
  case_match; [by eexists|]. case_match eqn:Eok; [|by eexists].
  apply nak_extra_len in Eok; [|done].
  apply IH. unfold zdrop. rewrite length_drop. simpl in *. lia.
Qed.

(** When authentication was requested, [lcp_nakci] returns, after at most
    as many rounds as the Nak has bytes.  A bad Nak, or one that arrives in
    the Opened state, changes no option; a good one makes the next request
    ask for no more than the last one. *)
Theorem lcp_nakci_returns fuel st (u : lcp R) p :
  neg_chap (gotoptions u) || neg_upap (gotoptions u) = true → (length p < fuel)%nat →
  ∃ ok u', lcp_nakci magic fuel st u p = Some (ok, u') ∧
    (wantoptions u', hisoptions u', allowoptions u', peer_mru u') =
      (wantoptions u, hisoptions u, allowoptions u, peer_mru u) ∧
    (ok = false ∨ st = OPENED → gotoptions u' = gotoptions u) ∧
    nak_le (wantoptions u) (gotoptions u) (gotoptions u').
Proof.
  intros Ha Hf. unfold lcp_nakci.
  pose proof (nakci_options_post (wantoptions u) (gotoptions u) p (rng u)) as Hpost.
  destruct (nakci_options _ _ _ _ _) as [[[[try no] q] lb] r].
  destruct Hpost as (Hle & k & ->). rewrite length_app in Hf.
  destruct (nakci_rest_returns fuel (gotoptions u) no q Ha) as [ok ->]; [lia|].
  eexists _, _. split; [done|].
  assert (nak_le (wantoptions u) (gotoptions u) (gotoptions u)) as Hrefl.
  { split_and!; try done; [by left|apply Z.land_diag|by left]. }
  destruct ok; cbn; [|by split_and!].
  case_bool_decide; cbn; split_and!; try done; by intros [?|?].
Qed.

(** When no authentication was requested, a Nak with an authentication
    type option of length zero never leaves the loop: the length and the
    position do not move. *)
Theorem lcp_nakci_loops fuel st (u : lcp R) :
  neg_chap (gotoptions u) = false → neg_upap (gotoptions u) = false →
  lcp_nakci magic fuel st u [CI_AUTHTYPE; 0; 0] = None.
Proof.
  intros Hc Hu.
  assert (∀ fuel no, neg_chap no = false → neg_upap no = false →
    nakci_rest fuel (gotoptions u) no [CI_AUTHTYPE; 0; 0] = None) as Hloop.
  { intros n no Hnc Hnu. induction n as [|n IH]; [done|]. cbn [nakci_rest].
    pose proof ci_neq as (Hmru & Hasync & _).
    unfold nak_extra_ok. rewrite !ci_eqb, Z.eqb_refl, Hc, Hu, Hnc, Hnu by apply Hmru || apply Hasync.
    apply IH. }
  assert (∀ o n, take_void o n [CI_AUTHTYPE; 0; 0] = None) as Hv by (by intros o []).
  unfold lcp_nakci, nakci_options. cbn [take_short take_long take_chap take_lqr].
  rewrite Hc. do 2 cbn [negb take_long take_lqr]. do 2 (rewrite Hv; cbn [negb]). by rewrite Hloop.
Qed.

(** *** Rejects *)

(** The options of [m] are among those that [go] requests, with their values;
    an UPAP request is only sent when CHAP is not requested. *)
Definition sub_options (m go : lcp_options) : Prop :=
  (mru m, asyncmap m, chap_mdtype m, magicnumber m, lqr_period m) =
    (mru go, asyncmap go, chap_mdtype go, magicnumber go, lqr_period go) ∧
  (neg_mru m → neg_mru go) ∧ (neg_asyncmap m → neg_asyncmap go) ∧
  (neg_chap m → neg_chap go) ∧ (neg_upap m → neg_upap go ∧ neg_chap go = false) ∧
  (neg_lqr m → neg_lqr go) ∧ (neg_magicnumber m → neg_magicnumber go) ∧
  (neg_pcompression m → neg_pcompression go) ∧ (neg_accompression m → neg_accompression go).

(** [go] without the options of [m]. *)
Definition minus_options (go m : lcp_options) : lcp_options :=
  MkOpts (passive go) (silent go) (restart go)
    (neg_mru go && negb (neg_mru m)) (mru go)
    (neg_asyncmap go && negb (neg_asyncmap m)) (asyncmap go)
    (neg_upap go && negb (neg_upap m)) (neg_chap go && negb (neg_chap m)) (chap_mdtype go)
    (neg_magicnumber go && negb (neg_magicnumber m)) (magicnumber go) (numloops go)
    (neg_pcompression go && negb (neg_pcompression m))
    (neg_accompression go && negb (neg_accompression m))
    (neg_lqr go && negb (neg_lqr m)) (lqr_period go).

(** A rejection step takes the encoding [enc true] of a requested option off
    the packet and clears it, or passes when the option is not next. *)
Definition rej_step (enc : bool → bytes) (opt : Z) (neg : bool)
    (taken : bytes → option (bool * bytes)) : Prop :=
  (∀ p b r, Bytes p → taken p = Some (b, r) → neg = true ∧ head p = Some opt ∧
     (b = true → p = enc true ++ r)) ∧
  (∀ r, neg = true → taken (enc true ++ r) = Some (true, r)) ∧
  enc false = [].

Lemma rej_void_step opt neg : is_byte opt →
  rej_step (addci_void opt) opt neg (rej_void opt neg).
Proof.
  intros Ho. unfold rej_void, addci_void. rewrite u8_id by apply Ho. split_and!; [..|done].
  - intros p b r _ E. destruct (take_void _ _ _) eqn:Et; [|done].
    apply take_void_Some in Et as [-> ->]. by simplify_eq/=.
  - intros r ->. cbn. by rewrite Z.eqb_refl.
Qed.

Lemma rej_short_step opt neg v : is_byte opt → 0 <= v < 65536 →
  rej_step (λ b, addci_short opt b v) opt neg (rej_short opt neg v).
Proof.
  intros Ho Hv. unfold rej_short, addci_short. rewrite u8_id, u16_id by (apply Ho || apply Hv).
  destruct (PUTSHORT_get v Hv) as (x & y & -> & Hx & Hy & <-). split_and!; [..|done].
  - intros p b r Hp E. destruct (take_short _ _ _) as [[? ?]|] eqn:Et; [|done].
    apply take_short_Some in Et as (-> & a & c & -> & ->). simplify_eq/=.
    split_and!; [done..|]. intros ?%Z.eqb_eq. bytes_inv.
    by assert ([a; c] = [x; y]) as [= -> ->] by (apply GETSHORT_inj; [repeat apply Forall_cons_2; done..|done]).
  - intros r ->. cbn. by rewrite !Z.eqb_refl.
Qed.

Lemma rej_chap_step opt neg v g : is_byte opt → 0 <= v < 65536 → is_byte g →
  rej_step (λ b, addci_chap opt b v g) opt neg (rej_chap opt neg v g).
Proof.
  intros Ho Hv Hg. unfold rej_chap, addci_chap.
  rewrite !u8_id, u16_id by (apply Ho || apply Hv || apply Hg).
  destruct (PUTSHORT_get v Hv) as (x & y & -> & Hx & Hy & <-). split_and!; [..|done].
  - intros p b r Hp E. destruct (take_chap _ _ _) as [[[? ?] ?]|] eqn:Et; [|done].
    apply take_chap_Some in Et as (-> & a & c & -> & ->). simplify_eq/=.
    split_and!; [done..|]. intros [?%Z.eqb_eq ->%Z.eqb_eq]%andb_prop. bytes_inv.
    by assert ([a; c] = [x; y]) as [= -> ->] by (apply GETSHORT_inj; [repeat apply Forall_cons_2; done..|done]).
  - intros r ->. cbn. by rewrite !Z.eqb_refl.
Qed.

Lemma rej_long_step opt neg v : is_byte opt → 0 <= v < 4294967296 →
  rej_step (λ b, addci_long opt b v) opt neg (rej_long opt neg v).
Proof.
  intros Ho Hv. unfold rej_long, addci_long. rewrite u8_id, u32_id by (apply Ho || apply Hv).
  destruct (PUTLONG_get v Hv) as (x & y & z & w & -> & Hx & Hy & Hz & Hw & <-).
  split_and!; [..|done].
  - intros p b r Hp E. destruct (take_long _ _ _) as [[? ?]|] eqn:Et; [|done].
    apply take_long_Some in Et as (-> & a & c & d & e & -> & ->). simplify_eq/=.
    split_and!; [done..|]. intros ?%Z.eqb_eq. bytes_inv.
    by assert ([a; c; d; e] = [x; y; z; w]) as [= -> -> -> ->]
      by (apply GETLONG_inj; [repeat apply Forall_cons_2; done..|done]).
  - intros r ->. cbn. by rewrite !Z.eqb_refl.
Qed.

Lemma rej_lqr_step opt neg v : is_byte opt → 0 <= v < 4294967296 →
  rej_step (λ b, addci_lqr opt b v) opt neg (rej_lqr opt neg v).
Proof.
  intros Ho Hv. unfold rej_lqr, addci_lqr. rewrite u8_id by apply Ho.
  destruct (PUTSHORT_get LQR ltac:(apply protos_range)) as (q & q' & -> & Hq & Hq' & Hgq).
  destruct (PUTLONG_get v Hv) as (x & y & z & w & -> & Hx & Hy & Hz & Hw & <-).
  split_and!; [..|done].
  - intros p b r Hp E. destruct (take_lqr _ _ _) as [[[? ?] ?]|] eqn:Et; [|done].
    apply take_lqr_Some in Et as (-> & k & k' & a & c & d & e & -> & -> & ->). simplify_eq/=.
    split_and!; [done..|]. intros [?%Z.eqb_eq ?%Z.eqb_eq]%andb_prop. bytes_inv.
    assert ([k; k'] = [q; q']) as [= -> ->]
      by (apply GETSHORT_inj; [repeat apply Forall_cons_2; done..|congruence]).
    by assert ([a; c; d; e] = [x; y; z; w]) as [= -> -> -> ->]
      by (apply GETLONG_inj; [repeat apply Forall_cons_2; done..|done]).
  - intros r ->. cbn. by rewrite Hgq, !Z.eqb_refl.
Qed.

(** One step, in terms of a flag [b]: was the option rejected? *)
Lemma rejci_sound enc opt neg taken clear o p o' r :
  rej_step enc opt neg taken → Bytes p →
  rejci (taken p) clear (o, p) = Some (o', r) →
  ∃ b : bool, (b → neg) ∧ p = enc b ++ r ∧ o' = (if b then clear o else o) ∧ Bytes r.
Proof.
  intros (Hs & _ & He) Hp. destruct (taken p) as [[[] r']|] eqn:Et; cbn; intros [= <- <-].
  - destruct (Hs p _ _ Hp Et) as (-> & _ & Hb). specialize (Hb eq_refl).
    exists true. split_and!; try done. rewrite Hb in Hp. by apply Forall_app in Hp as [_ Hp].
  - exists false. by rewrite He.
Qed.

Lemma rejci_complete enc opt neg taken clear o p r (b : bool) :
  rej_step enc opt neg taken → p = enc b ++ r → (b → neg) → Bytes p →
  (b = false → neg = true → head r ≠ Some opt) →
  rejci (taken p) clear (o, p) = Some (if b then clear o else o, r).
Proof.
  intros (Hs & Hc & He) -> Hb Hr Hh. destruct b.
  - rewrite Hc by (by destruct neg; [|destruct Hb]). done.
  - rewrite He in *. cbn in *. destruct (taken r) as [[b r']|] eqn:Et; [|done].
    destruct (Hs r _ _ Hr Et) as (Hn & Hhd & _). by destruct (Hh eq_refl Hn).
Qed.

(** The type of the first option of a packet. *)
Lemma head_app_cases (a r : bytes) t :
  head (a ++ r) = Some t → head a = Some t ∨ (a = [] ∧ head r = Some t).
Proof. destruct a; [by right|by left]. Qed.

(** The options after a given one are of other types. *)
Ltac head_not Hhd :=
  unfold addci_void, addci_short, addci_chap, addci_long, addci_lqr in Hhd;
  case_match;
    [injection Hhd; rewrite ?u8_id by assumption; first [congruence|exfalso; eauto]
    |discriminate].

Ltac head_ne :=
  let Hhd := fresh "Hhd" in let Hneg := fresh "Hneg" in
  intros _ Hneg Hhd;
  repeat (apply head_app_cases in Hhd as [Hhd|[_ Hhd]]; [head_not Hhd|]);
  discriminate.

Ltac rej_step_solve :=
  first [ apply rej_short_step | apply rej_long_step | apply rej_chap_step
        | apply rej_lqr_step | apply rej_void_step ]; done.

Lemma rej_upap_guard (c n : bool) (o v : Z) p clear x :
  (if negb c then rejci (rej_short o n v p) clear x else Some x) =
    rejci (rej_short o (negb c && n) v p) clear x.
Proof.
  destruct c; [|done]. cbn. unfold rej_short.
  destruct (take_short o false p) as [[? ?]|] eqn:E; [|done].
  by apply take_short_Some in E as [? _].
Qed.

(** Clearing a rejected option. *)
Lemma clear_if (b : bool) o :
  (if b then set_neg_mru false o else o) = set_neg_mru (neg_mru o && negb b) o ∧
  (if b then set_neg_asyncmap false o else o) = set_neg_asyncmap (neg_asyncmap o && negb b) o ∧
  (if b then set_neg_chap false o else o) = set_neg_chap (neg_chap o && negb b) o ∧
  (if b then set_neg_upap false o else o) = set_neg_upap (neg_upap o && negb b) o ∧
  (if b then set_neg_lqr false o else o) = set_neg_lqr (neg_lqr o && negb b) o ∧
  (if b then set_neg_magicnumber false o else o) =
    set_neg_magicnumber (neg_magicnumber o && negb b) o ∧
  (if b then set_neg_pcompression false o else o) =
    set_neg_pcompression (neg_pcompression o && negb b) o ∧
  (if b then set_neg_accompression false o else o) =
    set_neg_accompression (neg_accompression o && negb b) o.
Proof. destruct o, b; cbn; rewrite ?andb_true_r, ?andb_false_r; by split_and!. Qed.

Ltac clear_if :=
  rewrite ?(proj1 (clear_if _ _));
  rewrite ?(proj1 (proj2 (clear_if _ _)));
  rewrite ?(proj1 (proj2 (proj2 (clear_if _ _))));
  rewrite ?(proj1 (proj2 (proj2 (proj2 (clear_if _ _)))));
  rewrite ?(proj1 (proj2 (proj2 (proj2 (proj2 (clear_if _ _))))));
  rewrite ?(proj1 (proj2 (proj2 (proj2 (proj2 (proj2 (clear_if _ _)))))));
  rewrite ?(proj1 (proj2 (proj2 (proj2 (proj2 (proj2 (proj2 (clear_if _ _))))))));
  rewrite ?(proj2 (proj2 (proj2 (proj2 (proj2 (proj2 (proj2 (clear_if _ _)))))))).

(** Undoes one step of [rejci_all]. *)
Ltac rej_inv E :=
  cbn [fst snd] in E;
  first
    [ let E1 := fresh "E" in
      apply bind_Some in E as ([? ?] & E1 & E); cbn [fst snd] in E1;
      try rewrite rej_upap_guard in E1; cbn [fst snd] in E1;
      eapply rejci_sound in E1 as (? & ? & ? & ? & ?); [|rej_step_solve|done]
    | eapply rejci_sound in E as (? & ? & ? & ? & ?); [|rej_step_solve|done] ].

Lemma upap_flag (c n x y : bool) : (x → c) → (y → negb c && n) →
  negb x && y = y ∧ (y → n ∧ c = false).
Proof. destruct c, n, x, y; cbn; tauto. Qed.

Lemma rejci_all_sound go p try : opts_wf go → Bytes p →
  rejci_all go p = Some (try, []) →
  ∃ m, sub_options m go ∧ p = lcp_addci m ∧ try = minus_options go m.
Proof.
  intros (? & ? & ? & ? & ?) Hp. pose proof ci_is_byte as (? & ? & ? & ? & ? & ? & ?).
  pose proof protos_range as (? & ? & ?). unfold rejci_all. intros E.
  do 8 rej_inv E. subst. cbn beta in *.
  match goal with
  | |- context [addci_short CI_MRU ?b1 _ ++ addci_long CI_ASYNCMAP ?b2 _ ++
      addci_chap _ ?b3 _ _ ++ addci_short _ ?b4 _ ++ addci_lqr _ ?b5 _ ++
      addci_long _ ?b6 _ ++ addci_void _ ?b7 ++ addci_void _ ?b8 ++ []] =>
      exists (MkOpts false false false b1 (mru go) b2 (asyncmap go) b4 b3 (chap_mdtype go)
                b6 (magicnumber go) 0 b7 b8 b5 (lqr_period go))
  end.
  rewrite app_nil_r. clear_if.
  match goal with H : Is_true ?x2 → Is_true (negb _ && _), H' : Is_true ?x1 → Is_true (neg_chap go)
    |- _ => pose proof (upap_flag _ _ _ _ H' H) as [Eu Hu] end.
  split_and!; [|by unfold lcp_addci; cbn; rewrite Eu|done].
  by split_and!.
Qed.

Lemma addci_bytes opt b v g : is_byte opt → 0 <= v < 65536 → is_byte g →
  Bytes (addci_void opt b) ∧ Bytes (addci_short opt b v) ∧ Bytes (addci_chap opt b v g).
Proof.
  intros Ho Hv Hg. pose proof (PUTSHORT_bytes v Hv).
  destruct b; split_and!; cbn; repeat apply Forall_cons_2; try apply is_byte_u8; try done.
  apply Bytes_app; [done|]. repeat constructor; apply u8_range.
Qed.

Lemma addci_bytes_long opt b v : is_byte opt → 0 <= v < 4294967296 →
  Bytes (addci_long opt b v) ∧ Bytes (addci_lqr opt b v).
Proof.
  intros Ho Hv. pose proof (PUTLONG_bytes v Hv).
  pose proof (PUTSHORT_bytes LQR ltac:(apply protos_range)).
  destruct b; split_and!; cbn; repeat apply Forall_cons_2; try apply is_byte_u8; try done.
  by apply Bytes_app.
Qed.

Lemma lcp_addci_bytes o : opts_wf o → Bytes (lcp_addci o).
Proof.
  intros (? & ? & ? & ? & ?). pose proof ci_is_byte as (? & ? & ? & ? & ? & ? & ?).
  pose proof protos_range as (? & ? & ?). unfold lcp_addci.
  repeat apply Bytes_app;
    first [ by apply addci_bytes_long | by apply (addci_bytes _ _ _ 0) | by apply addci_bytes
          | by apply (addci_bytes _ _ 0 0) ].
Qed.

Lemma bind_step {A B} (f : A → option B) mx x y :
  mx = Some x → f x = Some y → mx ≫= f = Some y.
Proof. by intros ->. Qed.

(** Performs one step of [rejci_all] on the encoding of a mask. *)
Ltac rej_fwd_step :=
  rewrite ?rej_upap_guard;
  eapply rejci_complete; [rej_step_solve|reflexivity|try done|done|head_ne].

Ltac rej_fwd :=
  cbn [fst snd]; eapply bind_step; [rej_fwd_step|];
  match goal with
  | Hb : Forall _ (_ ++ _) |- _ => apply Forall_app in Hb as [_ Hb]
  end.

Lemma rejci_all_complete go m : opts_wf go → sub_options m go →
  rejci_all go (lcp_addci m) = Some (minus_options go m, []).
Proof.
  intros (? & ? & ? & ? & ?) ([= E1 E2 E3 E4 E5] & H1' & H2' & H3' & H4' & H5' & H6' & H7' & H8').
  pose proof ci_is_byte as (? & ? & ? & ? & ? & ? & ?).
  pose proof protos_range as (? & ? & ?).
  pose proof ci_neq as ((?&?&?&?&?&?) & (?&?&?&?&?) & (?&?&?&?) & (?&?&?) & (?&?) & ?).
  assert (negb (neg_chap m) && neg_upap m = neg_upap m) as Eu.
  { destruct (neg_chap m), (neg_upap m), (neg_chap go); try done;
      [by destruct (H4' I)|by destruct (H3' I)]. }
  assert (neg_chap go = true → neg_upap m = true → False) as Hup.
  { destruct (neg_upap m), (neg_chap go); try done. by destruct (H4' I). }
  assert (Bytes (lcp_addci m)) as Hby.
  { apply lcp_addci_bytes. unfold opts_wf. rewrite E1, E2, E3, E4, E5. done. }
  unfold rejci_all. unfold lcp_addci in *. rewrite Eu, E1, E2, E3, E4, E5 in Hby |- *.
  rewrite <- (app_nil_r (addci_void CI_ACCOMPRESSION _)) in Hby |- *.
  do 3 rej_fwd. rej_fwd.
  { destruct (neg_upap m); [|done]. destruct (H4' I) as [? ->]. by destruct (neg_upap go). }
  do 3 rej_fwd. cbn [fst snd]. erewrite rejci_complete;
    [|rej_step_solve|reflexivity|done|done|done].
  by clear_if.
Qed.

(** The check of a Configure-Reject accepts exactly the encodings of the
    requested options, or some of them, in the order and with the values of
    our request; it then drops these options and no other.  Anything else,
    and any Reject in the Opened state, leaves the options alone. *)
Theorem lcp_rejci_exact st (u : lcp R) p : opts_wf (gotoptions u) → Bytes p →
  (∃ m, sub_options m (gotoptions u) ∧ p = lcp_addci m ∧
     lcp_rejci st u p =
       (true, if decide (st = OPENED) then u
              else set_go (minus_options (gotoptions u) m) u)) ∨
  ((∀ m, sub_options m (gotoptions u) → p ≠ lcp_addci m) ∧ lcp_rejci st u p = (false, u)).
Proof.
  intros Hgo Hp. unfold lcp_rejci.
  destruct (rejci_all (gotoptions u) p) as [[try [|b q]]|] eqn:E.
  - left. destruct (rejci_all_sound _ _ _ Hgo Hp E) as (m & Hm & -> & ->). eauto.
  - right. split; [|done]. intros m Hm ->. by rewrite rejci_all_complete in E.
  - right. split; [|done]. intros m Hm ->. by rewrite rejci_all_complete in E.
Qed.

(** *** Requests *)

(** The codes of the replies, told apart. *)
Lemma reply_eqb :
  (CONFACK =? CONFNAK) = false ∧ (CONFACK =? CONFREJ) = false ∧
  (CONFNAK =? CONFACK) = false ∧ (CONFNAK =? CONFREJ) = false ∧
  (CONFREJ =? CONFACK) = false ∧ (CONFREJ =? CONFNAK) = false.
Proof. pose proof reply_codes as (? & ? & ?). split_and!; apply Z.eqb_neq; congruence. Qed.

Ltac reply_simpl :=
  pose proof reply_eqb as (Ean & Ear & Ena & Enr & Era & Ern);
  repeat (rewrite ?Z.eqb_refl, ?Ean, ?Ear, ?Ena, ?Enr, ?Era, ?Ern in *; cbn [andb orb negb] in *);
  clear Ean Ear Ena Enr Era Ern.

(** Enough fuel is the length of the packet. *)
Lemma reqci_loop_fuel rid go ao fuel p st : (length p <= fuel)%nat →
  reqci_loop magic fuel rid go ao p st = reqci_loop magic (length p) rid go ao p st.
Proof.
  enough (∀ n m p st, (length p <= n)%nat → (length p <= m)%nat →
    reqci_loop magic n rid go ao p st = reqci_loop magic m rid go ao p st) by eauto.
  clear. induction n as [|n IH]; intros m p st Hn Hm.
  { destruct p; [|simpl in *; lia]. by destruct m. }
  destruct m as [|m]; [destruct p; [done|simpl in *; lia]|].
  destruct p as [|t [|c p]]; [done..|]. cbn [reqci_loop].
  destruct (_ || _) eqn:E; [done|]. apply orb_false_iff in E as [Ec _].
  apply Z.ltb_ge in Ec. apply IH; unfold zdrop; rewrite length_drop; simpl in *; lia.
Qed.

(** One well formed option. *)
Lemma reqci_loop_option rid go ao t c body rest st fuel :
  c = 2 + zlen body → (length (t :: c :: body ++ rest) <= fuel)%nat →
  reqci_loop magic fuel rid go ao (t :: c :: body ++ rest) st =
  reqci_loop magic (length rest) rid go ao rest
    (reqci_endswitch rid t (t :: c :: body)
       (reqci_option magic go ao (rq_ho st) t c body (rq_rng st)) st).
Proof.
  intros Hc Hf. pose proof (zlen_nonneg body). pose proof (zlen_nonneg rest).
  destruct fuel as [|fuel]; [simpl in Hf; lia|]. cbn [reqci_loop].
  replace (c <? 2) with false by (symmetry; apply Z.ltb_ge; lia).
  replace (zlen _ <? c) with false by (symmetry; apply Z.ltb_ge; zlen; lia). cbn [orb].
  change (t :: c :: body ++ rest) with ((t :: c :: body) ++ rest).
  rewrite zdrop_app_ge, ztake_app_ge by (zlen; lia).
  replace (c - zlen (t :: c :: body)) with 0 by (zlen; lia).
  rewrite ztake_neg, zdrop_neg, app_nil_r by lia.
  rewrite ztake_app_ge by lia. rewrite ztake_neg, app_nil_r by lia.
  apply reqci_loop_fuel. simpl in Hf. rewrite length_app in Hf. lia.
Qed.

(** The Nak of a looped-back magic number. *)
Definition nak_magic (m : Z) : bytes := [u8 CI_MAGICNUMBER; CILEN_LONG] ++ PUTLONG m.

(** What an option's verdict can be. *)
Definition verdict_ok (citype cilen : Z) (v : @verdict R) : Prop :=
  let '(orc, nak, ho, r) := v in
  (orc = CONFACK ∧ nak = []) ∨ (orc = CONFREJ ∧ nak = []) ∨
  (orc = CONFNAK ∧ 4 * zlen nak <= 5 * cilen ∧
   (citype = CI_MAGICNUMBER → ∃ m, nak = nak_magic m)).

Lemma reqci_auth_ok ao ho c p r : opts_wf ao → verdict_ok CI_AUTHTYPE c (reqci_auth ao ho c p r).
Proof.
  intros Hao. pose proof protos_range as (? & ? & ?).
  pose proof ci_neq as (_ & _ & (_ & Hne & _) & _).
  assert (zlen (nak_chap ao) = 5 ∧ zlen nak_upap = 4) as [Ec Eu].
  { unfold nak_chap, nak_upap. rewrite !zlen_app, !PUTSHORT_len by done. done. }
  unfold reqci_auth. destruct p as [|a [|b p]]; [by right; left..|].
  destruct (_ || _) eqn:E; [by right; left|]. apply orb_false_iff in E as [E%Z.ltb_ge _].
  unfold CILEN_SHORT in E.
  repeat case_match; first [by left | by right; left | right; right];
    (split_and!; [done|lia|congruence]).
Qed.

Lemma reqci_option_ok go ao ho t c p r : opts_wf ao → 2 <= c → (∀ r, 0 <= (magic r).1 < 4294967296) →
  verdict_ok t c (reqci_option magic go ao ho t c p r).
Proof.
  intros Hao Hc Hm. pose proof (zlen_nonneg p) as Hz.
  assert (CI_MRU ≠ CI_MAGICNUMBER ∧ CI_ASYNCMAP ≠ CI_MAGICNUMBER ∧ CI_QUALITY ≠ CI_MAGICNUMBER)
    as (Nmru & Nasync & Nlqr).
  { pose proof ci_neq as ((_&_&_&?&_) & (_&_&?&_) & _ & (?&_) & _). by split_and!. }
  assert (zlen ([u8 CI_QUALITY; CILEN_LQR] ++ PUTSHORT LQR ++ PUTLONG (lqr_period ao)) = 8) as Hlqr.
  { rewrite !zlen_app, PUTSHORT_len, PUTLONG_len by (apply Hao || apply protos_range). done. }
  assert (∀ a, zlen (nak_magic (magic a).1) = 6) as Hmg.
  { intros a. unfold nak_magic. rewrite zlen_app, PUTLONG_len by done. done. }
  unfold reqci_option.
  repeat match goal with
  | |- context [if t =? ?x then _ else _] => destruct (Z.eqb_spec t x); [subst t|]
  end; try (by apply reqci_auth_ok); try (by right; left).
  all: clear Hao.
  - repeat case_match; first [by left|by right; left|right; right].
    split_and!; [done|change (zlen []) with 0; lia|done].
  - repeat case_match; first [by left|by right; left|right; right].
    split_and!; [done|change (zlen []) with 0; lia|done].
  - destruct p as [|x [|y [|a [|b [|d [|e [|]]]]]]]; try (by right; left).
    destruct (_ || _) eqn:E; [by right; left|].
    apply orb_false_iff in E as [_ E%negb_false_iff%Z.eqb_eq]. unfold CILEN_LQR in *.
    case_match; [|by left]. right; right. split_and!; [done|lia|done].
  - destruct p as [|x [|y [|a [|b [|]]]]]; try (by right; left).
    destruct (_ || _) eqn:E; [by right; left|].
    apply orb_false_iff in E as [_ E%negb_false_iff%Z.eqb_eq]. unfold CILEN_LONG in E.
    case_match; [|by left]. specialize (Hmg r). destruct (magic r) as [m r'].
    right; right. split_and!; [done| |by exists m]. change (4 * zlen (nak_magic m) <= 5 * c).
    cbn [fst] in Hmg. lia.
  - case_match; [by right; left|by left].
  - case_match; [by right; left|by left].
Qed.

(** The invariant of the loop: [opts] are the options consumed. *)
Definition req_inv (rid : bool) (opts : list bytes) (st : reqci_state (R := R)) : Prop :=
  ∃ rejected, rq_rej st = concat rejected ∧ rejected `sublist_of` opts ∧
    4 * zlen (rq_nak st) <= 5 * zlen (concat opts) ∧
    (rq_rc st = CONFACK ∧ rejected = [] ∧ rq_nak st = [] ∨
     rq_rc st = CONFNAK ∧ rejected = [] ∧
       (rid → ∃ ms, ms ≠ [] ∧ rq_nak st = concat (map nak_magic ms)) ∨
     rq_rc st = CONFREJ ∧ rejected ≠ []).

Lemma req_inv_step rid opts st t c cip v : req_inv rid opts st →
  verdict_ok t c v → c = zlen cip →
  req_inv rid (opts ++ [cip]) (reqci_endswitch rid t cip v st).
Proof.
  intros (rej & Hrej & Hsub & Hlen & Hrc) Hv ->. destruct v as [[[orc nak] ho] r].
  pose proof (zlen_nonneg cip) as Hz.
  assert (zlen (concat (opts ++ [cip])) = zlen (concat opts) + zlen cip) as Hcat.
  { rewrite concat_app, zlen_app. cbn. by rewrite app_nil_r. }
  assert (rej `sublist_of` opts ++ [cip]) as Hsub1 by (by apply sublist_inserts_r).
  assert (rej ++ [cip] `sublist_of` opts ++ [cip]) as Hsub2 by (by apply sublist_app).
  assert (rej ++ [cip] ≠ []) as Hne by (by destruct rej).
  assert (rq_rej st ++ cip = concat (rej ++ [cip])) as Hcat2.
  { rewrite concat_app, Hrej. cbn. by rewrite app_nil_r. }
  pose proof reply_codes as (? & ? & ?). unfold reqci_endswitch, req_inv. rewrite Hcat.
  destruct Hv as [[-> ->]|[[-> ->]|(-> & Hnak & Hmag)]]; cbn [rq_rc rq_nak rq_rej]; reply_simpl.
  - rewrite app_nil_r. exists rej.
    destruct (negb (rq_rc st =? CONFACK)); cbn; split_and!; try done; lia.
  - rewrite app_nil_r. exists (rej ++ [cip]). cbn. split_and!; try done; [lia|by right; right].
  - destruct (rid && negb (t =? CI_MAGICNUMBER)) eqn:Erid; [|destruct (Z.eqb_spec (rq_rc st) CONFREJ)];
      cbn [rq_rc rq_nak rq_rej]; rewrite zlen_app.
    + exists (rej ++ [cip]). split_and!; try done; [lia|by right; right].
    + exists rej. split_and!; try done; [lia|]. right; right. by destruct Hrc as [[? _]|[[? _]|?]]; [congruence..|].
    + exists rej. split_and!; try done; [lia|]. right; left.
      assert (rid → ∃ m, nak = nak_magic m) as Hm.
      { destruct rid; [|done]. intros _. apply Hmag. by apply negb_false_iff, Z.eqb_eq in Erid. }
      destruct Hrc as [(_ & -> & ->)|[(_ & -> & Hms)|[? _]]]; [..|done].
      * split_and!; [done..|]. intros [m ->]%Hm. exists [m]. cbn. by rewrite app_nil_r.
      * split_and!; [done..|]. intros Hr. destruct (Hm Hr) as [m ->], (Hms Hr) as (ms & Hne' & ->).
        exists (ms ++ [m]). rewrite map_app, concat_app. cbn. rewrite app_nil_r. split; [|done].
        by destruct ms.
Qed.

(** Every packet is cut into options; only a badly formed tail of 256 bytes
    or more is truncated. *)
Lemma reqci_loop_inv fuel rid go ao p st opts : opts_wf ao →
  (∀ r, 0 <= (magic r).1 < 4294967296) → zlen p < 256 → (length p <= fuel)%nat →
  req_inv rid opts st →
  ∃ more, p = concat more ∧
    req_inv rid (opts ++ more) (reqci_loop magic fuel rid go ao p st).
Proof.
  intros Hao Hm. revert p st opts. induction fuel as [|fuel IH]; intros p st opts Hl Hf Hst.
  { destruct p; [|simpl in Hf; lia]. exists []. by rewrite app_nil_r. }
  assert (p ≠ [] → req_inv rid (opts ++ [p]) (reqci_endswitch rid 0 (ztake (u8 (zlen p)) p)
    (CONFREJ, [], rq_ho st, rq_rng st) st)) as Hbad.
  { intros Hp. pose proof (zlen_nonneg p). rewrite u8_id by lia.
    assert (ztake (zlen p) p = p) as -> by (apply ztake_all; lia).
    apply (req_inv_step _ _ _ 0 (zlen p)); [done| |done]. by right; left. }
  destruct p as [|t [|c body]]; [exists []; by rewrite app_nil_r| |].
  { exists [[t]]. split; [done|]. by apply Hbad. }
  cbn [reqci_loop]. destruct (_ || _) eqn:E.
  { exists [t :: c :: body]. cbn [concat]. rewrite app_nil_r. split; [done|]. by apply Hbad. }
  apply orb_false_iff in E as [Hc%Z.ltb_ge Hc2%Z.ltb_ge].
  set (p := t :: c :: body) in *.
  edestruct (IH (zdrop c p)) as (more & Hmore & Hinv).
  - zlen. lia.
  - unfold zdrop, zlen in *. rewrite length_drop. lia.
  - apply (req_inv_step rid opts st t c (ztake c p)); [exact Hst| |].
    + by apply (reqci_option_ok go ao (rq_ho st) t c (ztake (c - 2) body) (rq_rng st)).
    + rewrite zlen_ztake. lia.
  - exists (ztake c p :: more). cbn [concat]. rewrite <- Hmore, ztake_zdrop. split; [done|].
    rewrite <- app_assoc in Hinv. done.
Qed.

(** The answer to a Configure-Request.  An Ack returns the request as it
    is.  A Reject is made of whole options of the request, in order.  A Nak is
    at most a quarter longer than the request, and when the automaton no
    longer wants to send Naks, it concerns looped-back magic numbers only.
    Our own options do not change. *)
Theorem lcp_reqci_reply (u : lcp R) inp (rid : bool) : opts_wf (allowoptions u) →
  (∀ r, 0 <= (magic r).1 < 4294967296) → zlen inp < 256 →
  let '(rc, out, u') := lcp_reqci magic u inp rid in
  (wantoptions u', gotoptions u', allowoptions u', peer_mru u') =
    (wantoptions u, gotoptions u, allowoptions u, peer_mru u) ∧
  (rc = CONFACK ∧ out = inp ∨
   rc = CONFNAK ∧ 4 * zlen out <= 5 * zlen inp ∧
     (rid → ∃ ms, ms ≠ [] ∧ out = concat (map nak_magic ms)) ∨
   rc = CONFREJ ∧ ∃ opts rejected, inp = concat opts ∧ rejected `sublist_of` opts ∧
     rejected ≠ [] ∧ out = concat rejected).
Proof.
  intros Hao Hm Hl. unfold lcp_reqci.
  destruct (reqci_loop_inv (length inp) rid (gotoptions u) (allowoptions u) inp
    (MkReq CONFACK [] [] zero_options (rng u)) []) as (opts & -> & rej & Hrej & Hsub & Hn & Hrc);
    [done..| |].
  { exists []. cbn. split_and!; try done. by left. }
  cbn [app] in *. remember (reqci_loop _ _ _ _ _ _ _) as st. cbn. split; [done|].
  destruct Hrc as [(-> & -> & _)|[(-> & -> & Hms)|[-> Hne]]]; reply_simpl.
  - by left.
  - right; left. by split_and!.
  - right; right. split; [done|]. by exists opts, rej.
Qed.

Lemma endswitch_nak t cip nak ho r st : rq_rc st ≠ CONFREJ →
  reqci_endswitch false t cip (CONFNAK, nak, ho, r) st =
    MkReq CONFNAK (rq_nak st ++ nak) (rq_rej st) ho (r : R).
Proof.
  intros Hrc. apply ci_eqb in Hrc. unfold reqci_endswitch. cbn [rq_rc rq_nak rq_rej].
  reply_simpl. by rewrite Hrc.
Qed.

Lemma endswitch_ack rid t cip ho r st : rq_rc st = CONFACK →
  reqci_endswitch rid t cip (CONFACK, [], ho, r) st =
    MkReq CONFACK (rq_nak st) (rq_rej st) ho (r : R).
Proof.
  intros Hrc. unfold reqci_endswitch. cbn [rq_rc rq_nak rq_rej]. rewrite Hrc, app_nil_r.
  by reply_simpl.
Qed.

(** A Configure-Request for an MRU below our minimum is answered with an
    empty Nak: the hint is written over the request, not into the Nak. *)
Theorem lcp_reqci_mru_nak_empty (u : lcp R) v :
  neg_mru (allowoptions u) = true → 0 <= v < MINMRU → v < 65536 →
  lcp_reqci magic u ([CI_MRU; CILEN_SHORT] ++ PUTSHORT v) false =
    (CONFNAK, [], set_ho zero_options u).
Proof.
  intros Hn Hv Hv'. destruct (PUTSHORT_get v) as (a & b & -> & Ha & Hb & Hg); [lia|].
  unfold lcp_reqci.
  rewrite <- (app_nil_r ([CI_MRU; CILEN_SHORT] ++ [a; b])), <- app_assoc. cbn [app].
  rewrite (reqci_loop_option _ _ _ _ _ [a; b] []) by done. cbn [length reqci_loop].
  unfold reqci_option. rewrite Z.eqb_refl, Hn, Hg. cbn [negb orb].
  replace (v <? MINMRU) with true by (symmetry; apply Z.ltb_lt; lia). cbn [Z.eqb CILEN_SHORT Pos.eqb negb].
  rewrite endswitch_nak by apply reply_codes. cbn. reply_simpl. by destruct u.
Qed.

(** The request that asks [n] times for an unknown authentication protocol. *)
Definition auth_requests (proto : Z) (n : nat) : bytes :=
  concat (replicate n ([CI_AUTHTYPE; CILEN_SHORT] ++ PUTSHORT proto)).

Lemma zlen_concat_replicate (x : bytes) k : zlen (concat (replicate k x)) = zlen x * Z.of_nat k.
Proof.
  induction k as [|k IH]; [cbn; zlen; lia|]. cbn [replicate concat]. rewrite zlen_app, IH. lia.
Qed.

(** The loop on such a request. *)
Lemma reqci_loop_auth go ao a b k st : neg_chap ao = true →
  GETSHORT a b ≠ UPAP → GETSHORT a b ≠ CHAP →
  rq_rc st = CONFNAK ∨ rq_rc st = CONFACK ∧ (0 < k)%nat →
  let l := concat (replicate k [CI_AUTHTYPE; CILEN_SHORT; a; b]) in
  let st' := reqci_loop magic (length l) false go ao l st in
  rq_rc st' = CONFNAK ∧ rq_nak st' = rq_nak st ++ concat (replicate k (nak_chap ao)).
Proof.
  intros Hn Hu Hc. pose proof ci_neq as ((?&?&_) & (?&_) & _). revert st.
  induction k as [|k IH]; intros st Hst.
  { cbn. rewrite app_nil_r. destruct Hst as [?|[_ ?]]; [done|lia]. }
  cbn [replicate concat app]. cbv zeta. set (rest := concat (replicate k [CI_AUTHTYPE; CILEN_SHORT; a; b])) in *.
  rewrite (reqci_loop_option _ _ _ _ _ [a; b] rest) by done.
  assert (reqci_option magic go ao (rq_ho st) CI_AUTHTYPE CILEN_SHORT [a; b] (rq_rng st) =
    (CONFNAK, nak_chap ao, rq_ho st, rq_rng st)) as ->.
  { unfold reqci_option, reqci_auth. rewrite !ci_eqb, Z.eqb_refl by done.
    by rewrite Hn, orb_true_r, !ci_eqb by done. }
  pose proof reply_codes as (? & ? & ?).
  rewrite endswitch_nak by (destruct Hst as [?|[? _]]; congruence).
  edestruct (IH (MkReq CONFNAK (rq_nak st ++ nak_chap ao) (rq_rej st) (rq_ho st) (rq_rng st)))
    as [-> ->]; [by left|]. cbn [rq_nak]. by rewrite <- app_assoc.
Qed.

(** [n] options of four bytes for an unknown authentication protocol are
    answered with [n] hints of five bytes: the Nak grows beyond the request,
    and so beyond the buffer of the size of a packet that holds it. *)
Theorem lcp_reqci_nak_grows (u : lcp R) proto n :
  neg_chap (allowoptions u) = true → 0 <= proto < 65536 → proto ≠ UPAP → proto ≠ CHAP →
  (0 < n)%nat →
  (lcp_reqci magic u (auth_requests proto n) false).1 =
    (CONFNAK, concat (replicate n (nak_chap (allowoptions u)))) ∧
  zlen (auth_requests proto n) = 4 * Z.of_nat n ∧
  zlen (concat (replicate n (nak_chap (allowoptions u)))) = 5 * Z.of_nat n.
Proof.
  intros Hn Hv Hu Hc Hpos. unfold auth_requests.
  rewrite !zlen_concat_replicate. unfold nak_chap at 2.
  rewrite !zlen_app, !PUTSHORT_len by (done || apply protos_range).
  split; [|split; done].
  destruct (PUTSHORT_get proto Hv) as (a & b & -> & Ha & Hb & Hg). unfold lcp_reqci.
  destruct (reqci_loop_auth (gotoptions u) (allowoptions u) a b n
    (MkReq CONFACK [] [] zero_options (rng u))) as [E1 E2];
    [done|congruence..|by right|]. cbn [app] in *.
  remember (reqci_loop _ _ _ _ _ _ _) as st. cbn [fst]. rewrite E1, E2. cbn. by reply_simpl.
Qed.

(** *** An acceptable request *)

(** The peer's request [po] is within what we allow, and its magic number is
    not ours. *)
Definition acceptable (go ao po : lcp_options) : Prop :=
  (neg_mru po → neg_mru ao ∧ MINMRU <= mru po) ∧
  (neg_asyncmap po → neg_asyncmap ao ∧ Z.ldiff (asyncmap ao) (asyncmap po) = 0) ∧
  (neg_chap po → neg_chap ao ∧ u8 (chap_mdtype ao) = chap_mdtype po) ∧
  (negb (neg_chap po) && neg_upap po → neg_upap ao) ∧
  (neg_lqr po → neg_lqr ao) ∧
  (neg_magicnumber po → neg_magicnumber ao || neg_magicnumber go ∧
     (neg_magicnumber go && (magicnumber po =? magicnumber go)) = false) ∧
  (neg_pcompression po → neg_pcompression ao) ∧
  (neg_accompression po → neg_accompression ao).

(** What [lcp_reqci] records of an accepted request. *)
Definition his_options (po : lcp_options) : lcp_options :=
  MkOpts false false false
    (neg_mru po) (if neg_mru po then mru po else 0)
    (neg_asyncmap po) (if neg_asyncmap po then asyncmap po else 0)
    (negb (neg_chap po) && neg_upap po)
    (neg_chap po) (if neg_chap po then chap_mdtype po else 0)
    (neg_magicnumber po) (if neg_magicnumber po then magicnumber po else 0) 0
    (neg_pcompression po) (neg_accompression po) false 0.

(** [enc] is one option, and it is accepted. *)
Definition acked (go ao : lcp_options) (enc : bytes) (ho ho' : lcp_options) (r : R) : Prop :=
  ∃ t c body, enc = t :: c :: body ∧ c = 2 + zlen body ∧
    reqci_option magic go ao ho t c body r = (CONFACK, [], ho', r).

Lemma reqci_loop_ack rid go ao (enc : bool → bytes) f rest ho r (b : bool) :
  (b → acked go ao (enc true) ho (f ho) r) → enc false = [] →
  reqci_loop magic (length (enc b ++ rest)) rid go ao (enc b ++ rest) (MkReq CONFACK [] [] ho r) =
  reqci_loop magic (length rest) rid go ao rest
    (MkReq CONFACK [] [] (if b then f ho else ho) r).
Proof.
  intros Ht Hf. destruct b; [|by rewrite Hf].
  destruct (Ht I) as (t & c & body & -> & Hc & E). cbn [app].
  rewrite (reqci_loop_option _ _ _ _ _ body rest) by done. cbn [rq_ho rq_rng].
  by rewrite E, endswitch_ack.
Qed.

(** Chooses the branch of an option number. *)
Ltac on_option :=
  unfold reqci_option; rewrite ?Z.eqb_refl, ?ci_eqb by (pose proof ci_neq; tauto).

Lemma acked_mru go ao v ho r : neg_mru ao → MINMRU <= v → 0 <= v < 65536 →
  acked go ao (addci_short CI_MRU true v) ho (set_mru v (set_neg_mru true ho)) r.
Proof.
  intros Hn Hm Hv. destruct (PUTSHORT_get v Hv) as (a & b & E & _ & _ & Hg).
  exists CI_MRU, CILEN_SHORT, [a; b]. split_and!; [|done|].
  - unfold addci_short. rewrite E, u8_id by apply ci_is_byte. done.
  - on_option. apply Z.ltb_ge in Hm. rewrite Hg, Hm. by destruct (neg_mru ao).
Qed.

Lemma acked_asyncmap go ao v ho r : neg_asyncmap ao → Z.ldiff (asyncmap ao) v = 0 →
  0 <= v < 4294967296 →
  acked go ao (addci_long CI_ASYNCMAP true v) ho (set_asyncmap v (set_neg_asyncmap true ho)) r.
Proof.
  intros Hn Hm Hv. destruct (PUTLONG_get v Hv) as (a & b & c & d & E & _ & _ & _ & _ & Hg).
  exists CI_ASYNCMAP, CILEN_LONG, [a; b; c; d]. split_and!; [|done|].
  - unfold addci_long. rewrite E, u8_id by apply ci_is_byte. done.
  - on_option. rewrite Hg, Hm. by destruct (neg_asyncmap ao).
Qed.

Lemma acked_chap go ao g ho r : neg_chap ao → u8 (chap_mdtype ao) = g → neg_upap ho = false →
  acked go ao (addci_chap CI_AUTHTYPE true CHAP g) ho (set_neg_chap true (set_chap_mdtype g ho)) r.
Proof.
  intros Hn Hm Hu. destruct (PUTSHORT_get CHAP) as (a & b & E & _ & _ & Hg); [apply protos_range|].
  exists CI_AUTHTYPE, CILEN_CHAP, [a; b; g]. split_and!; [|done|].
  - unfold addci_chap. rewrite E, !u8_id by (apply ci_is_byte || rewrite <- Hm; apply u8_range).
    done.
  - on_option. unfold reqci_auth. rewrite Hg, Z.eqb_refl, ci_eqb, Hu by apply CHAP_UPAP. cbn.
    rewrite Hm, Z.eqb_refl. by destruct (neg_chap ao), (neg_upap ao).
Qed.

Lemma acked_upap go ao ho r : neg_upap ao → neg_chap ho = false →
  acked go ao (addci_short CI_AUTHTYPE true UPAP) ho (set_neg_upap true ho) r.
Proof.
  intros Hn Hu. destruct (PUTSHORT_get UPAP) as (a & b & E & _ & _ & Hg); [apply protos_range|].
  exists CI_AUTHTYPE, CILEN_SHORT, [a; b]. split_and!; [|done|].
  - unfold addci_short. rewrite E, u8_id by apply ci_is_byte. done.
  - on_option. unfold reqci_auth. rewrite Hg, Z.eqb_refl, Hu. cbn.
    by destruct (neg_chap ao), (neg_upap ao).
Qed.

Lemma acked_lqr go ao v ho r : neg_lqr ao → 0 <= v < 4294967296 →
  acked go ao (addci_lqr CI_QUALITY true v) ho ho r.
Proof.
  intros Hn Hv. destruct (PUTSHORT_get LQR) as (a & b & E & _ & _ & Hg); [apply protos_range|].
  destruct (PUTLONG_get v Hv) as (x & y & z & w & E' & _ & _ & _ & _ & _).
  exists CI_QUALITY, CILEN_LQR, [a; b; x; y; z; w]. split_and!; [|done|].
  - unfold addci_lqr. rewrite E, E', u8_id by apply ci_is_byte. done.
  - on_option. rewrite Hg, Z.eqb_refl. by destruct (neg_lqr ao).
Qed.

Lemma acked_magic go ao v ho r : neg_magicnumber ao || neg_magicnumber go →
  neg_magicnumber go && (v =? magicnumber go) = false → 0 <= v < 4294967296 →
  acked go ao (addci_long CI_MAGICNUMBER true v) ho
    (set_magicnumber v (set_neg_magicnumber true ho)) r.
Proof.
  intros Hn Hm Hv. destruct (PUTLONG_get v Hv) as (a & b & c & d & E & _ & _ & _ & _ & Hg).
  exists CI_MAGICNUMBER, CILEN_LONG, [a; b; c; d]. split_and!; [|done|].
  - unfold addci_long. rewrite E, u8_id by apply ci_is_byte. done.
  - on_option. rewrite Hg, Hm. by destruct (_ || _).
Qed.

Lemma acked_pcompression go ao ho r : neg_pcompression ao →
  acked go ao (addci_void CI_PCOMPRESSION true) ho (set_neg_pcompression true ho) r.
Proof.
  intros Hn. exists CI_PCOMPRESSION, CILEN_VOID, []. split_and!; [|done|].
  - unfold addci_void. rewrite u8_id by apply ci_is_byte. done.
  - on_option. by destruct (neg_pcompression ao).
Qed.

Lemma acked_accompression go ao ho r : neg_accompression ao →
  acked go ao (addci_void CI_ACCOMPRESSION true) ho (set_neg_accompression true ho) r.
Proof.
  intros Hn. exists CI_ACCOMPRESSION, CILEN_VOID, []. split_and!; [|done|].
  - unfold addci_void. rewrite u8_id by apply ci_is_byte. done.
  - on_option. by destruct (neg_accompression ao).
Qed.

Lemma reqci_addci rid go ao po r : opts_wf po → acceptable go ao po →
  reqci_loop magic (length (lcp_addci po)) rid go ao (lcp_addci po)
    (MkReq CONFACK [] [] zero_options r) = MkReq CONFACK [] [] (his_options po) r.
Proof.
  intros (Wm & Wa & Wc & Wg & Wl) (Am & Aa & Ac & Au & Al & Ag & Ap & Acc). unfold lcp_addci.
  rewrite (reqci_loop_ack rid go ao (λ b, addci_short CI_MRU b (mru po))
    (λ ho, set_mru (mru po) (set_neg_mru true ho)) _ _ _ (neg_mru po));
    [|intros [? ?]%Am; by apply acked_mru|done].
  rewrite (reqci_loop_ack rid go ao (λ b, addci_long CI_ASYNCMAP b (asyncmap po))
    (λ ho, set_asyncmap (asyncmap po) (set_neg_asyncmap true ho)) _ _ _ (neg_asyncmap po));
    [|intros [? ?]%Aa; by apply acked_asyncmap|done].
  rewrite (reqci_loop_ack rid go ao (λ b, addci_chap CI_AUTHTYPE b CHAP (chap_mdtype po))
    (λ ho, set_neg_chap true (set_chap_mdtype (chap_mdtype po) ho)) _ _ _ (neg_chap po));
    [|intros [? ?]%Ac; apply acked_chap; [done..|by destruct (neg_mru po), (neg_asyncmap po)]|done].
  rewrite (reqci_loop_ack rid go ao (λ b, addci_short CI_AUTHTYPE b UPAP)
    (λ ho, set_neg_upap true ho) _ _ _ (negb (neg_chap po) && neg_upap po));
    [|intros Hu; apply acked_upap; [by apply Au|];
      by destruct (neg_chap po), (neg_mru po), (neg_asyncmap po)|done].
  rewrite (reqci_loop_ack rid go ao (λ b, addci_lqr CI_QUALITY b (lqr_period po))
    (λ ho, ho) _ _ _ (neg_lqr po)); [|intros ?%Al; by apply acked_lqr|done].
  rewrite (reqci_loop_ack rid go ao (λ b, addci_long CI_MAGICNUMBER b (magicnumber po))
    (λ ho, set_magicnumber (magicnumber po) (set_neg_magicnumber true ho)) _ _ _
    (neg_magicnumber po)); [|intros [? ?]%Ag; by apply acked_magic|done].
  rewrite (reqci_loop_ack rid go ao (addci_void CI_PCOMPRESSION)
    (set_neg_pcompression true) _ _ _ (neg_pcompression po));
    [|intros ?%Ap; by apply acked_pcompression|done].
  rewrite <- (app_nil_r (addci_void CI_ACCOMPRESSION _)).
  rewrite (reqci_loop_ack rid go ao (addci_void CI_ACCOMPRESSION)
    (set_neg_accompression true) _ _ _ (neg_accompression po));
    [|intros ?%Acc; by apply acked_accompression|done].
  cbn [length reqci_loop]. f_equal. unfold his_options.
  destruct (neg_mru po), (neg_asyncmap po), (neg_chap po), (neg_upap po), (neg_lqr po),
    (neg_magicnumber po), (neg_pcompression po), (neg_accompression po); reflexivity.
Qed.

(** C20: Between two ends that run this code, a Configure-Request within the
    limits of the receiver is acknowledged as it is, the receiver records
    exactly the requested options, and the sender accepts the Ack. *)
Theorem lcp_handshake (u : lcp R) po rid : opts_wf po →
  acceptable (gotoptions u) (allowoptions u) po →
  let '(rc, out, u') := lcp_reqci magic u (lcp_addci po) rid in
  rc = CONFACK ∧ lcp_ackci po out = true ∧
  u' = set_ho (his_options po) u.
Proof.
  intros Hpo Hacc. unfold lcp_reqci. rewrite reqci_addci by done.
  cbn [rq_rc rq_nak rq_rej rq_ho rq_rng]. rewrite Z.eqb_refl. split_and!; [done| |by destruct u].
  unfold lcp_ackci. rewrite (proj2 (ackci_all_spec po Hpo _ [] (lcp_addci_bytes po Hpo))); [done|].
  by rewrite app_nil_r.
Qed.
End Facts.

(** ** The values of RFC 1661 and RFC 1334 *)

#[export] Instance rfc_lcp_defs : LcpDefs := {|
  CI_MRU := 1; CI_ASYNCMAP := 2; CI_AUTHTYPE := 3; CI_QUALITY := 4;
  CI_MAGICNUMBER := 5; CI_PCOMPRESSION := 7; CI_ACCOMPRESSION := 8;
  CHAP := 49699; UPAP := 49187; LQR := 49189; CHAP_DIGEST_MD5 := 5;
  MINMRU := 128; DEFMRU := 1500; MAXMRU := 16384; MTU := 1500
|}.

#[export] Instance rfc_lcp_defs_laws : LcpDefsLaws.
Proof.
  split; cbn.
  - compute_done.
  - repeat apply Forall_cons_2; done.
  - done.
  - lia.
Qed.

(** A generator of magic numbers. *)
Definition lcg (r : Z) : Z * Z := (u32 r, u32 (1664525 * r + 1013904223)).

Lemma lcg_range r : 0 <= (lcg r).1 < 4294967296.
Proof. apply u32_range. Qed.

(** A unit after [lcp_init] and [lcp_resetci]. *)
Definition sample_lcp : lcp Z :=
  lcp_resetci lcg (lcp_init (MkLcp zero_options zero_options zero_options zero_options 1500 7)).

(** The request of a peer that asks for an MRU, CHAP and a magic number. *)
Definition sample_peer : lcp_options :=
  MkOpts false false false true 1400 false 0 false true 5 true 99 0 true true false 0.

Lemma opts_wf_sample : opts_wf sample_peer.
Proof. split_and!; cbn; unfold is_byte; lia. Qed.

(** A unit that asks its peer for authentication. *)
Definition auth_lcp : lcp Z := set_go sample_peer sample_lcp.

Lemma lcp_ackci_exact_witness :
  lcp_ackci sample_peer (lcp_addci sample_peer) =
    bool_decide (lcp_addci sample_peer = lcp_addci sample_peer) ∧
  zlen (lcp_addci sample_peer) = lcp_cilen sample_peer.
Proof.
  apply (lcp_ackci_exact sample_peer (lcp_addci sample_peer)).
  - exact opts_wf_sample.
  - exact (lcp_addci_bytes sample_peer opts_wf_sample).
Defined.

(** The Nak of an MRU and of CHAP. *)
Lemma lcp_nakci_returns_witness :
  ∃ ok u', lcp_nakci lcg 20 REQSENT auth_lcp [1; 4; 4; 0; 3; 5; 194; 35; 5] = Some (ok, u') ∧
    (wantoptions u', hisoptions u', allowoptions u', peer_mru u') =
      (wantoptions auth_lcp, hisoptions auth_lcp, allowoptions auth_lcp, peer_mru auth_lcp) ∧
    (ok = false ∨ REQSENT = OPENED → gotoptions u' = gotoptions auth_lcp) ∧
    nak_le (wantoptions auth_lcp) (gotoptions auth_lcp) (gotoptions u').
Proof.
  apply (lcp_nakci_returns lcg 20 REQSENT auth_lcp [1; 4; 4; 0; 3; 5; 194; 35; 5]).
  - reflexivity.
  - cbn. lia.
Defined.

Lemma lcp_nakci_loops_witness :
  lcp_nakci lcg 1000 REQSENT sample_lcp [CI_AUTHTYPE; 0; 0] = None.
Proof. apply (lcp_nakci_loops lcg 1000 REQSENT sample_lcp); reflexivity. Defined.

Lemma lcp_rejci_exact_witness :
  (∃ m, sub_options m (gotoptions auth_lcp) ∧ [3; 5; 194; 35; 5; 7; 2] = lcp_addci m ∧
     lcp_rejci REQSENT auth_lcp [3; 5; 194; 35; 5; 7; 2] =
       (true, if decide (REQSENT = OPENED) then auth_lcp
              else set_go (minus_options (gotoptions auth_lcp) m) auth_lcp)) ∨
  ((∀ m, sub_options m (gotoptions auth_lcp) → [3; 5; 194; 35; 5; 7; 2] ≠ lcp_addci m) ∧
   lcp_rejci REQSENT auth_lcp [3; 5; 194; 35; 5; 7; 2] = (false, auth_lcp)).
Proof.
  apply (lcp_rejci_exact REQSENT auth_lcp [3; 5; 194; 35; 5; 7; 2]).
  - exact opts_wf_sample.
  - repeat apply Forall_cons_2; try apply Forall_nil_2; unfold is_byte; lia.
Defined.

Lemma opts_wf_allowed : opts_wf (allowoptions sample_lcp).
Proof. split_and!; cbn; unfold is_byte; lia. Qed.

(** A request with a good MRU, an unknown option and a short tail. *)
Lemma lcp_reqci_reply_witness :
  let '(rc, out, u') := lcp_reqci lcg sample_lcp [1; 4; 2; 0; 9; 3; 0; 4] false in
  (wantoptions u', gotoptions u', allowoptions u', peer_mru u') =
    (wantoptions sample_lcp, gotoptions sample_lcp, allowoptions sample_lcp,
     peer_mru sample_lcp) ∧
  (rc = CONFACK ∧ out = [1; 4; 2; 0; 9; 3; 0; 4] ∨
   rc = CONFNAK ∧ 4 * zlen out <= 5 * zlen [1; 4; 2; 0; 9; 3; 0; 4] ∧
     (false → ∃ ms, ms ≠ [] ∧ out = concat (map nak_magic ms)) ∨
   rc = CONFREJ ∧ ∃ opts rejected, [1; 4; 2; 0; 9; 3; 0; 4] = concat opts ∧
     rejected `sublist_of` opts ∧ rejected ≠ [] ∧ out = concat rejected).
Proof.
  apply (lcp_reqci_reply lcg sample_lcp [1; 4; 2; 0; 9; 3; 0; 4] false).
  - exact opts_wf_allowed.
  - exact lcg_range.
  - reflexivity.
Defined.

Lemma lcp_handshake_witness :
  let '(rc, out, u') := lcp_reqci lcg sample_lcp (lcp_addci sample_peer) false in
  rc = CONFACK ∧ lcp_ackci sample_peer out = true ∧
  u' = set_ho (his_options sample_peer) sample_lcp.
Proof.
  apply (lcp_handshake lcg sample_lcp sample_peer false).
  - exact opts_wf_sample.
  - split_and!; intros; cbn; try done; try lia.
Defined.

Lemma lcp_reqci_mru_nak_empty_witness :
  lcp_reqci lcg sample_lcp ([CI_MRU; CILEN_SHORT] ++ PUTSHORT 64) false =
    (CONFNAK, [], set_ho zero_options sample_lcp).
Proof. apply (lcp_reqci_mru_nak_empty lcg sample_lcp 64); cbn; [done|lia|lia]. Defined.

(** 300 options: 1200 bytes, which fit a packet, and a Nak of 1500. *)
Lemma lcp_reqci_nak_grows_witness :
  (lcp_reqci lcg sample_lcp (auth_requests 1 300) false).1 =
    (CONFNAK, concat (replicate 300 (nak_chap (allowoptions sample_lcp)))) ∧
  zlen (auth_requests 1 300) = 4 * Z.of_nat 300 ∧
  zlen (concat (replicate 300 (nak_chap (allowoptions sample_lcp)))) = 5 * Z.of_nat 300.
Proof. apply (lcp_reqci_nak_grows lcg sample_lcp 1 300); cbn; first [done|lia]. Defined.
