(* ===== verification/IpFrag.v ===== *)
(** * IP fragmentation and reassembly ([ip_output.c], [ip_input.c])

    The part of [ip_output] from the label [sendit] on, which sends a datagram
    or cuts it into fragments; the part of [ipintr] that handles a fragment,
    with [ipReAssemble], [ip_freef], [ip_slowtimo] and [ip_drain]; and
    [ip_optcopy].  A packet is its header fields, its options and the data
    after the header.  Fields are kept in host order; [ipf_mff], which
    overlays the low bit of the type of service, is a field of its own. *)
From Stdlib Require Import ZArith Lia Bool Sorting.Permutation.
From stdpp Require Import base tactics list sorting relations numbers option.
From S2P Require Import Prelude.

Local Open Scope Z_scope.

(** ** What comes from [netinet/ip.h] *)

(** [ip_int] is the value of the field [ip_off] when it is promoted to [int]:
    the declared type of the field, [short] or [u_short], is not in the
    sources.  Up to [OFF_MAX] the two agree with the stored bits. *)
Class IpDefs := {
  IP_DF : Z; IP_MF : Z;
  IPOPT_EOL : Z; IPOPT_NOP : Z; IPOPT_COPIED : Z → bool;
  sizeof_ip : Z;
  ip_int : Z → Z;
  OFF_MAX : Z
}.

Class IpDefsLaws `{IpDefs} := {
  IP_DF_eq : IP_DF = 16384;
  IP_MF_eq : IP_MF = 8192;
  sizeof_ip_eq : sizeof_ip = 20;
  OFF_MAX_range : 32768 <= OFF_MAX <= 65536;
  ip_int_id : ∀ x, 0 <= x < OFF_MAX → ip_int x = x
}.

Record iphdr := MkIp {
  ip_hl : Z;
  ip_tos : Z;
  ipf_mff : bool;
  ip_len : Z;
  ip_id : Z;
  ip_off : Z;
  ip_ttl : Z;
  ip_p : Z;
  ip_sum : Z;
  ip_src : Z;
  ip_dst : Z;
  ip_opts : bytes
}.

Definition set_hl (v : Z) (opts : bytes) (h : iphdr) : iphdr :=
  MkIp v (ip_tos h) (ipf_mff h) (ip_len h) (ip_id h) (ip_off h) (ip_ttl h) (ip_p h) (ip_sum h)
    (ip_src h) (ip_dst h) opts.
Definition set_mff (v : bool) (h : iphdr) : iphdr :=
  MkIp (ip_hl h) (ip_tos h) v (ip_len h) (ip_id h) (ip_off h) (ip_ttl h) (ip_p h) (ip_sum h)
    (ip_src h) (ip_dst h) (ip_opts h).
Definition set_len (v : Z) (h : iphdr) : iphdr :=
  MkIp (ip_hl h) (ip_tos h) (ipf_mff h) v (ip_id h) (ip_off h) (ip_ttl h) (ip_p h) (ip_sum h)
    (ip_src h) (ip_dst h) (ip_opts h).
Definition set_off (v : Z) (h : iphdr) : iphdr :=
  MkIp (ip_hl h) (ip_tos h) (ipf_mff h) (ip_len h) (ip_id h) v (ip_ttl h) (ip_p h) (ip_sum h)
    (ip_src h) (ip_dst h) (ip_opts h).
Definition set_sum (v : Z) (h : iphdr) : iphdr :=
  MkIp (ip_hl h) (ip_tos h) (ipf_mff h) (ip_len h) (ip_id h) (ip_off h) (ip_ttl h) (ip_p h) v
    (ip_src h) (ip_dst h) (ip_opts h).

Record pkt := MkPkt { hdr : iphdr; data : bytes }.

(** The counters of [ipstat] that this code updates. *)
Record ipstat := MkStat {
  ips_fragments : Z; ips_reassembled : Z; ips_fragdropped : Z; ips_fragtimeout : Z;
  ips_ofragments : Z; ips_odropped : Z; ips_cantfrag : Z; ips_fragmented : Z
}.

Definition no_stat : ipstat := MkStat 0 0 0 0 0 0 0 0.

Section IpFrag.
Context `{IpDefs}.

(** ** [ip_optcopy] *)

(** The loop over the options.  [cp] is the memory from the current option
    on, [cnt] what is left of the options, [dp] what has been copied.
    [None]: the loop has not ended within the fuel. *)
Fixpoint optcopy_loop (fuel : nat) (cp : bytes) (cnt : Z) (dp : bytes) : option bytes :=
  match fuel with
  | O => None
  | S fuel =>
      if cnt <=? 0 then Some dp
      else
        let opt := nth 0 cp 0 in
        if opt =? IPOPT_EOL then Some dp
        else if opt =? IPOPT_NOP then
          optcopy_loop fuel (zdrop 1 cp) (cnt - 1) (dp ++ [IPOPT_NOP])
        else
          let optlen := nth 1 cp 0 in
          let optlen := if cnt <? optlen then cnt else optlen in
          let dp := if IPOPT_COPIED opt then dp ++ ztake optlen cp else dp in
          optcopy_loop fuel (zdrop optlen cp) (cnt - optlen) dp
  end.

(** [for (...; optlen & 0x3; optlen++) *dp++ = IPOPT_EOL]. *)
Definition pad4 (dp : bytes) : bytes :=
  dp ++ replicate (Z.to_nat ((- zlen dp) mod 4)) IPOPT_EOL.

(** The copied options; their length is the result of the C function. *)
Definition ip_optcopy (fuel : nat) (h : iphdr) (rest : bytes) : option bytes :=
  pad4 <$> optcopy_loop fuel (ip_opts h ++ rest) (4 * ip_hl h - sizeof_ip) [].

(** ** Output *)

(** The interface and what the code around [sendit] gives: the state of the
    driver with its output routine and its result, the checksum of a header
    ([in_cksum(m, hlen)]) and whether [IP_DO_CHECKSUM_SND] is set. *)
Section Output.
Context {D : Type}.
Variable if_output : pkt → D → Z * D.
Variable in_cksum : iphdr → Z.
Variable do_cksum : bool.
Variables EMSGSIZE ENOBUFS : Z.

(** [ip->ip_sum = 0; if (_ipCfgFlags & IP_DO_CHECKSUM_SND) ...]. *)
Definition fill_sum (h : iphdr) : iphdr :=
  let h := set_sum 0 h in if do_cksum then set_sum (in_cksum h) h else h.

(** The body of the loop: the fragment that carries the bytes of [m0] from
    [off] on, and the length it carries. *)
Definition make_fragment (hlen : Z) (m0 : pkt) (opts : option bytes) (off len : Z) : pkt * Z :=
  let ip := hdr m0 in
  let '(mhip, mhlen) :=
    match opts with
    | Some o => (set_hl ((zlen o + sizeof_ip) / 4) o ip, zlen o + sizeof_ip)
    | None => (ip, sizeof_ip)
    end in
  let mhip := set_off (u16 (Z.shiftr (off - hlen) 3 + Z.ldiff (ip_off ip) IP_MF)) mhip in
  let mhip := if negb (Z.land (ip_off ip) IP_MF =? 0)
              then set_off (Z.lor (ip_off mhip) IP_MF) mhip else mhip in
  let '(len, mhip) :=
    if ip_len ip <=? off + len then (ip_len ip - off, mhip)
    else (len, set_off (Z.lor (ip_off mhip) IP_MF) mhip) in
  let mhip := set_len (u16 (len + mhlen)) mhip in
  (MkPkt (fill_sum mhip) (ztake len (zdrop (off - hlen) (data m0))), len).

(** [for (off = hlen + len; off < ip->ip_len; off += len)].  [budget] is the
    number of fragments there are buffers for.  [None]: not ended within the
    fuel; [Some (built, failed)]. *)
Fixpoint fragment_loop (fuel budget : nat) (hlen : Z) (m0 : pkt) (opts : option bytes)
    (off len : Z) : option (list pkt * bool) :=
  match fuel with
  | O => None
  | S fuel =>
      if ip_len (hdr m0) <=? off then Some ([], false)
      else
        match budget with
        | O => Some ([], true)
        | S budget =>
            let '(f, len) := make_fragment hlen m0 opts off len in
            '(fs, failed) ← fragment_loop fuel budget hlen m0 opts (off + len) len;
            Some (f :: fs, failed)
        end
  end.

(** "Update first fragment by trimming what's been copied out". *)
Definition first_fragment (hlen firstlen : Z) (m0 : pkt) : pkt :=
  let h := set_len (u16 (hlen + firstlen)) (hdr m0) in
  let h := set_off (u16 (Z.lor (ip_off h) IP_MF)) h in
  MkPkt (fill_sum h) (ztake firstlen (data m0)).

(** [sendorfree]: after an error the rest is freed. *)
Fixpoint send_or_free (error : Z) (fs : list pkt) (s : D) : Z * D :=
  match fs with
  | [] => (error, s)
  | f :: fs =>
      if error =? 0 then let '(e, s) := if_output f s in send_or_free e fs s
      else send_or_free error fs s
  end.

Definition add_output (n : Z) (failed : bool) (error : Z) (st : ipstat) : ipstat :=
  MkStat (ips_fragments st) (ips_reassembled st) (ips_fragdropped st) (ips_fragtimeout st)
    (ips_ofragments st + n) (ips_odropped st + if failed then 1 else 0) (ips_cantfrag st)
    (ips_fragmented st + if error =? 0 then 1 else 0).

Definition add_cantfrag (st : ipstat) : ipstat :=
  MkStat (ips_fragments st) (ips_reassembled st) (ips_fragdropped st) (ips_fragtimeout st)
    (ips_ofragments st) (ips_odropped st) (ips_cantfrag st + 1) (ips_fragmented st).

(** The options of the later fragments, when the header has options. *)
Definition fragment_opts (fuel : nat) (hlen : Z) (m0 : pkt) : option (option bytes) :=
  if sizeof_ip <? hlen then Some <$> ip_optcopy fuel (hdr m0) (data m0) else Some None.

(** From [sendit]: [mtu] is [ifp->if_mtu]. *)
Definition ip_sendit (fuel budget : nat) (mtu hlen : Z) (m0 : pkt) (s : D) (st : ipstat)
  : option (Z * D * ipstat) :=
  let ip := hdr m0 in
  if ip_len ip <=? mtu then
    let '(error, s) := if_output (MkPkt (fill_sum ip) (data m0)) s in Some (error, s, st)
  else if negb (Z.land (ip_off ip) IP_DF =? 0) then Some (EMSGSIZE, s, add_cantfrag st)
  else
    let len := Z.ldiff (mtu - hlen) 7 in
    if len <? 8 then Some (EMSGSIZE, s, st)
    else
      opts ← fragment_opts fuel hlen m0;
      '(fs, failed) ← fragment_loop fuel budget hlen m0 opts (hlen + len) len;
      let n := zlen fs in
      let '(error, s) :=
        if failed : bool then send_or_free ENOBUFS (m0 :: fs) s
        else send_or_free 0 (first_fragment hlen len m0 :: fs) s in
      Some (error, s, add_output n failed error st).
End Output.

(** ** Reassembly *)

(** A reassembly queue: the datagram it is for, its time to live, and the
    fragments chained by [m_nextpkt]. *)
Record ipq := MkIpq {
  ipq_ttl : Z;
  ipq_p : Z;
  ipq_id : Z;
  ipq_src : Z;
  ipq_dst : Z;
  pMbufPkt : list pkt
}.

(** [ip_len -= len; m_adj(m, -len)]. *)
Definition trim (len : Z) (f : pkt) : pkt :=
  MkPkt (set_len (ip_len (hdr f) - len) (hdr f)) (ztake (zlen (data f) - len) (data f)).

(** "if complete overlap". *)
Fixpoint drop_covered (f : pkt) (q : list pkt) : list pkt :=
  match q with
  | [] => []
  | g :: q' =>
      if u16 (ip_off (hdr g)) + ip_len (hdr g) <=? u16 (ip_off (hdr f)) + ip_len (hdr f)
      then drop_covered f q' else q
  end.

(** "if partial overlap trim my data at the end", and the insertion. *)
Definition insert_here (f : pkt) (q : list pkt) : list pkt :=
  match drop_covered f q with
  | [] => [f]
  | g :: q' =>
      let len := u16 (ip_off (hdr f)) + ip_len (hdr f) - ip_int (ip_off (hdr g)) in
      if 0 <? len then trim len f :: g :: q' else f :: g :: q'
  end.

(** The loop over the queue; the flag tells that the fragment is dropped. *)
Fixpoint reass_insert (f : pkt) (q : list pkt) : bool * list pkt :=
  match q with
  | [] => (false, [])
  | g :: q' =>
      if u16 (ip_off (hdr g)) <? u16 (ip_off (hdr f)) then
        let len := u16 (ip_off (hdr g)) + ip_len (hdr g) - u16 (ip_off (hdr f)) in
        if (0 <? len) && (ip_len (hdr f) <=? len) then (true, q)
        else
          let g := if 0 <? len then trim len g else g in
          match q' with
          | [] => (false, [g; f])
          | _ => let '(dropped, q') := reass_insert f q' in (dropped, g :: q')
          end
      else (false, insert_here f q)
  end.

(** [ipChkReAssembly]: the length if the queue is the whole datagram. *)
Fixpoint contiguous (len : Z) (q : list pkt) : option Z :=
  match q with
  | [] => Some len
  | g :: q' =>
      if u16 (ip_off (hdr g)) =? len then contiguous (len + ip_len (hdr g)) q' else None
  end.

Definition last_mff (q : list pkt) : bool :=
  match list.last q with Some f => ipf_mff (hdr f) | None => true end.

(** "reassemble and concatenate all fragments". *)
Definition reass_done (q : list pkt) : option pkt :=
  len ← contiguous 0 q;
  if last_mff q then None
  else
    f ← head q;
    Some (MkPkt (set_mff false (set_len (u16 len) (hdr f))) (concat (map data q))).

(** The test of [ipintr] for the queue of a fragment. *)
Definition same_datagram (h : iphdr) (fp : ipq) : bool :=
  (ip_id h =? ipq_id fp) && (ip_src h =? ipq_src fp) && (ip_dst h =? ipq_dst fp) &&
  (ip_p h =? ipq_p fp).

(** The list [ipq] split at the queue found. *)
Fixpoint find_queue (h : iphdr) (qs : list ipq) : option (list ipq * ipq * list ipq) :=
  match qs with
  | [] => None
  | fp :: qs =>
      if same_datagram h fp then Some ([], fp, qs)
      else
        '(before, found, after) ← find_queue h qs;
        Some (fp :: before, found, after)
  end.

Definition set_frags (q : list pkt) (fp : ipq) : ipq :=
  MkIpq (ipq_ttl fp) (ipq_p fp) (ipq_id fp) (ipq_src fp) (ipq_dst fp) q.

Record ip_state := MkIpState { ipqs : list ipq; stat : ipstat }.

Definition add_frag (frags reass dropped timeouts : Z) (st : ipstat) : ipstat :=
  MkStat (ips_fragments st + frags) (ips_reassembled st + reass) (ips_fragdropped st + dropped)
    (ips_fragtimeout st + timeouts) (ips_ofragments st) (ips_odropped st) (ips_cantfrag st)
    (ips_fragmented st).

(** [ipReAssemble]; [alloc] tells whether a buffer for a new queue is got. *)
Definition ipReAssemble (ipfragttl : Z) (alloc : bool) (m : pkt)
    (fp : option (list ipq * ipq * list ipq)) (s : ip_state) : option pkt * ip_state :=
  match fp with
  | None =>
      if alloc then
        let h := hdr m in
        let new := MkIpq ipfragttl (ip_p h) (ip_id h) (ip_src h) (ip_dst h) [m] in
        match reass_done [m] with
        | Some p => (Some p, s)
        | None => (None, MkIpState (new :: ipqs s) (stat s))
        end
      else (None, MkIpState (ipqs s) (add_frag 0 0 1 0 (stat s)))
  | Some (before, fp, after) =>
      let '(dropped, q) := reass_insert m (pMbufPkt fp) in
      if dropped then
        (None, MkIpState (before ++ set_frags q fp :: after) (add_frag 0 0 1 0 (stat s)))
      else
        match reass_done q with
        | Some p => (Some p, MkIpState (before ++ after) (stat s))
        | None => (None, MkIpState (before ++ set_frags q fp :: after) (stat s))
        end
  end.

(** [ipintr] from the label [ours] up to the protocol switch: the datagram to
    deliver, if any. *)
Definition ipintr_ours (ipfragttl : Z) (alloc : bool) (m : pkt) (s : ip_state)
  : option pkt * ip_state :=
  let h := hdr m in
  let hlen := 4 * ip_hl h in
  if negb (Z.ldiff (ip_off h) IP_DF =? 0) then
    let fp := find_queue h (ipqs s) in
    let mf := negb (Z.land (ip_off h) IP_MF =? 0) in
    let h := set_off (u16 (8 * ip_off h)) (set_mff mf (set_len (ip_len h - hlen) h)) in
    let m := MkPkt h (data m) in
    if ipf_mff h || negb (ip_off h =? 0) then
      let s := MkIpState (ipqs s) (add_frag 1 0 0 0 (stat s)) in
      let '(r, s) := ipReAssemble ipfragttl alloc m fp s in
      match r with
      | Some p => (Some p, MkIpState (ipqs s) (add_frag 0 1 0 0 (stat s)))
      | None => (None, s)
      end
    else
      (Some m,
       match fp with
       | Some (before, _, after) => MkIpState (before ++ after) (stat s)
       | None => s
       end)
  else (Some (MkPkt (set_len (ip_len h - hlen) h) (data m)), s).

(** ** Timer and drain *)

(** [ip_slowtimo]: the timers are decremented one by one; an expired queue is
    freed. *)
Fixpoint slowtimo_loop (qs : list ipq) (st : ipstat) : list ipq * ipstat :=
  match qs with
  | [] => ([], st)
  | fp :: qs =>
      let fp := MkIpq (ipq_ttl fp - 1) (ipq_p fp) (ipq_id fp) (ipq_src fp) (ipq_dst fp)
                  (pMbufPkt fp) in
      if ipq_ttl fp =? 0 then slowtimo_loop qs (add_frag 0 0 0 1 st)
      else let '(qs, st) := slowtimo_loop qs st in (fp :: qs, st)
  end.

Definition ip_slowtimo (s : ip_state) : ip_state :=
  let '(qs, st) := slowtimo_loop (ipqs s) (stat s) in MkIpState qs st.

(** [ip_drain]. *)
Fixpoint drain_loop (qs : list ipq) (st : ipstat) : list ipq * ipstat :=
  match qs with
  | [] => ([], st)
  | _ :: qs => drain_loop qs (add_frag 0 0 1 0 st)
  end.

Definition ip_drain (s : ip_state) : ip_state :=
  let '(qs, st) := drain_loop (ipqs s) (stat s) in MkIpState qs st.

End IpFrag.

(** ** Reassembly, with respect to a datagram *)

Section Reassembly.
Context `{IpDefsLaws}.

Abbreviation off f := (ip_off (hdr f)).
Abbreviation len f := (ip_len (hdr f)).
Definition fend (f : pkt) : Z := ip_off (hdr f) + ip_len (hdr f).

(** [f] carries a piece of the payload [d], and says so. *)
Record piece (d : bytes) (f : pkt) : Prop := MkPiece {
  piece_off : 0 <= off f < zlen d;
  piece_len : 0 <= len f;
  piece_end : fend f <= zlen d;
  piece_data : data f = ztake (len f) (zdrop (off f) d);
  piece_mff : ipf_mff (hdr f) = negb (fend f =? zlen d)
}.

(** The order of the pieces in a queue. *)
Definition before (f g : pkt) : Prop := fend f <= off g.

(** A queue of pieces of [d]. *)
Definition queue_of (d : bytes) (q : list pkt) : Prop :=
  Forall (piece d) q ∧ StronglySorted before q.

(** Byte [n] of the payload has arrived. *)
Definition covers (q : list pkt) (n : Z) : Prop := Exists (λ f, off f <= n < fend f) q.

Lemma covers_cons f q n : covers (f :: q) n ↔ off f <= n < fend f ∨ covers q n.
Proof. apply Exists_cons. Qed.

Lemma covers_nil n : covers [] n ↔ False.
Proof. apply Exists_nil. Qed.

Lemma piece_u16 d f : zlen d <= OFF_MAX → piece d f → u16 (off f) = off f ∧ ip_int (off f) = off f.
Proof.
  intros Hd [? _ _ _ _]. pose proof OFF_MAX_range.
  split; [apply u16_id; lia|apply ip_int_id; lia].
Qed.

Lemma fend_trim n f : fend (trim n f) = fend f - n.
Proof. unfold fend, trim. cbn. lia. Qed.

(** A piece trimmed at its end is a piece, unless it is the last one. *)
Lemma piece_trim d n f : piece d f → fend f < zlen d → 0 < n <= len f → piece d (trim n f).
Proof.
  intros [Ho Hl He Hd Hm] Hlast Hn. unfold fend in *. split; unfold fend; cbn [trim hdr set_len
    ip_off ip_len ipf_mff data]; try lia.
  - rewrite Hd, zlen_ztake, zlen_zdrop, ztake_ztake. f_equal. lia.
  - rewrite Hm. destruct (Z.eqb_spec (off f + len f) (zlen d)),
      (Z.eqb_spec (off f + (len f - n)) (zlen d)); first [done|lia].
Qed.

Lemma queue_of_cons d f q :
  queue_of d (f :: q) ↔ piece d f ∧ Forall (before f) q ∧ queue_of d q.
Proof.
  unfold queue_of. rewrite Forall_cons_iff. split.
  - intros [[? ?] Hs]. apply StronglySorted_inv in Hs as [? ?]. done.
  - intros (? & ? & ? & ?). split; [done|]. by constructor.
Qed.

Lemma queue_of_nil d : queue_of d [].
Proof. split; constructor. Qed.

(** The pieces in [q] start at [k] or later. *)
Definition starts_from (k : Z) (q : list pkt) : Prop := Forall (λ g, k <= off g) q.

Lemma before_starts f q : Forall (before f) q ↔ starts_from (fend f) q.
Proof. done. Qed.

Lemma starts_from_weaken k k' q : k <= k' → starts_from k' q → starts_from k q.
Proof. intros ?. apply List.Forall_impl. lia. Qed.

Lemma queue_starts d f q : queue_of d (f :: q) → starts_from (off f) (f :: q).
Proof.
  intros (Hf & Hb & _)%queue_of_cons. constructor; [lia|].
  apply (starts_from_weaken _ (fend f)); [|done]. destruct Hf. unfold fend. lia.
Qed.

Section Insert.
Variable d : bytes.
Hypothesis d_max : zlen d <= OFF_MAX.

Lemma drop_covered_spec f q : piece d f → queue_of d q → starts_from (off f) q →
  let q' := drop_covered f q in
  queue_of d q' ∧ starts_from (off f) q' ∧
  (∀ n, (off f <= n < fend f ∨ covers q' n) ↔ (off f <= n < fend f ∨ covers q n)) ∧
  (∀ g q'', q' = g :: q'' → fend f < fend g).
Proof.
  intros Hf. destruct (piece_u16 d f d_max Hf) as [Ef _].
  induction q as [|g q IH]; intros Hq Hs; cbn [drop_covered]; [by split_and!|].
  pose proof Hq as (Hg & Hb & Hq')%queue_of_cons.
  apply Forall_cons_1 in Hs as [Hoff Hs]. destruct (piece_u16 d g d_max Hg) as [Eg _].
  rewrite Eg, Ef. destruct (Z.leb_spec (off g + len g) (off f + len f)) as [Hle|Hgt].
  - destruct (IH Hq' Hs) as (? & ? & Hc & ?). split_and!; [done..| |done].
    intros n. rewrite Hc, covers_cons.
    assert (off g <= n < fend g → off f <= n < fend f) by (unfold fend in *; lia). tauto.
  - split_and!; [done|by constructor|done|]. intros ? ? [= <- _]. unfold fend. lia.
Qed.

Lemma insert_here_spec f q : piece d f → queue_of d q → starts_from (off f) q →
  queue_of d (insert_here f q) ∧
  (∀ n, covers (insert_here f q) n ↔ covers q n ∨ off f <= n < fend f) ∧
  starts_from (off f) (insert_here f q) ∧ insert_here f q ≠ [].
Proof.
  intros Hf Hq Hs. destruct (piece_u16 d f d_max Hf) as [Ef _].
  destruct (drop_covered_spec f q Hf Hq Hs) as (Hq' & Hs' & Hc & Hlast). unfold insert_here.
  destruct (drop_covered f q) as [|g q'].
  - split_and!; [by apply queue_of_cons; split_and!; [..|constructor|apply queue_of_nil]| |
      by constructor; [lia|]|done].
    intros n. specialize (Hc n). rewrite covers_cons, covers_nil in *. tauto.
  - specialize (Hlast _ _ eq_refl). pose proof Hq' as (Hg & Hb & Hq'')%queue_of_cons.
    apply Forall_cons_1 in Hs' as [Hog Hs'].
    destruct (piece_u16 d g d_max Hg) as [_ Eg]. rewrite Ef, Eg.
    pose proof (piece_end d g Hg) as Heg. pose proof (piece_len d f Hf).
    pose proof (piece_len d g Hg).
    assert (∀ f', piece d f' → off f' = off f → fend f' <= off g →
      (∀ n, off f <= n < fend f → off f' <= n < fend f' ∨ off g <= n < fend g) →
      fend f' <= fend f →
      queue_of d (f' :: g :: q') ∧
      (∀ n, covers (f' :: g :: q') n ↔ covers q n ∨ off f <= n < fend f) ∧
      starts_from (off f) (f' :: g :: q') ∧ f' :: g :: q' ≠ []) as Hgen.
    { intros f' Hf' Eo He Hn He'. split_and!; [|intros n|by repeat constructor; [lia|lia|]|done].
      - apply queue_of_cons. split_and!; [done| |done]. constructor; [done|].
        apply (starts_from_weaken _ (fend g)); [unfold fend in *; lia|done].
      - specialize (Hc n). specialize (Hn n). rewrite !covers_cons in *. rewrite Eo.
        assert (off f <= n < fend f' → off f <= n < fend f) by lia. rewrite Eo in Hn. tauto. }
    fold (fend f). destruct (Z.ltb_spec 0 (fend f - off g)) as [Hlt|Hge].
    + apply Hgen; rewrite ?fend_trim; cbn [trim hdr set_len ip_off]; try lia.
      apply piece_trim; [done|lia|]. unfold fend in *. lia.
    + apply Hgen; try done; lia.
Qed.

(** The loop: the queue stays a queue of pieces, and covers what it did and
    what the new piece carries, dropped or not. *)
Lemma reass_insert_spec f q : piece d f → 0 < len f → queue_of d q → q ≠ [] →
  let q' := (reass_insert f q).2 in
  queue_of d q' ∧ (∀ n, covers q' n ↔ covers q n ∨ off f <= n < fend f) ∧
  (∀ k, k <= off f → starts_from k q → starts_from k q') ∧ q' ≠ [].
Proof.
  intros Hf Hpos. destruct (piece_u16 d f d_max Hf) as [Ef _].
  induction q as [|g q IH]; intros Hq Hne; [done|]. cbn [reass_insert].
  pose proof (queue_starts _ _ _ Hq) as Hst.
  pose proof Hq as (Hg & Hb & Hq')%queue_of_cons.
  destruct (piece_u16 d g d_max Hg) as [Eg _]. rewrite Eg, Ef.
  destruct (Z.ltb_spec (off g) (off f)) as [Hlt|Hge].
  2: { cbn [snd]. destruct (insert_here_spec f (g :: q)) as (? & ? & ? & ?); [done..| |].
       - by apply (starts_from_weaken _ (off g)).
       - split_and!; try done. intros k Hk _. by apply (starts_from_weaken _ (off f)). }
  fold (fend g). pose proof (piece_end d f Hf). pose proof (piece_end d g Hg).
  destruct (_ && _) eqn:E.
  { cbn [snd]. apply andb_prop in E as [?%Z.ltb_lt ?%Z.leb_le]. split_and!; try done.
    intros n. rewrite covers_cons.
    assert (off f <= n < fend f → off g <= n < fend g) by (unfold fend in *; lia). tauto. }
  apply andb_false_iff in E.
  set (g' := if 0 <? fend g - off f then trim (fend g - off f) g else g).
  assert (piece d g' ∧ off g' = off g ∧ fend g' <= off f ∧ fend g' <= fend g ∧
    (∀ n, (off g <= n < fend g ∨ off f <= n < fend f) ↔
          (off g <= n < fend g' ∨ off f <= n < fend f))) as (Hg' & Eo & He & He' & Hn).
  { subst g'. destruct (Z.ltb_spec 0 (fend g - off f)) as [Hov|Hno].
    - rewrite fend_trim. cbn [trim hdr set_len ip_off].
      destruct E as [E|E%Z.leb_gt]; [lia|]. split_and!; [|lia..|intros n; unfold fend in *; lia].
      apply piece_trim; [done| |]; unfold fend in *; lia.
    - split_and!; done || lia. }
  assert (∀ q', queue_of d q' → starts_from (fend g') q' →
    (∀ n, covers q' n ↔ covers q n ∨ off f <= n < fend f) →
    (∀ k, k <= off f → starts_from k q → starts_from k q') →
    queue_of d (g' :: q') ∧
    (∀ n, covers (g' :: q') n ↔ covers (g :: q) n ∨ off f <= n < fend f) ∧
    (∀ k, k <= off f → starts_from k (g :: q) → starts_from k (g' :: q')) ∧ g' :: q' ≠ []) as Hgen.
  { intros q' Hq1 Hq2 Hq3 Hq4. split_and!; [by apply queue_of_cons|intros n| |done].
    - specialize (Hq3 n). specialize (Hn n). rewrite !covers_cons, Hq3, Eo. tauto.
    - intros k Hk [? ?]%Forall_cons_1. constructor; [lia|]. by apply Hq4. }
  destruct q as [|g2 q].
  - cbn [snd]. apply Hgen.
    + apply queue_of_cons. split_and!; [done|constructor|apply queue_of_nil].
    + by repeat constructor.
    + intros n. rewrite covers_cons, covers_nil. tauto.
    + intros k Hk _. by repeat constructor.
  - destruct IH as (Hi1 & Hi2 & Hi3 & Hi4); [done..|].
    destruct (reass_insert f (g2 :: q)) as [dropped q'] eqn:Er. cbn [snd] in *.
    apply Hgen; try done. apply Hi3; [done|]. by apply (starts_from_weaken _ (fend g)).
Qed.
(** A queue that covers the rest of the payload is contiguous, ends with the
    last fragment, and carries the rest. *)
Lemma contiguous_complete k q : queue_of d q → starts_from k q → 0 <= k <= zlen d →
  (∀ n, k <= n < zlen d → covers q n) →
  contiguous k q = Some (zlen d) ∧ concat (map data q) = zdrop k d ∧
  (k < zlen d → last_mff q = false).
Proof.
  revert k. induction q as [|g q IH]; intros k Hq Hs Hk Hc; cbn [contiguous map concat].
  { destruct (decide (k < zlen d)) as [Hlt|]; [by destruct (proj1 (covers_nil k) (Hc k ltac:(lia)))|].
    assert (k = zlen d) as -> by lia. split_and!; [done| |lia]. by rewrite zdrop_all by lia. }
  pose proof Hq as (Hg & Hb & Hq')%queue_of_cons. apply Forall_cons_1 in Hs as [Hkg _].
  destruct (piece_u16 d g d_max Hg) as [-> _].
  pose proof Hg as [Ho Hl He Hd Hm].
  assert (∀ n, covers q n → fend g <= n) as Hqn.
  { intros n (f & Hf & Hn)%Exists_exists. unfold starts_from, before in *.
    pose proof (proj1 (Forall_forall _ _) Hb f Hf). cbn in *. lia. }
  assert (off g = k) as Eo.
  { destruct (proj1 (covers_cons g q k) (Hc k ltac:(lia))) as [?|?%Hqn]; unfold fend in *; lia. }
  rewrite Eo, Z.eqb_refl. replace (k + len g) with (fend g) by (unfold fend; lia).
  destruct (IH (fend g)) as (E1 & E2 & E3); [done..|unfold fend in *; lia| |].
  { intros n Hn. destruct (proj1 (covers_cons g q n) (Hc n ltac:(unfold fend in *; lia))); [lia|done]. }
  split_and!; [done| |].
  - rewrite E2, Hd, Eo. unfold fend. rewrite Eo, Z.add_comm, <- zdrop_zdrop by lia.
    apply ztake_zdrop.
  - intros _. destruct q as [|g2 q].
    + cbn in *. simplify_eq. by rewrite Hm, E1, Z.eqb_refl.
    + apply E3. pose proof Hq' as ([? _ _ _ _] & _)%queue_of_cons.
      apply Forall_cons_1 in Hb as [? _]. unfold before in *. lia.
Qed.

(** A contiguous queue covers what it says, and ends there. *)
Lemma contiguous_covers k l q : queue_of d q → contiguous k q = Some l →
  (∀ n, k <= n < l → covers q n) ∧
  (∀ f, list.last q = Some f → fend f = l).
Proof.
  revert k. induction q as [|g q IH]; intros k Hq; cbn [contiguous].
  { intros [= ->]. split; [lia|done]. }
  apply queue_of_cons in Hq as (Hg & _ & Hq').
  destruct (piece_u16 d g d_max Hg) as [-> _].
  destruct (Z.eqb_spec (off g) k) as [<-|]; [|done].
  replace (off g + len g) with (fend g) by done. intros E.
  destruct (IH _ Hq' E) as [Hc Hlast]. split.
  - intros n Hn. apply covers_cons. destruct (decide (n < fend g)); [left; lia|].
    right. apply Hc. lia.
  - intros f. destruct q as [|g2 q]; [|apply Hlast]. intros [= <-]. by injection E.
Qed.

Lemma queue_pieces q f : queue_of d q → f ∈ q → piece d f.
Proof. intros [Hq _] Hf. by apply (proj1 (list.Forall_forall _ _) Hq). Qed.

(** The check succeeds exactly when every byte has arrived, and then yields
    the payload. *)
Lemma reass_done_spec q : queue_of d q → 0 < zlen d → zlen d < 65536 →
  match reass_done q with
  | Some p => (∀ n, 0 <= n < zlen d → covers q n) ∧
      ∃ f q', q = f :: q' ∧ ip_off (hdr f) = 0 ∧
        p = MkPkt (set_mff false (set_len (zlen d) (hdr f))) d
  | None => ¬ ∀ n, 0 <= n < zlen d → covers q n
  end.
Proof.
  intros Hq Hpos Hmax. unfold reass_done.
  assert (starts_from 0 q) as Hs.
  { apply list.Forall_forall. intros f Hf. cbn. destruct (queue_pieces q f Hq Hf). lia. }
  destruct (contiguous 0 q) as [l|] eqn:E; cbn [mbind option_bind].
  2: { intros Hc. by destruct (contiguous_complete 0 q Hq Hs ltac:(lia) Hc) as (? & _); simplify_eq. }
  destruct (contiguous_covers 0 l q Hq E) as [Hc Hlast].
  destruct (last_mff q) eqn:Em.
  { intros Hall. destruct (contiguous_complete 0 q Hq Hs ltac:(lia) Hall) as (_ & _ & Hl).
    by rewrite Hl in Em. }
  unfold last_mff in Em. destruct (list.last q) as [g|] eqn:El; [|done].
  assert (piece d g) as Hg.
  { apply (queue_pieces q); [done|]. by apply last_Some_elem_of. }
  assert (l = zlen d) as ->.
  { rewrite <- (Hlast g eq_refl). apply Z.eqb_eq. by rewrite (piece_mff d g Hg), negb_false_iff in Em. }
  destruct (contiguous_complete 0 q Hq Hs ltac:(lia) Hc) as (_ & Hcat & _).
  destruct q as [|f q']; [done|]. cbn [list.head mbind option_bind]. split; [done|].
  exists f, q'.
  rewrite Hcat, zdrop_neg, u16_id by lia. split_and!; [done| |done].
  cbn in E. apply queue_of_cons in Hq as (Hf & _).
  destruct (piece_u16 d f d_max Hf) as [Eu _]. rewrite Eu in E.
  by destruct (Z.eqb_spec (ip_off (hdr f)) 0).
Qed.
End Insert.

(** ** The list of queues *)

(** What identifies a datagram. *)
Definition key : Type := Z * Z * Z * Z.
Definition hdr_key (h : iphdr) : key := (ip_id h, ip_src h, ip_dst h, ip_p h).
Definition ipq_key (fp : ipq) : key := (ipq_id fp, ipq_src fp, ipq_dst fp, ipq_p fp).

Lemma same_datagram_key h fp : same_datagram h fp = bool_decide (hdr_key h = ipq_key fp).
Proof.
  unfold same_datagram, hdr_key, ipq_key. apply eq_true_iff_eq.
  rewrite bool_decide_eq_true, !andb_true_iff, !Z.eqb_eq. split.
  - intros [[[-> ->] ->] ->]. done.
  - by intros [= -> -> -> ->].
Qed.

(** The fragments that are queued for a datagram. *)
Fixpoint queue_at (k : key) (qs : list ipq) : option (list pkt) :=
  match qs with
  | [] => None
  | fp :: qs => if decide (k = ipq_key fp) then Some (pMbufPkt fp) else queue_at k qs
  end.

(** Every datagram has at most one queue, which is not empty and has time to
    live. *)
Record ipqs_wf (qs : list ipq) : Prop := MkWf {
  wf_keys : NoDup (map ipq_key qs);
  wf_frags : Forall (λ fp, pMbufPkt fp ≠ []) qs;
  wf_ttl : Forall (λ fp, 0 < ipq_ttl fp) qs
}.

Lemma queue_at_None k qs : queue_at k qs = None ↔ (k ∉ map ipq_key qs).
Proof.
  induction qs as [|fp qs IH]; cbn; [split; [intros _; apply not_elem_of_nil|done]|].
  rewrite not_elem_of_cons. destruct (decide _) as [->|]; [split; [done|intros [? _]; done]|]. rewrite IH. tauto.
Qed.

Lemma queue_at_app k qs rs :
  queue_at k (qs ++ rs) = match queue_at k qs with Some q => Some q | None => queue_at k rs end.
Proof. induction qs as [|fp qs IH]; cbn; [done|]. by destruct (decide _). Qed.

(** [find_queue] splits the list at the queue. *)
Lemma find_queue_Some h qs b fp a : find_queue h qs = Some (b, fp, a) →
  qs = b ++ fp :: a ∧ ipq_key fp = hdr_key h ∧ (hdr_key h ∉ map ipq_key b).
Proof.
  revert b. induction qs as [|g qs IH]; intros b; [done|]. cbn [find_queue].
  rewrite same_datagram_key. case_bool_decide as Hk.
  { intros [= <- -> ->]. split_and!; [done..|]. by apply not_elem_of_nil. }
  destruct (find_queue h qs) as [[[b' fp'] a']|] eqn:E; cbn; [|done]. intros [= <- -> ->].
  destruct (IH _ eq_refl) as (-> & ? & ?). split_and!; [done..|]. by apply not_elem_of_cons.
Qed.

Lemma find_queue_None h qs : find_queue h qs = None ↔ queue_at (hdr_key h) qs = None.
Proof.
  induction qs as [|g qs IH]; [done|]. cbn [find_queue queue_at].
  rewrite same_datagram_key. case_bool_decide; [rewrite decide_True by done; split; discriminate|].
  rewrite decide_False by done. rewrite <- IH.
  destruct (find_queue h qs) as [[[? ?] ?]|]; cbn; split; done.
Qed.

(** Splitting a well-formed list. *)
Lemma ipqs_wf_split b fp a : ipqs_wf (b ++ fp :: a) →
  ipqs_wf (b ++ a) ∧ (ipq_key fp ∉ map ipq_key b) ∧ (ipq_key fp ∉ map ipq_key a) ∧
  pMbufPkt fp ≠ [] ∧ 0 < ipq_ttl fp ∧
  (∀ fp', ipq_key fp' = ipq_key fp → pMbufPkt fp' ≠ [] → 0 < ipq_ttl fp' →
     ipqs_wf (b ++ fp' :: a)).
Proof.
  intros [Hk Hf Ht]. rewrite map_app in Hk. cbn [map] in Hk.
  apply list.NoDup_app in Hk as (Hb & Hd & Ha). apply list.NoDup_cons in Ha as [Hna Ha].
  apply Forall_app in Hf as [Hfb Hfa], Ht as [Htb Hta].
  apply Forall_cons_1 in Hfa as [? Hfa], Hta as [? Hta].
  assert (∀ k, k ∈ map ipq_key b → (k ∉ map ipq_key a) ∧ k ≠ ipq_key fp) as Hd'.
  { intros k Hk. specialize (Hd k Hk). by apply not_elem_of_cons in Hd as [? ?]. }
  split_and!; [| |done..|].
  - split; [|by apply Forall_app_2..]. rewrite map_app. apply list.NoDup_app. split_and!; [done| |done].
    intros k ?. by apply Hd'.
  - intros Hin. by apply Hd' in Hin as [_ ?].
  - intros fp' Ek Hp Hl. split.
    + rewrite map_app. cbn [map]. rewrite Ek. apply list.NoDup_app. split_and!; [done| |by apply list.NoDup_cons].
      intros k Hk. apply not_elem_of_cons. by apply Hd' in Hk as [? ?].
    + apply Forall_app_2; [done|]. by constructor.
    + apply Forall_app_2; [done|]. by constructor.
Qed.

(** The queue that was found is the one of the datagram; without it, or with
    another in its place, the other datagrams keep theirs. *)
Lemma queue_at_split k b fp a : ipqs_wf (b ++ fp :: a) →
  queue_at k (b ++ fp :: a) =
    (if decide (k = ipq_key fp) then Some (pMbufPkt fp) else queue_at k (b ++ a)) ∧
  (k = ipq_key fp → queue_at k (b ++ a) = None).
Proof.
  intros (_ & Hb & Ha & _)%ipqs_wf_split. rewrite !queue_at_app. cbn [queue_at].
  destruct (decide (k = ipq_key fp)) as [->|].
  - by rewrite (proj2 (queue_at_None _ b) Hb), (proj2 (queue_at_None _ a) Ha).
  - split; [done|]. by destruct (queue_at k b).
Qed.

(** ** The steps of [ipintr] *)

(** The header of a fragment after the adjustments of [ipintr]. *)
Definition host_frag (m : pkt) : pkt :=
  let h := hdr m in
  MkPkt (set_off (u16 (8 * ip_off h))
    (set_mff (negb (Z.land (ip_off h) IP_MF =? 0)) (set_len (ip_len h - 4 * ip_hl h) h)))
    (data m).

(** A fragment: more fragments follow, or it is not the first. *)
Definition is_frag (m : pkt) : Prop :=
  ipf_mff (hdr (host_frag m)) = true ∨ ip_off (hdr (host_frag m)) ≠ 0.

Lemma is_frag_off m : is_frag m → Z.ldiff (ip_off (hdr m)) IP_DF ≠ 0.
Proof.
  intros Hf E. assert (∀ i, 0 <= i → i ≠ 14 → Z.testbit (ip_off (hdr m)) i = false) as Hbit.
  { intros i Hi Hne. assert (Z.testbit (Z.ldiff (ip_off (hdr m)) IP_DF) i = false) as Hb
      by (rewrite E; apply Z.testbit_0_l).
    rewrite Z.ldiff_spec, IP_DF_eq in Hb. change 16384 with (2 ^ 14) in Hb.
    rewrite Z.pow2_bits_false in Hb by lia. by rewrite andb_true_r in Hb. }
  destruct Hf as [Hf|Hf]; cbn in Hf.
  - apply negb_true_iff, Z.eqb_neq in Hf. apply Hf, Z.bits_inj'. intros i Hi.
    rewrite Z.land_spec, IP_MF_eq, Z.testbit_0_l. change 8192 with (2 ^ 13).
    destruct (decide (i = 13)) as [->|].
    + by rewrite Hbit.
    + by rewrite Z.pow2_bits_false, andb_false_r by lia.
  - apply Hf, Z.bits_inj'. intros i Hi. rewrite Z.testbit_0_l. unfold u16.
    change 65536 with (2 ^ 16). change 8 with (2 ^ 3).
    destruct (decide (i < 16)).
    + rewrite Z.mod_pow2_bits_low, Z.mul_comm, Z.mul_pow2_bits by lia.
      destruct (decide (i < 3)); [apply Z.testbit_neg_r; lia|]. apply Hbit; lia.
    + apply Z.mod_pow2_bits_high. lia.
Qed.

(** What a packet of the datagram [k] does to the queue of [k]: the datagram
    that is delivered, and the new queue. *)
Definition key_step (q : option (list pkt)) (f : pkt) : option pkt * option (list pkt) :=
  let '(dropped, q') :=
    match q with Some q => reass_insert f q | None => (false, [f]) end in
  if dropped then (None, Some q')
  else match reass_done q' with Some p => (Some p, None) | None => (None, Some q') end.

Lemma reass_insert_nonempty f q : q ≠ [] → (reass_insert f q).2 ≠ [].
Proof.
  induction q as [|g q IH]; [done|]. intros _. cbn [reass_insert].
  destruct (_ <? _); [|unfold insert_here; by repeat case_match].
  destruct (_ && _); [done|]. destruct q as [|g' q]; [done|].
  by destruct (reass_insert f (g' :: q)).
Qed.

(** A fragment updates the queue of its datagram as [key_step] says and leaves
    the queues of the others alone. *)
Lemma ipintr_frag ttl m s : 0 < ttl → ipqs_wf (ipqs s) → is_frag m →
  let k := hdr_key (hdr m) in
  let '(r, s') := ipintr_ours ttl true m s in
  let '(r', q') := key_step (queue_at k (ipqs s)) (host_frag m) in
  r = r' ∧ ipqs_wf (ipqs s') ∧ queue_at k (ipqs s') = q' ∧
  (∀ k', k' ≠ k → queue_at k' (ipqs s') = queue_at k' (ipqs s)).
Proof.
  intros Httl Hwf Hf k. unfold ipintr_ours. pose proof (is_frag_off m Hf) as Hoff.
  apply Z.eqb_neq in Hoff. rewrite Hoff. cbn [negb]. fold (host_frag m).
  replace (ipf_mff _ || _) with true.
  2: { symmetry. destruct Hf as [Hf|Hf].
    - cbn in Hf. cbn. by rewrite Hf.
    - apply orb_true_iff. right. apply negb_true_iff, Z.eqb_neq. exact Hf. }
  change (MkPkt _ (data m)) with (host_frag m).
  destruct (find_queue (hdr m) (ipqs s)) as [[[b fp] a]|] eqn:Efind.
  - apply find_queue_Some in Efind as (E & Ek & _). rewrite E in *.
    destruct (ipqs_wf_split _ _ _ Hwf) as (Hba & _ & _ & Hne & Hpos & Hrep).
    pose proof (λ k', queue_at_split k' _ _ _ Hwf) as Hat.
    destruct (Hat k) as [-> Hnone]. rewrite decide_True by done.
    assert (∀ q, q ≠ [] → ipqs_wf (b ++ set_frags q fp :: a) ∧
      (∀ k', queue_at k' (b ++ set_frags q fp :: a) =
        if decide (k' = k) then Some q else queue_at k' (b ++ a))) as Hset.
    { intros q Hq. assert (ipqs_wf (b ++ set_frags q fp :: a)) as Hwf' by (by apply Hrep).
      split; [done|]. intros k'. destruct (queue_at_split k' _ _ _ Hwf') as [-> _].
      subst k. by rewrite <- Ek. }
    pose proof (reass_insert_nonempty (host_frag m) (pMbufPkt fp) Hne) as Hne'.
    unfold ipReAssemble, key_step. cbn [ipqs stat].
    destruct (reass_insert (host_frag m) (pMbufPkt fp)) as [[] q] eqn:Eins; cbn [snd] in Hne'.
    + destruct (Hset q Hne') as [? Hq]. split_and!; [done..| |].
      * by rewrite Hq, decide_True.
      * intros k' Hk'. cbn [ipqs]. rewrite Hq. destruct (Hat k') as [-> _].
        by rewrite !decide_False by (subst k; congruence).
    + destruct (reass_done q) as [p|]; cbn [ipqs stat].
      * split_and!; [done..|by apply Hnone|]. intros k' Hk'. destruct (Hat k') as [-> _].
        by rewrite decide_False by (subst k; congruence).
      * destruct (Hset q Hne') as [? Hq]. split_and!; [done..| |].
        -- by rewrite Hq, decide_True.
        -- intros k' Hk'. rewrite Hq. destruct (Hat k') as [-> _].
           by rewrite !decide_False by (subst k; congruence).
  - apply find_queue_None in Efind. fold k in Efind. rewrite Efind.
    unfold ipReAssemble, key_step. destruct (reass_done [host_frag m]) as [p|]; cbn [ipqs stat].
    { by split_and!. }
    destruct Hwf as [Hk Hq Ht]. split_and!; [done| |by cbn; rewrite decide_True|].
    + split; [|by constructor..]. cbn [map]. apply list.NoDup_cons. split; [|done].
      by apply queue_at_None.
    + intros k' Hk'. cbn. by rewrite decide_False.
Qed.

(** Any other packet is delivered at once; whatever happens to a packet, the
    queues of other datagrams stay. *)
Lemma ipintr_other ttl m s k : 0 < ttl → ipqs_wf (ipqs s) → hdr_key (hdr m) ≠ k →
  let '(r, s') := ipintr_ours ttl true m s in
  ipqs_wf (ipqs s') ∧ queue_at k (ipqs s') = queue_at k (ipqs s).
Proof.
  intros Httl Hwf Hk. destruct (decide (ipf_mff (hdr (host_frag m)) = true ∨
    ip_off (hdr (host_frag m)) ≠ 0)) as [Hf|Hf].
  { pose proof (ipintr_frag ttl m s Httl Hwf Hf) as Hs. cbv zeta in Hs.
    destruct (ipintr_ours ttl true m s) as [r s'], (key_step _ _) as [r' q'].
    destruct Hs as (_ & ? & _ & Ho). split; [done|]. by apply Ho. }
  unfold ipintr_ours. destruct (negb _); [|done]. fold (host_frag m).
  replace (ipf_mff _ || _) with false.
  2: { symmetry. apply orb_false_iff. split.
    - apply not_true_iff_false. intros E. apply Hf. by left.
    - apply negb_false_iff, Z.eqb_eq. apply dec_stable. intros E. apply Hf. by right. }
  destruct (find_queue (hdr m) (ipqs s)) as [[[b fp] a]|] eqn:Efind; [|done].
  apply find_queue_Some in Efind as (E & Ek & _). cbn [ipqs]. rewrite E in *.
  destruct (ipqs_wf_split _ _ _ Hwf) as (Hba & _). split; [done|].
  destruct (queue_at_split k _ _ _ Hwf) as [-> _]. by rewrite decide_False by congruence.
Qed.

(** *** A run of the input queue *)

(** [next: IF_DEQUEUE(&ipintrq, m) ...] *)
Fixpoint ipintr_run (ttl : Z) (ms : list pkt) (s : ip_state) : list (option pkt) * ip_state :=
  match ms with
  | [] => ([], s)
  | m :: ms =>
      let '(r, s) := ipintr_ours ttl true m s in
      let '(rs, s) := ipintr_run ttl ms s in (r :: rs, s)
  end.

(** The packets of one datagram, and what came of them. *)
Definition of_key (k : key) (ms : list pkt) : list pkt :=
  filter (λ m, hdr_key (hdr m) = k) ms.
Definition outputs_of (k : key) (ms : list pkt) (rs : list (option pkt)) : list (option pkt) :=
  map snd (filter (λ x, hdr_key (hdr x.1) = k) (zip ms rs)).

Fixpoint key_run (q : option (list pkt)) (fs : list pkt) : list (option pkt) * option (list pkt) :=
  match fs with
  | [] => ([], q)
  | f :: fs =>
      let '(r, q) := key_step q f in
      let '(rs, q) := key_run q fs in (r :: rs, q)
  end.

(** The datagrams do not disturb each other. *)
Lemma ipintr_run_key ttl k ms s : 0 < ttl → ipqs_wf (ipqs s) → Forall is_frag (of_key k ms) →
  let '(rs, s') := ipintr_run ttl ms s in
  let '(rs', q') := key_run (queue_at k (ipqs s)) (map host_frag (of_key k ms)) in
  outputs_of k ms rs = rs' ∧ queue_at k (ipqs s') = q' ∧ ipqs_wf (ipqs s').
Proof.
  intros Httl. revert s. induction ms as [|m ms IH]; intros s Hwf Hfs; [done|].
  cbn [ipintr_run]. unfold of_key in *. rewrite filter_cons in *.
  destruct (decide (hdr_key (hdr m) = k)) as [Hk|Hk].
  - apply Forall_cons_1 in Hfs as [Hf Hfs].
    pose proof (ipintr_frag ttl m s Httl Hwf Hf) as Hs. cbv zeta in Hs. rewrite Hk in Hs.
    destruct (ipintr_ours ttl true m s) as [r s1]. cbn [map key_run].
    destruct (key_step _ _) as [r' q1]. destruct Hs as (-> & Hwf1 & Hq1 & _).
    specialize (IH s1 Hwf1 Hfs). rewrite Hq1 in IH.
    destruct (ipintr_run ttl ms s1) as [rs s'], (key_run q1 _) as [rs' q'].
    destruct IH as (? & ? & ?). split_and!; [|done..].
    unfold outputs_of in *. cbn [zip zip_with]. rewrite filter_cons_True by done. cbn. by f_equal.
  - pose proof (ipintr_other ttl m s k Httl Hwf Hk) as Hs.
    destruct (ipintr_ours ttl true m s) as [r s1]. destruct Hs as [Hwf1 Hq1].
    specialize (IH s1 Hwf1 Hfs). rewrite Hq1 in IH.
    destruct (ipintr_run ttl ms s1) as [rs s'], (key_run _ _) as [rs' q'].
    destruct IH as (? & ? & ?). split_and!; [|done..].
    unfold outputs_of in *. cbn [zip zip_with]. by rewrite filter_cons_False.
Qed.

(** *** The queue of one datagram *)

Lemma reass_insert_Forall (P : pkt → Prop) f q : (∀ n g, P g → P (trim n g)) →
  P f → Forall P q → Forall P (reass_insert f q).2.
Proof.
  intros Ht Hf. induction q as [|g q IH]; intros Hq; [done|].
  cbn [reass_insert]. pose proof Hq as [Hg Hq']%Forall_cons_1. destruct (_ <? _).
  - destruct (_ && _); [done|].
    assert (P (if 0 <? u16 (off g) + len g - u16 (off f)
               then trim (u16 (off g) + len g - u16 (off f)) g else g))
      by (destruct (_ <? _); auto).
    destruct q as [|g' q]; [by repeat constructor|].
    specialize (IH Hq'). destruct (reass_insert f (g' :: q)). by constructor.
  - cbn [snd]. clear IH Hg Hq'. unfold insert_here.
    assert (Forall P (drop_covered f (g :: q))) as Hd.
    { revert Hq. generalize (g :: q). intros l. induction l as [|x l IH]; [done|].
      intros [Hx Hl]%Forall_cons_1. cbn. destruct (_ <=? _); [by apply IH|by constructor]. }
    destruct (drop_covered f (g :: q)); [by constructor|]. destruct (_ <? _); constructor; auto.
Qed.

(** The headers in a queue are those of fragments that have arrived, but for
    the length. *)
Definition heads_from (fs q : list pkt) : Prop :=
  Forall (λ g, ∃ f, f ∈ fs ∧ ∀ n, set_len n (hdr g) = set_len n (hdr f)) q.

Lemma heads_from_step fs q f : heads_from fs q →
  heads_from (fs ++ [f]) (reass_insert f q).2.
Proof.
  intros Hq. apply (reass_insert_Forall _ f q).
  - intros n g (f' & ? & E). exists f'. split; [done|]. intros n'. rewrite <- E. done.
  - exists f. split; [|done]. apply elem_of_app. right. by apply list_elem_of_singleton.
  - revert Hq. apply List.Forall_impl. intros g (f' & ? & ?). exists f'. split; [|done].
    apply elem_of_app. by left.
Qed.

(** A queue after the fragments [fs]. *)
Definition queue_after (d : bytes) (fs : list pkt) (q : option (list pkt)) : Prop :=
  match q with
  | None => fs = []
  | Some q => q ≠ [] ∧ queue_of d q ∧ heads_from fs q ∧ (∀ n, covers q n ↔ covers fs n)
  end.

Definition complete (d : bytes) (fs : list pkt) : Prop := ∀ n, 0 <= n < zlen d → covers fs n.

Section KeyRun.
Variable d : bytes.
Hypothesis d_max : zlen d <= OFF_MAX.
Hypothesis d_range : 0 < zlen d < 65536.

Definition good_frag (f : pkt) : Prop := piece d f ∧ 0 < len f.

(** A datagram assembled from [fs]. *)
Definition assembled (fs : list pkt) (p : pkt) : Prop :=
  data p = d ∧ ∃ f, f ∈ fs ∧ ip_off (hdr f) = 0 ∧
    hdr p = set_mff false (set_len (zlen d) (hdr f)).

Lemma covers_app fs gs n : covers (fs ++ gs) n ↔ covers fs n ∨ covers gs n.
Proof. apply Exists_app. Qed.

Lemma queue_after_insert fs q f : queue_after d fs q → good_frag f →
  let '(dropped, q') := match q with Some q => reass_insert f q | None => (false, [f]) end in
  queue_after d (fs ++ [f]) (Some q').
Proof.
  intros Hq [Hf Hlen]. destruct q as [q|].
  - destruct Hq as (Hne & Hq & Hh & Hc).
    destruct (reass_insert_spec d d_max f q Hf Hlen Hq Hne) as (H1' & H2' & _ & H4').
    pose proof (heads_from_step fs q f Hh) as Hh'.
    destruct (reass_insert f q) as [dr q']. cbn [snd] in *. split_and!; [done..|].
    intros n. rewrite H2', covers_app, Hc, covers_cons, covers_nil. tauto.
  - cbn in Hq. subst fs. split_and!; [done| | |done].
    + apply queue_of_cons. split_and!; [done|constructor|apply queue_of_nil].
    + constructor; [|constructor]. exists f. split; [by apply list_elem_of_singleton|done].
Qed.

(** A fragment that is dropped was covered. *)
Lemma reass_insert_dropped f q : queue_of d q → good_frag f →
  (reass_insert f q).1 = true → ∀ n, off f <= n < fend f → covers q n.
Proof.
  intros Hq [Hf _]. destruct (piece_u16 d f d_max Hf) as [Ef _].
  induction q as [|g q IH]; [done|]. cbn [reass_insert].
  apply queue_of_cons in Hq as (Hg & _ & Hq). destruct (piece_u16 d g d_max Hg) as [Eg _].
  rewrite Ef, Eg. destruct (Z.ltb_spec (off g) (off f)); [|done].
  destruct (_ && _) eqn:E.
  - intros _ n Hn. apply andb_prop in E as [_ E%Z.leb_le]. apply covers_cons. left.
    unfold fend in *. lia.
  - destruct q as [|g' q]; [done|]. intros Hd n Hn. apply covers_cons. right.
    apply IH; [done| |done]. by destruct (reass_insert f (g' :: q)).
Qed.

Lemma assembled_of fs q p : queue_after d fs (Some q) → Forall good_frag fs →
  reass_done q = Some p → complete d fs ∧ assembled fs p.
Proof.
  intros (Hne & Hq & Hh & Hc) Hfs E. destruct d_range as [Hpos Hmax].
  pose proof (reass_done_spec d d_max q Hq Hpos Hmax) as Hd. rewrite E in Hd.
  destruct Hd as (Hall & f & q' & -> & Hz & ->). split; [intros n Hn; by apply Hc, Hall|].
  apply Forall_cons_1 in Hh as [(g & Hg & Eg) _]. split; [done|]. exists g. cbn [hdr].
  split_and!; [done| |by rewrite Eg].
  specialize (Eg 0). apply (f_equal ip_off) in Eg. cbn in Eg. by rewrite <- Eg.
Qed.

Lemma key_step_spec fs q f : queue_after d fs q → good_frag f → Forall good_frag fs →
  ¬ complete d fs →
  let '(r, q') := key_step q f in
  (complete d (fs ++ [f]) → ∃ p, r = Some p ∧ q' = None ∧ assembled (fs ++ [f]) p) ∧
  (¬ complete d (fs ++ [f]) → r = None ∧ queue_after d (fs ++ [f]) q').
Proof.
  intros Hq Hf Hfs Hinc. pose proof (queue_after_insert fs q f Hq Hf) as Hins.
  assert (Forall good_frag (fs ++ [f])) as Hfs' by (by apply Forall_app_2; [|constructor]).
  assert ((match q with Some q => reass_insert f q | None => (false, [f]) end).1 = true →
    ¬ complete d (fs ++ [f])) as Hdrop.
  { destruct q as [q|]; [|done]. intros Hd Hall. apply Hinc. intros n Hn.
    destruct Hq as (_ & Hq & _ & Hc). specialize (Hall n Hn). apply covers_app in Hall as [?|Hfn]; [done|].
    apply covers_cons in Hfn as [Hfn|?%covers_nil]; [|done].
    apply Hc. by apply (reass_insert_dropped f q Hq Hf Hd). }
  unfold key_step. destruct (match q with Some q => _ | None => _ end) as [dropped q'].
  cbn [fst] in Hdrop. destruct dropped.
  { split; [intros ?; by destruct Hdrop|done]. }
  destruct (reass_done q') as [p|] eqn:E.
  - destruct (assembled_of _ _ _ Hins Hfs' E) as [Hall Hp]. split; [by eauto|done].
  - split; [|done]. intros Hall. destruct d_range as [Hpos Hmax].
    destruct Hins as (_ & Hqo & _ & Hc).
    pose proof (reass_done_spec d d_max q' Hqo Hpos Hmax) as Hn. rewrite E in Hn.
    destruct Hn. intros n ?. by apply Hc, Hall.
Qed.

(** The fragments of a datagram, in any order, with duplicates and overlaps:
    nothing is delivered before the payload is complete, and then the whole
    payload is. *)
Lemma key_run_spec gs : ∀ fs q f, queue_after d fs q → Forall good_frag (fs ++ gs ++ [f]) →
  ¬ complete d (fs ++ gs) → complete d (fs ++ gs ++ [f]) →
  ∃ p, key_run q (gs ++ [f]) = (replicate (length gs) None ++ [Some p], None) ∧
    assembled (fs ++ gs ++ [f]) p.
Proof.
  induction gs as [|g gs IH]; intros fs q f Hq Hgood Hinc Hall.
  - cbn [app] in *. rewrite app_nil_r in Hinc. apply Forall_app in Hgood as [Hfs Hf].
    apply Forall_cons_1 in Hf as [Hf _].
    pose proof (key_step_spec fs q f Hq Hf Hfs Hinc) as Hs. cbn [key_run].
    destruct (key_step q f) as [r q']. destruct (proj1 Hs Hall) as (p & -> & -> & Hp).
    by exists p.
  - change (fs ++ (g :: gs) ++ [f]) with (fs ++ [g] ++ gs ++ [f]) in *.
    change (fs ++ g :: gs) with (fs ++ [g] ++ gs) in Hinc. rewrite !app_assoc in *.
    rewrite <- (app_assoc (fs ++ [g])) in *.
    assert (¬ complete d (fs ++ [g])) as Hinc1.
    { intros Hc. apply Hinc. intros n Hn. apply covers_app. left. by apply Hc. }
    assert (¬ complete d fs) as Hinc0.
    { intros Hc. apply Hinc1. intros n Hn. apply covers_app. left. by apply Hc. }
    pose proof Hgood as Hgood'. apply Forall_app in Hgood' as [Hfsg _].
    apply Forall_app in Hfsg as [Hfs Hg]. apply Forall_cons_1 in Hg as [Hg _].
    pose proof (key_step_spec fs q g Hq Hg Hfs Hinc0) as Hs. cbn [app key_run].
    destruct (key_step q g) as [r q']. destruct (proj2 Hs Hinc1) as [-> Hq'].
    destruct (IH (fs ++ [g]) q' f Hq' Hgood Hinc Hall) as (p & -> & Hp). by exists p.
Qed.
End KeyRun.

(** A packet of [ms] with the key [k] is a fragment of the payload [d]. *)
Definition fragments_of (k : key) (d : bytes) (ms : list pkt) : Prop :=
  Forall (λ m, is_frag m ∧ good_frag d (host_frag m)) (of_key k ms).

(** C22: Fragments may arrive in any order, more than once, overlapping, and
    mixed with the packets of other datagrams: nothing is delivered for the
    datagram until its payload is complete, then the whole payload is
    delivered, with the header of its first fragment, and its queue is
    gone. *)
Theorem reassembly_any_order ttl s k d ms m :
  0 < ttl → ipqs_wf (ipqs s) → queue_at k (ipqs s) = None →
  0 < zlen d < 65536 → zlen d <= OFF_MAX → hdr_key (hdr m) = k →
  fragments_of k d (ms ++ [m]) →
  ¬ complete d (map host_frag (of_key k ms)) →
  complete d (map host_frag (of_key k (ms ++ [m]))) →
  let '(rs, s') := ipintr_run ttl (ms ++ [m]) s in
  ipqs_wf (ipqs s') ∧ queue_at k (ipqs s') = None ∧
  ∃ p, outputs_of k (ms ++ [m]) rs = replicate (length (of_key k ms)) None ++ [Some p] ∧
    assembled d (map host_frag (of_key k (ms ++ [m]))) p.
Proof.
  intros Httl Hwf Hnone Hd Hmax Hk Hfs Hinc Hall.
  assert (of_key k (ms ++ [m]) = of_key k ms ++ [m]) as Eof.
  { unfold of_key. rewrite list.filter_app. f_equal. by rewrite filter_cons_True. }
  pose proof (ipintr_run_key ttl k (ms ++ [m]) s Httl Hwf) as Hrun.
  unfold fragments_of in Hfs. rewrite Eof, map_app in *.
  destruct (key_run_spec d Hmax Hd (map host_frag (of_key k ms)) [] None (host_frag m))
    as (p & Erun & Hp); [done| |done..|].
  { apply Forall_app in Hfs as [Hfs Hm]. apply Forall_cons_1 in Hm as [[_ Hm] _].
    cbn [app]. apply Forall_app_2; [|by constructor]. apply List.Forall_map.
    revert Hfs. apply List.Forall_impl. by intros ? [_ ?]. }
  rewrite Hnone in Hrun. cbn [map] in Hrun. rewrite Erun in Hrun.
  destruct (ipintr_run ttl (ms ++ [m]) s) as [rs s']. destruct Hrun as (? & ? & ?).
  { revert Hfs. apply List.Forall_impl. by intros ? [? _]. }
  split_and!; [done..|]. exists p. rewrite length_map in *. done.
Qed.

(** ** The offset field *)

(** The field of a fragment at [8 * o]. *)
Definition off_field (o : Z) (mf : bool) : Z := o + if mf then 8192 else 0.

Lemma low_land o : 0 <= o < 8192 → Z.land o 8192 = 0.
Proof.
  intros Ho. apply Z.bits_inj'. intros i Hi. rewrite Z.land_spec, Z.testbit_0_l.
  change 8192 with (2 ^ 13). destruct (decide (i = 13)) as [->|].
  - rewrite (Z.bits_above_log2 o); [done|lia|]. destruct (decide (o = 0)) as [->|]; [done|].
    apply Z.log2_lt_pow2; lia.
  - by rewrite Z.pow2_bits_false, andb_false_r by lia.
Qed.

Lemma low_lor o : 0 <= o < 8192 → Z.lor o 8192 = o + 8192.
Proof.
  intros Ho. pose proof (low_land o Ho). rewrite <- Z.lxor_lor by done.
  symmetry. by apply Z.add_nocarry_lxor.
Qed.

Lemma off_field_mf o mf : 0 <= o < 8192 →
  negb (Z.land (off_field o mf) IP_MF =? 0) = mf ∧
  Z.ldiff (off_field o mf) IP_MF = o ∧
  Z.lor (off_field o mf) IP_MF = off_field o true ∧
  u16 (off_field o mf) = off_field o mf ∧
  u16 (8 * off_field o mf) = 8 * o.
Proof.
  intros Ho. rewrite IP_MF_eq. pose proof (low_land o Ho) as El. pose proof (low_lor o Ho) as Er.
  unfold off_field. destruct mf; rewrite ?Z.add_0_r.
  - rewrite <- Er. split_and!.
    + by rewrite Z.land_lor_distr_l, El.
    + apply Z.bits_inj'. intros i Hi.
      pose proof (f_equal (λ x, Z.testbit x i) El) as Eb. cbn in Eb.
      rewrite Z.land_spec, Z.testbit_0_l in Eb. rewrite Z.ldiff_spec, Z.lor_spec.
      destruct (Z.testbit o i), (Z.testbit 8192 i); done.
    + by rewrite <- Z.lor_assoc, Z.lor_diag.
    + rewrite Er. apply u16_id. lia.
    + rewrite Er. unfold u16. replace (8 * (o + 8192)) with (8 * o + 1 * 65536) by lia.
      rewrite Z.mod_add by done. apply Z.mod_small. lia.
  - split_and!; [by rewrite El| |done|apply u16_id; lia|apply u16_id; lia].
    apply Z.bits_inj'. intros i Hi. pose proof (f_equal (λ x, Z.testbit x i) El) as Eb. cbn in Eb.
    rewrite Z.land_spec, Z.testbit_0_l in Eb. rewrite Z.ldiff_spec.
    destruct (Z.testbit o i), (Z.testbit 8192 i); done.
Qed.

(** ** [ip_optcopy] *)

(** Well-formed options: no-operations, or type, length and body. *)
Inductive option_ok : bytes → Prop :=
  | option_nop : option_ok [IPOPT_NOP]
  | option_tlv t body : t ≠ IPOPT_EOL → t ≠ IPOPT_NOP →
      option_ok (t :: (2 + zlen body) :: body).

(** What follows the last option. *)
Definition options_end (r : bytes) : Prop := r = [] ∨ ∃ r', r = IPOPT_EOL :: r'.

(** Is an option kept in the later fragments? *)
Definition option_copied (o : bytes) : bool :=
  match o with t :: _ => (t =? IPOPT_NOP) || IPOPT_COPIED t | [] => false end.

Lemma optcopy_loop_spec os : ∀ fuel tail rest dp, Forall option_ok os → options_end tail →
  (length os < fuel)%nat → IPOPT_EOL ≠ IPOPT_NOP →
  optcopy_loop fuel (concat os ++ tail ++ rest) (zlen (concat os ++ tail)) dp =
    Some (dp ++ concat (filter option_copied os)).
Proof.
  induction os as [|o os IH]; intros [|fuel] tail rest dp Hos Hend Hf Hne; try (simpl in Hf; lia);
    cbn [optcopy_loop].
  - cbn [concat app]. destruct Hend as [->|[r' ->]].
    + cbn. by rewrite app_nil_r.
    + rewrite zlen_cons. pose proof (zlen_nonneg r').
      destruct (Z.leb_spec (1 + zlen r') 0); [lia|]. cbn. rewrite Z.eqb_refl. by rewrite app_nil_r.
  - apply Forall_cons_1 in Hos as [Ho Hos]. simpl in Hf.
    pose proof (zlen_nonneg (concat os ++ tail)) as Hz.
    cbn [concat]. rewrite <- !app_assoc, (zlen_app o).
    destruct Ho as [|t body Ht1 Ht2].
    + change (zlen [IPOPT_NOP]) with 1.
      destruct (Z.leb_spec (1 + zlen (concat os ++ tail)) 0); [lia|].
      cbn [app nth]. destruct (Z.eqb_spec IPOPT_NOP IPOPT_EOL); [congruence|]. rewrite Z.eqb_refl.
      replace (1 + zlen (concat os ++ tail) - 1) with (zlen (concat os ++ tail)) by lia.
      change (zdrop 1 _) with (concat os ++ tail ++ rest).
      rewrite IH by (done || lia). rewrite filter_cons_True by (cbn; by rewrite Z.eqb_refl).
      cbn [concat]. by rewrite <- app_assoc.
    + set (o := t :: (2 + zlen body) :: body).
      assert (zlen o = 2 + zlen body) as Eo by (subst o; zlen; lia). rewrite Eo.
      pose proof (zlen_nonneg body).
      destruct (Z.leb_spec (2 + zlen body + zlen (concat os ++ tail)) 0); [lia|].
      change (nth 0 (o ++ _) 0) with t. change (nth 1 (o ++ _) 0) with (2 + zlen body).
      destruct (Z.eqb_spec t IPOPT_EOL); [done|]. destruct (Z.eqb_spec t IPOPT_NOP) as [|]; [done|].
      destruct (Z.ltb_spec (2 + zlen body + zlen (concat os ++ tail)) (2 + zlen body)); [lia|].
      rewrite zdrop_app_ge, ztake_app_ge by lia. rewrite Eo, Z.sub_diag, zdrop_neg, ztake_neg by lia.
      replace (2 + zlen body + zlen (concat os ++ tail) - (2 + zlen body))
        with (zlen (concat os ++ tail)) by lia.
      rewrite IH by (done || lia). f_equal. rewrite filter_cons.
      assert (option_copied o = IPOPT_COPIED t) as Ec.
      { subst o. cbn. by apply Z.eqb_neq in Ht2 as ->. }
      rewrite app_nil_r, <- Ec. destruct (option_copied o) eqn:E.
      * rewrite decide_True by done. cbn [concat]. by rewrite <- app_assoc.
      * rewrite decide_False by (by intros []). done.
Qed.

Lemma pad4_len dp : zlen (pad4 dp) mod 4 = 0 ∧ zlen dp <= zlen (pad4 dp) ∧
  (∀ n, zlen dp <= n → n mod 4 = 0 → zlen (pad4 dp) <= n).
Proof.
  pose proof (Z.mod_pos_bound (- zlen dp) 4 ltac:(lia)) as Hb.
  unfold pad4. rewrite zlen_app, zlen_replicate by lia.
  split_and!; [|lia|].
  - rewrite Zplus_mod_idemp_r. by replace (zlen dp + - zlen dp) with 0 by lia.
  - intros n Hn Hm. pose proof (Z.div_mod (- zlen dp) 4 ltac:(lia)).
    pose proof (Z.div_mod n 4 ltac:(lia)). lia.
Qed.

Lemma filter_concat_len (P : bytes → bool) os : zlen (concat (filter P os)) <= zlen (concat os).
Proof.
  induction os as [|o os IH]; [done|]. rewrite filter_cons. cbn [concat].
  pose proof (zlen_nonneg o). destruct (decide _); cbn [concat]; rewrite !zlen_app; lia.
Qed.

Lemma ip_optcopy_copies fuel h rest os tail :
  Forall option_ok os → options_end tail → ip_opts h = concat os ++ tail →
  4 * ip_hl h = sizeof_ip + zlen (ip_opts h) → IPOPT_EOL ≠ IPOPT_NOP →
  (length os < fuel)%nat →
  ∃ o, ip_optcopy fuel h rest = Some o ∧ o = pad4 (concat (filter option_copied os)) ∧
    zlen o mod 4 = 0 ∧ zlen o <= zlen (ip_opts h).
Proof.
  intros Hos Hend Eo Ehl Hne Hf. exists (pad4 (concat (filter option_copied os))).
  destruct (pad4_len (concat (filter option_copied os))) as (Hm & _ & Hle).
  split_and!; [|done..|].
  - unfold ip_optcopy. rewrite Eo in *.
    replace (4 * ip_hl h - sizeof_ip) with (zlen (concat os ++ tail)) by lia.
    rewrite <- app_assoc, optcopy_loop_spec by done. done.
  - apply Hle.
    + rewrite Eo, zlen_app. pose proof (filter_concat_len option_copied os).
      pose proof (zlen_nonneg tail). lia.
    + rewrite sizeof_ip_eq in Ehl. replace (zlen (ip_opts h)) with (0 + (ip_hl h - 5) * 4) by lia.
      by rewrite Z.mod_add.
Qed.

(** [ip_optcopy] ends, after one round per option, and yields exactly the
    options that are to be copied, in order, padded with end-of-list options
    to a multiple of four bytes; they take no more room than they did. *)
Theorem ip_optcopy_spec fuel h rest os tail :
  Forall option_ok os → options_end tail → ip_opts h = concat os ++ tail →
  4 * ip_hl h = sizeof_ip + zlen (ip_opts h) → IPOPT_EOL ≠ IPOPT_NOP →
  (length os < fuel)%nat →
  ∃ o, ip_optcopy fuel h rest = Some o ∧ o = pad4 (concat (filter option_copied os)) ∧
    zlen o mod 4 = 0 ∧ zlen o <= zlen (ip_opts h).
Proof. apply ip_optcopy_copies. Qed.

(** ** The fragments of a datagram *)

(** The lengths of a packet are what its header says. *)
Definition hdr_ok (m : pkt) : Prop :=
  4 * ip_hl (hdr m) = sizeof_ip + zlen (ip_opts (hdr m)) ∧
  ip_len (hdr m) = 4 * ip_hl (hdr m) + zlen (data m) ∧ ip_len (hdr m) < 65536.

(** [fs] carries the data [d], cut at multiples of eight bytes, from the
    offset [o] on; [mf] tells whether more fragments follow the last one. *)
Fixpoint laid_out (o : Z) (mf : bool) (d : bytes) (fs : list pkt) : Prop :=
  match fs with
  | [] => d = []
  | f :: fs =>
      ip_off (hdr (host_frag f)) = o ∧ 0 < zlen (data f) ∧
      ip_len (hdr (host_frag f)) = zlen (data f) ∧
      match fs with
      | [] => data f = d ∧ ipf_mff (hdr (host_frag f)) = mf
      | _ =>
          zlen (data f) mod 8 = 0 ∧ ipf_mff (hdr (host_frag f)) = true ∧
          ∃ d', d = data f ++ d' ∧ laid_out (o + zlen (data f)) mf d' fs
      end
  end.

Section Fragments.
Context {D : Type}.
Variable if_output : pkt → D → Z * D.
Variable in_cksum : iphdr → Z.
Variable do_cksum : bool.
Variable m0 : pkt.
Variables (base : Z) (mf : bool) (mtu : Z) (opts : option bytes).
Let hlen := 4 * ip_hl (hdr m0).

Hypothesis m0_ok : hdr_ok m0.
Hypothesis m0_off : ip_off (hdr m0) = off_field base mf.
Hypothesis base_range : 0 <= base ∧ 8 * base + zlen (data m0) <= 65536.
Hypothesis opts_ok :
  match opts with
  | Some o => zlen o mod 4 = 0 ∧ sizeof_ip + zlen o <= hlen
  | None => hlen = sizeof_ip
  end.

(** The header length of the later fragments. *)
Let mhlen := sizeof_ip + match opts with Some o => zlen o | None => 0 end.

Lemma mhlen_range : 20 <= mhlen <= hlen ∧ mhlen mod 4 = 0.
Proof.
  subst mhlen hlen. destruct m0_ok as (? & _). rewrite sizeof_ip_eq in *.
  destruct opts as [o|].
  - destruct opts_ok. pose proof (zlen_nonneg o). split; [lia|].
    replace (20 + zlen o) with (zlen o + 5 * 4) by lia. by rewrite Z.mod_add.
  - split; [lia|done].
Qed.

(** A fragment as it is sent. *)
Definition sent_ok (f : pkt) : Prop :=
  hdr_key (hdr f) = hdr_key (hdr m0) ∧
  ip_len (hdr f) = 4 * ip_hl (hdr f) + zlen (data f) ∧ ip_len (hdr f) <= mtu ∧
  hdr f = fill_sum in_cksum do_cksum (hdr f).

Lemma fill_sum_idem h : fill_sum in_cksum do_cksum (fill_sum in_cksum do_cksum h) =
  fill_sum in_cksum do_cksum h.
Proof. unfold fill_sum. by destruct do_cksum. Qed.

Lemma fill_sum_fields h : let h' := fill_sum in_cksum do_cksum h in
  ip_hl h' = ip_hl h ∧ ip_len h' = ip_len h ∧ ip_off h' = ip_off h ∧ ip_opts h' = ip_opts h ∧
  hdr_key h' = hdr_key h.
Proof. unfold fill_sum. by destruct do_cksum. Qed.

(** The last steps of the loop body. *)
Lemma finish_fragment h n l : hdr_key h = hdr_key (hdr m0) → 4 * ip_hl h = mhlen →
  zlen l = n → n + mhlen <= mtu → n <= zlen (data m0) →
  let f := MkPkt (fill_sum in_cksum do_cksum (set_len (u16 (n + mhlen)) h)) l in
  ip_off (hdr f) = ip_off h ∧ 4 * ip_hl (hdr f) = mhlen ∧ sent_ok f.
Proof.
  intros Hk Hhl Hn Hmtu Hle f. destruct m0_ok as (_ & Hlen & Hmax). fold hlen in Hlen.
  pose proof mhlen_range as [Hmh _]. pose proof (zlen_nonneg l).
  destruct (fill_sum_fields (set_len (u16 (n + mhlen)) h)) as (Ehl & El & Eo & _ & Ek).
  cbv zeta in *. subst f. cbn [hdr data]. rewrite Ehl, Eo. split_and!; [done|done|].
  unfold sent_ok. cbn [hdr data]. rewrite Ehl, El, Ek, fill_sum_idem.
  cbn [set_len ip_len ip_hl]. rewrite u16_id by lia. split_and!; [done|lia..|done].
Qed.

Lemma make_fragment_spec k ln : 0 <= k < zlen (data m0) → k mod 8 = 0 → 0 < ln →
  hlen + ln <= mtu →
  let '(f, n) := make_fragment in_cksum do_cksum hlen m0 opts (hlen + k) ln in
  n = Z.min ln (zlen (data m0) - k) ∧ data f = ztake n (zdrop k (data m0)) ∧
  ip_off (hdr f) = off_field (base + k / 8) (mf || (ln <? zlen (data m0) - k)) ∧
  4 * ip_hl (hdr f) = mhlen ∧ sent_ok f.
Proof.
  intros Hk Hk8 Hln Hmtu. destruct m0_ok as (Hhl & Hlen & Hmax). fold hlen in Hlen, Hhl.
  pose proof mhlen_range as [Hmh Hmh4].
  assert (k = 8 * (k / 8)) as Ek by (pose proof (Z.div_mod k 8 ltac:(lia)); lia).
  assert (4 * (mhlen / 4) = mhlen) as Emh by (pose proof (Z.div_mod mhlen 4 ltac:(lia)); lia).
  unfold make_fragment. replace (hlen + k - hlen) with k by lia.
  rewrite Z.shiftr_div_pow2 by lia. change (2 ^ 3) with 8.
  set (o := match opts with Some o => o | None => ip_opts (hdr m0) end).
  replace (match opts with
    | Some o => (set_hl ((zlen o + sizeof_ip) / 4) o (hdr m0), zlen o + sizeof_ip)
    | None => (hdr m0, sizeof_ip) end) with (set_hl (mhlen / 4) o (hdr m0), mhlen).
  2: { subst mhlen o. destruct opts as [o|]; [by rewrite (Z.add_comm (zlen o))|].
    rewrite Z.add_0_r. f_equal. rewrite sizeof_ip_eq in *. change (20 / 4) with 5.
    replace 5 with (ip_hl (hdr m0)); [by destruct (hdr m0)|]. unfold hlen in *. lia. }
  cbv zeta. cbn [set_hl set_off ip_off]. rewrite m0_off, Hlen.
  destruct (off_field_mf base mf ltac:(lia)) as (-> & -> & _).
  assert (0 <= base + k / 8 < 8192) as Hr by lia. rewrite (Z.add_comm (k / 8)).
  destruct (off_field_mf (base + k / 8) false Hr) as (_ & _ & Hlor & Hu & _).
  destruct (off_field_mf (base + k / 8) true Hr) as (_ & _ & Hlor' & _).
  unfold off_field in *. rewrite Z.add_0_r in Hlor, Hu.
  set (e := base + k / 8) in *. rewrite Hu.
  destruct (Z.leb_spec (hlen + zlen (data m0)) (hlen + k + ln)) as [Hlast|Hmore];
    [replace (ln <? zlen (data m0) - k) with false by (symmetry; apply Z.ltb_ge; lia)
    |replace (ln <? zlen (data m0) - k) with true by (symmetry; apply Z.ltb_lt; lia)];
    destruct mf; cbn [set_off set_hl ip_off orb]; rewrite ?Hlor, ?Hlor'.
  all: match goal with |- context [fill_sum _ _ (set_len (u16 (?n + _)) ?h)] =>
      destruct (finish_fragment h n (ztake n (zdrop k (data m0)))) as (Eo & Ehl & Hs);
      [done|cbn; lia|rewrite zlen_ztake, zlen_zdrop; lia|lia|lia|] end;
    (split_and!; [lia|cbn [data]; f_equal; lia|rewrite Eo; cbn; lia|done|done]).
Qed.

(** What the receiver makes of the header of a fragment. *)
Lemma host_frag_field f o b : 0 <= o < 8192 → ip_off (hdr f) = off_field o b →
  ip_off (hdr (host_frag f)) = 8 * o ∧ ipf_mff (hdr (host_frag f)) = b.
Proof.
  intros Ho E. destruct (off_field_mf o b Ho) as (? & _ & _ & _ & ?).
  unfold host_frag. cbn [hdr set_off set_mff ip_off ipf_mff]. by rewrite E.
Qed.

(** The fragments after the first. *)
Lemma fragment_loop_spec fuel : ∀ budget k ln, 0 <= k → k mod 8 = 0 → 0 < ln → ln mod 8 = 0 →
  hlen + ln <= mtu → fuel ≠ 0%nat → zlen (data m0) - k < Z.of_nat fuel →
  zlen (data m0) - k <= Z.of_nat budget →
  ∃ fs, fragment_loop in_cksum do_cksum fuel budget hlen m0 opts (hlen + k) ln = Some (fs, false) ∧
    laid_out (8 * base + k) mf (zdrop k (data m0)) fs ∧ Forall sent_ok fs ∧
    (k < zlen (data m0) → fs ≠ []).
Proof.
  induction fuel as [|fuel IH]; intros budget k ln Hk Hk8 Hln Hln8 Hmtu Hf0 Hf Hb; [done|].
  cbn [fragment_loop]. destruct m0_ok as (Hhl & Hlen & Hmax). fold hlen in Hlen. rewrite Hlen.
  destruct (Z.leb_spec (hlen + zlen (data m0)) (hlen + k)) as [Hend|Hmore].
  { exists []. split_and!; [done|by apply zdrop_all; lia|constructor|lia]. }
  destruct budget as [|budget]; [lia|].
  pose proof (make_fragment_spec k ln ltac:(lia) Hk8 Hln Hmtu) as Hfr.
  destruct (make_fragment _ _ _ _ _ _ _) as [f n]. destruct Hfr as (-> & Hd & Hoff & _ & Hs).
  assert (k = 8 * (k / 8)) as Ek by (pose proof (Z.div_mod k 8 ltac:(lia)); lia).
  assert (0 <= base + k / 8 < 8192) as Hr by lia; destruct (host_frag_field f _ _ Hr Hoff) as [Eo Em].
  assert (zlen (data f) = Z.min ln (zlen (data m0) - k)) as El.
  { rewrite Hd, zlen_ztake, zlen_zdrop. lia. }
  assert (ip_len (hdr (host_frag f)) = zlen (data f)) as Ehl.
  { destruct Hs as (_ & Es & _). cbn. lia. }
  destruct (Z.ltb_spec ln (zlen (data m0) - k)) as [Hlt|Hge].
  - rewrite Z.min_l in * by lia. rewrite orb_true_r in Em.
    destruct (IH budget (k + ln) ln) as (fs & Eq & Hlay & Hsent & Hne); [lia| |lia..|].
    { rewrite Z.add_mod, Hk8, Hln8 by lia. done. }
    replace (hlen + k + ln) with (hlen + (k + ln)) by lia. rewrite Eq. cbn [mbind option_bind].
    specialize (Hne ltac:(lia)). exists (f :: fs). split_and!; [done| |by constructor|done].
    cbn [laid_out]. split_and!; [lia|lia|done|]. destruct fs as [|f2 fs]; [done|].
    split_and!; [by rewrite El|done|]. exists (zdrop (k + ln) (data m0)). split.
    + rewrite Hd, (Z.add_comm k), <- zdrop_zdrop by lia. by rewrite ztake_zdrop.
    + rewrite El. by replace (8 * base + k + ln) with (8 * base + (k + ln)) by lia.
  - rewrite Z.min_r in * by lia. rewrite orb_false_r in Em.
    assert (fragment_loop in_cksum do_cksum fuel budget hlen m0 opts
      (hlen + k + (zlen (data m0) - k)) (zlen (data m0) - k) = Some ([], false)) as ->.
    { destruct fuel as [|fuel]; [lia|]. cbn [fragment_loop]. rewrite Hlen.
      destruct (Z.leb_spec (hlen + zlen (data m0)) (hlen + k + (zlen (data m0) - k))); [done|lia]. }
    exists [f]. cbn [mbind option_bind]. split_and!; [done| |by apply list.Forall_singleton|done].
    cbn [laid_out]. split_and!; [lia|lia|done| |done].
    rewrite Hd. apply ztake_all. rewrite zlen_zdrop. lia.
Qed.
(** The first fragment. *)
Lemma first_fragment_spec ln : 0 < ln < zlen (data m0) → ln mod 8 = 0 → hlen + ln <= mtu →
  let f := first_fragment in_cksum do_cksum hlen ln m0 in
  data f = ztake ln (data m0) ∧ ip_off (hdr (host_frag f)) = 8 * base ∧
  ipf_mff (hdr (host_frag f)) = true ∧ ip_hl (hdr f) = ip_hl (hdr m0) ∧
  ip_opts (hdr f) = ip_opts (hdr m0) ∧ sent_ok f.
Proof.
  intros Hln Hln8 Hmtu f. destruct m0_ok as (Hhl & Hlen & Hmax). fold hlen in Hlen, Hhl.
  subst f. unfold first_fragment.
  set (h := set_off _ _). cbn [data hdr].
  destruct (fill_sum_fields h) as (Ehl & El & Eo & Eopt & Ek). cbv zeta in *.
  assert (ip_off h = off_field base true) as Eoff.
  { subst h. cbn [set_off set_len ip_off]. rewrite m0_off.
    destruct (off_field_mf base mf ltac:(lia)) as (_ & _ & -> & _).
    destruct (off_field_mf base true ltac:(lia)) as (_ & _ & _ & -> & _). done. }
  destruct (host_frag_field (MkPkt (fill_sum in_cksum do_cksum h) (ztake ln (data m0))) base true)
    as [-> ->]; [lia|cbn [hdr]; by rewrite Eo|].
  cbn [hdr]. rewrite Ehl, Eopt. split_and!; [done|done|done|by subst h|by subst h|].
  unfold sent_ok. cbn [hdr data]. rewrite Ek, El, Ehl, fill_sum_idem, zlen_ztake.
  pose proof mhlen_range as [? _].
  assert (ip_len h = hlen + ln) as -> by (subst h; cbn; apply u16_id; lia).
  replace (4 * ip_hl h) with hlen by (by subst h). split_and!; [by subst h|lia|lia|done].
Qed.

(** All fragments, when there are buffers for them. *)
Lemma fragments_spec fuel budget ln : 0 < ln < zlen (data m0) → ln mod 8 = 0 → hlen + ln <= mtu →
  zlen (data m0) < Z.of_nat fuel → zlen (data m0) <= Z.of_nat budget →
  ∃ fs, fragment_loop in_cksum do_cksum fuel budget hlen m0 opts (hlen + ln) ln = Some (fs, false) ∧
    fs ≠ [] ∧ laid_out (8 * base) mf (data m0) (first_fragment in_cksum do_cksum hlen ln m0 :: fs) ∧
    Forall sent_ok (first_fragment in_cksum do_cksum hlen ln m0 :: fs).
Proof.
  intros Hln Hln8 Hmtu Hf Hb.
  destruct (fragment_loop_spec fuel budget ln ln) as (fs & E & Hlay & Hsent & Hne); [lia..|].
  specialize (Hne ltac:(lia)).
  destruct (first_fragment_spec ln Hln Hln8 Hmtu) as (Ed & Eo & Em & _ & _ & Hs).
  exists fs. split_and!; [done..| |by constructor]. cbn [laid_out].
  assert (zlen (data (first_fragment in_cksum do_cksum hlen ln m0)) = ln) as El.
  { rewrite Ed, zlen_ztake. lia. }
  split_and!; [done|lia| |].
  - destruct Hs as (_ & Es & _). cbn. cbn in Es. lia.
  - destruct fs as [|f2 fs]; [done|]. rewrite El. split_and!; [done..|].
    exists (zdrop ln (data m0)). by rewrite Ed, ztake_zdrop.
Qed.
End Fragments.

Lemma ldiff_7 x : Z.ldiff x 7 = 8 * (x / 8).
Proof.
  change 7 with (Z.ones 3). rewrite Z.ldiff_ones_r, Z.shiftr_div_pow2, Z.shiftl_mul_pow2 by lia.
  change (2 ^ 3) with 8. lia.
Qed.

Section Sendit.
Context {D : Type}.
Variable if_output : pkt → D → Z * D.
Variable in_cksum : iphdr → Z.
Variable do_cksum : bool.
Variables EMSGSIZE ENOBUFS : Z.
Abbreviation sendit := (ip_sendit if_output in_cksum do_cksum EMSGSIZE ENOBUFS).

(** The options of a header are well formed. *)
Definition opts_valid (m : pkt) (os : list bytes) : Prop :=
  Forall option_ok os ∧ ∃ tail, options_end tail ∧ ip_opts (hdr m) = concat os ++ tail.

Lemma fragment_opts_spec fuel m os : hdr_ok m → opts_valid m os → IPOPT_EOL ≠ IPOPT_NOP →
  (length os < fuel)%nat →
  ∃ opts, fragment_opts fuel (4 * ip_hl (hdr m)) m = Some opts ∧
    match opts with
    | Some o => zlen o mod 4 = 0 ∧ sizeof_ip + zlen o <= 4 * ip_hl (hdr m)
    | None => 4 * ip_hl (hdr m) = sizeof_ip
    end.
Proof.
  intros (Hhl & _ & _) (Hos & tail & Hend & Eo) Hne Hf. unfold fragment_opts.
  destruct (Z.ltb_spec sizeof_ip (4 * ip_hl (hdr m))).
  - destruct (ip_optcopy_copies fuel (hdr m) (data m) os tail) as (o & -> & _ & ? & ?); [done..|].
    exists (Some o). split; [done|]. lia.
  - exists None. pose proof (zlen_nonneg (ip_opts (hdr m))). split; [done|lia].
Qed.

Lemma sendit_fragments fuel budget mtu m0 base mf os s st :
  let hlen := 4 * ip_hl (hdr m0) in
  hdr_ok m0 → ip_off (hdr m0) = off_field base mf →
  0 <= base ∧ 8 * base + zlen (data m0) <= 65536 →
  Z.land (ip_off (hdr m0)) IP_DF = 0 →
  opts_valid m0 os → IPOPT_EOL ≠ IPOPT_NOP → (length os < fuel)%nat →
  hlen + 8 <= mtu < ip_len (hdr m0) →
  zlen (data m0) < Z.of_nat fuel → zlen (data m0) <= Z.of_nat budget →
  ∃ f fs, sendit fuel budget mtu hlen m0 s st =
      Some (let '(e, s') := send_or_free if_output 0 (f :: fs) s in
            (e, s', add_output (zlen fs) false e st)) ∧
    fs ≠ [] ∧ laid_out (8 * base) mf (data m0) (f :: fs) ∧
    Forall (sent_ok in_cksum do_cksum m0 mtu) (f :: fs) ∧
    ip_opts (hdr f) = ip_opts (hdr m0) ∧ ip_hl (hdr f) = ip_hl (hdr m0).
Proof.
  intros hlen Hok Hoff Hbase Hdf Hos Hne Hf Hmtu Hfuel Hbud.
  destruct (fragment_opts_spec fuel m0 os Hok Hos Hne Hf) as (opts & Eopts & Hopts).
  fold hlen in Eopts, Hopts. pose proof Hok as (_ & Hlen & _). fold hlen in Hlen.
  set (ln := Z.ldiff (mtu - hlen) 7).
  assert (ln = 8 * ((mtu - hlen) / 8)) as Eln by apply ldiff_7.
  pose proof (Z.div_mod (mtu - hlen) 8 ltac:(lia)) as Hdm.
  pose proof (Z.mod_pos_bound (mtu - hlen) 8 ltac:(lia)).
  assert (1 <= (mtu - hlen) / 8) by (apply Z.div_le_lower_bound; lia).
  assert (ln mod 8 = 0) as Hln8 by (rewrite Eln, Z.mul_comm; by apply Z.mod_mul).
  destruct (fragments_spec in_cksum do_cksum m0 base mf mtu opts Hok Hoff Hbase Hopts fuel budget ln)
    as (fs & Eloop & Hnil & Hlay & Hsent); [lia|done|fold hlen; lia|done..|].
  fold hlen in Eloop, Hlay, Hsent.
  destruct (first_fragment_spec in_cksum do_cksum m0 base mf mtu opts Hok Hoff Hbase Hopts ln)
    as (_ & _ & _ & Ehl & Eo & _); [lia|done|fold hlen; lia|].
  exists (first_fragment in_cksum do_cksum hlen ln m0), fs. split; [|by split_and!].
  unfold ip_sendit. destruct (Z.leb_spec (ip_len (hdr m0)) mtu); [lia|].
  rewrite Hdf. cbn [negb Z.eqb]. fold ln. destruct (Z.ltb_spec ln 8); [lia|].
  rewrite Eopts. cbn [mbind option_bind]. rewrite Eloop. cbn [mbind option_bind].
  by destruct (send_or_free _ _ _ _).
Qed.
End Sendit.

(** ** Fragments and pieces *)

(** What is laid out are pieces of the payload, in order and without gaps. *)
Lemma laid_out_pieces d fs : ∀ o, 0 <= o → o + zlen (zdrop o d) = zlen d →
  laid_out o false (zdrop o d) fs →
  Forall (good_frag d) (map host_frag fs) ∧ StronglySorted before (map host_frag fs) ∧
  starts_from o (map host_frag fs) ∧ (∀ n, o <= n < zlen d → covers (map host_frag fs) n) ∧
  (o ≠ 0 ∨ (1 < length fs)%nat → Forall is_frag fs).
Proof.
  induction fs as [|f fs IH]; intros o Ho Hlen; cbn [laid_out map].
  { intros E. rewrite E in Hlen. change (zlen []) with 0 in Hlen.
    split_and!; [constructor..|lia|done]. }
  intros (Eo & Hpos & El & Hrest). pose proof (zlen_nonneg (zdrop o d)) as Hnn.
  assert (∀ b, zlen (data f) <= zlen (zdrop o d) → data f = ztake (zlen (data f)) (zdrop o d) →
    ipf_mff (hdr (host_frag f)) = b → b = negb (o + zlen (data f) =? zlen d) →
    good_frag d (host_frag f)) as Hgood.
  { intros b Hle Hd Em Eb. unfold good_frag, fend. split; [|lia].
    split; unfold fend; rewrite ?Eo, ?El; [lia|lia|lia|exact Hd|by rewrite Em, Eb]. }
  assert (fend (host_frag f) = o + zlen (data f)) as Ef by (unfold fend; lia).
  destruct fs as [|f2 fs].
  - destruct Hrest as [Ed Em]. rewrite Ed in *.
    split_and!; [|by repeat constructor|by constructor; [lia|]| |].
    + constructor; [|constructor]. apply (Hgood false); [lia|by rewrite ztake_all|done|].
      by rewrite Hlen, Z.eqb_refl.
    + intros n Hn. apply covers_cons. left. lia.
    + intros [Hne|Hl]; [|simpl in Hl; lia]. constructor; [|constructor]. right. by rewrite Eo.
  - destruct Hrest as (Hd8 & Em & d' & Ed & Hlay).
    assert (zdrop (o + zlen (data f)) d = d') as Ed'.
    { rewrite Z.add_comm, <- zdrop_zdrop by lia. by rewrite Ed, zdrop_app_ge, Z.sub_diag, zdrop_neg by lia. }
    rewrite Ed, zlen_app in Hlen, Hnn. rewrite <- Ed' in Hlay, Hlen, Hnn.
    destruct (IH (o + zlen (data f))) as (H1' & H2' & H3' & H4' & H5'); [lia|lia|done|].
    assert (zlen (zdrop (o + zlen (data f)) d) ≠ 0) as Hne.
    { rewrite Ed'. cbn [laid_out] in Hlay. destruct Hlay as (_ & Hp2 & _ & Hr).
      rewrite Ed' in Hr. destruct fs as [|f3 fs]; [destruct Hr as [<- _]; lia|].
      destruct Hr as (_ & _ & d2 & -> & _). rewrite zlen_app. pose proof (zlen_nonneg d2). lia. }
    split_and!.
    + constructor; [|done]. apply (Hgood true); [| |done|].
      * rewrite Ed, zlen_app. pose proof (zlen_nonneg d'). lia.
      * by rewrite Ed, ztake_app_ge, Z.sub_diag, ztake_neg, app_nil_r by lia.
      * symmetry. apply negb_true_iff, Z.eqb_neq. lia.
    + constructor; [done|]. change (Forall (before (host_frag f)) (map host_frag (f2 :: fs)))
        with (starts_from (fend (host_frag f)) (map host_frag (f2 :: fs))). by rewrite Ef.
    + constructor; [lia|]. apply (starts_from_weaken _ (o + zlen (data f))); [lia|done].
    + intros n Hn. apply covers_cons. rewrite Ef, Eo.
      destruct (decide (n < o + zlen (data f))); [left; lia|]. right. apply H4'. lia.
    + intros _. constructor; [by left|]. apply H5'. left. lia.
Qed.

(** Without one of its pieces the payload is not complete. *)
Lemma sorted_needed d q gs f : queue_of d q → Forall (good_frag d) q →
  gs ++ [f] ≡ₚ q → ¬ complete d gs.
Proof.
  intros [Hp Hs] Hg Hperm Hall.
  assert (f ∈ q) as Hf.
  { rewrite <- Hperm. apply elem_of_app. right. by apply list_elem_of_singleton. }
  apply list_elem_of_split in Hf as (l1 & l2 & ->).
  assert (gs ≡ₚ l1 ++ l2) as Hgs.
  { apply (Permutation_cons_inv (a := f)). by rewrite (Permutation_middle l1 l2), <- Hperm,
      Permutation_app_comm. }
  apply Forall_app in Hg as [_ Hg]. apply Forall_cons_1 in Hg as [[[Ho _ _ _ _] Hlen] _].
  specialize (Hall (off f) Ho). unfold covers in Hall. rewrite Hgs in Hall.
  apply Exists_app in Hall as [Hx|Hx]; apply list.Exists_exists in Hx as (g & Hg' & Hn).
  - apply (StronglySorted_app_1_elem_of _ _ _ g f) in Hs; [|done|apply elem_of_cons; by left].
    unfold before in Hs. lia.
  - apply StronglySorted_app_1_r, StronglySorted_inv in Hs as [_ Hs].
    apply (proj1 (list.Forall_forall _ _) Hs) in Hg'. unfold before, fend in *. lia.
Qed.

Lemma send_log fs s : send_or_free (λ f s, (0, s ++ [f])) 0 fs s = (0, s ++ fs).
Proof.
  revert s. induction fs as [|f fs IH]; intros s; cbn; [by rewrite app_nil_r|].
  by rewrite IH, <- app_assoc.
Qed.

(** The reassembly of all the fragments of a datagram, in some order. *)
Lemma permuted_run d gs fs : 0 < zlen d < 65536 → zlen d <= OFF_MAX → fs ≠ [] →
  laid_out 0 false d fs → gs ≡ₚ fs →
  ∃ p, key_run None (map host_frag gs) =
      (replicate (length fs - 1) None ++ [Some p], None) ∧
    assembled d (map host_frag fs) p.
Proof.
  intros Hd Hmax Hne Hlay Hperm.
  destruct (laid_out_pieces d fs 0) as (Hg & Hs & _ & Hc & _);
    [lia|by rewrite zdrop_neg by lia|by rewrite zdrop_neg by lia|].
  assert (gs ≠ []) as Hne'.
  { intros ->. by apply Permutation_nil in Hperm. }
  destruct (exists_last Hne') as (gs' & g & ->).
  assert (map host_frag gs' ++ [host_frag g] ≡ₚ map host_frag fs) as Hperm'.
  { rewrite <- Hperm, map_app. done. }
  rewrite map_app. cbn [map].
  destruct (key_run_spec d Hmax Hd (map host_frag gs') [] None (host_frag g)) as (p & -> & Hp).
  - done.
  - cbn [app]. by rewrite Hperm'.
  - apply (sorted_needed d (map host_frag fs) _ (host_frag g)); [|done|done].
    split; [|done]. revert Hg. apply List.Forall_impl. by intros ? [? _].
  - intros n Hn. cbn [app]. unfold covers. rewrite Hperm'. by apply Hc.
  - exists p. rewrite length_map. apply Permutation_length in Hperm. rewrite length_app in Hperm.
    cbn [length] in Hperm. split.
    + by replace (length fs - 1)%nat with (length gs') by lia.
    + destruct Hp as [Ed (f & Hf & ?)]. split; [done|]. exists f. split; [|done].
      by rewrite <- Hperm'.
Qed.

(** A datagram that is larger than the interface allows, may be
    fragmented, and has well-formed options, is sent as at least two
    fragments when there are buffers: they carry its data in order, cut at
    multiples of eight bytes; offsets and "more fragments" bits say so, also
    when the datagram was a fragment itself; every fragment fits the
    interface, has consistent lengths, the identification of the datagram and
    a checksum; the first keeps all options.  An error of the driver stops
    the transmission. *)
Theorem ip_sendit_spec {D} (if_output : pkt → D → Z * D) in_cksum do_cksum EMSGSIZE ENOBUFS
    fuel budget mtu m0 base mf os s st :
  let hlen := 4 * ip_hl (hdr m0) in
  hdr_ok m0 → ip_off (hdr m0) = off_field base mf →
  0 <= base ∧ 8 * base + zlen (data m0) <= 65536 →
  Z.land (ip_off (hdr m0)) IP_DF = 0 →
  opts_valid m0 os → IPOPT_EOL ≠ IPOPT_NOP → (length os < fuel)%nat →
  hlen + 8 <= mtu < ip_len (hdr m0) →
  zlen (data m0) < Z.of_nat fuel → zlen (data m0) <= Z.of_nat budget →
  ∃ f fs, ip_sendit if_output in_cksum do_cksum EMSGSIZE ENOBUFS fuel budget mtu hlen m0 s st =
      Some (let '(e, s') := send_or_free if_output 0 (f :: fs) s in
            (e, s', add_output (zlen fs) false e st)) ∧
    fs ≠ [] ∧ laid_out (8 * base) mf (data m0) (f :: fs) ∧
    Forall (sent_ok in_cksum do_cksum m0 mtu) (f :: fs) ∧
    ip_opts (hdr f) = ip_opts (hdr m0) ∧ ip_hl (hdr f) = ip_hl (hdr m0).
Proof. apply sendit_fragments. Qed.

(** C21: A datagram that [ip_output] has cut into fragments comes out of
    [ipintr] as it was: the fragments may arrive in any order and mixed with
    the packets of other datagrams; only the last one to arrive delivers
    something, namely all the data under the header and options of the
    original. *)
Theorem fragment_roundtrip in_cksum do_cksum EMSGSIZE ENOBUFS fuel budget mtu m0 os st sent st'
    ttl ms s :
  let hlen := 4 * ip_hl (hdr m0) in
  let k := hdr_key (hdr m0) in
  hdr_ok m0 → ip_off (hdr m0) = 0 → zlen (data m0) <= OFF_MAX →
  opts_valid m0 os → IPOPT_EOL ≠ IPOPT_NOP → (length os < fuel)%nat →
  hlen + 8 <= mtu < ip_len (hdr m0) →
  zlen (data m0) < Z.of_nat fuel → zlen (data m0) <= Z.of_nat budget →
  ip_sendit (λ f s, (0, s ++ [f])) in_cksum do_cksum EMSGSIZE ENOBUFS fuel budget mtu hlen m0 [] st =
    Some (0, sent, st') →
  0 < ttl → ipqs_wf (ipqs s) → queue_at k (ipqs s) = None →
  of_key k ms ≡ₚ sent →
  let '(rs, s') := ipintr_run ttl ms s in
  ipqs_wf (ipqs s') ∧ queue_at k (ipqs s') = None ∧
  ∃ p, outputs_of k ms rs = replicate (length sent - 1) None ++ [Some p] ∧
    data p = data m0 ∧ hdr_key (hdr p) = k ∧ ip_hl (hdr p) = ip_hl (hdr m0) ∧
    ip_opts (hdr p) = ip_opts (hdr m0) ∧ ip_len (hdr p) = zlen (data m0).
Proof.
  intros hlen k Hok Hoff Hmax Hos Hne Hfo Hmtu Hfuel Hbud Hsend Httl Hwf Hnone Hperm.
  pose proof Hok as (Hhl & Hlen & Hlt). pose proof (zlen_nonneg (ip_opts (hdr m0))).
  rewrite sizeof_ip_eq in Hhl.
  destruct (sendit_fragments (λ f s, (0, s ++ [f])) in_cksum do_cksum EMSGSIZE ENOBUFS fuel budget
    mtu m0 0 false os [] st) as (f & fs & E & Hnil & Hlay & Hsent & Eo & Ehl); try done.
  { lia. } { by rewrite Hoff. }
  fold hlen in E. rewrite Hsend, send_log in E. injection E as -> _. cbn [app] in *.
  change (8 * 0) with 0 in Hlay.
  destruct (laid_out_pieces (data m0) (f :: fs) 0) as (Hg & Hs & _ & _ & Hfrag);
    [lia|by rewrite zdrop_neg by lia|by rewrite zdrop_neg by lia|].
  destruct (permuted_run (data m0) (of_key k ms) (f :: fs)) as (p & Erun & Ed & g & Hin & Hz & Eh);
    [lia|done..|].
  pose proof (ipintr_run_key ttl k ms s Httl Hwf) as Hrun. rewrite Hnone, Erun in Hrun.
  destruct (ipintr_run ttl ms s) as [rs s'].
  destruct Hrun as (? & ? & ?).
  { rewrite Hperm. apply Hfrag. right. destruct fs; [done|simpl; lia]. }
  split_and!; [done..|]. exists p. split; [done|]. split; [done|].
  assert (g = host_frag f) as ->.
  { cbn [map] in Hin. apply elem_of_cons in Hin as [?|Hin]; [done|]. exfalso.
    cbn [map] in Hs, Hg. apply StronglySorted_inv in Hs as [_ Hb].
    apply (proj1 (list.Forall_forall _ _) Hb) in Hin. apply Forall_cons_1 in Hg as [[Hf0 Hl0] _].
    unfold before, fend in Hin. destruct Hf0. lia. }
  rewrite Eh. cbn. split_and!; try done.
  apply Forall_cons_1 in Hsent as [(Ek & _) _]. done.
Qed.

(** What happens when a datagram is not fragmented: one that fits is sent
    as it is; one that must not be fragmented, and an interface too small for
    eight bytes of data, give [EMSGSIZE] and nothing is sent; when buffers
    run out nothing is sent either, and the error is [ENOBUFS]. *)
Theorem ip_sendit_errors {D} (if_output : pkt → D → Z * D) in_cksum do_cksum EMSGSIZE ENOBUFS
    fuel budget mtu hlen m0 s st :
  let sendit := ip_sendit if_output in_cksum do_cksum EMSGSIZE ENOBUFS in
  (ip_len (hdr m0) <= mtu →
     sendit fuel budget mtu hlen m0 s st =
       Some (let '(e, s') := if_output (MkPkt (fill_sum in_cksum do_cksum (hdr m0)) (data m0)) s in
             (e, s', st))) ∧
  (mtu < ip_len (hdr m0) → Z.land (ip_off (hdr m0)) IP_DF ≠ 0 →
     sendit fuel budget mtu hlen m0 s st = Some (EMSGSIZE, s, add_cantfrag st)) ∧
  (mtu < ip_len (hdr m0) → Z.land (ip_off (hdr m0)) IP_DF = 0 → mtu < hlen + 8 →
     sendit fuel budget mtu hlen m0 s st = Some (EMSGSIZE, s, st)) ∧
  (mtu < ip_len (hdr m0) → Z.land (ip_off (hdr m0)) IP_DF = 0 → hlen + 8 <= mtu → ENOBUFS ≠ 0 →
     ∀ opts fs, fragment_opts fuel hlen m0 = Some opts →
     fragment_loop in_cksum do_cksum fuel budget hlen m0 opts
       (hlen + Z.ldiff (mtu - hlen) 7) (Z.ldiff (mtu - hlen) 7) = Some (fs, true) →
     sendit fuel budget mtu hlen m0 s st = Some (ENOBUFS, s, add_output (zlen fs) true ENOBUFS st)).
Proof.
  assert (∀ fs e (s : D), e ≠ 0 → send_or_free if_output e fs s = (e, s)) as Hfree.
  { intros fs e s' He. induction fs as [|f fs IH]; [done|]. cbn.
    by destruct (Z.eqb_spec e 0). }
  cbv zeta. unfold ip_sendit. destruct (Z.leb_spec (ip_len (hdr m0)) mtu) as [Hle|Hgt].
  { split_and!; try lia. by destruct (if_output _ s). }
  destruct (Z.eqb_spec (Z.land (ip_off (hdr m0)) IP_DF) 0); cbn [negb]; split_and!; try lia; try done.
  - intros _ _ Hm. rewrite ldiff_7.
    destruct (Z.ltb_spec (8 * ((mtu - hlen) / 8)) 8) as [|Hge]; [done|].
    pose proof (Z.mul_div_le (mtu - hlen) 8 ltac:(lia)). lia.
  - intros _ _ Hm He opts fs Eo El. rewrite ldiff_7 in *.
    pose proof (Z.div_le_lower_bound (mtu - hlen) 8 1 ltac:(lia) ltac:(lia)).
    destruct (Z.ltb_spec (8 * ((mtu - hlen) / 8)) 8); [lia|].
    rewrite Eo. cbn [mbind option_bind]. rewrite El. cbn [mbind option_bind].
    by rewrite Hfree.
Qed.

(** ** Invariant and timers *)

(** What can happen to the queues. *)
Inductive ip_step (ttl : Z) : ip_state → ip_state → Prop :=
  | step_packet alloc m s : ip_step ttl s (ipintr_ours ttl alloc m s).2
  | step_slowtimo s : ip_step ttl s (ip_slowtimo s)
  | step_drain s : ip_step ttl s (ip_drain s).

(** The queues are well formed and none outlives its time. *)
Definition ip_inv (ttl : Z) (s : ip_state) : Prop :=
  ipqs_wf (ipqs s) ∧ Forall (λ fp, ipq_ttl fp <= ttl) (ipqs s).

Lemma ipintr_no_alloc ttl m s :
  ipqs (ipintr_ours ttl false m s).2 = ipqs s ∨
  ipqs (ipintr_ours ttl false m s).2 = ipqs (ipintr_ours ttl true m s).2.
Proof.
  unfold ipintr_ours. destruct (negb _); [|by left].
  destruct (_ || _); [|by right].
  destruct (find_queue (hdr m) (ipqs s)) as [x|]; [by right|].
  unfold ipReAssemble. cbn. by left.
Qed.

Lemma ipintr_ttl ttl m s : Forall (λ fp, ipq_ttl fp <= ttl) (ipqs s) →
  Forall (λ fp, ipq_ttl fp <= ttl) (ipqs (ipintr_ours ttl true m s).2).
Proof.
  intros Hs. unfold ipintr_ours. destruct (negb _); [|done].
  destruct (find_queue (hdr m) (ipqs s)) as [[[b fp] a]|] eqn:E.
  - apply find_queue_Some in E as (E & _ & _). rewrite E in Hs.
    apply Forall_app in Hs as [Hb Ha]. apply Forall_cons_1 in Ha as [Hfp Ha].
    assert (∀ q, Forall (λ fp, ipq_ttl fp <= ttl) (b ++ set_frags q fp :: a)) as Hset.
    { intros q. apply Forall_app_2; [done|]. by constructor. }
    assert (Forall (λ fp, ipq_ttl fp <= ttl) (b ++ a)) as Hdel by (by apply Forall_app_2).
    destruct (_ || _); [|done]. unfold ipReAssemble.
    destruct (reass_insert _ _) as [[] q]; [apply Hset|].
    destruct (reass_done q); [apply Hdel|apply Hset].
  - destruct (_ || _); [|done]. unfold ipReAssemble. destruct (reass_done _); [done|].
    by constructor.
Qed.

Lemma ipintr_wf ttl m s : 0 < ttl → ipqs_wf (ipqs s) → ipqs_wf (ipqs (ipintr_ours ttl true m s).2).
Proof.
  intros Httl Hwf. set (k := let '(a, b, c, e) := hdr_key (hdr m) in (a + 1, b, c, e)).
  assert (hdr_key (hdr m) ≠ k) as Hk.
  { subst k. unfold hdr_key. intros E. injection E. lia. }
  pose proof (ipintr_other ttl m s k Httl Hwf Hk) as Ho.
  destruct (ipintr_ours ttl true m s) as [r s']. apply Ho.
Qed.

(** The next value of a queue, if it does not expire. *)
Definition tick (fp : ipq) : option ipq :=
  if ipq_ttl fp - 1 =? 0 then None
  else Some (MkIpq (ipq_ttl fp - 1) (ipq_p fp) (ipq_id fp) (ipq_src fp) (ipq_dst fp) (pMbufPkt fp)).

Lemma slowtimo_loop_omap qs : ∀ st, (slowtimo_loop qs st).1 = omap tick qs ∧
  ips_fragtimeout (slowtimo_loop qs st).2 =
    ips_fragtimeout st + zlen qs - zlen (omap tick qs).
Proof.
  induction qs as [|fp qs IH]; intros st; [split; [done|cbn; lia]|].
  cbn [slowtimo_loop]. change (omap tick (fp :: qs))
    with (match tick fp with Some fp' => fp' :: omap tick qs | None => omap tick qs end).
  cbn [ipq_ttl]. rewrite zlen_cons.
  destruct (tick fp) as [fp'|] eqn:Et; unfold tick in Et; destruct (_ =? 0); try done.
  - injection Et as <-.
    destruct (slowtimo_loop qs st) as [qs' st'] eqn:E. destruct (IH st) as [E1 E2].
    rewrite E in E1, E2. cbn [fst snd] in *. subst qs'. split; [done|].
    rewrite zlen_cons. lia.
  - destruct (IH (add_frag 0 0 0 1 st)) as [-> ->]. split; [done|]. cbn [add_frag ips_fragtimeout].
    lia.
Qed.

Lemma tick_key fp fp' : tick fp = Some fp' →
  ipq_key fp' = ipq_key fp ∧ pMbufPkt fp' = pMbufPkt fp ∧ ipq_ttl fp' = ipq_ttl fp - 1 ∧
  ipq_ttl fp - 1 ≠ 0.
Proof. unfold tick. destruct (Z.eqb_spec (ipq_ttl fp - 1) 0); [done|]. intros [= <-]. by split_and!. Qed.

Lemma omap_tick_inv ttl qs : ipqs_wf qs → Forall (λ fp, ipq_ttl fp <= ttl) qs →
  ipqs_wf (omap tick qs) ∧ Forall (λ fp, ipq_ttl fp <= ttl) (omap tick qs).
Proof.
  intros [Hk Hf Ht] Hb.
  assert (∀ fp', fp' ∈ omap tick qs → ∃ fp, fp ∈ qs ∧ tick fp = Some fp') as Hin.
  { intros fp' Hin. by apply list_elem_of_omap in Hin. }
  split; [split|].
  - clear Hf Ht Hb. induction qs as [|fp qs IH]; [constructor|].
    cbn [map] in Hk. apply list.NoDup_cons in Hk as [Hn Hk]. cbn [omap list_omap].
    destruct (tick fp) as [fp'|] eqn:E.
    + cbn [map]. apply list.NoDup_cons. split.
      * destruct (tick_key _ _ E) as [-> _]. intros Hx. apply Hn.
        apply list_elem_of_In, in_map_iff in Hx as (g & <- & Hg%list_elem_of_In).
        apply list_elem_of_omap in Hg as (g0 & Hg0 & Eg). destruct (tick_key _ _ Eg) as [-> _].
        apply list_elem_of_In. by apply in_map, list_elem_of_In.
      * apply IH; [done|]. intros fp0 H0'. by apply list_elem_of_omap in H0'.
    + apply IH; [done|]. intros fp0 H0'. by apply list_elem_of_omap in H0'.
  - apply list.Forall_forall. intros fp' (fp & Hfp & E)%Hin. destruct (tick_key _ _ E) as (_ & -> & _).
    by apply (proj1 (list.Forall_forall _ _) Hf).
  - apply list.Forall_forall. intros fp' (fp & Hfp & E)%Hin.
    destruct (tick_key _ _ E) as (_ & _ & -> & ?).
    apply (proj1 (list.Forall_forall _ _) Ht) in Hfp. cbn in Hfp. lia.
  - apply list.Forall_forall. intros fp' (fp & Hfp & E)%Hin.
    destruct (tick_key _ _ E) as (_ & _ & Et & ?). rewrite Et.
    apply (proj1 (list.Forall_forall _ _) Hb) in Hfp. cbn in Hfp. lia.
Qed.

Lemma drain_loop_nil qs st : (drain_loop qs st).1 = [].
Proof. revert st. by induction qs as [|q qs IH]; intros st; [|apply IH]. Qed.

Lemma ipqs_wf_nil : ipqs_wf [].
Proof. split; constructor. Qed.

Lemma ip_step_inv ttl s s' : 0 < ttl → ip_step ttl s s' → ip_inv ttl s → ip_inv ttl s'.
Proof.
  intros Httl Hstep [Hwf Hle]. destruct Hstep as [alloc m s|s|s].
  - destruct alloc.
    + split; [by apply ipintr_wf|by apply ipintr_ttl].
    + unfold ip_inv. destruct (ipintr_no_alloc ttl m s) as [->| ->]; [done|].
      split; [by apply ipintr_wf|by apply ipintr_ttl].
  - unfold ip_inv, ip_slowtimo. destruct (slowtimo_loop_omap (ipqs s) (stat s)) as [E _].
    destruct (slowtimo_loop _ _) as [qs st]. cbn [fst ipqs] in *. rewrite E.
    by apply omap_tick_inv.
  - unfold ip_inv, ip_drain. pose proof (drain_loop_nil (ipqs s) (stat s)) as E.
    destruct (drain_loop _ _) as [qs st]. cbn [fst ipqs] in *. rewrite E.
    split; [apply ipqs_wf_nil|constructor].
Qed.

(** C23: In every state that packets, timer ticks and drains can reach from the
    empty one, with or without buffers: each datagram has at most one queue,
    no queue is empty, and the time to live of each is positive and at most
    [ipfragttl]. *)
Theorem ip_reachable_inv ttl st s : 0 < ttl →
  rtc (ip_step ttl) (MkIpState [] st) s → ip_inv ttl s.
Proof.
  intros Httl Hr. remember (MkIpState [] st) as s0 eqn:E0.
  revert s Hr. apply rtc_ind_r; [subst s0|].
  - split; [apply ipqs_wf_nil|constructor].
  - intros s1 s2 _ Hstep. by apply ip_step_inv.
Qed.

Lemma slowtimo_omap s : ipqs (ip_slowtimo s) = omap tick (ipqs s) ∧
  ips_fragtimeout (stat (ip_slowtimo s)) =
    ips_fragtimeout (stat s) + zlen (ipqs s) - zlen (omap tick (ipqs s)).
Proof.
  unfold ip_slowtimo. pose proof (slowtimo_loop_omap (ipqs s) (stat s)) as [E1 E2].
  destruct (slowtimo_loop _ _). cbn in *. by rewrite E1, E2.
Qed.

(** C24: The timer: one tick takes one from the time of every queue and frees
    those that reach zero, counting them; so after [ipfragttl] ticks without
    a packet no reassembly is left. *)
Theorem ip_slowtimo_expires ttl s : ip_inv ttl s →
  ipqs (ip_slowtimo s) = omap tick (ipqs s) ∧
  ips_fragtimeout (stat (ip_slowtimo s)) =
    ips_fragtimeout (stat s) + zlen (ipqs s) - zlen (ipqs (ip_slowtimo s)) ∧
  (∀ n, ttl <= Z.of_nat n → ipqs (Nat.iter n ip_slowtimo s) = []).
Proof.
  intros Hinv. destruct (slowtimo_omap s) as [E1 E2]. split_and!; [done|by rewrite E1|].
  intros n. revert s ttl Hinv E1 E2. induction n as [|n IH]; intros s ttl [Hwf Hle] E1 E2 Hn.
  - destruct Hwf as [_ _ Ht]. cbn. destruct (ipqs s) as [|fp qs]; [done|].
    apply Forall_cons_1 in Ht as [? _], Hle as [? _]. lia.
  - rewrite Nat.iter_succ_r. destruct (slowtimo_omap (ip_slowtimo s)) as [E3 E4].
    apply (IH (ip_slowtimo s) (ttl - 1)); [|done|done|lia].
    unfold ip_inv. rewrite E1. destruct (omap_tick_inv ttl _ Hwf Hle) as [Hwf' _]. split; [done|].
    apply list.Forall_forall. intros fp' Hin. apply list_elem_of_omap in Hin as (fp & Hfp & E).
    destruct (tick_key _ _ E) as (_ & _ & Et & _). cbn. rewrite Et.
    apply (proj1 (list.Forall_forall _ _) Hle) in Hfp. cbn in Hfp. lia.
Qed.

(** ** Two limits of the code *)

(** The length of a reassembled datagram is not checked: two fragments
    that reach beyond 65535 bytes are delivered with all their data, but with
    a length field that has wrapped around. *)
Theorem reass_oversize f g : ip_off (hdr f) = 0 → 0 < ip_len (hdr f) < 65536 →
  ip_off (hdr g) = ip_len (hdr f) → 65536 <= ip_len (hdr f) + ip_len (hdr g) < 131072 →
  zlen (data f) = ip_len (hdr f) → zlen (data g) = ip_len (hdr g) → ipf_mff (hdr g) = false →
  ∃ p, key_step (Some [f]) g = (Some p, None) ∧
    zlen (data p) = ip_len (hdr f) + ip_len (hdr g) ∧
    ip_len (hdr p) = zlen (data p) - 65536.
Proof.
  intros Hf0 Hfl Hg0 Hl Hdf Hdg Hm. unfold key_step. cbn [reass_insert].
  rewrite Hf0, Hg0, (u16_id 0), (u16_id (len f)) by lia.
  destruct (Z.ltb_spec 0 (len f)); [|lia].
  replace (0 + len f - len f) with 0 by lia. cbn [Z.ltb andb Z.compare].
  unfold reass_done. cbn [contiguous]. rewrite Hf0, Hg0, (u16_id 0), (u16_id (len f)) by lia.
  cbn [Z.eqb]. rewrite Z.add_0_l, Z.eqb_refl. cbn [mbind option_bind last_mff list.last].
  unfold last_mff. cbn [list.last]. rewrite Hm. cbn [mbind option_bind head map concat].
  eexists. split; [done|]. cbn [data hdr set_mff set_len ip_len]. rewrite app_nil_r, zlen_app.
  split; [lia|]. unfold u16. rewrite Hdf, Hdg.
  replace (len f + len g) with (len f + len g - 65536 + 1 * 65536) at 1 by lia.
  rewrite Z.mod_add by lia. apply Z.mod_small. lia.
Qed.

(** If [ip_off] is a signed field, a fragment that arrives before its
    predecessor and starts at 32768 or later is compared without the cast: the
    predecessor, which does not overlap it at all, loses all its data. *)
Theorem reass_signed_offset f g : 0 <= ip_off (hdr f) → 0 <= ip_len (hdr f) →
  ip_off (hdr f) + ip_len (hdr f) = ip_off (hdr g) → 32768 <= ip_off (hdr g) < 65536 →
  0 < ip_len (hdr g) → ip_int (ip_off (hdr g)) = ip_off (hdr g) - 65536 →
  zlen (data f) = ip_len (hdr f) →
  ∃ f', reass_insert f [g] = (false, [f'; g]) ∧ data f' = [] ∧
    ip_len (hdr f') = ip_len (hdr f) - 65536.
Proof.
  intros Hf0 Hfl Hadj Hg Hgl Hs Hd. cbn [reass_insert]. rewrite !u16_id by lia.
  destruct (Z.ltb_spec (off g) (off f)); [lia|]. unfold insert_here. cbn [drop_covered].
  rewrite !u16_id by lia. destruct (Z.leb_spec (off g + len g) (off f + len f)); [lia|].
  rewrite Hs. destruct (Z.ltb_spec 0 (off f + len f - (off g - 65536))); [|lia].
  eexists. split; [done|]. cbn [trim data hdr set_len ip_len]. split; [|lia].
  apply ztake_neg. lia.
Qed.
End Reassembly.

(** ** The values of RFC 791 *)

(** With [u_short ip_off], and with [short ip_off]. *)
#[export] Instance rfc_ip_defs : IpDefs := {|
  IP_DF := 16384; IP_MF := 8192; IPOPT_EOL := 0; IPOPT_NOP := 1;
  IPOPT_COPIED o := 128 <=? o; sizeof_ip := 20; ip_int x := x; OFF_MAX := 65536
|}.

#[export] Instance rfc_ip_defs_laws : IpDefsLaws.
Proof. split; cbn; try done; lia. Qed.

Definition short_ip_defs : IpDefs := {|
  IP_DF := 16384; IP_MF := 8192; IPOPT_EOL := 0; IPOPT_NOP := 1;
  IPOPT_COPIED o := 128 <=? o; sizeof_ip := 20; ip_int := s16; OFF_MAX := 32768
|}.

(** A datagram with options and forty bytes of data. *)
Definition sample_opts : list bytes := [[1]; [131; 3; 9]].
Definition sample_pkt : pkt :=
  MkPkt (MkIp 6 0 false 64 77 0 64 17 0 10 20 [1; 131; 3; 9]) (map Z.of_nat (seq 0 40)).
Definition sample_key : key := (77, 10, 20, 17).

(** The fragments of it on an interface of 40 bytes. *)
Definition sample_sendit : option (Z * list pkt * ipstat) :=
  ip_sendit (λ f s, (0, s ++ [f])) (λ _, 5) true 90 55 50 50 40 24 sample_pkt [] no_stat.
Definition sample_frags : list pkt :=
  match sample_sendit with Some (_, fs, _) => fs | None => [] end.
Definition sample_stat : ipstat :=
  match sample_sendit with Some (_, _, st) => st | None => no_stat end.

(** Another datagram. *)
Definition other_pkt : pkt := MkPkt (MkIp 5 0 false 24 78 8192 64 17 0 10 20 []) [1; 2; 3; 4].

(** They arrive in reverse, with the other one in between. *)
Definition sample_arrivals : list pkt :=
  match rev sample_frags with m :: ms => m :: other_pkt :: ms | [] => [] end.

Lemma sample_opts_valid : opts_valid sample_pkt sample_opts.
Proof.
  split.
  - constructor; [constructor|]. constructor; [|constructor]. by apply (option_tlv 131 [9]).
  - exists []. by split; [left|].
Qed.

Lemma sample_ok : hdr_ok sample_pkt.
Proof. split_and!; vm_compute; done. Qed.

Lemma ip_optcopy_spec_witness :
  ∃ o, ip_optcopy 5 (hdr sample_pkt) [0; 1] = Some o ∧
    o = pad4 (concat (filter option_copied sample_opts)) ∧
    zlen o mod 4 = 0 ∧ zlen o <= zlen (ip_opts (hdr sample_pkt)).
Proof.
  apply (ip_optcopy_spec 5 (hdr sample_pkt) [0; 1] sample_opts []).
  - apply sample_opts_valid.
  - by left.
  - reflexivity.
  - reflexivity.
  - done.
  - simpl. lia.
Defined.

Lemma ip_sendit_spec_witness :
  ∃ f fs, ip_sendit (λ f s, (0, s ++ [f])) (λ _, 5) true 90 55 50 50 40 24 sample_pkt [] no_stat =
      Some (let '(e, s') := send_or_free (λ f s, (0, s ++ [f])) 0 (f :: fs) [] in
            (e, s', add_output (zlen fs) false e no_stat)) ∧
    fs ≠ [] ∧ laid_out (8 * 0) false (data sample_pkt) (f :: fs) ∧
    Forall (sent_ok (λ _, 5) true sample_pkt 40) (f :: fs) ∧
    ip_opts (hdr f) = ip_opts (hdr sample_pkt) ∧ ip_hl (hdr f) = ip_hl (hdr sample_pkt).
Proof.
  apply (ip_sendit_spec (λ f s, (0, s ++ [f])) (λ _, 5) true 90 55 50 50 40 sample_pkt 0 false
    sample_opts [] no_stat).
  - exact sample_ok.
  - reflexivity.
  - vm_compute. split; discriminate.
  - reflexivity.
  - exact sample_opts_valid.
  - done.
  - simpl. lia.
  - vm_compute. split; [discriminate|reflexivity].
  - reflexivity.
  - vm_compute. discriminate.
Defined.

Lemma fragment_roundtrip_witness :
  let '(rs, s') := ipintr_run 60 sample_arrivals (MkIpState [] no_stat) in
  ipqs_wf (ipqs s') ∧ queue_at sample_key (ipqs s') = None ∧
  ∃ p, outputs_of sample_key sample_arrivals rs =
      replicate (length sample_frags - 1) None ++ [Some p] ∧
    data p = data sample_pkt ∧ hdr_key (hdr p) = sample_key ∧
    ip_hl (hdr p) = ip_hl (hdr sample_pkt) ∧ ip_opts (hdr p) = ip_opts (hdr sample_pkt) ∧
    ip_len (hdr p) = zlen (data sample_pkt).
Proof.
  apply (fragment_roundtrip (λ _, 5) true 90 55 50 50 40 sample_pkt sample_opts no_stat
    sample_frags sample_stat 60 sample_arrivals (MkIpState [] no_stat)).
  - exact sample_ok.
  - reflexivity.
  - vm_compute. discriminate.
  - exact sample_opts_valid.
  - done.
  - simpl. lia.
  - vm_compute. split; [discriminate|reflexivity].
  - reflexivity.
  - vm_compute. discriminate.
  - vm_compute. reflexivity.
  - reflexivity.
  - exact ipqs_wf_nil.
  - reflexivity.
  - assert (of_key (hdr_key (hdr sample_pkt)) sample_arrivals = rev sample_frags) as ->
      by (vm_compute; reflexivity).
    symmetry. apply Permutation_rev.
Defined.

(** Two fragments of twelve bytes; the second one arrives first. *)
Definition twelve : bytes := map Z.of_nat (seq 0 12).
Definition frag_a : pkt :=
  MkPkt (MkIp 5 0 false 28 77 8192 64 17 0 10 20 []) (map Z.of_nat (seq 0 8)).
Definition frag_b : pkt :=
  MkPkt (MkIp 5 0 false 24 77 1 64 17 0 10 20 []) (map Z.of_nat (seq 8 4)).

Lemma reassembly_any_order_witness :
  let '(rs, s') := ipintr_run 60 ([frag_b; other_pkt] ++ [frag_a]) (MkIpState [] no_stat) in
  ipqs_wf (ipqs s') ∧ queue_at sample_key (ipqs s') = None ∧
  ∃ p, outputs_of sample_key ([frag_b; other_pkt] ++ [frag_a]) rs =
      replicate (length (of_key sample_key [frag_b; other_pkt])) None ++ [Some p] ∧
    assembled twelve (map host_frag (of_key sample_key ([frag_b; other_pkt] ++ [frag_a]))) p.
Proof.
  apply (reassembly_any_order 60 (MkIpState [] no_stat) sample_key twelve [frag_b; other_pkt] frag_a).
  - reflexivity.
  - exact ipqs_wf_nil.
  - reflexivity.
  - vm_compute. done.
  - vm_compute. done.
  - reflexivity.
  - unfold fragments_of.
    assert (of_key sample_key ([frag_b; other_pkt] ++ [frag_a]) = [frag_b; frag_a]) as ->
      by (vm_compute; reflexivity).
    constructor; [|constructor; [|constructor]];
      (split; [vm_compute; (left; reflexivity) || (right; discriminate)|]);
      (split; [split|]; vm_compute; try split; first [done|discriminate]).
  - assert (of_key sample_key [frag_b; other_pkt] = [frag_b]) as -> by (vm_compute; reflexivity).
    intros Hall. specialize (Hall 0). apply covers_cons in Hall as [Hn|Hn%covers_nil]; [|done|done].
    by destruct Hn as [Hn _].
  - assert (of_key sample_key ([frag_b; other_pkt] ++ [frag_a]) = [frag_b; frag_a]) as ->
      by (vm_compute; reflexivity).
    intros n Hn. change (zlen twelve) with 12 in Hn. apply covers_cons.
    change (ip_off (hdr (host_frag frag_b))) with 8. change (fend (host_frag frag_b)) with 12.
    destruct (decide (n < 8)); [|left; lia]. right. apply covers_cons. left.
    change (ip_off (hdr (host_frag frag_a))) with 0. change (fend (host_frag frag_a)) with 8. lia.
Defined.

Lemma ip_sendit_errors_witness :
  let sendit := ip_sendit (λ f s, (0, s ++ [f])) (λ _, 5) true 90 55 in
  sendit 50%nat 1%nat 40 24 sample_pkt [] no_stat =
    Some (55, [], add_output 1 true 55 no_stat).
Proof.
  apply (proj2 (proj2 (proj2 (ip_sendit_errors (λ f s, (0, s ++ [f])) (λ _, 5) true 90 55 50 1 40 24
    sample_pkt [] no_stat))) ltac:(vm_compute; reflexivity) ltac:(reflexivity)
    ltac:(discriminate) ltac:(discriminate) (Some [1; 131; 3; 9]) (take 1 (drop 1 sample_frags)));
    vm_compute; reflexivity.
Defined.

Lemma ip_reachable_inv_witness :
  ip_inv 60 (ipintr_ours 60 true frag_b (MkIpState [] no_stat)).2.
Proof.
  apply (ip_reachable_inv 60 no_stat); [reflexivity|].
  eapply rtc_l; [apply step_packet|apply rtc_refl].
Defined.

Lemma ip_slowtimo_expires_witness :
  let s := (ipintr_ours 60 true frag_b (MkIpState [] no_stat)).2 in
  ipqs (ip_slowtimo s) = omap tick (ipqs s) ∧
  ips_fragtimeout (stat (ip_slowtimo s)) =
    ips_fragtimeout (stat s) + zlen (ipqs s) - zlen (ipqs (ip_slowtimo s)) ∧
  (∀ n, 60 <= Z.of_nat n → ipqs (Nat.iter n ip_slowtimo s) = []).
Proof.
  apply (ip_slowtimo_expires 60).
  split; [split|]; vm_compute; [|repeat constructor; discriminate|repeat constructor..].
  - apply list.NoDup_singleton.
  - discriminate.
Defined.

(** Fragments of 60000 and 8000 bytes. *)
Definition big_frag (off len : Z) (mff : bool) : pkt :=
  MkPkt (MkIp 5 0 mff len 77 off 64 17 0 10 20 []) (replicate (Z.to_nat len) 0).

Lemma big_frag_len o n b : 0 <= n → zlen (data (big_frag o n b)) = n.
Proof. apply zlen_replicate. Qed.

Lemma reass_oversize_witness :
  ∃ p, key_step (Some [big_frag 0 60000 true]) (big_frag 60000 8000 false) = (Some p, None) ∧
    zlen (data p) = ip_len (hdr (big_frag 0 60000 true)) + ip_len (hdr (big_frag 60000 8000 false)) ∧
    ip_len (hdr p) = zlen (data p) - 65536.
Proof.
  apply (reass_oversize (big_frag 0 60000 true) (big_frag 60000 8000 false)); cbn [big_frag hdr ip_off
    ip_len ipf_mff]; first [reflexivity|lia|by apply big_frag_len].
Defined.

Lemma reass_signed_offset_witness :
  ∃ f', reass_insert (H := short_ip_defs) (big_frag 39992 8 true) [big_frag 40000 8 false] =
      (false, [f'; big_frag 40000 8 false]) ∧
    data f' = [] ∧ ip_len (hdr f') = ip_len (hdr (big_frag 39992 8 true)) - 65536.
Proof.
  apply (reass_signed_offset (H := short_ip_defs) (big_frag 39992 8 true) (big_frag 40000 8 false));
    vm_compute; first [reflexivity|discriminate|split; [discriminate|reflexivity]].
Defined.
