(* ===== verification/Secrets.v ===== *)
(** * Secrets files and the secrets table ([ppp/options.c], [ppp/auth.c], [ppp/pppSecretLib.c])

    [getword] reads the words of a configuration file, [scan_authfile] finds
    the best entry of an authorization file for a client and a server, and
    [pppSecretAdd], [pppSecretDelete] and [pppSecretFind] keep the table that
    serves the same purpose without a file system.

    A file is the list of its bytes and the file system a function from
    names to contents; read errors (which end the task) are left out.  A C
    string is the list of its bytes before the NUL.  A fault is a write
    outside the caller's buffer; exhaustion of the fuel is excluded by a
    theorem. *)
From Stdlib Require Import ZArith Lia Bool.
From stdpp Require Import base tactics list sets numbers option.
From S2P Require Import Prelude.

Local Open Scope Z_scope.

(** ** What the sources take from [pppLib.h] *)

Class SecretDefs := {
  MAXWORDLEN : Z;
  MAXSECRETLEN : Z;
  NONWILD_CLIENT : Z;
  NONWILD_SERVER : Z;
  ISWILD : bytes → bool
}.

Class SecretDefsLaws `{SecretDefs} := {
  MAXWORDLEN_pos : 2 < MAXWORDLEN;
  MAXSECRETLEN_pos : 0 < MAXSECRETLEN;
  NONWILD_pos : 0 < NONWILD_CLIENT ∧ 0 < NONWILD_SERVER;
  NONWILD_disjoint : Z.land NONWILD_CLIENT NONWILD_SERVER = 0;
  ISWILD_star : ∀ w, ISWILD w = true ↔ w = [42]
}.

(** ** Data *)

(** The bytes of a C string, without its NUL. *)
Fixpoint cstr (l : bytes) : bytes :=
  match l with
  | [] => []
  | c :: r => if c =? 0 then [] else c :: cstr r
  end.

(** [isspace] in the C locale. *)
Definition isspace (c : Z) : bool := ((9 <=? c) && (c <=? 13)) || (c =? 32).

(** [best_flag], the contents of [secret] and the address list. *)
Record match_state := MkMatch {
  best_flag : Z;
  m_secret : bytes;
  addr_list : list bytes
}.

(** [struct ppp_secret]. *)
Record ppp_secret := MkSecret {
  s_client : bytes;
  s_server : bytes;
  s_secret : bytes;
  s_addrs : bytes
}.

#[export] Instance ppp_secret_eq_dec : EqDecision ppp_secret.
Proof. solve_decision. Defined.

Section Secrets.
Context `{SecretDefsLaws}.
Variable fopen : bytes → option bytes.     (** the files that can be read *)

(** *** [getword] *)

(** The loop over white space and comments.  The result tells whether a
    backslash was read before the word, the input from the character [c] on,
    and [*newlinep]. *)
Fixpoint gw_skip (l : bytes) (comment newline : bool) : option (bool * bytes * bool) :=
  match l with
  | [] => None
  | c :: r =>
      if comment then gw_skip r (negb (c =? 10)) (newline || (c =? 10))
      else if c =? 92 then
        match r with
        | [] => None
        | d :: r' => if d =? 10 then gw_skip r' false newline else Some (true, r, newline)
        end
      else if c =? 10 then gw_skip r false true
      else if c =? 35 then gw_skip r true newline
      else if isspace c then gw_skip r false newline
      else Some (false, l, newline)
  end.

(** [word[i] = c], where nothing behind index [i] is used again. *)
Definition put_word (i c : Z) (word : bytes) : bytes := ztake i word ++ [c].

(** The loop over the characters of the word; no result when it writes
    outside [word].  [word] holds the bytes below [len] that were stored. *)
Fixpoint gw_loop (l : bytes) (len : Z) (word : bytes) (escape quoted : bool)
    : option (bytes * Z * bytes) :=
  match l with
  | [] => Some (word, len, [])
  | c :: r =>
      if escape then
        if c =? 10 then gw_loop r (len - 1) (ztake (len - 1) word) false quoted
        else if (c =? 34) || isspace c || (c =? 92) then
          if len - 1 <? MAXWORDLEN
          then gw_loop r len (put_word (len - 1) c word) false quoted
          else None
        else
          let word := if len <? MAXWORDLEN - 1 then put_word len c word else word in
          gw_loop r (len + 1) word false quoted
      else if c =? 34 then gw_loop r len word false (negb quoted)
      else if negb quoted && (isspace c || (c =? 35)) then Some (word, len, l)
      else
        let word := if len <? MAXWORDLEN - 1 then put_word len c word else word in
        gw_loop r (len + 1) word (c =? 92) quoted
  end.

(** The word, [*newlinep] and the rest of the file. *)
Definition getword (f : bytes) : rd (bytes * bool * bytes) :=
  match gw_skip f false false with
  | None => RdEof
  | Some (escape, l, newline) =>
      match gw_loop l (if escape then 1 else 0) (if escape then [92] else []) escape false with
      | None => RdFault
      | Some (word, len, rest) =>
          let len := if MAXWORDLEN <=? len then MAXWORDLEN - 1 else len in
          Rd (cstr (ztake len word), newline, rest)
      end
  end.

(** *** [scan_authfile] *)

(** [name != NULL && name[0] && strcmp (word, name) != 0 && !ISWILD (word)]. *)
Definition mismatch (name : option bytes) (word : bytes) : bool :=
  match name with
  | Some ((_ :: _) as n) => negb (bool_decide (word = n)) && negb (ISWILD word)
  | _ => false
  end.

(** [while (!newline && getword (f, word, &newline, fileName));] followed by
    [if (!newline) break;]. *)
Fixpoint skip_to_line (fuel : nat) (word : bytes) (newline : bool) (f : bytes)
    : rd (bytes * bytes) :=
  if newline then Rd (word, f)
  else
    match fuel with
    | O => RdFuel
    | S n =>
        match getword f with
        | Rd (word, newline, f) => skip_to_line n word newline f
        | RdEof => RdEof
        | RdFault => RdFault
        | RdFuel => RdFuel
        end
    end.

(** "@filename means read secret from file".  The end of the file stands for
    a secret that cannot be read. *)
Definition read_secret (word : bytes) : rd bytes :=
  match word with
  | c :: name =>
      if c =? 64 then
        match fopen name with
        | None => RdEof
        | Some sf =>
            match getword sf with
            | Rd (w, _, _) => Rd w
            | RdEof => RdEof
            | RdFault => RdFault
            | RdFuel => RdFuel
            end
        end
      else Rd word
  | [] => Rd word
  end.

(** The address words of a line, and the first word of the next one. *)
Fixpoint read_addrs (fuel : nat) (f : bytes) (addrs : list bytes)
    : rd (list bytes * option (bytes * bytes)) :=
  match fuel with
  | O => RdFuel
  | S n =>
      match getword f with
      | Rd (word, newline, f) =>
          if newline then Rd (addrs, Some (word, f)) else read_addrs n f (addrs ++ [word])
      | RdEof => Rd (addrs, None)
      | RdFault => RdFault
      | RdFuel => RdFuel
      end
  end.

(** One line, whose first word is [word]; [continue] is the next iteration. *)
Definition scan_line (client server : option bytes)
    (continue : bytes → bool → bytes → match_state → rd match_state)
    (word f : bytes) (best : match_state) : rd match_state :=
  if mismatch client word then continue word false f best
  else
    let got_flag := if ISWILD word then 0 else NONWILD_CLIENT in
    match getword f with
    | RdEof => Rd best
    | RdFault => RdFault
    | RdFuel => RdFuel
    | Rd (word, newline, f) =>
        if newline then continue word newline f best
        else if mismatch server word then continue word newline f best
        else
          let got_flag := if ISWILD word then got_flag else Z.lor got_flag NONWILD_SERVER in
          if got_flag <=? best_flag best then continue word newline f best
          else
            match getword f with
            | RdEof => Rd best
            | RdFault => RdFault
            | RdFuel => RdFuel
            | Rd (word, newline, f) =>
                if newline then continue word newline f best
                else
                  match read_secret word with
                  | RdEof => continue word newline f best
                  | RdFault => RdFault
                  | RdFuel => RdFuel
                  | Rd secret =>
                      match read_addrs (S (length f)) f [] with
                      | Rd (addrs, Some (word, f)) =>
                          continue word true f (MkMatch got_flag secret addrs)
                      | Rd (addrs, None) => Rd (MkMatch got_flag secret addrs)
                      | RdEof => RdEof
                      | RdFault => RdFault
                      | RdFuel => RdFuel
                      end
                  end
            end
    end.

Fixpoint scan_lines (client server : option bytes) (fuel : nat)
    (word : bytes) (newline : bool) (f : bytes) (best : match_state) : rd match_state :=
  match fuel with
  | O => RdFuel
  | S n =>
      match skip_to_line (S (length f)) word newline f with
      | Rd (word, f) => scan_line client server (scan_lines client server n) word f best
      | RdEof => Rd best
      | RdFault => RdFault
      | RdFuel => RdFuel
      end
  end.

(** [secret] is the caller's buffer. *)
Definition scan_authfile (f : bytes) (client server : option bytes) (secret : bytes)
    : rd match_state :=
  let best := MkMatch (-1) secret [] in
  match getword f with
  | Rd (word, _, f) => scan_lines client server (2 * length f + 2) word true f best
  | RdEof => Rd best
  | RdFault => RdFault
  | RdFuel => RdFuel
  end.

(** *** The secrets table

    [None] is the table before [pppSecretLibInit]. *)

Definition pppSecretLibInit (t : option (list ppp_secret)) : option (list ppp_secret) :=
  match t with None => Some [] | Some _ => t end.

Definition pppSecretAdd (client server secret addrs : option bytes)
    (t : option (list ppp_secret)) : bool * option (list ppp_secret) :=
  match t with
  | None => (false, t)
  | Some l =>
      (true, Some (MkSecret (default [] client) (default [] server)
                            (default [] secret) (default [] addrs) :: l))
  end.

Fixpoint secret_unlink (client server secret : bytes) (l : list ppp_secret)
    : option (list ppp_secret) :=
  match l with
  | [] => None
  | e :: r =>
      if bool_decide (client = s_client e) && bool_decide (server = s_server e) &&
         bool_decide (secret = s_secret e)
      then Some r
      else match secret_unlink client server secret r with
           | Some r' => Some (e :: r')
           | None => None
           end
  end.

Definition pppSecretDelete (client server secret : bytes) (t : option (list ppp_secret))
    : bool * option (list ppp_secret) :=
  match t with
  | None => (false, t)
  | Some l =>
      match secret_unlink client server secret l with
      | Some l' => (true, Some l')
      | None => (false, t)
      end
  end.

(** One iteration of the search: [pSecret], [got_flag] and [best_flag]. *)
Definition find_step (client server : option bytes)
    (st : option ppp_secret * Z * Z) (e : ppp_secret) : option ppp_secret * Z * Z :=
  let '(p, got_flag, best_flag) := st in
  if mismatch client (s_client e) || mismatch server (s_server e) then st
  else
    let got_flag := if ISWILD (s_client e) then got_flag else NONWILD_CLIENT in
    let got_flag := if ISWILD (s_server e) then got_flag else Z.lor got_flag NONWILD_SERVER in
    if best_flag <? got_flag then (Some e, got_flag, got_flag) else (p, got_flag, best_flag).

(** [strtok_r] over the separators space and tab. *)
Fixpoint strtok_words (word l : bytes) : list bytes :=
  match l with
  | [] => match word with [] => [] | _ => [word] end
  | c :: r =>
      if (c =? 32) || (c =? 9)
      then match word with [] => strtok_words [] r | _ => word :: strtok_words [] r end
      else strtok_words (word ++ [c]) r
  end.

(** [(sf = fopen (atfile, "r")) == NULL]. *)
Definition indirect_missing (secret : bytes) : bool :=
  match secret with
  | c :: name => (c =? 64) && match fopen name with None => true | Some _ => false end
  | [] => false
  end.

(** The end of the file stands for ERROR.  When the indirect secret file
    cannot be opened the null pointer is closed. *)
Definition pppSecretFind (t : option (list ppp_secret)) (client server : option bytes)
    (want_secret : bool) : rd match_state :=
  match t with
  | None => RdEof
  | Some l =>
      match fold_left (find_step client server) l (None, 0, -1) with
      | (None, _, _) => RdEof
      | (Some e, _, best_flag) =>
          let addrs := strtok_words [] (s_addrs e) in
          if want_secret then
            if indirect_missing (s_secret e) then RdFault
            else
              match read_secret (s_secret e) with
              | Rd secret => Rd (MkMatch best_flag secret addrs)
              | RdEof => RdEof
              | RdFault => RdFault
              | RdFuel => RdFuel
              end
          else Rd (MkMatch best_flag [] addrs)
      end
  end.

(** ** Progress: every word consumes input *)

Lemma gw_skip_shrinks : ∀ n l comment newline e l' nl, (length l <= n)%nat →
  gw_skip l comment newline = Some (e, l', nl) →
  (0 < length l' <= length l)%nat ∧ (e = true → (length l' < length l)%nat).
Proof.
  induction n as [|n IH]; intros [|c r] comment newline e l' nl Hn E; cbn [length] in Hn;
    try lia; cbn [gw_skip] in E; try discriminate.
  assert (∀ cm nw, gw_skip r cm nw = Some (e, l', nl) →
    (0 < length l' <= length (c :: r))%nat ∧ (e = true → (length l' < length (c :: r))%nat))
    as Hr.
  { intros cm nw E'. apply IH in E'; [|lia]. cbn [length]. destruct E'. split; [lia|intuition lia]. }
  destruct comment; [by eapply Hr|].
  destruct (c =? 92).
  - destruct r as [|d r']; [discriminate|]. destruct (d =? 10).
    + apply IH in E; [|cbn [length] in Hn; lia]. cbn [length]. destruct E. split; [lia|intuition lia].
    + injection E as <- <- <-. cbn [length]. split; [lia|intros _; lia].
  - destruct (c =? 10); [by eapply Hr|]. destruct (c =? 35); [by eapply Hr|].
    destruct (isspace c); [by eapply Hr|]. injection E as <- <- <-. cbn [length].
    split; [lia|done].
Qed.

Lemma gw_loop_shrinks : ∀ l len word escape quoted w n rest,
  gw_loop l len word escape quoted = Some (w, n, rest) → (length rest <= length l)%nat.
Proof.
  induction l as [|c r IH]; intros len word escape quoted w n rest E; cbn [gw_loop] in E.
  { injection E as <- <- <-. done. }
  cbn [length].
  repeat case_match; try discriminate; try (apply IH in E; lia).
  injection E as <- <- <-. cbn [length]. lia.
Qed.

(** The first character behind the white space is consumed as well. *)
Lemma gw_skip_word : ∀ n l comment newline l' nl, (length l <= n)%nat →
  gw_skip l comment newline = Some (false, l', nl) →
  ∃ c r, l' = c :: r ∧ c ≠ 92 ∧ isspace c = false ∧ c ≠ 35.
Proof.
  induction n as [|n IH]; intros [|c r] comment newline l' nl Hn E; cbn [length] in Hn;
    try lia; cbn [gw_skip] in E; try discriminate.
  destruct comment; [apply IH in E; [done|lia]|].
  destruct (Z.eqb_spec c 92).
  - destruct r as [|d r']; [discriminate|]. destruct (d =? 10); [|discriminate].
    apply IH in E; [done|cbn [length] in Hn; lia].
  - destruct (c =? 10); [apply IH in E; [done|lia]|].
    destruct (Z.eqb_spec c 35); [apply IH in E; [done|lia]|].
    destruct (isspace c) eqn:Hs; [apply IH in E; [done|lia]|].
    injection E as <- <-. eauto 10.
Qed.

Lemma getword_shrinks f w newline rest :
  getword f = Rd (w, newline, rest) → (length rest < length f)%nat.
Proof.
  unfold getword. destruct (gw_skip f false false) as [[[e l'] nl]|] eqn:Hs; [|discriminate].
  destruct (gw_skip_shrinks (length f) _ _ _ _ _ _ ltac:(done) Hs) as [Hl He].
  destruct (gw_loop l' _ _ e false) as [[[w' n] r]|] eqn:Hg; [|discriminate].
  intros [= _ _ <-]. destruct e.
  { apply gw_loop_shrinks in Hg. specialize (He eq_refl). lia. }
  destruct (gw_skip_word (length f) _ _ _ _ _ ltac:(done) Hs) as (c & r' & -> & _ & Hsp & Hc).
  cbn [gw_loop] in Hg. apply Z.eqb_neq in Hc. rewrite Hsp, Hc in Hg. cbn [orb] in Hg.
  rewrite andb_false_r in Hg. cbn [length] in Hl.
  destruct (c =? 34); apply gw_loop_shrinks in Hg; lia.
Qed.

Lemma getword_no_fuel f : getword f ≠ RdFuel.
Proof. unfold getword. by repeat case_match. Qed.

Lemma skip_to_line_total : ∀ fuel word newline f, (length f < fuel)%nat →
  skip_to_line fuel word newline f ≠ RdFuel ∧
  ∀ w r, skip_to_line fuel word newline f = Rd (w, r) →
    (length r <= length f)%nat ∧ (newline = false → (length r < length f)%nat).
Proof.
  induction fuel as [|n IH]; intros word newline f Hf; [lia|]. cbn [skip_to_line].
  destruct newline.
  { split; [done|]. intros w r [= <- <-]. by split. }
  destruct (getword f) as [[[w' nl'] f']| | |] eqn:Hg.
  - apply getword_shrinks in Hg. destruct (IH w' nl' f' ltac:(lia)) as [H1 H2].
    split; [done|]. intros w r E. apply H2 in E as [? _]. split; [lia|]. intros _. lia.
  - done.
  - done.
  - by apply getword_no_fuel in Hg.
Qed.

Lemma read_secret_no_fuel w : read_secret w ≠ RdFuel.
Proof.
  unfold read_secret. destruct w as [|c name]; [done|]. destruct (c =? 64); [|done].
  destruct (fopen name) as [sf|]; [|done]. pose proof (getword_no_fuel sf).
  by destruct (getword sf) as [[[]]| | |].
Qed.

Lemma read_addrs_total : ∀ fuel f acc, (length f < fuel)%nat →
  read_addrs fuel f acc ≠ RdFuel ∧ read_addrs fuel f acc ≠ RdEof ∧
  ∀ a w r, read_addrs fuel f acc = Rd (a, Some (w, r)) → (length r < length f)%nat.
Proof.
  induction fuel as [|n IH]; intros f acc Hf; [lia|]. cbn [read_addrs].
  destruct (getword f) as [[[w' nl'] f']| | |] eqn:Hg; try done.
  - apply getword_shrinks in Hg. destruct nl'.
    + split_and!; try done. by intros a w r [= <- <- <-].
    + destruct (IH f' (acc ++ [w']) ltac:(lia)) as (H1 & H2 & H3).
      split_and!; try done. intros a w r E. apply H3 in E. lia.
  - by apply getword_no_fuel in Hg.
Qed.

Ltac word_step :=
  match goal with
  | |- context [getword ?f] =>
      let E := fresh in
      destruct (getword f) as [[[? ?] ?]| | |] eqn:E;
      [apply getword_shrinks in E | done | done | by apply getword_no_fuel in E]
  end.

Lemma scan_line_total client server k word f best :
  (∀ w (nl : bool) f' b, (2 * length f' + (if nl then 1 else 0) <= 2 * length f)%nat →
    k w nl f' b ≠ RdFuel) →
  scan_line client server k word f best ≠ RdFuel.
Proof.
  intros Hk. unfold scan_line. destruct (mismatch client word); [apply Hk; lia|].
  word_step. destruct b; [apply Hk; lia|].
  destruct (mismatch server l); [apply Hk; lia|].
  destruct (_ <=? best_flag best); [apply Hk; lia|].
  word_step. destruct b; [apply Hk; lia|].
  destruct (read_secret l1) as [secret| | |] eqn:Hs; try done; [|apply Hk; lia|
    by apply read_secret_no_fuel in Hs].
  destruct (read_addrs_total (S (length l2)) l2 [] ltac:(lia)) as (Ha & Hb & Hc).
  destruct (read_addrs (S (length l2)) l2 []) as [[a [[w r]|]]| | |]; try done.
  apply Hk. specialize (Hc a w r eq_refl). lia.
Qed.

Lemma scan_lines_total client server : ∀ fuel word newline f best,
  (2 * length f + (if newline : bool then 1 else 0) < fuel)%nat →
  scan_lines client server fuel word newline f best ≠ RdFuel.
Proof.
  induction fuel as [|n IH]; intros word newline f best Hf; [lia|]. cbn [scan_lines].
  destruct (skip_to_line_total (S (length f)) word newline f ltac:(lia)) as [H1 H2].
  destruct (skip_to_line _ word newline f) as [[w r]| | |]; try done.
  destruct (H2 w r eq_refl) as [H3 H4].
  apply scan_line_total. intros w' nl f' b Hf'. apply IH.
  destruct newline; [lia|]. specialize (H4 eq_refl). lia.
Qed.

(** ** Authorization files as the administrator writes them *)

Record line := MkLine {
  l_client : bytes;
  l_server : bytes;
  l_secret : bytes;
  l_addrs : list bytes
}.

Definition quote_char (c : Z) : bytes := if (c =? 34) || (c =? 92) then [92; c] else [c].
Definition quote (w : bytes) : bytes := [34] ++ flat_map quote_char w ++ [34].
Definition args (ws : list bytes) : bytes := flat_map (λ w, 32 :: quote w) ws.
Definition line_args (e : line) : bytes :=
  args (l_server e :: l_secret e :: l_addrs e) ++ [10].
Definition fmt_line (e : line) : bytes := quote (l_client e) ++ line_args e.
Definition fmt (ls : list line) : bytes := flat_map fmt_line ls.

(** A word that fits the buffer and has no NUL. *)
Definition word_ok (w : bytes) : Prop := Forall (λ c, c ≠ 0) w ∧ zlen w < MAXWORDLEN.
Definition line_ok (e : line) : Prop :=
  word_ok (l_client e) ∧ word_ok (l_server e) ∧ word_ok (l_secret e) ∧
  Forall word_ok (l_addrs e).

(** ** What the searches are to find *)

(** The secret of an entry, where a leading @ names a file. *)
Definition secret_of (secret : bytes) : option bytes :=
  match read_secret secret with Rd s => Some s | _ => None end.

Definition flag_of (client server : bytes) : Z :=
  Z.lor (if ISWILD client then 0 else NONWILD_CLIENT)
        (if ISWILD server then 0 else NONWILD_SERVER).

Definition applies (client server : option bytes) (e : line) : bool :=
  negb (mismatch client (l_client e)) && negb (mismatch server (l_server e)).

Definition usable (client server : option bytes) (e : line) : Prop :=
  applies client server e = true ∧ is_Some (secret_of (l_secret e)).

(** [m] is the first of the best usable entries of [ls], or [m0] if there is none. *)
Definition best_match (client server : option bytes) (ls : list line) (m0 m : match_state) : Prop :=
  (m = m0 ∧ ∀ e, e ∈ ls → ¬ usable client server e) ∨
  ∃ pre e post s, ls = pre ++ e :: post ∧ usable client server e ∧
    secret_of (l_secret e) = Some s ∧
    m = MkMatch (flag_of (l_client e) (l_server e)) s (l_addrs e) ∧
    (∀ e', e' ∈ pre → usable client server e' →
       flag_of (l_client e') (l_server e') < flag_of (l_client e) (l_server e)) ∧
    (∀ e', e' ∈ post → usable client server e' →
       flag_of (l_client e') (l_server e') <= flag_of (l_client e) (l_server e)).

(** One step of the search over the lines of the file. *)
Definition consider (client server : option bytes) (m : match_state) (e : line) : match_state :=
  if applies client server e then
    if flag_of (l_client e) (l_server e) <=? best_flag m then m
    else match secret_of (l_secret e) with
         | Some s => MkMatch (flag_of (l_client e) (l_server e)) s (l_addrs e)
         | None => m
         end
  else m.

(** ** Reading back quoted words *)

Lemma cstr_id w : Forall (λ c, c ≠ 0) w → cstr w = w.
Proof.
  induction 1 as [|c r Hc _ IH]; [done|]. cbn [cstr]. apply Z.eqb_neq in Hc. by rewrite Hc, IH.
Qed.

Lemma put_word_app word c : put_word (zlen word) c word = word ++ [c].
Proof. unfold put_word. by rewrite ztake_all by lia. Qed.

Lemma gw_loop_quoted : ∀ w acc rest, zlen acc + zlen w < MAXWORDLEN →
  gw_loop (flat_map quote_char w ++ 34 :: rest) (zlen acc) acc false true =
  gw_loop rest (zlen acc + zlen w) (acc ++ w) false false.
Proof.
  induction w as [|c w IH]; intros acc rest Hl.
  { cbn [flat_map app gw_loop]. change (zlen (@nil Z)) with 0.
    rewrite Z.add_0_r, app_nil_r. done. }
  rewrite zlen_cons in Hl. pose proof (zlen_nonneg w).
  assert (gw_loop (flat_map quote_char w ++ 34 :: rest) (zlen acc + 1) (acc ++ [c]) false true
    = gw_loop rest (zlen acc + zlen (c :: w)) (acc ++ c :: w) false false) as IH'.
  { specialize (IH (acc ++ [c]) rest). rewrite zlen_app, zlen_cons, <- app_assoc in IH.
    change (zlen (@nil Z)) with 0 in IH. cbn [app] in IH. rewrite Z.add_0_r in IH.
    rewrite IH by lia. rewrite zlen_cons. f_equal. lia. }
  assert ((zlen acc <? MAXWORDLEN - 1) = true) as Hroom by (apply Z.ltb_lt; lia).
  cbn [flat_map]. unfold quote_char at 1.
  destruct (Z.eqb_spec c 34) as [->|Hq]; [|destruct (Z.eqb_spec c 92) as [->|Hb]];
    cbn [orb app gw_loop]; change (92 =? 34) with false; change (92 =? 92) with true;
    change (34 =? 34) with true; change (34 =? 10) with false; change (92 =? 10) with false;
    cbn [orb negb andb]; rewrite ?orb_true_r, ?Hroom, ?put_word_app.
  1,2: replace (zlen acc + 1 - 1) with (zlen acc) by lia;
    replace (zlen acc <? MAXWORDLEN) with true by (symmetry; apply Z.ltb_lt; lia);
    unfold put_word; rewrite ztake_app_le, ztake_all by lia; apply IH'.
  apply Z.eqb_neq in Hq, Hb. rewrite Hq, Hb. cbn [andb]. apply IH'.
Qed.

Lemma getword_quoted pre newline w c rest :
  (pre, newline) ∈ [([], false); ([32], false); ([10], true)] →
  word_ok w → isspace c = true →
  getword (pre ++ quote w ++ c :: rest) = Rd (w, newline, c :: rest).
Proof.
  intros Hpre [Hw Hl] Hc. unfold getword.
  assert (gw_skip (pre ++ quote w ++ c :: rest) false false =
    Some (false, quote w ++ c :: rest, newline)) as ->.
  { rewrite !elem_of_cons, elem_of_nil in Hpre.
    destruct Hpre as [[= -> ->]|[[= -> ->]|[[= -> ->]|[]]]]; done. }
  unfold quote. rewrite <- !app_assoc. cbn [app gw_loop].
  change (34 =? 34) with true. cbn [negb].
  pose proof (gw_loop_quoted w [] (c :: rest) Hl) as E. change (zlen (@nil Z)) with 0 in E.
  cbn [app] in E. cbn [app]. rewrite E. cbn [gw_loop].
  destruct (Z.eqb_spec c 34) as [->|_]; [done|]. rewrite Hc. cbn [negb andb orb].
  rewrite Z.add_0_l.
  replace (MAXWORDLEN <=? zlen w) with false by (symmetry; apply Z.leb_gt; lia).
  by rewrite ztake_all, cstr_id by (done || lia).
Qed.

(** The arguments of a line are followed by white space. *)
Lemma args_space ws r : ∃ c r', args ws ++ 10 :: r = c :: r' ∧ isspace c = true.
Proof. destruct ws; cbn [args flat_map app]; eauto. Qed.

Lemma getword_arg w ws r : word_ok w →
  getword (args (w :: ws) ++ 10 :: r) = Rd (w, false, args ws ++ 10 :: r).
Proof.
  intros Hw. destruct (args_space ws r) as (c & r' & E & Hc).
  assert (args (w :: ws) ++ 10 :: r = [32] ++ quote w ++ args ws ++ 10 :: r) as ->.
  { cbn [args flat_map app]. by rewrite <- app_assoc. }
  rewrite E. apply getword_quoted; [|done..]. set_solver.
Qed.

Lemma line_args_split e r :
  line_args e ++ r = args (l_server e :: l_secret e :: l_addrs e) ++ 10 :: r.
Proof. unfold line_args. by rewrite <- app_assoc. Qed.

Lemma getword_first pre newline e r : (pre, newline) ∈ [([], false); ([10], true)] →
  line_ok e → getword (pre ++ fmt_line e ++ r) = Rd (l_client e, newline, line_args e ++ r).
Proof.
  intros Hpre (Hc & _). unfold fmt_line. rewrite <- app_assoc, line_args_split.
  destruct (args_space (l_server e :: l_secret e :: l_addrs e) r) as (c & r' & -> & Hsp).
  apply getword_quoted; [|done..]. rewrite !elem_of_cons in Hpre. rewrite !elem_of_cons. tauto.
Qed.

(** The end of a line leads to the next line or to the end of the file. *)
Lemma getword_next ls : Forall line_ok ls →
  getword (10 :: fmt ls) =
  match ls with [] => RdEof | e :: ls' => Rd (l_client e, true, line_args e ++ fmt ls') end.
Proof.
  intros Hls. destruct ls as [|e ls']; [done|]. apply Forall_cons_1 in Hls as [He _].
  apply (getword_first [10] true e (fmt ls')); [set_solver|done].
Qed.

Lemma skip_rest : ∀ ws fuel w ls, (length (args ws ++ 10%Z :: fmt ls) < fuel)%nat →
  Forall word_ok ws → Forall line_ok ls →
  skip_to_line fuel w false (args ws ++ 10 :: fmt ls) =
  match ls with [] => RdEof | e :: ls' => Rd (l_client e, line_args e ++ fmt ls') end.
Proof.
  induction ws as [|x ws IH]; intros [|n] w ls Hf Hws Hls; try lia.
  - cbn [args flat_map app skip_to_line]. rewrite getword_next by done.
    destruct ls; [done|]. by destruct n.
  - apply Forall_cons_1 in Hws as [Hx Hws]. cbn [skip_to_line]. pose proof (getword_arg x ws (fmt ls) Hx) as E. rewrite E.
    apply IH; [|done..]. apply getword_shrinks in E. lia.
Qed.

Lemma read_rest : ∀ ws fuel acc ls, (length (args ws ++ 10%Z :: fmt ls) < fuel)%nat →
  Forall word_ok ws → Forall line_ok ls →
  read_addrs fuel (args ws ++ 10 :: fmt ls) acc =
  Rd (acc ++ ws, match ls with
                 | [] => None | e :: ls' => Some (l_client e, line_args e ++ fmt ls') end).
Proof.
  induction ws as [|x ws IH]; intros [|n] acc ls Hf Hws Hls; try lia.
  - cbn [args flat_map app read_addrs]. rewrite getword_next by done.
    rewrite app_nil_r. by destruct ls.
  - apply Forall_cons_1 in Hws as [Hx Hws]. cbn [read_addrs]. pose proof (getword_arg x ws (fmt ls) Hx) as E. rewrite E.
    rewrite IH; [by rewrite <- app_assoc|..|done|done]. apply getword_shrinks in E. lia.
Qed.

(** ** The scan of an authorization file *)

(** The indirect secret files are read without a fault. *)
Definition files_ok : Prop := ∀ name sf, fopen name = Some sf → getword sf ≠ RdFault.

Lemma secret_of_spec w : files_ok →
  match secret_of w with Some s => read_secret w = Rd s | None => read_secret w = RdEof end.
Proof.
  intros Hf. unfold secret_of. pose proof (read_secret_no_fuel w) as Hfuel.
  destruct (read_secret w) eqn:E; try done. exfalso.
  unfold read_secret in E. destruct w as [|c name]; [done|]. destruct (c =? 64); [|done].
  destruct (fopen name) as [sf|] eqn:Hn; [|done]. apply Hf in Hn.
  by destruct (getword sf) as [[[]]| | |].
Qed.

Lemma flag_of_codes client server :
  (if ISWILD server then if ISWILD client then 0 else NONWILD_CLIENT
   else Z.lor (if ISWILD client then 0 else NONWILD_CLIENT) NONWILD_SERVER) =
  flag_of client server.
Proof. unfold flag_of. destruct (ISWILD server); [by rewrite Z.lor_0_r|done]. Qed.

Section Scan.
Context (client server : option bytes).

Lemma flag_of_nonneg a b : 0 <= flag_of a b.
Proof.
  unfold flag_of. apply Z.lor_nonneg. pose proof NONWILD_pos. repeat case_match; lia.
Qed.

(** The best usable entries have the flag of the match. *)
Lemma best_match_max ls m0 m e : best_match client server ls m0 m → e ∈ ls →
  usable client server e → flag_of (l_client e) (l_server e) <= best_flag m.
Proof.
  intros [[-> Hno]|(pre & e0 & post & s & -> & _ & _ & -> & Hpre & Hpost)] He Hu.
  { by destruct (Hno e He). }
  cbn [best_flag]. rewrite elem_of_app, elem_of_cons in He. destruct He as [He|[->|He]].
  - pose proof (Hpre e He Hu). lia.
  - lia.
  - by apply Hpost.
Qed.

Lemma best_match_skip ls m0 m e : best_match client server ls m0 m →
  (usable client server e → 0 <= best_flag m0 ∨ m ≠ m0 ∧
     flag_of (l_client e) (l_server e) <= best_flag m) →
  best_flag m0 = -1 → best_match client server (ls ++ [e]) m0 m.
Proof.
  intros [[-> Hno]|(pre & e0 & post & s & -> & Hu & Hs & -> & Hpre & Hpost)] He Hm.
  - left. split; [done|]. intros e' [Hin|Hin%list_elem_of_singleton]%elem_of_app; [by apply Hno|].
    subst e'. intros Hu. destruct (He Hu) as [?|[? _]]; [lia|done].
  - right. exists pre, e0, (post ++ [e]), s. rewrite <- app_assoc. split_and!; try done.
    intros e' [Hin|Hin%list_elem_of_singleton]%elem_of_app Hu'; [by apply Hpost|].
    subst e'.    destruct (He Hu') as [?|[_ ?]]; [lia|done].
Qed.

(** The fold over the lines finds the first of the best. *)
Lemma consider_best ls m0 : best_flag m0 = -1 →
  best_match client server ls m0 (fold_left (consider client server) ls m0).
Proof.
  intros Hm. induction ls as [|e ls IH] using rev_ind; [left; split; [done|set_solver]|].
  rewrite fold_left_app. cbn [fold_left]. set (m := fold_left _ ls m0) in *.
  unfold consider. destruct (applies client server e) eqn:Ha.
  2: { apply best_match_skip; [done| |done]. intros [Ha' _]. congruence. }
  destruct (Z.leb_spec (flag_of (l_client e) (l_server e)) (best_flag m)) as [Hle|Hgt].
  { apply best_match_skip; [done| |done]. intros _. right. split; [|done].
    intros E. rewrite E, Hm in Hle. pose proof (flag_of_nonneg (l_client e) (l_server e)). lia. }
  destruct (secret_of (l_secret e)) as [s|] eqn:Hs.
  2: { apply best_match_skip; [done| |done]. intros [_ [s Hs']]. congruence. }
  right. exists ls, e, [], s. split_and!; try done; try set_solver.
  intros e' Hin Hu. pose proof (best_match_max _ _ _ _ IH Hin Hu). lia.
Qed.

Hypothesis Hfiles : files_ok.

(** What the rest of the scan makes of the remaining lines. *)
Definition scans_from (k : bytes → bool → bytes → match_state → rd match_state)
    (ls : list line) : Prop :=
  (∀ w ws m, Forall word_ok ws →
     k w false (args ws ++ 10 :: fmt ls) m = Rd (fold_left (consider client server) ls m)) ∧
  match ls with
  | [] => True
  | e :: ls' => ∀ m, k (l_client e) true (line_args e ++ fmt ls') m =
                     Rd (fold_left (consider client server) ls m)
  end.

Lemma scan_line_consider k e ls m : line_ok e → Forall line_ok ls → scans_from k ls →
  scan_line client server k (l_client e) (line_args e ++ fmt ls) m =
  Rd (fold_left (consider client server) (e :: ls) m).
Proof.
  intros (Hc & Hs & Hx & Ha) Hls [Hk1 Hk2]. unfold scan_line. rewrite line_args_split.
  cbn [fold_left]. unfold consider at 2, applies.
  assert (Forall word_ok (l_server e :: l_secret e :: l_addrs e)) as Hall.
  { by repeat apply Forall_cons_2. }
  destruct (mismatch client (l_client e)) eqn:Hm1; cbn [negb andb]; [by apply Hk1|].
  rewrite getword_arg by done.
  destruct (mismatch server (l_server e)) eqn:Hm2; cbn [negb].
  { apply Hk1. by apply Forall_cons_1 in Hall as [_ ?]. }
  rewrite flag_of_codes. destruct (flag_of (l_client e) (l_server e) <=? best_flag m).
  { apply Hk1. by apply Forall_cons_1 in Hall as [_ ?]. }
  rewrite getword_arg by done. pose proof (secret_of_spec (l_secret e) Hfiles) as Hsec.
  destruct (secret_of (l_secret e)) as [s|]; rewrite Hsec; [|by apply Hk1].
  rewrite read_rest by (done || lia). destruct ls as [|e' ls']; [done|]. apply Hk2.
Qed.

Lemma scan_lines_from : ∀ ls n, (length ls < n)%nat → Forall line_ok ls →
  scans_from (scan_lines client server n) ls.
Proof.
  induction ls as [|e ls IH]; intros [|n] Hn Hls; cbn [length] in Hn; try lia.
  - split; [|done]. intros w ws m Hws. cbn [scan_lines]. by rewrite skip_rest by (done || lia).
  - pose proof (Forall_inv_tail Hls) as Hls'. pose proof (Forall_inv Hls) as He.
    specialize (IH n ltac:(lia) Hls'). split.
    + intros w ws m Hws. cbn [scan_lines]. rewrite skip_rest by (done || lia).
      by apply scan_line_consider.
    + intros m. cbn [scan_lines skip_to_line]. by apply scan_line_consider.
Qed.

Lemma fmt_length ls : (length ls <= length (fmt ls))%nat.
Proof.
  induction ls as [|e ls IH]; [done|]. change (fmt (e :: ls)) with (fmt_line e ++ fmt ls).
  rewrite length_app. assert (0 < length (fmt_line e))%nat by (cbn; lia). cbn [length]. lia.
Qed.

Lemma scan_authfile_fold ls secret : Forall line_ok ls →
  scan_authfile (fmt ls) client server secret =
  Rd (fold_left (consider client server) ls (MkMatch (-1) secret [])).
Proof.
  intros Hls. unfold scan_authfile. destruct ls as [|e ls]; [done|].
  pose proof (Forall_inv_tail Hls) as Hls'. pose proof (Forall_inv Hls) as He.
  change (fmt (e :: ls)) with ([] ++ fmt_line e ++ fmt ls).
  rewrite (getword_first [] false) by (done || set_solver).
  eapply (scan_lines_from (e :: ls)); [|done]. rewrite length_app. cbn [length].
  pose proof (fmt_length ls). unfold line_args. rewrite length_app. cbn [length]. lia.
Qed.

(** C25: Reading an authorization file terminates on every file, and on a file written line by
    line (quoted words, address lists, indirect secrets) it returns the first of the entries
    with the most specific match for the client and the server, and nothing if no entry
    with a readable secret applies. *)
Theorem scan_authfile_best :
  (∀ f secret, scan_authfile f client server secret ≠ RdFuel) ∧
  ∀ ls secret, Forall line_ok ls → ∃ m,
    scan_authfile (fmt ls) client server secret = Rd m ∧
    best_match client server ls (MkMatch (-1) secret []) m.
Proof.
  split.
  - intros f secret. unfold scan_authfile. destruct (getword f) as [[[w nl] r]| | |] eqn:E; try done.
    + apply scan_lines_total. apply getword_shrinks in E. lia.
    + by apply getword_no_fuel in E.
  - intros ls secret Hls. eexists. split; [by apply scan_authfile_fold|]. by apply consider_best.
Qed.
End Scan.

(** ** A word that does not fit *)

Lemma gw_loop_plain : ∀ n rest len word, gw_loop (repeat 97 n ++ rest) len word false false =
  gw_loop rest (len + Z.of_nat n)
    (snd (Nat.iter n (λ '(k, w), (k + 1, if k <? MAXWORDLEN - 1 then put_word k 97 w else w))
      (len, word))) false false.
Proof.
  induction n as [|n IH]; intros rest len word; [by rewrite Z.add_0_r|].
  cbn [repeat app gw_loop]. change (97 =? 34) with false. change (97 =? 92) with false.
  change (isspace 97) with false. change (97 =? 35) with false. cbn [orb andb negb].
  rewrite IH. f_equal; [lia|]. by rewrite Nat.iter_succ_r.
Qed.

(** [getword] limits the stores of ordinary characters to the buffer but not the one that
    replaces a backslash: a word of [MAXWORDLEN] characters followed by an escaped backslash
    is written outside the buffer. *)
Theorem getword_overflow rest :
  getword (repeat 97 (Z.to_nat MAXWORDLEN) ++ [92; 92] ++ rest) = RdFault.
Proof.
  pose proof MAXWORDLEN_pos. unfold getword.
  assert (gw_skip (repeat 97 (Z.to_nat MAXWORDLEN) ++ [92; 92] ++ rest) false false =
    Some (false, repeat 97 (Z.to_nat MAXWORDLEN) ++ [92; 92] ++ rest, false)) as ->.
  { destruct (Z.to_nat MAXWORDLEN) eqn:E; [lia|done]. }
  rewrite gw_loop_plain. set (w := snd _). cbn [app gw_loop].
  change (92 =? 34) with false. change (92 =? 92) with true. change (isspace 92) with false.
  change (92 =? 35) with false. change (92 =? 10) with false. cbn [orb andb negb].
  replace (0 + Z.of_nat (Z.to_nat MAXWORDLEN) + 1 - 1 <? MAXWORDLEN) with false; [done|].
  symmetry. apply Z.ltb_ge. lia.
Qed.

(** ** The secrets table *)

(** A table entry as a line of an authorization file. *)
Definition to_line (e : ppp_secret) : line :=
  MkLine (s_client e) (s_server e) (s_secret e) (strtok_words [] (s_addrs e)).

Section Find.
Context (client server : option bytes) (wild : bool) (m0 : match_state).
Hypothesis Hm0 : best_flag m0 = -1.

(** The search and the fold over the lines have the same entry in hand. *)
Definition find_sim (st : option ppp_secret * Z * Z) (m : match_state) : Prop :=
  let '(p, got_flag, best) := st in
  best = best_flag m ∧
  (wild = true → got_flag = 0 ∨ got_flag = NONWILD_SERVER ∧ NONWILD_SERVER <= best) ∧
  match p with
  | None => m = m0
  | Some e => ∃ s, secret_of (s_secret e) = Some s ∧ 0 <= best ∧
      m = MkMatch best s (strtok_words [] (s_addrs e))
  end.

Lemma find_step_sim st m e : find_sim st m → is_Some (secret_of (s_secret e)) →
  (applies client server (to_line e) = true → ISWILD (s_client e) = wild) →
  find_sim (find_step client server st e) (consider client server m (to_line e)).
Proof.
  destruct st as [[p got] best]. intros (-> & Hgot & Hp) [s Hs] Hw.
  unfold find_step, consider. unfold applies, to_line in *.
  cbn [l_client l_server l_secret l_addrs] in *.
  destruct (mismatch client (s_client e)); [done|]. destruct (mismatch server (s_server e)); [done|].
  cbn [orb negb andb] in *. specialize (Hw eq_refl). pose proof NONWILD_pos as [HC HS].
  rewrite Hs. set (f := flag_of (s_client e) (s_server e)).
  set (got' := if ISWILD (s_server e) then _ else _).
  assert ((got' = f ∨ f = 0 ∧ got' = NONWILD_SERVER ∧ NONWILD_SERVER <= best_flag m) ∧
    (wild = true → got' = 0 ∨ got' = NONWILD_SERVER)) as [Hf Hw'].
  { subst f got'. rewrite <- flag_of_codes, Hw. destruct wild; [|split; [left|]; done].
    destruct (Hgot eq_refl) as [->|[-> ?]]; destruct (ISWILD (s_server e));
      rewrite ?Z.lor_diag, ?Z.lor_0_l; auto. }
  pose proof (flag_of_nonneg (s_client e) (s_server e)) as Hfn. fold f in Hfn.
  destruct (Z.ltb_spec (best_flag m) got'), (Z.leb_spec f (best_flag m)); try lia.
  - split; [cbn; lia|]. split; [intros Hwt; destruct (Hw' Hwt); [by left|right; lia]|].
    exists s. split_and!; [done|lia|]. f_equal. lia.
  - split; [done|]. split; [|done]. intros Hwt. destruct (Hw' Hwt); [by left|right; lia].
Qed.

Lemma find_fold_sim : ∀ l st m, find_sim st m →
  Forall (λ e, is_Some (secret_of (s_secret e)) ∧
    (applies client server (to_line e) = true → ISWILD (s_client e) = wild)) l →
  find_sim (fold_left (find_step client server) l st)
           (fold_left (consider client server) (map to_line l) m).
Proof.
  induction l as [|e l IH]; intros st m Hsim Hl; [done|].
  apply Forall_cons_1 in Hl as [[Hs Hw] Hl]. cbn [fold_left map].
  apply IH; [by apply find_step_sim|done].
Qed.
End Find.

Lemma secret_found s x : secret_of s = Some x →
  read_secret s = Rd x ∧ indirect_missing s = false.
Proof.
  unfold secret_of. destruct (read_secret s) eqn:E; [|done..]. intros [= ->]. split; [done|].
  unfold read_secret, indirect_missing in *. destruct s as [|c name]; [done|].
  destruct (c =? 64); [|done]. by destruct (fopen name).
Qed.

(** Where the applicable entries agree on whether their client is a wildcard, the table
    search returns the first of the most specific entries, as the scan of a file with the
    same entries does, and ERROR if none applies. *)
Theorem pppSecretFind_best client server wild l :
  Forall (λ e, is_Some (secret_of (s_secret e)) ∧
    (applies client server (to_line e) = true → ISWILD (s_client e) = wild)) l →
  ∃ m, best_match client server (map to_line l) (MkMatch (-1) [] []) m ∧
    pppSecretFind (Some l) client server true = (if best_flag m =? -1 then RdEof else Rd m).
Proof.
  intros Hl. eexists. split; [by apply consider_best|].
  assert (find_sim wild (MkMatch (-1) [] []) (None, 0, -1) (MkMatch (-1) [] [])) as H1.
  { split; [done|]. split; [by left|done]. }
  pose proof (find_fold_sim client server wild (MkMatch (-1) [] []) l _ _ H1 Hl) as Hsim.
  unfold pppSecretFind. set (m := fold_left (consider client server) _ _) in *.
  destruct (fold_left (find_step client server) l _) as [[[e|] got] best] eqn:Hfold.
  - destruct Hsim as (-> & _ & s & Hs & Hb & Hm). destruct (secret_found _ _ Hs) as [Hr Ho].
    destruct (Z.eqb_spec (best_flag m) (-1)) as [?|_]; [lia|].
    rewrite Ho, Hr, Hm. done.
  - destruct Hsim as (_ & _ & ->). done.
Qed.

(** The search does not reset [got_flag]: behind an applicable entry that names its client,
    an entry with a wildcard client is reported as one that names the client. *)
Lemma pppSecretFind_leak client server c w v s1 a1 s2 a2 :
  mismatch client c = false → mismatch server w = false → mismatch server v = false →
  ISWILD c = false → ISWILD w = true → ISWILD v = false → head s2 ≠ Some 64 →
  pppSecretFind (Some [MkSecret c w s1 a1; MkSecret [42] v s2 a2]) client server true =
  Rd (MkMatch (Z.lor NONWILD_CLIENT NONWILD_SERVER) s2 (strtok_words [] a2)).
Proof.
  intros Hc Hw Hv Hwc Hww Hwv Hs. assert (ISWILD [42] = true) as Hstar by by apply ISWILD_star.
  unfold pppSecretFind, find_step. cbn [fold_left s_client s_server s_secret s_addrs].
  assert (mismatch client [42] = false) as ->.
  { destruct client as [[|x n]|]; [done| |done]. cbn. rewrite Hstar. apply andb_false_r. }
  rewrite Hc, Hw, Hv, Hwc, Hww, Hwv, Hstar. cbn [orb].
  pose proof NONWILD_pos as [HC HS]. destruct (Z.ltb_spec (-1) NONWILD_CLIENT); [|lia].
  destruct (Z.ltb_spec NONWILD_CLIENT (Z.lor NONWILD_CLIENT NONWILD_SERVER)) as [_|Hle].
  - cbn [s_secret s_addrs]. destruct s2 as [|x s2]; [done|].
    assert ((x =? 64) = false) as Hx by (apply Z.eqb_neq; intros ->; done).
    unfold indirect_missing, read_secret. by rewrite Hx.
  - pose proof (Z.add_lor_land NONWILD_CLIENT NONWILD_SERVER) as E.
    rewrite NONWILD_disjoint in E. lia.
Qed.

End Secrets.

(** ** The values of pppd *)

#[export] Instance pppd_secret_defs : SecretDefs := {|
  MAXWORDLEN := 1024; MAXSECRETLEN := 256;
  NONWILD_CLIENT := 1; NONWILD_SERVER := 2;
  ISWILD w := bool_decide (w = [42])
|}.

#[export] Instance pppd_secret_defs_laws : SecretDefsLaws.
Proof. split; try done. intros w. apply bool_decide_eq_true. Qed.

(** ** Witnesses *)

(** A secret in a file of its own, and two lines that apply to the client
    "ab" on the server "s". *)
Definition demo_fopen (name : bytes) : option bytes :=
  if bool_decide (name = [102]) then Some [120; 121; 10] else None.
Definition demo_lines : list line :=
  [MkLine [42] [115] [112] []; MkLine [97; 98] [42] [113] [[49]; [50; 34]];
   MkLine [97; 98] [115] [64; 102] [[45]]; MkLine [99] [115] [114] []].

Lemma demo_files_ok : files_ok demo_fopen.
Proof.
  intros name sf. unfold demo_fopen. case_bool_decide; [|done]. intros [= <-]. by vm_compute.
Qed.

#[export] Instance word_ok_dec w : Decision (word_ok w).
Proof. unfold word_ok. apply _. Defined.
#[export] Instance line_ok_dec e : Decision (line_ok e).
Proof. unfold line_ok. apply _. Defined.

Lemma demo_lines_ok : Forall line_ok demo_lines.
Proof. apply (bool_decide_unpack _). by vm_compute. Qed.

Lemma scan_authfile_best_witness : ∃ m,
  scan_authfile demo_fopen (fmt demo_lines) (Some [97; 98]) (Some [115]) [] = Rd m ∧
  best_match demo_fopen (Some [97; 98]) (Some [115]) demo_lines (MkMatch (-1) [] []) m.
Proof.
  apply (proj2 (scan_authfile_best demo_fopen (Some [97; 98]) (Some [115]) demo_files_ok)).
  apply demo_lines_ok.
Defined.

(** The third line wins; its secret is the first word of the file. *)
Example scan_authfile_demo :
  scan_authfile demo_fopen (fmt demo_lines) (Some [97; 98]) (Some [115]) [] =
  Rd (MkMatch 3 [120; 121] [[45]]).
Proof. by vm_compute. Qed.

Lemma getword_overflow_witness : getword (repeat 97 (Z.to_nat MAXWORDLEN) ++ [92; 92] ++ [10]) = RdFault.
Proof. apply (getword_overflow [10]). Defined.

Definition demo_table : list ppp_secret :=
  [MkSecret [97] [42] [112] []; MkSecret [97] [115] [64; 102] [49; 32; 50]].

Lemma pppSecretFind_best_witness : ∃ m,
  best_match demo_fopen (Some [97]) (Some [115]) (map to_line demo_table) (MkMatch (-1) [] []) m ∧
  pppSecretFind demo_fopen (Some demo_table) (Some [97]) (Some [115]) true =
    (if best_flag m =? -1 then RdEof else Rd m).
Proof.
  apply (pppSecretFind_best demo_fopen _ _ false).
  repeat apply Forall_cons_2; [split; [by eexists|done]..|apply Forall_nil_2].
Defined.
