(* ===== verification/Random.v ===== *)
(** * The random number generator ([ppp/random.c])

    An additive feedback generator over a table of [rand_deg] words with a
    front and a rear pointer, or a linear congruential one.  [long] is 32
    bits wide.  The static pointers [state], [fptr] and [rptr] are the record
    [rng]: the words behind [state] and two indices.  The array a caller of
    [initstate] owns is the list of its words; word 0 is [state[-1]]. *)
From Stdlib Require Import ZArith Lia Bool.
From S2P Require Import Prelude.
From stdpp Require Import base tactics list numbers option gmap.

Local Open Scope Z_scope.

(** ** Data *)

Definition MAX_TYPES : Z := 5.
Definition TYPE_0 : Z := 0.
Definition BREAK_0 : Z := 8.
Definition BREAK_1 : Z := 32.
Definition BREAK_2 : Z := 64.
Definition BREAK_3 : Z := 128.
Definition BREAK_4 : Z := 256.

Definition degrees : list Z := [0; 7; 15; 31; 63].
Definition seps : list Z := [0; 3; 1; 3; 1].

Definition degree (t : Z) : Z := nth (Z.to_nat t) degrees 0.
Definition sep (t : Z) : Z := nth (Z.to_nat t) seps 0.

Record rng := MkRng {
  rand_type : Z;
  tbl : list Z;
  fptr : Z;
  rptr : Z
}.

(** The words of the table. *)
Definition word (i : Z) (l : list Z) : Z := nth (Z.to_nat i) l 0.
Definition set_word (i x : Z) (l : list Z) : list Z := <[Z.to_nat i := x]> l.

(** The table the library starts with. *)
Definition randtbl : list Z := map s32 [
   0x9a319039; 0x32d9c024; 0x9b663182; 0x5da1f342; 0xde3b81e0; 0xdf0a6fb5;
   0xf103bc02; 0x48f340fb; 0x7449e56b; 0xbeb1dbb0; 0xab5c5918; 0x946554fd;
   0x8c2e680f; 0xeb3d799f; 0xb11ee0b7; 0x2d436b86; 0xda672e2a; 0x1588ca88;
   0xe369735d; 0x904f35f7; 0xd7158fd6; 0x6fa6f051; 0x616e6b96; 0xac94efdc;
   0x36413f93; 0xc622c298; 0xf5a42ab8; 0x8a88d77b; 0xf5ad9d0e; 0x8999220b;
   0x27fb47b9].
Definition rng_start : rng := MkRng 3 randtbl 3 0.

(** ** Operations *)

Definition random (s : rng) : Z * rng :=
  if rand_type s =? TYPE_0 then
    let i := Z.land (word 0 (tbl s) * 1103515245 + 12345) 2147483647 in
    (i, MkRng (rand_type s) (set_word 0 i (tbl s)) (fptr s) (rptr s))
  else
    let x := s32 (word (fptr s) (tbl s) + word (rptr s) (tbl s)) in
    let t := set_word (fptr s) x (tbl s) in
    let i := Z.land (Z.shiftr x 1) 2147483647 in
    let end_ptr := degree (rand_type s) in
    if end_ptr <=? fptr s + 1 then (i, MkRng (rand_type s) t 0 (rptr s + 1))
    else if end_ptr <=? rptr s + 1 then (i, MkRng (rand_type s) t (fptr s + 1) 0)
    else (i, MkRng (rand_type s) t (fptr s + 1) (rptr s + 1)).

(** [state[i] = 1103515245 * state[i - 1] + 12345] for the [n] indices from [i]. *)
Fixpoint seed_loop (n : nat) (i : Z) (t : list Z) : list Z :=
  match n with
  | O => t
  | S n => seed_loop n (i + 1) (set_word i (s32 (1103515245 * word (i - 1) t + 12345)) t)
  end.

Definition discard (n : nat) (s : rng) : rng := Nat.iter n (λ s, snd (random s)) s.

Definition srandom (x : Z) (s : rng) : rng :=
  let t := set_word 0 (s32 x) (tbl s) in
  if rand_type s =? TYPE_0 then MkRng (rand_type s) t (fptr s) (rptr s)
  else
    let deg := degree (rand_type s) in
    let t := seed_loop (Z.to_nat (deg - 1)) 1 t in
    discard (Z.to_nat (10 * deg)) (MkRng (rand_type s) t (sep (rand_type s)) 0).

(** The array of the current generator, with [state[-1]] set to its type and
    the position of the rear pointer. *)
Definition saved (s : rng) : list Z :=
  (if rand_type s =? TYPE_0 then rand_type s else MAX_TYPES * rptr s + rand_type s) :: tbl s.

Definition type_for (n : Z) : Z :=
  if n <? BREAK_1 then 0 else if n <? BREAK_2 then 1 else if n <? BREAK_3 then 2
  else if n <? BREAK_4 then 3 else 4.

(** The old array, if any was returned, and the generator; [arg_state] has
    [n] bytes. *)
Definition initstate (seed : Z) (arg_state : list Z) (n : Z) (s : rng)
    : option (list Z) * rng :=
  if n <? BREAK_0 then (None, s)
  else (Some (saved s),
        srandom seed (MkRng (type_for n) (tail arg_state) (fptr s) (rptr s))).

Definition setstate (arg_state : list Z) (s : rng) : list Z * rng :=
  let type := Z.rem (word 0 arg_state) MAX_TYPES in
  let rear := Z.quot (word 0 arg_state) MAX_TYPES in
  let rand_type' := if (0 <=? type) && (type <=? 4) then type else rand_type s in
  let state := tail arg_state in
  (saved s,
   if rand_type' =? TYPE_0 then MkRng rand_type' state (fptr s) (rptr s)
   else MkRng rand_type' state (Z.rem (rear + sep rand_type') (degree rand_type')) rear).

(** ** The operations together

    The arrays of the callers, by their addresses; the current generator lives
    in the one at [at_], whose words are written back when another operation
    may read them.  [None]: there is no such array. *)

Record rng_sys := MkSys { cur : rng; at_ : positive; arrays : gmap positive (list Z) }.

Inductive rng_op :=
  | Random | Srandom (x : Z)
  | Initstate (seed : Z) (a : positive) (n : Z) | Setstate (a : positive).

Definition write_back (y : rng_sys) : gmap positive (list Z) := <[at_ y := saved (cur y)]> (arrays y).

(** The number drawn, 0 for the others. *)
Definition rng_exec (op : rng_op) (y : rng_sys) : option (Z * rng_sys) :=
  match op with
  | Random => let '(i, s) := random (cur y) in Some (i, MkSys s (at_ y) (arrays y))
  | Srandom x => Some (0, MkSys (srandom x (cur y)) (at_ y) (arrays y))
  | Initstate seed a n =>
      arg ← write_back y !! a;
      Some (0, match initstate seed arg n (cur y) with
               | (None, s) => MkSys s (at_ y) (write_back y)
               | (Some _, s) => MkSys s a (write_back y)
               end)
  | Setstate a => arg ← write_back y !! a; Some (0, MkSys (snd (setstate arg (cur y))) a (write_back y))
  end.

(** ** Well-formed generators *)

(** The pointers are [sep] apart inside the table, and the words are 32-bit. *)
Record rng_ok (s : rng) : Prop := MkOk {
  ok_type : 0 <= rand_type s <= 4;
  ok_len : Z.max 1 (degree (rand_type s)) <= zlen (tbl s);
  ok_words : Forall (λ x, -2147483648 <= x < 2147483648) (tbl s);
  ok_rptr : rand_type s ≠ 0 → 0 <= rptr s < degree (rand_type s);
  ok_fptr : rand_type s ≠ 0 →
    fptr s = (rptr s + sep (rand_type s)) mod degree (rand_type s)
}.

Lemma degree_sep t : 0 < t <= 4 → 0 < sep t < degree t.
Proof.
  intros Ht. assert (t = 1 ∨ t = 2 ∨ t = 3 ∨ t = 4) as [->|[->|[->| ->]]] by lia; by cbn.
Qed.

Lemma set_word_zlen i x l : zlen (set_word i x l) = zlen l.
Proof. unfold set_word, zlen. by rewrite length_insert. Qed.

Lemma set_word_words i x l : -2147483648 <= x < 2147483648 →
  Forall (λ x, -2147483648 <= x < 2147483648) l →
  Forall (λ x, -2147483648 <= x < 2147483648) (set_word i x l).
Proof. intros Hx Hl. by apply Forall_insert. Qed.

Lemma land_31 x : 0 <= Z.land x 2147483647 < 2147483648.
Proof.
  change 2147483647 with (Z.ones 31). rewrite Z.land_ones by lia. by apply Z.mod_pos_bound.
Qed.

Lemma random_ok s : rng_ok s → 0 <= fst (random s) < 2147483648 ∧ rng_ok (snd (random s)).
Proof.
  intros [O1 O2 O3 O4 O5]. unfold random.
  destruct (Z.eqb_spec (rand_type s) TYPE_0) as [Et|Et]; unfold TYPE_0 in Et.
  { cbn [fst snd]. split; [apply land_31|]. split; cbn [rand_type tbl]; try done.
    - by rewrite set_word_zlen.
    - apply set_word_words; [|done]. pose proof (land_31 (word 0 (tbl s) * 1103515245 + 12345)). lia. }
  specialize (O4 Et). specialize (O5 Et). pose proof (degree_sep (rand_type s) ltac:(lia)) as Hd.
  set (x := s32 _). set (d := degree (rand_type s)) in *. set (p := sep (rand_type s)) in *.
  assert (-2147483648 <= x < 2147483648) as Hx by apply s32_range.
  assert (∀ f r, 0 <= r < d → f = (r + p) mod d → rng_ok (MkRng (rand_type s) (set_word (fptr s) x (tbl s)) f r)) as Hok.
  { intros f r Hr Hf. split; cbn [rand_type tbl fptr rptr]; try done; [by rewrite set_word_zlen|].
    by apply set_word_words. }
  assert (fptr s = rptr s + p ∧ rptr s + p < d ∨ fptr s = rptr s + p - d ∧ d <= rptr s + p) as Hf.
  { destruct (Z.lt_ge_cases (rptr s + p) d).
    - left. rewrite O5, Z.mod_small; lia.
    - right. rewrite O5. split; [|lia]. symmetry. apply (Z.mod_unique_pos _ _ 1); lia. }
  destruct (Z.leb_spec d (fptr s + 1)); [|destruct (Z.leb_spec d (rptr s + 1))]; cbn [fst snd];
    (split; [apply land_31|]); apply Hok; try lia.
  - symmetry. replace (rptr s + 1 + p) with (0 + 1 * d) by lia.
    rewrite Z.mod_add by lia. apply Z.mod_small. lia.
  - rewrite Z.mod_small; lia.
  - destruct Hf as [[Hf ?]|[Hf ?]]; rewrite Hf.
    + rewrite Z.mod_small; lia.
    + replace (rptr s + 1 + p) with (rptr s + p - d + 1 + 1 * d) by lia.
      rewrite Z.mod_add, Z.mod_small; lia.
Qed.

Lemma discard_ok n s : rng_ok s → rng_ok (discard n s).
Proof. intros Hs. induction n as [|n IH]; [done|]. by apply random_ok. Qed.

Lemma seed_loop_ok : ∀ n i t, zlen (seed_loop n i t) = zlen t ∧
  (Forall (λ x, -2147483648 <= x < 2147483648) t →
   Forall (λ x, -2147483648 <= x < 2147483648) (seed_loop n i t)).
Proof.
  induction n as [|n IH]; intros i t; [done|]. cbn [seed_loop].
  destruct (IH (i + 1) (set_word i (s32 (1103515245 * word (i - 1) t + 12345)) t)) as [E F].
  rewrite E, set_word_zlen. split; [done|]. intros Ht. apply F.
  apply set_word_words; [apply s32_range|done].
Qed.

Lemma srandom_ok x s : 0 <= rand_type s <= 4 →
  Z.max 1 (degree (rand_type s)) <= zlen (tbl s) →
  Forall (λ x, -2147483648 <= x < 2147483648) (tbl s) → rng_ok (srandom x s).
Proof.
  intros Ht Hl Hw. unfold srandom. assert (Forall (λ x, -2147483648 <= x < 2147483648)
    (set_word 0 (s32 x) (tbl s))) as Hw' by (apply set_word_words; [apply s32_range|done]).
  destruct (Z.eqb_spec (rand_type s) TYPE_0) as [Et|Et]; unfold TYPE_0 in Et.
  { split; cbn [rand_type tbl]; try done. by rewrite set_word_zlen. }
  pose proof (degree_sep (rand_type s) ltac:(lia)) as Hd. apply discard_ok.
  destruct (seed_loop_ok (Z.to_nat (degree (rand_type s) - 1)) 1 (set_word 0 (s32 x) (tbl s)))
    as [El Ew].
  split; cbn [rand_type tbl fptr rptr]; [done| |by apply Ew|lia|].
  - by rewrite El, set_word_zlen.
  - intros _. rewrite Z.mod_small; lia.
Qed.

Lemma rng_start_ok : rng_ok rng_start.
Proof.
  split; cbn [rand_type tbl fptr rptr rng_start]; try done.
  apply (bool_decide_unpack _). by vm_compute.
Qed.

Abbreviation words32 := (Forall (λ x, -2147483648 <= x < 2147483648)).

Lemma initstate_ok s seed arg n : rng_ok s → n / 4 <= zlen arg → words32 arg → rng_ok (snd (initstate seed arg n s)).
Proof.
  intros Hs Hl Hw. unfold initstate. destruct (Z.ltb_spec n BREAK_0); [done|].
  unfold BREAK_0 in *. cbn [snd]. apply srandom_ok; cbn [rand_type tbl].
  - unfold type_for. repeat case_match; lia.
  - assert (n / 4 - 1 <= zlen (tail arg)) as Hlt.
    { destruct arg as [|a arg]; [change (zlen (@nil Z)) with 0 in *; cbn [tail]; change (zlen (@nil Z)) with 0; lia|].
      cbn [tail]. rewrite zlen_cons in Hl. lia. }
    unfold type_for, BREAK_1, BREAK_2, BREAK_3, BREAK_4.
    assert (∀ k, 4 * k <= n → k <= n / 4) as Hk.
    { intros k Hk. apply Z.div_le_lower_bound; lia. }
    clear Hl. set (q := n / 4) in *. clearbody q.
    destruct (Z.ltb_spec n 32); [specialize (Hk 2 ltac:(lia)); change (Z.max 1 (degree 0)) with 1; lia|].
    destruct (Z.ltb_spec n 64); [specialize (Hk 8 ltac:(lia)); change (Z.max 1 (degree 1)) with 7; lia|].
    destruct (Z.ltb_spec n 128); [specialize (Hk 16 ltac:(lia)); change (Z.max 1 (degree 2)) with 15; lia|].
    destruct (Z.ltb_spec n 256); [specialize (Hk 32 ltac:(lia)); change (Z.max 1 (degree 3)) with 31; lia|].
    specialize (Hk 64 ltac:(lia)); change (Z.max 1 (degree 4)) with 63; lia.
  - destruct arg as [|a arg]; [done|]. by apply Forall_cons_1 in Hw as [_ ?].
Qed.

(** [setstate] with the array that [initstate] or [setstate] returned continues the old
    generator where it was left. *)
Theorem setstate_restores s s' : rng_ok s →
  let s1 := snd (setstate (saved s) s') in
  rand_type s1 = rand_type s ∧ tbl s1 = tbl s ∧
  (rand_type s ≠ TYPE_0 → s1 = s) ∧
  fst (random s1) = fst (random s) ∧ tbl (snd (random s1)) = tbl (snd (random s)).
Proof.
  intros [O1 O2 O3 O4 O5]. unfold setstate, saved. unfold TYPE_0 in *.
  destruct (Z.eqb_spec (rand_type s) 0) as [Et|Et].
  - change (word 0 (rand_type s :: tbl s)) with (rand_type s). rewrite Et.
    change (Z.rem 0 MAX_TYPES) with 0. cbn [Z.leb Z.compare andb Z.eqb snd tail rand_type tbl].
    split_and!; try done; unfold random; by rewrite Et.
  - specialize (O4 Et). specialize (O5 Et).
    pose proof (degree_sep (rand_type s) ltac:(lia)) as Hd.
    assert (word 0 (MAX_TYPES * rptr s + rand_type s :: tbl s) = rand_type s + rptr s * 5) as ->.
    { change (MAX_TYPES * rptr s + rand_type s = rand_type s + rptr s * 5).
      unfold MAX_TYPES. lia. }
    unfold MAX_TYPES. rewrite Z.rem_mod_nonneg, Z.quot_div_nonneg by lia.
    rewrite Z.mod_add, Z.div_add, Z.mod_small, Z.div_small, Z.add_0_l by lia.
    destruct (Z.leb_spec 0 (rand_type s)), (Z.leb_spec (rand_type s) 4); try lia.
    cbn [andb]. destruct (Z.eqb_spec (rand_type s) 0); [done|].
    rewrite Z.rem_mod_nonneg, <- O5 by lia. cbn [snd tail].
    assert (MkRng (rand_type s) (tbl s) (fptr s) (rptr s) = s) as -> by by destruct s.
    done.
Qed.

(** An array that a generator was saved in gives a generator. *)
Lemma setstate_ok s s' : rng_ok s → rng_ok (snd (setstate (saved s) s')).
Proof.
  intros Hs. destruct (setstate_restores s s' Hs) as (Ht & Hb & Heq & _). destruct (Z.eq_dec (rand_type s) TYPE_0) as [E|E].
  - destruct Hs as [O1 O2 O3 _ _]. unfold TYPE_0 in *. split; rewrite ?Ht, ?Hb; try done; by rewrite E.
  - by rewrite (Heq E).
Qed.

Lemma saved_words s : rng_ok s → words32 (saved s).
Proof.
  intros [O1 O2 O3 O4 O5]. unfold saved, MAX_TYPES, TYPE_0. apply Forall_cons. split; [|done].
  destruct (Z.eqb_spec (rand_type s) 0) as [|E]; [lia|]. specialize (O4 E).
  assert (degree (rand_type s) <= 63); [|lia]. unfold degree.
  assert (rand_type s = 1 ∨ rand_type s = 2 ∨ rand_type s = 3 ∨ rand_type s = 4) as [->|[->|[->| ->]]] by lia; by cbn.
Qed.

(** [initstate] gets at most the size of its array, [setstate] an array that was
    set up before ([ready]). *)
Inductive op_allowed : gset positive → rng_sys → rng_op → Prop :=
  | allow_random ready y : op_allowed ready y Random
  | allow_srandom ready y x : op_allowed ready y (Srandom x)
  | allow_initstate ready y seed a n arr : write_back y !! a = Some arr → n / 4 <= zlen arr → op_allowed ready y (Initstate seed a n)
  | allow_setstate ready y a : a ∈ ready → op_allowed ready y (Setstate a).

(** What is reached from the library's own table, at address 1, with callers'
    arrays [mem]. *)
Inductive rng_reach : gset positive → rng_sys → Prop :=
  | reach_start mem : (∀ a arr, mem !! a = Some arr → words32 arr) → rng_reach {[1%positive]} (MkSys rng_start 1 mem)
  | reach_op ready y op i y' : rng_reach ready y → op_allowed ready y op → rng_exec op y = Some (i, y') →
      rng_reach (match op with Initstate _ a n => if n <? BREAK_0 then ready else {[a]} ∪ ready | _ => ready end) y'.

(** Every array set up holds a saved generator, but the current one. *)
Record sys_ok (ready : gset positive) (y : rng_sys) : Prop := {
  sy_cur : rng_ok (cur y);
  sy_at : at_ y ∈ ready;
  sy_ready a : a ∈ ready → a ≠ at_ y → ∃ s, rng_ok s ∧ arrays y !! a = Some (saved s);
  sy_words a arr : arrays y !! a = Some arr → words32 arr
}.

Lemma write_back_words ready y : sys_ok ready y → ∀ a arr, write_back y !! a = Some arr → words32 arr.
Proof.
  intros [] a arr. unfold write_back. rewrite lookup_insert_Some. intros [[_ <-]|[_ ?]]; [by apply saved_words|by eapply sy_words0].
Qed.

Lemma write_back_ready ready y a : sys_ok ready y → a ∈ ready → ∃ s, rng_ok s ∧ write_back y !! a = Some (saved s).
Proof.
  intros [] Ha. unfold write_back. destruct (decide (a = at_ y)) as [->|Hne].
  - exists (cur y). by rewrite lookup_insert_eq.
  - rewrite lookup_insert_ne by done. by apply sy_ready0.
Qed.

(** A generator in another array, the old one written back. *)
Lemma sys_ok_switch ready y s a : sys_ok ready y → rng_ok s → sys_ok ({[a]} ∪ ready) (MkSys s a (write_back y)).
Proof.
  intros Hy Hs. split; cbn [cur at_ arrays]; [done|set_solver| |by eapply write_back_words].
  intros b Hb Hne. apply (write_back_ready ready); [done|]. set_solver.
Qed.

Lemma rng_exec_ok ready y op : sys_ok ready y → op_allowed ready y op → ∃ i y', rng_exec op y = Some (i, y') ∧
  sys_ok (match op with Initstate _ a n => if n <? BREAK_0 then ready else {[a]} ∪ ready | _ => ready end) y' ∧ 0 <= i < 2147483648.
Proof.
  intros Hy Ha. pose proof Hy as []. destruct Ha as [ready y|ready y x|ready y seed a n arr Harr Hn|ready y a Ha]; cbn [rng_exec].
  - destruct (random_ok (cur y) sy_cur0) as [Hi Hr]. destruct (random (cur y)) as [i s]. cbn [fst snd] in *.
    exists i, (MkSys s (at_ y) (arrays y)). split; [done|]. split; [by split|lia].
  - eexists _, _. split; [reflexivity|]. split; [|done]. split; try done. destruct sy_cur0. by apply srandom_ok.
  - rewrite Harr. cbn. pose proof (initstate_ok (cur y) seed arr n sy_cur0 Hn (write_back_words _ _ Hy _ _ Harr)) as Hi.
    unfold initstate in *. destruct (n <? BREAK_0).
    + eexists _, _. split; [reflexivity|]. split; [|done]. split; cbn [cur at_ arrays]; [done..| |by eapply write_back_words].
      intros b Hb _. by eapply write_back_ready.
    + eexists _, _. split; [reflexivity|]. split; [|done]. by apply sys_ok_switch.
  - destruct (write_back_ready _ _ a Hy Ha) as (s & Hs & ->). cbn. eexists _, _. split; [reflexivity|]. split; [|done].
    replace ready with ({[a]} ∪ ready) by set_solver. apply sys_ok_switch; [done|]. by apply setstate_ok.
Qed.

Lemma rng_reach_ok ready y : rng_reach ready y → sys_ok ready y.
Proof.
  induction 1 as [mem Hm|ready y op i y' _ IH Ha He].
  - split; cbn [cur at_ arrays]; [exact rng_start_ok|set_solver|set_solver|done].
  - destruct (rng_exec_ok _ _ _ IH Ha) as (i' & y'' & He' & Hok & _). congruence.
Qed.


(** ** Witnesses *)

(** A generator set up in an array of 40 bytes, then back to the first. *)
Definition rng_demo : rng_sys := MkSys rng_start 1 {[2%positive := replicate 10 0]}.

Lemma rng_demo_start : rng_reach {[1%positive]} rng_demo.
Proof. apply reach_start. intros a arr Ha. apply lookup_singleton_Some in Ha as [_ <-]. by apply Forall_replicate. Qed.

Lemma rng_demo_allowed : op_allowed {[1%positive]} rng_demo (Initstate 7 2 40).
Proof. apply (allow_initstate _ _ _ _ _ (replicate 10 0)); [reflexivity|]. vm_compute. discriminate. Qed.


(** An array with 501 in its first word puts the rear pointer outside. *)
Example setstate_unchecked :
  rptr (snd (setstate (501 :: replicate 7 0) rng_start)) = 100 ∧ degree 1 = 7.
Proof. split; reflexivity. Qed.

Lemma setstate_restores_witness :
  snd (setstate (saved rng_start) (srandom 7 rng_start)) = rng_start.
Proof.
  destruct (setstate_restores rng_start (srandom 7 rng_start) rng_start_ok) as (_ & _ & H & _).
  apply H. done.
Defined.
