(* ===== verification/Md5.v ===== *)
(** * The MD5 message digest ([ppp/ppp_md5.c])

    [ppp_MD5Init], [ppp_MD5Update] and [ppp_MD5Final] over a context that
    buffers an incomplete block and counts the bits in two words.  They are
    compared with the definition of RFC 1321: padding, then the blocks in
    order.  Words are 32 bits wide ([UINT4]). *)
From Stdlib Require Import ZArith Lia Bool.
From stdpp Require Import base tactics list numbers option.
From S2P Require Import Prelude.

Local Open Scope Z_scope.

(** ** The basic functions *)

Definition wnot (x : Z) : Z := Z.lxor x 4294967295.

Definition F (x y z : Z) : Z := Z.lor (Z.land x y) (Z.land (wnot x) z).
Definition G (x y z : Z) : Z := Z.lor (Z.land x z) (Z.land y (wnot z)).
Definition H (x y z : Z) : Z := Z.lxor (Z.lxor x y) z.
Definition I (x y z : Z) : Z := Z.lxor y (Z.lor x (wnot z)).

Definition ROTATE_LEFT (x n : Z) : Z := u32 (Z.lor (Z.shiftl x n) (Z.shiftr x (32 - n))).

(** [FF], [GG], [HH] and [II], which differ in the function [f]. *)
Definition STEP (f : Z → Z → Z → Z) (a b c d x s ac : Z) : Z :=
  u32 (ROTATE_LEFT (u32 (a + (f b c d + x + ac))) s + b).

(** The rounds: the word of the block, the rotation and the constant of each step. *)
Definition round1 : list (Z * Z * Z) := [
   (0, 7, 3614090360); (1, 12, 3905402710);
   (2, 17, 606105819); (3, 22, 3250441966);
   (4, 7, 4118548399); (5, 12, 1200080426);
   (6, 17, 2821735955); (7, 22, 4249261313);
   (8, 7, 1770035416); (9, 12, 2336552879);
   (10, 17, 4294925233); (11, 22, 2304563134);
   (12, 7, 1804603682); (13, 12, 4254626195);
   (14, 17, 2792965006); (15, 22, 1236535329)].
Definition round2 : list (Z * Z * Z) := [
   (1, 5, 4129170786); (6, 9, 3225465664);
   (11, 14, 643717713); (0, 20, 3921069994);
   (5, 5, 3593408605); (10, 9, 38016083);
   (15, 14, 3634488961); (4, 20, 3889429448);
   (9, 5, 568446438); (14, 9, 3275163606);
   (3, 14, 4107603335); (8, 20, 1163531501);
   (13, 5, 2850285829); (2, 9, 4243563512);
   (7, 14, 1735328473); (12, 20, 2368359562)].
Definition round3 : list (Z * Z * Z) := [
   (5, 4, 4294588738); (8, 11, 2272392833);
   (11, 16, 1839030562); (14, 23, 4259657740);
   (1, 4, 2763975236); (4, 11, 1272893353);
   (7, 16, 4139469664); (10, 23, 3200236656);
   (13, 4, 681279174); (0, 11, 3936430074);
   (3, 16, 3572445317); (6, 23, 76029189);
   (9, 4, 3654602809); (12, 11, 3873151461);
   (15, 16, 530742520); (2, 23, 3299628645)].
Definition round4 : list (Z * Z * Z) := [
   (0, 6, 4096336452); (7, 10, 1126891415);
   (14, 15, 2878612391); (5, 21, 4237533241);
   (12, 6, 1700485571); (3, 10, 2399980690);
   (10, 15, 4293915773); (1, 21, 2240044497);
   (8, 6, 1873313359); (15, 10, 4264355552);
   (6, 15, 2734768916); (13, 21, 1309151649);
   (4, 6, 4149444226); (11, 10, 3174756917);
   (2, 15, 718787259); (9, 21, 3951481745)].

(** [a], [b], [c] and [d]. *)
Definition words : Type := Z * Z * Z * Z.

(** A step assigns the first of the four; the next step names them
    [d], [a], [b], [c], so that after four steps each has its own name again. *)
Definition md5_step (f : Z → Z → Z → Z) (block : list Z) (r : words) (row : Z * Z * Z) : words :=
  let '(a, b, c, d) := r in
  let '(k, s, ac) := row in
  (d, STEP f a b c d (nth (Z.to_nat k) block 0) s ac, b, c).

Definition md5_round (f : Z → Z → Z → Z) (rows : list (Z * Z * Z)) (block : list Z)
    (r : words) : words := fold_left (md5_step f block) rows r.

Definition Transform (buf : words) (block : list Z) : words :=
  let '(a, b, c, d) :=
    md5_round I round4 block (md5_round H round3 block
      (md5_round G round2 block (md5_round F round1 block buf))) in
  let '(a0, b0, c0, d0) := buf in
  (u32 (a0 + a), u32 (b0 + b), u32 (c0 + c), u32 (d0 + d)).

(** ** The context *)

(** [i[0]], [i[1]], [buf] and [in]. *)
Record MD5_CTX := MkMd5 { i0 : Z; i1 : Z; buf : words; inbuf : bytes }.

(** [in] is not initialized: its contents are a parameter. *)
Definition ppp_MD5Init (garbage : bytes) : MD5_CTX :=
  MkMd5 0 0 (1732584193, 4023233417, 2562383102, 271733878) garbage.

(** Four bytes of [in] as a word, and the first [n] words. *)
Definition get_word (l : bytes) (ii : nat) : Z :=
  Z.lor (Z.lor (Z.lor (Z.shiftl (nth (ii + 3) l 0) 24) (Z.shiftl (nth (ii + 2) l 0) 16))
               (Z.shiftl (nth (ii + 1) l 0) 8)) (nth ii l 0).
Definition get_words (n : nat) (l : bytes) : list Z := map (λ i, get_word l (4 * i)) (seq 0 n).

(** The loop of [ppp_MD5Update]. *)
Fixpoint update_loop (inBuf : bytes) (mdi : nat) (l : bytes) (buf : words) : bytes * words :=
  match inBuf with
  | [] => (l, buf)
  | c :: r =>
      let l := <[mdi := c]> l in
      if decide (S mdi = 64%nat) then update_loop r 0 l (Transform buf (get_words 16 l))
      else update_loop r (S mdi) l buf
  end.

Definition ppp_MD5Update (inBuf : bytes) (ctx : MD5_CTX) : MD5_CTX :=
  let inLen := u32 (zlen inBuf) in
  let mdi := Z.to_nat (Z.land (Z.shiftr (i0 ctx) 3) 63) in
  let sum := u32 (i0 ctx + u32 (Z.shiftl inLen 3)) in
  let i1' := if sum <? i0 ctx then u32 (i1 ctx + 1) else i1 ctx in
  let i1' := u32 (i1' + Z.shiftr inLen 29) in
  let '(l, b) := update_loop inBuf mdi (inbuf ctx) (buf ctx) in
  MkMd5 sum i1' b l.

Definition PADDING : bytes := 128 :: replicate 63 0.

Definition put_word (x : Z) : bytes :=
  [Z.land x 255; Z.land (Z.shiftr x 8) 255; Z.land (Z.shiftr x 16) 255; Z.land (Z.shiftr x 24) 255].

(** The digest, of 16 bytes. *)
Definition ppp_MD5Final (ctx : MD5_CTX) : bytes :=
  let mdi := Z.land (Z.shiftr (i0 ctx) 3) 63 in
  let padLen := if mdi <? 56 then 56 - mdi else 120 - mdi in
  let ctx' := ppp_MD5Update (ztake padLen PADDING) ctx in
  let block := get_words 14 (inbuf ctx') ++ [i0 ctx; i1 ctx] in
  let '(a, b, c, d) := Transform (buf ctx') block in
  put_word a ++ put_word b ++ put_word c ++ put_word d.

(** ** The reference: RFC 1321 *)

Definition md5_start : words := (1732584193, 4023233417, 2562383102, 271733878).

Fixpoint blocks (n : nat) (m : bytes) : list bytes :=
  match n with O => [] | S n => take 64 m :: blocks n (drop 64 m) end.

Definition compress (bs : list bytes) (r : words) : words :=
  fold_left (λ r b, Transform r (get_words 16 b)) bs r.

Definition le64 (x : Z) : bytes := put_word (u32 x) ++ put_word (u32 (x / 4294967296)).

(** A one bit, zeros up to 56 bytes modulo 64, and the length in bits. *)
Definition md5_pad (m : bytes) : bytes :=
  m ++ [128] ++ replicate (Z.to_nat ((55 - zlen m) mod 64)) 0 ++ le64 (8 * zlen m).

Definition md5 (m : bytes) : bytes :=
  let p := md5_pad m in
  let '(a, b, c, d) := compress (blocks (length p / 64) p) md5_start in
  put_word a ++ put_word b ++ put_word c ++ put_word d.

(** ** Words and bytes *)

#[local] Ltac Zify.zify_post_hook ::= Z.to_euclidean_division_equations.

Lemma get_word_bytes t b0 b1 b2 b3 r : is_byte b0 → is_byte b1 → is_byte b2 →
  get_word (t ++ b0 :: b1 :: b2 :: b3 :: r) (length t) =
  b3 * 16777216 + b2 * 65536 + b1 * 256 + b0.
Proof.
  unfold is_byte. intros H0 H1 H2. unfold get_word.
  assert (∀ i, nth (length t + i) (t ++ b0 :: b1 :: b2 :: b3 :: r) 0 =
    nth i (b0 :: b1 :: b2 :: b3 :: r) 0) as Hn.
  { intros i. rewrite app_nth2 by lia. f_equal. lia. }
  rewrite !Hn. rewrite <- (Nat.add_0_r (length t)) at 1. rewrite Hn. cbn [nth].
  rewrite !Z.shiftl_mul_pow2 by lia. change (2 ^ 24) with 16777216. change (2 ^ 16) with 65536.
  change (2 ^ 8) with 256.
  replace (b3 * 16777216) with ((b3 * 256) * 65536) by lia.
  rewrite (lor_add _ (b2 * 65536) 24 16777216); [|done|done| |lia].
  2: { replace (b3 * 256 * 65536) with (b3 * 16777216) by lia. by apply Z.mod_mul. }
  replace (b3 * 256 * 65536 + b2 * 65536) with ((b3 * 256 + b2) * 65536) by lia.
  rewrite (lor_add _ (b1 * 256) 16 65536); [|done|done|by apply Z.mod_mul|lia].
  replace ((b3 * 256 + b2) * 65536 + b1 * 256) with (((b3 * 256 + b2) * 256 + b1) * 256) by lia.
  rewrite (lor_add _ b0 8 256); [|done|done|by apply Z.mod_mul|lia]. lia.
Qed.

Lemma put_word_bytes x : 0 <= x < 4294967296 → ∃ b0 b1 b2 b3, put_word x = [b0; b1; b2; b3] ∧
  is_byte b0 ∧ is_byte b1 ∧ is_byte b2 ∧ b3 * 16777216 + b2 * 65536 + b1 * 256 + b0 = x.
Proof.
  intros Hx. unfold put_word. change 255 with (Z.ones 8). rewrite !Z.land_ones by lia.
  rewrite !Z.shiftr_div_pow2 by lia. eexists _, _, _, _. split; [done|]. unfold is_byte.
  change (2 ^ 8) with 256. change (2 ^ 16) with 65536. change (2 ^ 24) with 16777216.
  split_and!; try lia.
Qed.

Lemma get_put_word t x r : 0 <= x < 4294967296 →
  get_word (t ++ put_word x ++ r) (length t) = x.
Proof.
  intros Hx. destruct (put_word_bytes x Hx) as (b0 & b1 & b2 & b3 & -> & ? & ? & ? & E).
  cbn [app]. by rewrite get_word_bytes.
Qed.

(** The first words only depend on the first bytes. *)
Lemma get_words_take n l k : (4 * n <= k)%nat → get_words n (take k l) = get_words n l.
Proof.
  intros Hk. unfold get_words. apply map_ext_in. intros i [_ Hi]%in_seq. unfold get_word.
  assert (∀ j, (j < k)%nat → nth j (take k l) 0 = nth j l 0) as Hn.
  { intros j Hj. rewrite nth_firstn. destruct (Nat.ltb_spec j k); [done|lia]. }
  by rewrite !Hn by lia.
Qed.

Lemma get_words_app n k l : get_words (n + k) l =
  get_words n l ++ map (λ i, get_word l (4 * i)) (seq n k).
Proof. unfold get_words. by rewrite seq_app, map_app. Qed.

(** ** Blocks *)

Lemma blocks_app : ∀ n m k, (64 * n <= length m)%nat → blocks n (m ++ k) = blocks n m.
Proof.
  induction n as [|n IH]; intros m k Hn; [done|]. cbn [blocks].
  rewrite take_app_le, drop_app_le by lia. f_equal. apply IH. rewrite length_drop. lia.
Qed.

Lemma blocks_S : ∀ n m, blocks (S n) m = blocks n m ++ [take 64 (drop (64 * n) m)].
Proof.
  induction n as [|n IH]; intros m; [done|].
  change (blocks (S (S n)) m) with (take 64 m :: blocks (S n) (drop 64 m)).
  rewrite IH, drop_drop. cbn [blocks app]. by replace (64 + 64 * n)%nat with (64 * S n)%nat by lia.
Qed.

Definition full (m : bytes) : nat := (length m / 64)%nat.
Definition tail (m : bytes) : bytes := drop (64 * full m) m.
Definition hash (m : bytes) : words := compress (blocks (full m) m) md5_start.

Lemma full_tail m : length m = (64 * full m + length (tail m))%nat ∧ (length (tail m) < 64)%nat.
Proof.
  unfold tail, full. rewrite length_drop. pose proof (Nat.div_mod_eq (length m) 64).
  pose proof (Nat.mod_upper_bound (length m) 64). lia.
Qed.

Lemma full_unique m n : (64 * n <= length m < 64 * n + 64)%nat → full m = n.
Proof. intros Hn. symmetry. apply (Nat.div_unique _ 64 n (length m - 64 * n)); lia. Qed.

Lemma hash_snoc m c :
  if decide (S (length (tail m)) = 64%nat)
  then hash (m ++ [c]) = Transform (hash m) (get_words 16 (tail m ++ [c])) ∧ tail (m ++ [c]) = []
  else hash (m ++ [c]) = hash m ∧ tail (m ++ [c]) = tail m ++ [c].
Proof.
  destruct (full_tail m) as [Hl Ht].
  assert (drop (64 * full m) (m ++ [c]) = tail m ++ [c]) as Hd.
  { unfold tail. by rewrite drop_app_le by lia. }
  case_decide as Hc.
  - assert (full (m ++ [c]) = S (full m)) as Hf.
    { apply full_unique. rewrite length_app. cbn [length]. lia. }
    unfold hash. split.
    + rewrite Hf, blocks_S, blocks_app, Hd by lia. unfold compress. rewrite fold_left_app.
      cbn [fold_left]. by rewrite take_ge by (rewrite length_app; cbn [length]; lia).
    + unfold tail. rewrite Hf. apply drop_ge. rewrite length_app. cbn [length]. lia.
  - assert (full (m ++ [c]) = full m) as Hf.
    { apply full_unique. rewrite length_app. cbn [length]. lia. }
    unfold hash. rewrite Hf, blocks_app by lia. split; [done|]. unfold tail at 1. by rewrite Hf.
Qed.

(** ** The context after a message *)

Lemma take_insert_snoc {A} (l : list A) i x : (i < length l)%nat →
  take (S i) (<[i := x]> l) = take i l ++ [x].
Proof.
  intros Hi. rewrite insert_take_drop by done.
  rewrite take_app_ge by (rewrite length_take; lia). rewrite length_take.
  replace (S i - i `min` length l)%nat with 1%nat by lia. cbn. done.
Qed.

Lemma update_loop_spec : ∀ r m l buf,
  length l = 64%nat → take (length (tail m)) l = tail m → buf = hash m →
  let '(l', b') := update_loop r (length (tail m)) l buf in
  b' = hash (m ++ r) ∧ length l' = 64%nat ∧ take (length (tail (m ++ r))) l' = tail (m ++ r).
Proof.
  induction r as [|c r IH]; intros m l buf Hl Ht ->; cbn [update_loop].
  { by rewrite app_nil_r. }
  destruct (full_tail m) as [_ Hlt]. pose proof (hash_snoc m c) as Hs.
  assert (take (S (length (tail m))) (<[length (tail m):=c]> l) = tail m ++ [c]) as Hin.
  { by rewrite take_insert_snoc, Ht by lia. }
  replace (m ++ c :: r) with ((m ++ [c]) ++ r) by by rewrite <- app_assoc.
  assert (length (<[length (tail m):=c]> l) = 64%nat) as Hl' by by rewrite length_insert.
  case_decide as Hc; destruct Hs as [Hh Htl].
  - specialize (IH (m ++ [c]) (<[length (tail m):=c]> l)
      (Transform (hash m) (get_words 16 (<[length (tail m):=c]> l))) Hl').
    rewrite Htl in IH. cbn [length] in IH. apply IH; [done|]. rewrite Hh. f_equal.
    by rewrite <- Hin, Hc, take_ge by lia.
  - specialize (IH (m ++ [c]) (<[length (tail m):=c]> l) (hash m) Hl').
    rewrite Htl, length_app, Nat.add_1_r in IH. by apply IH.
Qed.

(** The context stands for the message [m]. *)
Definition absorbed (m : bytes) (ctx : MD5_CTX) : Prop :=
  i0 ctx = u32 (8 * zlen m) ∧ i1 ctx = u32 (8 * zlen m / 4294967296) ∧
  buf ctx = hash m ∧ length (inbuf ctx) = 64%nat ∧
  take (length (tail m)) (inbuf ctx) = tail m.

Lemma mod_8 x : Z.land (Z.shiftr (u32 (8 * x)) 3) 63 = x mod 64.
Proof.
  change 63 with (Z.ones 6). rewrite Z.land_ones, Z.shiftr_div_pow2 by lia.
  change (2 ^ 3) with 8. change (2 ^ 6) with 64. unfold u32. lia.
Qed.

Lemma mdi_tail m ctx : absorbed m ctx →
  Z.land (Z.shiftr (i0 ctx) 3) 63 = Z.of_nat (length (tail m)).
Proof.
  intros (-> & _). rewrite mod_8. destruct (full_tail m) as [Hl Ht]. unfold zlen. lia.
Qed.

(** The two words count modulo [2^64]. *)
Lemma count_bits L n : 0 <= L → 0 <= n < 4294967296 →
  let sum := u32 (u32 (8 * L) + u32 (Z.shiftl n 3)) in
  let c := if sum <? u32 (8 * L) then u32 (u32 (8 * L / 4294967296) + 1)
           else u32 (8 * L / 4294967296) in
  sum = u32 (8 * (L + n)) ∧ u32 (c + Z.shiftr n 29) = u32 (8 * (L + n) / 4294967296).
Proof.
  intros HL Hn. rewrite Z.shiftl_mul_pow2, Z.shiftr_div_pow2 by lia.
  change (2 ^ 3) with 8. change (2 ^ 29) with 536870912. cbv zeta.
  set (sum := u32 (u32 (8 * L) + u32 (n * 8))).
  assert (sum = u32 (8 * (L + n))) as Hs by (unfold sum, u32; lia).
  split; [done|]. rewrite Hs. unfold u32. destruct (Z.ltb_spec ((8 * (L + n)) mod 4294967296)
    ((8 * L) mod 4294967296)); lia.
Qed.

Lemma init_absorbed g : length g = 64%nat → absorbed [] (ppp_MD5Init g).
Proof. done. Qed.

Lemma update_absorbed m r ctx : zlen r < 4294967296 → absorbed m ctx →
  absorbed (m ++ r) (ppp_MD5Update r ctx).
Proof.
  intros Hr Ha. pose proof (mdi_tail m ctx Ha) as Hmdi.
  destruct Ha as (E0 & E1 & Eb & El & Et).
  unfold ppp_MD5Update. rewrite Hmdi, Nat2Z.id.
  pose proof (update_loop_spec r m (inbuf ctx) (buf ctx) El Et Eb) as Hloop.
  destruct (update_loop r (length (tail m)) (inbuf ctx) (buf ctx)) as [l b].
  destruct Hloop as (Hb & Hl & Ht). pose proof (zlen_nonneg m). pose proof (zlen_nonneg r).
  rewrite (u32_id (zlen r)) by lia.
  destruct (count_bits (zlen m) (zlen r)) as [Hs Hc]; [lia|lia|].
  unfold absorbed. cbn [i0 i1 buf inbuf]. rewrite E0, E1, zlen_app. split_and!; done.
Qed.

(** ** The digest *)

Lemma pad_length x : 0 <= x →
  (if x mod 64 <? 56 then 56 - x mod 64 else 120 - x mod 64) = 1 + (55 - x) mod 64.
Proof. intros Hx. destruct (Z.ltb_spec (x mod 64) 56); lia. Qed.

Lemma take_PADDING n : 0 <= n < 64 → ztake (1 + n) PADDING = [128] ++ replicate (Z.to_nat n) 0.
Proof.
  intros Hn. unfold ztake, PADDING. replace (Z.to_nat (1 + n)) with (S (Z.to_nat n)) by lia.
  cbn [take app]. rewrite take_replicate. do 2 f_equal. lia.
Qed.

(** The last block: the buffered bytes and the two words of the count. *)
Lemma last_block t x : length t = 56%nat →
  get_words 16 (t ++ le64 x) = get_words 14 t ++ [u32 x; u32 (x / 4294967296)].
Proof.
  intros Ht. rewrite (get_words_app 14 2). f_equal.
  - rewrite <- (get_words_take 14 (t ++ le64 x) 56) by lia. by rewrite take_app_length' by done.
  - cbn [seq map]. unfold le64. f_equal; [|f_equal].
    + change (4 * 14)%nat with 56%nat. rewrite <- Ht. apply get_put_word. apply u32_range.
    + rewrite app_assoc, <- (app_nil_r (put_word (u32 (x / 4294967296)))).
      replace (4 * 15)%nat with (length (t ++ put_word (u32 x))) by (rewrite length_app, Ht; done).
      apply get_put_word. apply u32_range.
Qed.

Lemma md5_pad_hash m : let p := m ++ [128] ++ replicate (Z.to_nat ((55 - zlen m) mod 64)) 0 in
  length (tail p) = 56%nat ∧
  compress (blocks (length (md5_pad m) / 64) (md5_pad m)) md5_start =
    Transform (hash p) (get_words 16 (tail p ++ le64 (8 * zlen m))).
Proof.
  intros p. assert (length p mod 64 = 56)%nat as Hmod.
  { unfold p. rewrite !length_app, length_replicate. cbn [length].
    pose proof (Z.mod_pos_bound (55 - zlen m) 64 ltac:(lia)).
    pose proof (Z.div_mod (55 - zlen m) 64 ltac:(lia)).
    set (n := (55 - zlen m) mod 64) in *. set (q := (55 - zlen m) / 64) in *.
    unfold zlen in *. clearbody n q. symmetry. apply (Nat.mod_unique _ 64 (Z.to_nat (- q))); lia. }
  destruct (full_tail p) as [Hl Ht]. assert (length (tail p) = 56%nat) as H56.
  { rewrite <- Hmod. apply (Nat.mod_unique _ 64 (full p)); lia. }
  split; [done|]. assert (md5_pad m = p ++ le64 (8 * zlen m)) as ->.
  { unfold p, md5_pad. by rewrite <- !app_assoc. }
  assert (length (p ++ le64 (8 * zlen m)) / 64 = S (full p))%nat as ->.
  { rewrite length_app. change (length (le64 (8 * zlen m))) with 8%nat.
    symmetry. apply (Nat.div_unique _ 64 _ 0); lia. }
  rewrite blocks_S, blocks_app by lia. unfold compress. rewrite fold_left_app. cbn [fold_left].
  do 2 f_equal. rewrite drop_app_le by lia. fold (tail p).
  apply take_ge. rewrite length_app, H56. done.
Qed.

Lemma final_absorbed m ctx : absorbed m ctx → ppp_MD5Final ctx = md5 m.
Proof.
  intros Ha. unfold ppp_MD5Final, md5. pose proof Ha as (E0 & E1 & _).
  rewrite E0, mod_8. pose proof (zlen_nonneg m). rewrite pad_length by lia.
  rewrite take_PADDING by (apply Z.mod_pos_bound; lia).
  set (r := [128] ++ replicate (Z.to_nat ((55 - zlen m) mod 64)) 0).
  assert (zlen r < 4294967296) as Hr.
  { unfold r. rewrite zlen_app. change (zlen [128]) with 1. rewrite zlen_replicate; lia. }
  destruct (update_absorbed m r ctx Hr Ha) as (_ & _ & Hb & Hl & Ht).
  destruct (md5_pad_hash m) as [H56 Hc]. fold r in H56, Hc. rewrite Hc, last_block by done.
  rewrite H56 in Ht. rewrite Hb, E1, <- Ht, get_words_take by lia. done.
Qed.

(** C29: However a message is cut into pieces, [ppp_MD5Init], an [ppp_MD5Update] for each piece and
    [ppp_MD5Final] compute the MD5 digest of the message, whatever the context's buffer held. *)
Theorem md5_streaming (garbage : bytes) (pieces : list bytes) : length garbage = 64%nat →
  Forall (λ p, zlen p < 4294967296) pieces →
  ppp_MD5Final (fold_left (λ ctx p, ppp_MD5Update p ctx) pieces (ppp_MD5Init garbage)) =
  md5 (mjoin pieces).
Proof.
  intros Hg Hp. apply final_absorbed. change (mjoin pieces) with ([] ++ mjoin pieces).
  generalize (init_absorbed garbage Hg). generalize (ppp_MD5Init garbage), (@nil Z).
  induction Hp as [|p ps Hlen _ IH]; intros ctx m Ha; cbn [fold_left mjoin list_join].
  { by rewrite app_nil_r. }
  rewrite app_assoc. by apply IH, update_absorbed.
Qed.

(** The digests RFC 1321 gives for the empty message and for "abc". *)
Example md5_empty : md5 [] =
  [212; 29; 140; 217; 143; 0; 178; 4; 233; 128; 9; 152; 236; 248; 66; 126].
Proof. by vm_compute. Qed.

Example md5_abc : md5 [97; 98; 99] =
  [144; 1; 80; 152; 60; 210; 79; 176; 214; 150; 63; 125; 40; 225; 127; 114].
Proof. by vm_compute. Qed.

Lemma md5_streaming_witness :
  ppp_MD5Final (ppp_MD5Update [99] (ppp_MD5Update [97; 98] (ppp_MD5Init (replicate 64 7)))) =
  md5 [97; 98; 99].
Proof.
  apply (md5_streaming (replicate 64 7) [[97; 98]; [99]]); [done|].
  by repeat (apply Forall_cons_2 || apply Forall_nil_2).
Defined.

Lemma md5_len m : zlen (md5 m) = 16.
Proof. unfold md5. by destruct (compress _ _) as [[[a b] c] d]. Qed.

Lemma md5_bytes m : Bytes (md5 m).
Proof.
  unfold md5. destruct (compress _ _) as [[[a b] c] d]. unfold put_word.
  change 255 with (Z.ones 8). rewrite !Z.land_ones by lia.
  repeat apply Forall_cons_2; try apply Forall_nil_2; apply Z.mod_pos_bound; lia.
Qed.
