(* ===== verification/Auth.v ===== *)
(** * Authentication policy ([ppp/auth.c])

    [check_passwd] and [get_secret] answer the password and challenge
    protocols from the secrets table and the authorization files (file
    Secrets); [link_established] starts the authentication that LCP
    negotiated and the [auth_*] routines open the network phase when none is
    pending; [auth_ip_addr] checks an address against the list that came with
    the secret.  What the routines start in other parts is recorded in
    [log], the newest first. *)
From Stdlib Require Import ZArith Lia Bool.
From stdpp Require Import base tactics list sets numbers option.
From S2P Require Import Prelude PppDefs Lcp Secrets.

Local Open Scope Z_scope.

(** ** What the sources take from headers *)

Class PapDefs := {
  UPAP_HEADERLEN : Z;
  UPAP_DEFTIMEOUT : Z;
  UPAP_AUTHREQ : Z; UPAP_AUTHACK : Z; UPAP_AUTHNAK : Z
}.

Class PapDefsLaws `{PapDefs} := {
  UPAP_HEADERLEN_eq : UPAP_HEADERLEN = 4;
  UPAP_codes : NoDup [UPAP_AUTHREQ; UPAP_AUTHACK; UPAP_AUTHNAK];
  UPAP_code_bytes : Bytes [UPAP_AUTHREQ; UPAP_AUTHACK; UPAP_AUTHNAK]
}.

Class InetDefs := {
  ntohl : Z → Z;
  IN_CLASSA_NSHIFT : Z;
  IN_LOOPBACKNET : Z;
  IN_MULTICAST : Z → bool;
  IN_BADCLASS : Z → bool
}.

(** ** Data *)

Inductive phase := PHASE_DEAD | PHASE_ESTABLISH | PHASE_AUTHENTICATE | PHASE_NETWORK
  | PHASE_TERMINATE.

#[export] Instance phase_eq_dec : EqDecision phase.
Proof. solve_decision. Defined.

(** Bits in [auth_pending]. *)
Definition UPAP_WITHPEER : Z := 1.
Definition UPAP_PEER : Z := 2.
Definition CHAP_WITHPEER : Z := 4.
Definition CHAP_PEER : Z := 8.

Inductive action :=
  | Die                                      (** [lcp_close], and the end of the task *)
  | DoChapAuthPeer (name : bytes) (digest : Z)
  | DoUpapAuthPeer
  | DoChapAuthWithPeer (name : bytes) (digest : Z)
  | DoUpapAuthWithPeer (user passwd : bytes)
  | DoIpcpOpen.

#[export] Instance action_eq_dec : EqDecision action.
Proof. solve_decision. Defined.

(** The options of the unit; [None] is a null file name. *)
Record auth_conf := MkConf {
  hostname : bytes;
  our_name : bytes;
  remote_name : bytes;
  user : bytes;
  passwd : bytes;
  uselogin : bool;
  auth_required : bool;
  pap_file : option bytes;
  chap_file : option bytes;
  opt_stay : bool              (** OPT_PASSIVE or OPT_SILENT of the LCP automaton *)
}.

Record auth := MkAuth {
  conf : auth_conf;
  secrets : option (list ppp_secret);
  addresses : list bytes;
  auth_pending : Z;
  aphase : phase;
  lcp_opened : bool;           (** the LCP automaton is in OPENED *)
  alog : list action
}.

Definition set_addresses a s := MkAuth (conf s) (secrets s) a (auth_pending s) (aphase s) (lcp_opened s) (alog s).
Definition set_pending p s := MkAuth (conf s) (secrets s) (addresses s) p (aphase s) (lcp_opened s) (alog s).
Definition set_phase p s := MkAuth (conf s) (secrets s) (addresses s) (auth_pending s) p (lcp_opened s) (alog s).
Definition act a s := MkAuth (conf s) (secrets s) (addresses s) (auth_pending s) (aphase s) (lcp_opened s) (a :: alog s).
Definition set_opened o s := MkAuth (conf s) (secrets s) (addresses s) (auth_pending s) (aphase s) o (alog s).
Definition set_conf c s := MkAuth c (secrets s) (addresses s) (auth_pending s) (aphase s) (lcp_opened s) (alog s).

Section Auth.
Context `{SecretDefsLaws} `{PapDefsLaws} `{LcpDefsLaws} `{InetDefs}.
Variable fopen : bytes → option bytes.
Variable loginUserVerify : bytes → bytes → bool.          (** [!= ERROR] *)
Variable pppCryptRtn : option (bytes → bytes → bytes).
Variable inet_addr : bytes → Z.                           (** an unsigned long *)
Variable hostGetByName : bytes → Z.

(** [f = fopen (filename, "r")] for a name that may be null. *)
Definition open_file (name : option bytes) : option bytes :=
  match name with Some n => fopen n | None => None end.

(** [secret[0] != 0 && strcmp (passwd, secret) != 0 && ...]. *)
Definition wrong_passwd (secret passwd : bytes) : bool :=
  negb (bool_decide (secret = [])) && negb (bool_decide (passwd = secret)) &&
  match pppCryptRtn with
  | None => true
  | Some crypt => negb (bool_decide (crypt secret passwd = passwd))
  end.

Definition LOGIN_OK : bytes := [76; 111; 103; 105; 110; 32; 111; 107].
Definition LOGIN_INCORRECT : bytes :=
  [76; 111; 103; 105; 110; 32; 105; 110; 99; 111; 114; 114; 101; 99; 116].

(** The secret of the authorization file, and the address list. *)
Definition file_passwd (user passwd : bytes) (s : auth) : rd (Z * list bytes) :=
  match open_file (pap_file (conf s)) with
  | None => Rd (UPAP_AUTHNAK, [])
  | Some f =>
      match scan_authfile fopen f (Some user) (Some (our_name (conf s))) [] with
      | Rd m => Rd (if (best_flag m <? 0) || wrong_passwd (m_secret m) passwd
                    then UPAP_AUTHNAK else UPAP_AUTHACK, addr_list m)
      | RdEof => RdEof
      | RdFault => RdFault
      | RdFuel => RdFuel
      end
  end.

Definition check_passwd (auser apasswd : bytes) (s : auth) : rd (Z * bytes * auth) :=
  let passwd := cstr apasswd in
  let user := cstr auser in
  let r :=
    if uselogin (conf s) then
      Rd (if loginUserVerify user passwd then UPAP_AUTHACK else UPAP_AUTHNAK, [])
    else
      match pppSecretFind fopen (secrets s) (Some user) (Some (our_name (conf s))) true with
      | Rd m =>
          if wrong_passwd (m_secret m) passwd then file_passwd user passwd s
          else Rd (UPAP_AUTHACK, addr_list m)
      | RdEof => file_passwd user passwd s
      | RdFault => RdFault
      | RdFuel => RdFuel
      end in
  match r with
  | Rd (ret, addrs) =>
      Rd (if ret =? UPAP_AUTHNAK then (ret, LOGIN_INCORRECT, s)
          else (ret, LOGIN_OK, set_addresses addrs s))
  | RdEof => RdEof
  | RdFault => RdFault
  | RdFuel => RdFuel
  end.

(** [i >= 0 && (i & NONWILD_CLIENT) != 0 && secret[0] == 0]. *)
Definition null_ok (m : match_state) : bool :=
  (0 <=? best_flag m) && negb (Z.land (best_flag m) NONWILD_CLIENT =? 0) &&
  bool_decide (m_secret m = []).

Definition null_login (s : auth) : rd (bool * auth) :=
  let from_file :=
    match open_file (pap_file (conf s)) with
    | None => Rd (false, s)
    | Some f =>
        match scan_authfile fopen f (Some []) (Some (our_name (conf s))) [] with
        | Rd m => Rd (null_ok m, if null_ok m then set_addresses (addr_list m) s else s)
        | RdEof => RdEof
        | RdFault => RdFault
        | RdFuel => RdFuel
        end
    end in
  match pppSecretFind fopen (secrets s) (Some []) (Some (our_name (conf s))) true with
  | Rd m => if null_ok m then Rd (true, set_addresses (addr_list m) s) else from_file
  | RdEof => from_file
  | RdFault => RdFault
  | RdFuel => RdFuel
  end.

(** A search of the table and then of a file, where either name may be null:
    the secret, or none. *)
Definition find_or_scan (file : option bytes) (client server : option bytes) (want_secret : bool)
    (s : auth) : rd (option match_state) :=
  match pppSecretFind fopen (secrets s) client server want_secret with
  | Rd m => Rd (Some m)
  | RdEof =>
      match open_file file with
      | None => Rd None
      | Some f =>
          match scan_authfile fopen f client server [] with
          | Rd m => Rd (if best_flag m <? 0 then None else Some m)
          | RdEof => RdEof
          | RdFault => RdFault
          | RdFuel => RdFuel
          end
      end
  | RdFault => RdFault
  | RdFuel => RdFuel
  end.

Definition get_upap_passwd (s : auth) : rd (bool * auth) :=
  let c := conf s in
  match find_or_scan (pap_file c) (Some (user c)) (Some (remote_name c)) true s with
  | Rd (Some m) =>
      Rd (true, set_conf (MkConf (hostname c) (our_name c) (remote_name c) (user c)
                  (ztake (MAXSECRETLEN - 1) (m_secret m)) (uselogin c) (auth_required c)
                  (pap_file c) (chap_file c) (opt_stay c)) s)
  | Rd None => Rd (false, s)
  | RdEof => RdEof
  | RdFault => RdFault
  | RdFuel => RdFuel
  end.

Definition have_secret (r : rd (option match_state)) : rd bool :=
  match r with
  | Rd (Some _) => Rd true
  | Rd None => Rd false
  | RdEof => RdEof
  | RdFault => RdFault
  | RdFuel => RdFuel
  end.

Definition have_upap_secret (s : auth) : rd bool :=
  if uselogin (conf s) then Rd true
  else have_secret (find_or_scan (pap_file (conf s)) None (Some (our_name (conf s))) false s).

Definition have_chap_secret (client server : bytes) (s : auth) : rd bool :=
  let '(client, server) :=
    match client, server with
    | [], _ => (None, Some server)
    | _, [] => (Some client, None)
    | _, _ => (Some client, Some server)
    end in
  have_secret (find_or_scan (chap_file (conf s)) client server false s).

Definition get_secret (client server : bytes) (save_addrs : bool) (s : auth)
    : rd (option bytes * auth) :=
  match find_or_scan (chap_file (conf s)) (Some client) (Some server) true s with
  | Rd (Some m) =>
      Rd (Some (ztake MAXSECRETLEN (m_secret m)),
          if save_addrs then set_addresses (addr_list m) s else s)
  | Rd None => Rd (None, s)
  | RdEof => RdEof
  | RdFault => RdFault
  | RdFuel => RdFuel
  end.

(** *** Addresses *)

Definition bad_ip_adrs (addr : Z) : bool :=
  let addr := ntohl addr in
  (Z.shiftr addr IN_CLASSA_NSHIFT =? IN_LOOPBACKNET) || IN_MULTICAST addr || IN_BADCLASS addr.

Fixpoint addr_listed (addr : Z) (addrs : list bytes) : bool :=
  match addrs with
  | [] => false
  | w :: r =>
      if bool_decide (w = [45]) then false
      else
        let a := inet_addr w in
        let a := if a =? 4294967295 then hostGetByName w else a in
        if (inet_addr w =? 4294967295) && (a =? 0) then addr_listed addr r
        else if addr =? a then true else addr_listed addr r
  end.

Definition auth_ip_addr (addr : Z) (s : auth) : bool :=
  if bad_ip_adrs addr then false
  else match addresses s with
       | [] => true
       | _ => addr_listed addr (addresses s)
       end.

(** *** The phases of the link *)

Definition link_terminated (s : auth) : auth := set_phase PHASE_DEAD s.
(** Called when the LCP automaton leaves OPENED. *)
Definition link_down (s : auth) : auth := set_opened false (set_phase PHASE_TERMINATE s).

(** [die (unit, 1)]; whether it returns.  [lcp_close] takes an automaton in
    OPENED down; the task ends unless the automaton waits for a peer. *)
Definition die (s : auth) : bool * auth :=
  (opt_stay (conf s), act Die (if lcp_opened s then link_down s else s)).

(** The authentication of the peer and to the peer, and the bits set. *)
Definition start_auth (go ho : lcp_options) (s : auth) : Z * auth :=
  let c := conf s in
  let '(auth, s) :=
    if neg_chap go then (CHAP_PEER, act (DoChapAuthPeer (our_name c) (chap_mdtype go)) s)
    else if neg_upap go then (UPAP_PEER, act DoUpapAuthPeer s)
    else (0, s) in
  if neg_chap ho then
    (Z.lor auth CHAP_WITHPEER, act (DoChapAuthWithPeer (our_name c) (chap_mdtype ho)) s)
  else if neg_upap ho then
    (Z.lor auth UPAP_WITHPEER, act (DoUpapAuthWithPeer (user c) (passwd c)) s)
  else (auth, s).

(** Called when the LCP automaton enters OPENED. *)
Definition link_established (wo go ho : lcp_options) (s : auth) : rd auth :=
  let s := set_opened true s in
  let proceed s :=
    let s := set_phase PHASE_AUTHENTICATE s in
    let '(auth, s) := start_auth go ho s in
    let s := set_pending auth s in
    if auth =? 0 then act DoIpcpOpen (set_phase PHASE_NETWORK s) else s in
  if auth_required (conf s) && negb (neg_chap go || neg_upap go) then
    let refused s := let '(returns, s) := die s in Rd (if returns : bool then proceed s else s) in
    if negb (neg_upap wo) then refused s
    else
      match null_login s with
      | Rd (ok, s) => if ok then Rd (proceed s) else refused s
      | RdEof => RdEof
      | RdFault => RdFault
      | RdFuel => RdFuel
      end
  else Rd (proceed s).

Definition auth_peer_fail (protocol : Z) (s : auth) : auth := snd (die s).

(** [auth_pending &= ~bit], and the network phase when no bit is left. *)
Definition auth_done (bit : Z) (s : auth) : auth :=
  let s := set_pending (Z.ldiff (auth_pending s) bit) s in
  if auth_pending s =? 0 then act DoIpcpOpen (set_phase PHASE_NETWORK s) else s.

Definition auth_peer_success (protocol : Z) (s : auth) : auth :=
  if protocol =? CHAP then auth_done CHAP_PEER s
  else if protocol =? UPAP then auth_done UPAP_PEER s
  else s.

Definition auth_withpeer_fail (protocol : Z) (s : auth) : auth := s.

Definition auth_withpeer_success (protocol : Z) (s : auth) : auth :=
  if protocol =? CHAP then auth_done CHAP_WITHPEER s
  else if protocol =? UPAP then auth_done UPAP_WITHPEER s
  else auth_done 0 s.

(** [check_auth_options]: the options that remain wanted and allowed. *)
Definition default_names (c : auth_conf) : auth_conf :=
  let our := match our_name c with [] => hostname c | n => n end in
  let usr := match user c with [] => our | n => n end in
  MkConf (hostname c) our (remote_name c) usr (passwd c) (uselogin c) (auth_required c)
    (pap_file c) (chap_file c) (opt_stay c).

Definition check_auth_options (wo ao : lcp_options) (s : auth)
    : rd (lcp_options * lcp_options * auth) :=
  let s := set_conf (default_names (conf s)) s in
  let wo :=
    if auth_required (conf s) && negb (neg_chap wo) && negb (neg_upap wo)
    then set_neg_upap true (set_neg_chap true wo) else wo in
  rd_bind
    (if neg_upap ao && bool_decide (passwd (conf s) = []) then get_upap_passwd s else Rd (true, s))
    (λ '(ok, s),
  let ao := if ok : bool then ao else set_neg_upap false ao in
  rd_bind
    (if neg_upap wo && negb (uselogin (conf s)) then have_upap_secret s else Rd true)
    (λ ok,
  let wo := if ok : bool then wo else set_neg_upap false wo in
  rd_bind
    (if neg_chap ao then have_chap_secret (our_name (conf s)) (remote_name (conf s)) s else Rd true)
    (λ ok,
  let ao := if ok : bool then ao else set_neg_chap false ao in
  rd_bind
    (if neg_chap wo then have_chap_secret (remote_name (conf s)) (our_name (conf s)) s else Rd true)
    (λ ok,
  let wo := if ok : bool then wo else set_neg_chap false wo in
  let s := if auth_required (conf s) && negb (neg_chap wo) && negb (neg_upap wo)
           then snd (die s) else s in
  Rd (wo, ao, s))))).

(** ** Passwords and secrets *)

Definition accepts (passwd : bytes) (m : match_state) : bool :=
  (0 <=? best_flag m) && negb (wrong_passwd (m_secret m) passwd).

Lemma wrong_passwd_false secret passwd : wrong_passwd secret passwd = false ↔
  secret = [] ∨ passwd = secret ∨ ∃ crypt, pppCryptRtn = Some crypt ∧ crypt secret passwd = passwd.
Proof.
  unfold wrong_passwd. repeat case_bool_decide; cbn [negb andb]; try (split; [tauto|done]).
  destruct pppCryptRtn as [crypt|].
  - case_bool_decide; cbn [negb]; split; intros Hx; try done; [by eauto 10|].
    destruct Hx as [?|[?|(c & [= ->] & ?)]]; done.
  - split; [done|]. intros [?|[?|(c & ? & ?)]]; done.
Qed.

Lemma UPAP_ack_nak : UPAP_AUTHACK ≠ UPAP_AUTHNAK.
Proof.
  pose proof UPAP_codes as Hn. rewrite list.NoDup_cons in Hn. destruct Hn as [_ Hn].
  rewrite list.NoDup_cons, list_elem_of_singleton in Hn. apply Hn.
Qed.

(** The authorization file of the unit holds the lines [ls]. *)
Definition has_file (file : option bytes) (ls : list line) : Prop :=
  open_file file = Some (fmt ls) ∧ Forall line_ok ls.

Lemma scan_has_file file ls client server : files_ok fopen → has_file file ls →
  ∃ f m, open_file file = Some f ∧ scan_authfile fopen f client server [] = Rd m ∧
    best_match fopen client server ls (MkMatch (-1) [] []) m.
Proof.
  intros Hok [Hf Hls]. exists (fmt ls). eexists. split_and!; [done| |by apply consider_best].
  by apply scan_authfile_fold.
Qed.

(** The lines of the file of a unit, which may be missing. *)
Definition file_lines (file : option bytes) (ls : list line) : Prop :=
  has_file file ls ∨ open_file file = None ∧ ls = [].

(** The file decides with the best of its entries. *)
Lemma file_passwd_best user passwd s ls : files_ok fopen → file_lines (pap_file (conf s)) ls →
  ∃ m, best_match fopen (Some user) (Some (our_name (conf s))) ls (MkMatch (-1) [] []) m ∧
    file_passwd user passwd s =
      Rd (if accepts passwd m then UPAP_AUTHACK else UPAP_AUTHNAK, addr_list m).
Proof.
  intros Hok [Hfile|[Hnone ->]]; unfold file_passwd, accepts.
  - destruct (scan_has_file _ _ (Some user) (Some (our_name (conf s))) Hok Hfile) as (f & m & -> & -> & Hbest).
    exists m. split; [done|]. rewrite Z.leb_antisym.
    by destruct (best_flag m <? 0), (wrong_passwd (m_secret m) passwd).
  - exists (MkMatch (-1) [] []). rewrite Hnone. split; [|done]. by apply (consider_best fopen _ _ []).
Qed.

Lemma best_match_flag client server ls m : best_match fopen client server ls (MkMatch (-1) [] []) m →
  m = MkMatch (-1) [] [] ∨ 0 <= best_flag m.
Proof. intros [[-> _]|(pre & e & post & x & _ & _ & _ & -> & _)]; [by left|right; apply flag_of_nonneg]. Qed.

Lemma best_match_nil client server m : best_match fopen client server [] (MkMatch (-1) [] []) m → m = MkMatch (-1) [] [].
Proof. by intros [[-> _]|([|] & e & post & x & ? & _)]. Qed.

(** The table is searched as a file would be when its entries for the two
    names agree on whether their client is a wildcard; a missing table is an
    empty one. *)
Lemma table_best client server wild t :
  Forall (λ e, is_Some (secret_of fopen (s_secret e)) ∧
    (applies client server (to_line e) = true → ISWILD (s_client e) = wild)) (default [] t) →
  ∃ m, best_match fopen client server (map to_line (default [] t)) (MkMatch (-1) [] []) m ∧
    pppSecretFind fopen t client server true = (if best_flag m <? 0 then RdEof else Rd m).
Proof.
  intros Hl. destruct (pppSecretFind_best fopen client server wild _ Hl) as (m & Hm & Hf). exists m. split; [done|].
  destruct (best_match_flag _ _ _ _ Hm) as [Hx|Hx].
  - rewrite Hx in *. by destruct t.
  - rewrite (proj2 (Z.ltb_ge _ _) Hx). destruct (Z.eqb_spec (best_flag m) (-1)); [lia|]. destruct t as [l|]; [done|].
    by rewrite (best_match_nil _ _ _ Hm) in Hx.
Qed.

(** C27: A peer is authenticated by the password it sends exactly when the best entry of the
    secrets table for its name and ours (the first of the most specific ones), or else the
    best entry of the authorization file, has an empty secret, that password, or one the
    encryption routine accepts; the answer carries the matching message, and only on success
    are the addresses of the entry that decided made the authorized ones.  The secrets of
    the table must be readable, and its entries for the two names must agree on whether
    their client is a wildcard: otherwise [pppSecretFind] may take another entry
    ([pppSecretFind_leak]). *)
Theorem check_passwd_spec user passwd s ls wild :
  uselogin (conf s) = false → Forall (λ c, c ≠ 0) user → Forall (λ c, c ≠ 0) passwd →
  files_ok fopen → file_lines (pap_file (conf s)) ls →
  let client := Some user in let server := Some (our_name (conf s)) in
  Forall (λ e, is_Some (secret_of fopen (s_secret e)) ∧
    (applies client server (to_line e) = true → ISWILD (s_client e) = wild)) (default [] (secrets s)) →
  ∃ mt mf,
    best_match fopen client server (map to_line (default [] (secrets s))) (MkMatch (-1) [] []) mt ∧
    best_match fopen client server ls (MkMatch (-1) [] []) mf ∧
    check_passwd user passwd s = Rd
      (if accepts passwd mt then (UPAP_AUTHACK, LOGIN_OK, set_addresses (addr_list mt) s)
       else if accepts passwd mf then (UPAP_AUTHACK, LOGIN_OK, set_addresses (addr_list mf) s)
       else (UPAP_AUTHNAK, LOGIN_INCORRECT, s)).
Proof.
  intros Hl Hu Hp Hok Hfile client server Ht. unfold check_passwd. rewrite Hl, !cstr_id by done.
  destruct (table_best client server wild (secrets s) Ht) as (mt & Hmt & Hfind).
  destruct (file_passwd_best user passwd s ls Hok Hfile) as (mf & Hmf & Hff).
  exists mt, mf. split; [done|]. split; [done|]. fold client server. rewrite Hfind, Hff.
  assert (accepts passwd mt = negb (best_flag mt <? 0) && negb (wrong_passwd (m_secret mt) passwd)) as ->.
  { unfold accepts. by rewrite Z.leb_antisym. }
  pose proof UPAP_ack_nak as Hne. apply Z.eqb_neq in Hne.
  destruct (best_flag mt <? 0), (wrong_passwd (m_secret mt) passwd), (accepts passwd mf); cbn [negb andb];
    rewrite ?Hne, ?Z.eqb_refl; done.
Qed.

(** With an authorization file and an empty table every check returns. *)
Lemma check_returns u p s ls : files_ok fopen → has_file (pap_file (conf s)) ls →
  secrets s = Some [] → ∃ code msg a, check_passwd u p s = Rd (code, msg, a).
Proof.
  intros Hok Hfile Ht. unfold check_passwd, file_passwd. rewrite Ht. cbn [pppSecretFind fold_left].
  destruct (scan_has_file _ _ (Some (cstr u)) (Some (our_name (conf s))) Hok Hfile)
    as (f & m & -> & -> & _).
  destruct (uselogin (conf s)); case_match; eauto.
Qed.

Lemma get_secret_file client server save s ls : files_ok fopen → has_file (chap_file (conf s)) ls →
  pppSecretFind fopen (secrets s) (Some client) (Some server) true = RdEof →
  ∃ m, best_match fopen (Some client) (Some server) ls (MkMatch (-1) [] []) m ∧
    get_secret client server save s = Rd
      (if best_flag m <? 0 then (None, s)
       else (Some (ztake MAXSECRETLEN (m_secret m)),
             if save then set_addresses (addr_list m) s else s)).
Proof.
  intros Hok Hfile Ht. unfold get_secret, find_or_scan. rewrite Ht.
  destruct (scan_has_file _ _ (Some client) (Some server) Hok Hfile) as (f & m & -> & -> & Hbest).
  exists m. split; [done|]. by destruct (best_flag m <? 0).
Qed.

(** [null_login] means to refuse wildcard clients, but with the flag that the table search
    leaves over from an entry that names some other client, an entry for any client with an
    empty secret lets a peer in that did not authenticate itself. *)
Theorem null_login_wildcard s c w s1 a1 a2 :
  ISWILD c = false → ISWILD w = true →
  our_name (conf s) ≠ [] → ISWILD (our_name (conf s)) = false →
  secrets s = Some [MkSecret c w s1 a1; MkSecret [42] (our_name (conf s)) [] a2] →
  null_login s = Rd (true, set_addresses (strtok_words [] a2) s).
Proof.
  intros Hc Hw Hne Ho Hs. unfold null_login. rewrite Hs.
  assert (mismatch (Some (our_name (conf s))) w = false) as Hm1.
  { unfold mismatch. rewrite Hw. destruct (our_name (conf s)); [done|apply andb_false_r]. }
  assert (mismatch (Some (our_name (conf s))) (our_name (conf s)) = false) as Hm2.
  { unfold mismatch. destruct (our_name (conf s)); [done|]. by rewrite bool_decide_true. }
  rewrite pppSecretFind_leak by done. unfold null_ok. cbn [best_flag m_secret addr_list].
  pose proof NONWILD_pos as [HC HS].
  assert (0 <= Z.lor NONWILD_CLIENT NONWILD_SERVER) by (apply Z.lor_nonneg; lia).
  destruct (Z.leb_spec 0 (Z.lor NONWILD_CLIENT NONWILD_SERVER)); [|lia].
  rewrite Z.land_lor_distr_l, Z.land_diag, (Z.land_comm NONWILD_SERVER), NONWILD_disjoint, Z.lor_0_r.
  destruct (Z.eqb_spec NONWILD_CLIENT 0); [lia|]. done.
Qed.

(** ** The network phase *)

Inductive auth_event :=
  | PeerSuccess (protocol : Z) | PeerFail (protocol : Z)
  | WithPeerSuccess (protocol : Z) | WithPeerFail (protocol : Z).

Definition auth_step (s : auth) (e : auth_event) : auth :=
  match e with
  | PeerSuccess p => auth_peer_success p s
  | PeerFail p => auth_peer_fail p s
  | WithPeerSuccess p => auth_withpeer_success p s
  | WithPeerFail p => auth_withpeer_fail p s
  end.

(** The methods LCP agreed on, and the method an event completes. *)
Definition required (go ho : lcp_options) : Z :=
  Z.lor (if neg_chap go then CHAP_PEER else if neg_upap go then UPAP_PEER else 0)
        (if neg_chap ho then CHAP_WITHPEER else if neg_upap ho then UPAP_WITHPEER else 0).

Definition completes (e : auth_event) : Z :=
  match e with
  | PeerSuccess p => if p =? CHAP then CHAP_PEER else if p =? UPAP then UPAP_PEER else 0
  | WithPeerSuccess p =>
      if p =? CHAP then CHAP_WITHPEER else if p =? UPAP then UPAP_WITHPEER else 0
  | _ => 0
  end.

Definition is_success (e : auth_event) : bool :=
  match e with PeerSuccess _ | WithPeerSuccess _ => true | _ => false end.

Ltac not_in :=
  rewrite ?not_elem_of_app, ?not_elem_of_cons; split_and?; done || apply not_elem_of_nil.

Lemma start_auth_required go ho s : ∃ l, (DoIpcpOpen ∉ l) ∧
  fst (start_auth go ho s) = required go ho ∧
  alog (snd (start_auth go ho s)) = l ++ alog s.
Proof.
  unfold start_auth, required.
  destruct (neg_chap go), (neg_upap go), (neg_chap ho), (neg_upap ho); cbn;
    match goal with
    | |- ∃ l, _ ∧ _ ∧ ?a :: ?b :: alog s = _ => exists [a; b]
    | |- ∃ l, _ ∧ _ ∧ ?a :: alog s = _ => exists [a]
    | |- _ => exists []
    end; split_and!; done || not_in.
Qed.

(** What [link_established] leaves when the peer did not refuse. *)
Lemma link_established_starts wo go ho s :
  (auth_required (conf s) = true → (neg_chap go || neg_upap go) = true) →
  ∃ s1 l, link_established wo go ho s = Rd s1 ∧
    auth_pending s1 = required go ho ∧ alog s1 = l ++ alog s ∧
    (if required go ho =? 0 then aphase s1 = PHASE_NETWORK
     else aphase s1 = PHASE_AUTHENTICATE ∧ DoIpcpOpen ∉ l).
Proof.
  intros Hreq. unfold link_established.
  assert ((auth_required (conf (set_opened true s)) && negb (neg_chap go || neg_upap go)) = false)
    as ->.
  { cbn. destruct (auth_required (conf s)); [|done]. by rewrite Hreq. }
  set (s0 := set_phase PHASE_AUTHENTICATE (set_opened true s)).
  destruct (start_auth_required go ho s0) as (l & Hl & Hf & Hlog).
  destruct (start_auth go ho s0) as [a s1] eqn:E. cbn [fst snd] in *. subst a.
  assert (aphase s1 = PHASE_AUTHENTICATE) as Hp.
  { unfold start_auth in E. cbn [aphase conf] in E.
    destruct (neg_chap go), (neg_upap go), (neg_chap ho), (neg_upap ho); by injection E as _ <-. }
  destruct (required go ho =? 0).
  - eexists _, (DoIpcpOpen :: l). split_and!; try done. cbn. by rewrite Hlog.
  - by eexists _, l.
Qed.

Lemma auth_step_waits e s k :
  Z.testbit (auth_pending s) k = true → Z.testbit (completes e) k = false →
  aphase s ≠ PHASE_NETWORK →
  Z.testbit (auth_pending (auth_step s e)) k = true ∧
  aphase (auth_step s e) ≠ PHASE_NETWORK ∧
  ∃ l, alog (auth_step s e) = l ++ alog s ∧ DoIpcpOpen ∉ l.
Proof.
  intros Hk He Hp.
  assert (∀ b, Z.testbit b k = false →
    Z.testbit (auth_pending (auth_done b s)) k = true ∧
    aphase (auth_done b s) ≠ PHASE_NETWORK ∧
    ∃ l, alog (auth_done b s) = l ++ alog s ∧ DoIpcpOpen ∉ l) as Hd.
  { intros b Hb. unfold auth_done. cbn [auth_pending set_pending].
    assert (Z.testbit (Z.ldiff (auth_pending s) b) k = true) as Hk'.
    { rewrite Z.ldiff_spec, Hk, Hb. done. }
    destruct (Z.eqb_spec (Z.ldiff (auth_pending s) b) 0) as [E|_].
    - rewrite E, Z.bits_0 in Hk'. done.
    - split_and!; [done|done|]. exists []. split; [done|not_in]. }
  destruct e as [p|p|p|p]; cbn [auth_step completes] in *.
  - unfold auth_peer_success. repeat case_match; try by apply Hd.
    split_and!; [done|done|]. exists []. split; [done|not_in].
  - unfold auth_peer_fail, die. cbn [snd]. destruct (lcp_opened s); cbn.
    all: split_and!; [done|done|]; exists [Die]; split; [done|not_in].
  - unfold auth_withpeer_success. repeat case_match; by apply Hd.
  - split_and!; [done|done|]. exists []. split; [done|not_in].
Qed.

Lemma auth_waits k : ∀ es s,
  Z.testbit (auth_pending s) k = true → Forall (λ e, Z.testbit (completes e) k = false) es →
  aphase s ≠ PHASE_NETWORK →
  aphase (fold_left auth_step es s) ≠ PHASE_NETWORK ∧
  ∃ l, alog (fold_left auth_step es s) = l ++ alog s ∧ DoIpcpOpen ∉ l.
Proof.
  induction es as [|e es IH]; intros s Hk Hes Hp; cbn [fold_left].
  { split; [done|]. exists []. split; [done|not_in]. }
  apply Forall_cons_1 in Hes as [He Hes].
  destruct (auth_step_waits e s k Hk He Hp) as (Hk' & Hp' & l1 & Hl1 & Hn1).
  destruct (IH _ Hk' Hes Hp') as (Hp2 & l2 & Hl2 & Hn2). split; [done|].
  exists (l2 ++ l1). rewrite Hl2, Hl1, app_assoc. split; [done|]. not_in.
Qed.

Lemma auth_proceeds : ∀ es s, forallb is_success es = true →
  (auth_pending s = 0 → aphase s = PHASE_NETWORK) →
  (∀ k, Z.testbit (auth_pending s) k = true → Exists (λ e, Z.testbit (completes e) k = true) es) →
  aphase (fold_left auth_step es s) = PHASE_NETWORK.
Proof.
  induction es as [|e es IH]; intros s Hes Hp Hk; cbn [fold_left].
  { apply Hp. apply Z.bits_inj. intros k. rewrite Z.bits_0.
    destruct (Z.testbit (auth_pending s) k) eqn:E; [|done]. apply Hk in E. by inversion E. }
  cbn [forallb] in Hes. apply andb_true_iff in Hes as [He Hes].
  assert (auth_pending (auth_step s e) = Z.ldiff (auth_pending s) (completes e) ∧
    (auth_pending (auth_step s e) = 0 → aphase (auth_step s e) = PHASE_NETWORK)) as [E Hp'].
  { assert (∀ b, auth_pending (auth_done b s) = Z.ldiff (auth_pending s) b ∧
      (auth_pending (auth_done b s) = 0 → aphase (auth_done b s) = PHASE_NETWORK)) as Hd.
    { intros b. unfold auth_done. cbn [auth_pending set_pending].
      destruct (Z.eqb_spec (Z.ldiff (auth_pending s) b) 0); by cbn. }
    destruct e as [p|p|p|p]; try done; cbn [auth_step completes];
      unfold auth_peer_success, auth_withpeer_success; repeat case_match; try apply Hd.
    rewrite Z.ldiff_0_r. by split. }
  apply IH; [done|done|]. intros k. rewrite E, Z.ldiff_spec, andb_true_iff. intros [Hk1 Hk2].
  apply Hk in Hk1. apply List.Exists_cons in Hk1 as [Hc|?]; [|done].
  rewrite Hc in Hk2. done.
Qed.

(** C26: When the link is established and the peer did not refuse authentication, the network
    phase waits for every method that was negotiated: while one of them has not succeeded,
    whatever else succeeds or fails, IPCP is not opened; when all have, the phase is
    network. *)
Theorem network_needs_auth wo go ho s :
  (auth_required (conf s) = true → (neg_chap go || neg_upap go) = true) →
  ∃ s1, link_established wo go ho s = Rd s1 ∧ ∀ es,
    (∀ k, Z.testbit (required go ho) k = true →
       Forall (λ e, Z.testbit (completes e) k = false) es →
       aphase (fold_left auth_step es s1) ≠ PHASE_NETWORK ∧
       ∃ l, alog (fold_left auth_step es s1) = l ++ alog s ∧ DoIpcpOpen ∉ l) ∧
    (forallb is_success es = true →
       (∀ k, Z.testbit (required go ho) k = true →
          Exists (λ e, Z.testbit (completes e) k = true) es) →
       aphase (fold_left auth_step es s1) = PHASE_NETWORK).
Proof.
  intros Hreq. destruct (link_established_starts wo go ho s Hreq) as (s1 & l & -> & Hp & Hl & Hph).
  exists s1. split; [done|]. intros es. split.
  - intros k Hk Hes. destruct (Z.eqb_spec (required go ho) 0) as [E|_].
    { by rewrite E, Z.bits_0 in Hk. }
    destruct Hph as [Hph Hn]. rewrite <- Hp in Hk.
    destruct (auth_waits k es s1 Hk Hes) as (Hx & l' & Hl' & Hn'); [by rewrite Hph|].
    split; [done|]. exists (l' ++ l). rewrite Hl', Hl, app_assoc. split; [done|not_in].
  - intros Hs Hk. apply auth_proceeds; [done| |by rewrite Hp].
    rewrite Hp. intros E. by rewrite E in Hph.
Qed.

(** A peer that refuses the authentication that is required is not booted out when LCP is
    passive or silent: [die] returns, and with nothing negotiated IPCP is opened. *)
Theorem refused_opens_network wo go ho s :
  auth_required (conf s) = true → opt_stay (conf s) = true →
  neg_upap wo = false → required go ho = 0 →
  ∃ s1, link_established wo go ho s = Rd s1 ∧ aphase s1 = PHASE_NETWORK ∧
    alog s1 = DoIpcpOpen :: Die :: alog s.
Proof.
  intros Hr Ho Hw Hq. unfold link_established, die. cbn [conf set_opened].
  assert (neg_chap go = false ∧ neg_upap go = false ∧ neg_chap ho = false ∧ neg_upap ho = false)
    as (Hc & Hu & Hc' & Hu').
  { unfold required in Hq. by destruct (neg_chap go), (neg_upap go), (neg_chap ho), (neg_upap ho). }
  rewrite Hr, Hw, Hc, Hu, Ho. cbn [andb negb orb]. unfold start_auth. rewrite Hc, Hu, Hc', Hu'.
  eexists. split; [done|]. by split.
Qed.

End Auth.

(** ** What the authentication protocols rely on

    [auth_check] stands for [check_passwd], [auth_secret] for [get_secret]
    and [auth_notify] for the four [auth_*] routines. *)

Class AuthLayer (A : Type) := {
  auth_check : bytes → bytes → A → rd (Z * bytes * A);
  auth_secret : bytes → bytes → bool → A → rd (option bytes * A);
  auth_notify : auth_event → A → A
}.

Class AuthLayerLaws (A : Type) `{PapDefs} `{SecretDefs} `{AuthLayer A} := {
  auth_check_code : ∀ u p a code msg a', auth_check u p a = Rd (code, msg, a') →
    (code = UPAP_AUTHACK ∨ code = UPAP_AUTHNAK) ∧ Bytes msg ∧ zlen msg < 256;
  auth_secret_len : ∀ c v save a s a', auth_secret c v save a = Rd (Some s, a') →
    zlen s <= MAXSECRETLEN
}.

Section Layer.
Context `{SecretDefsLaws} `{PapDefsLaws} `{LcpDefsLaws}.
Variable fopen : bytes → option bytes.
Variable loginUserVerify : bytes → bytes → bool.
Variable pppCryptRtn : option (bytes → bytes → bytes).

#[export] Instance auth_layer : AuthLayer auth := {|
  auth_check := check_passwd fopen loginUserVerify pppCryptRtn;
  auth_secret := get_secret fopen;
  auth_notify e s := auth_step s e
|}.

Lemma file_passwd_code u p s code addrs :
  file_passwd fopen pppCryptRtn u p s = Rd (code, addrs) →
  code = UPAP_AUTHACK ∨ code = UPAP_AUTHNAK.
Proof.
  unfold file_passwd. destruct (open_file fopen _); [|intros [= <- _]; by right].
  destruct (scan_authfile _ _ _ _ _) as [m| | |]; try done. intros [= <- _].
  destruct (_ || _); auto.
Qed.

#[export] Instance auth_layer_laws : AuthLayerLaws auth.
Proof.
  split.
  - intros u p a code msg a'. cbn [auth_check auth_layer]. unfold check_passwd.
    match goal with |- match ?r with _ => _ end = _ → _ => set (res := r) end.
    assert (∀ c l, res = Rd (c, l) → c = UPAP_AUTHACK ∨ c = UPAP_AUTHNAK) as Hres.
    { intros c l. subst res. destruct (uselogin (conf a)).
      { intros [= <- _]. destruct (loginUserVerify _ _); auto. }
      destruct (pppSecretFind _ _ _ _ _) as [m| | |]; try done; [|apply file_passwd_code].
      destruct (wrong_passwd _ _ _); [apply file_passwd_code|]. intros [= <- _]. auto. }
    destruct res as [[ret addrs]| | |]; try done. specialize (Hres ret addrs eq_refl).
    destruct (ret =? UPAP_AUTHNAK); intros [= <- <- <-]; (split; [done|]);
      (split; [apply (bool_decide_unpack _)|]); by vm_compute.
  - intros c v save a s a'. cbn [auth_secret auth_layer]. unfold get_secret.
    destruct (find_or_scan _ _ _ _ _ _) as [[m|]| | |]; try done. intros [= <- _].
    rewrite zlen_ztake. pose proof MAXSECRETLEN_pos. lia.
Qed.
End Layer.

(** ** The values of RFC 1334 and of the socket headers *)

#[export] Instance rfc_pap_defs : PapDefs := {|
  UPAP_HEADERLEN := 4; UPAP_DEFTIMEOUT := 3;
  UPAP_AUTHREQ := 1; UPAP_AUTHACK := 2; UPAP_AUTHNAK := 3
|}.

#[export] Instance rfc_pap_defs_laws : PapDefsLaws.
Proof.
  split; [done|compute_done|]. repeat apply Forall_cons_2; done || (split; done).
Qed.

#[export] Instance bsd_inet_defs : InetDefs := {|
  ntohl a := a;
  IN_CLASSA_NSHIFT := 24; IN_LOOPBACKNET := 127;
  IN_MULTICAST a := Z.shiftr a 28 =? 14;
  IN_BADCLASS a := Z.shiftr a 28 =? 15
|}.

(** ** Witnesses *)

Definition demo_conf : auth_conf :=
  MkConf [104] [115] [114] [117] [112] false true (Some [112]) (Some [99]) true.
Definition demo_auth : auth := MkAuth demo_conf (Some []) [] 0 PHASE_ESTABLISH false [].

(** The file "p" holds the lines of the demonstration. *)
Definition demo_open (name : bytes) : option bytes :=
  if bool_decide (name = [112]) then Some (fmt demo_lines) else demo_fopen name.

Lemma demo_open_ok : files_ok demo_open.
Proof.
  intros name sf. unfold demo_open. case_bool_decide; [|apply demo_files_ok].
  intros [= <-]. by vm_compute.
Qed.

(** A table with an entry for the client "ab" whose secret is "q". *)
Definition demo_auth_table : auth :=
  MkAuth demo_conf (Some [MkSecret [42] [116] [119] []; MkSecret [97; 98] [115] [113] [49]]) [] 0 PHASE_ESTABLISH false [].

Lemma check_passwd_spec_witness : ∃ mt mf,
  best_match demo_open (Some [97; 98]) (Some [115]) (map to_line (default [] (secrets demo_auth_table))) (MkMatch (-1) [] []) mt ∧
  best_match demo_open (Some [97; 98]) (Some [115]) demo_lines (MkMatch (-1) [] []) mf ∧
  check_passwd demo_open (λ _ _, true) None [97; 98] [120; 121] demo_auth_table =
    Rd (if accepts None [120; 121] mt then (UPAP_AUTHACK, LOGIN_OK, set_addresses (addr_list mt) demo_auth_table)
        else if accepts None [120; 121] mf then (UPAP_AUTHACK, LOGIN_OK, set_addresses (addr_list mf) demo_auth_table)
        else (UPAP_AUTHNAK, LOGIN_INCORRECT, demo_auth_table)).
Proof.
  apply (check_passwd_spec demo_open (λ _ _, true) None [97; 98] [120; 121] demo_auth_table demo_lines false).
  - done.
  - by repeat (apply Forall_cons_2 || apply Forall_nil_2).
  - by repeat (apply Forall_cons_2 || apply Forall_nil_2).
  - apply demo_open_ok.
  - left. split; [done|apply demo_lines_ok].
  - repeat constructor; cbn; try done; eauto.
Defined.

(** The right password is acknowledged, a wrong one is not. *)
Example check_passwd_demo :
  check_passwd demo_open (λ _ _, true) None [97; 98] [120; 121] demo_auth =
    Rd (2, LOGIN_OK, set_addresses [[45]] demo_auth) ∧
  check_passwd demo_open (λ _ _, true) None [97; 98] [113] demo_auth =
    Rd (3, LOGIN_INCORRECT, demo_auth).
Proof. by vm_compute. Qed.

Definition wild_auth : auth :=
  MkAuth demo_conf (Some [MkSecret [97] [42] [1] []; MkSecret [42] [115] [] []]) [] 0
    PHASE_ESTABLISH false [].

Lemma null_login_wildcard_witness : null_login demo_open wild_auth = Rd (true, set_addresses [] wild_auth).
Proof. by apply (null_login_wildcard demo_open wild_auth [97] [42] [1] [] []). Defined.

Lemma network_needs_auth_witness : ∃ s1,
  link_established demo_open zero_options (set_neg_chap true zero_options) zero_options demo_auth
    = Rd s1 ∧
  aphase (fold_left auth_step [WithPeerSuccess 49187; PeerSuccess UPAP] s1) ≠ PHASE_NETWORK ∧
  aphase (fold_left auth_step [PeerSuccess CHAP] s1) = PHASE_NETWORK.
Proof.
  destruct (network_needs_auth demo_open zero_options (set_neg_chap true zero_options) zero_options
    demo_auth) as (s1 & E & Hs); [done|].
  exists s1. split; [done|]. split.
  - apply (proj1 (Hs [WithPeerSuccess 49187; PeerSuccess UPAP]) 3); [done|].
    repeat apply Forall_cons_2; try done.
  - apply (Hs [PeerSuccess CHAP]); [done|]. intros k Hk. by apply List.Exists_cons_hd.
Defined.

Lemma refused_opens_network_witness : ∃ s1,
  link_established demo_open zero_options zero_options zero_options demo_auth = Rd s1 ∧
  aphase s1 = PHASE_NETWORK ∧ alog s1 = [DoIpcpOpen; Die].
Proof.
  by apply (refused_opens_network demo_open zero_options zero_options zero_options demo_auth).
Defined.
