(* ===== verification/Upap.v ===== *)
(** * The password authentication protocol ([ppp/upap.c])

    [upap_state] holds the client side (we authenticate to the peer) and the
    server side (the peer authenticates to us) of a unit.  Passwords are
    checked, and results reported, through the interface [AuthLayer] (file
    Auth); the retransmission timer is the interface [Timers] (file
    Callout).  Packets sent and results reported are recorded in [ulog], the
    newest first.  A read outside the packet is a fault. *)
From Stdlib Require Import ZArith Lia Bool.
From stdpp Require Import base tactics list sets numbers option.
From S2P Require Import Prelude Callout PppDefs Lcp Secrets Auth.

Local Open Scope Z_scope.

(** ** Data *)

Inductive upap_client := UPAPCS_INITIAL | UPAPCS_CLOSED | UPAPCS_PENDING | UPAPCS_AUTHREQ
  | UPAPCS_OPEN | UPAPCS_BADAUTH.
Inductive upap_server := UPAPSS_INITIAL | UPAPSS_CLOSED | UPAPSS_PENDING | UPAPSS_LISTEN
  | UPAPSS_OPEN | UPAPSS_BADAUTH.

#[export] Instance upap_client_eq_dec : EqDecision upap_client.
Proof. solve_decision. Defined.
#[export] Instance upap_server_eq_dec : EqDecision upap_server.
Proof. solve_decision. Defined.

(** [us_userlen] and [us_passwdlen] are the lengths of the strings. *)
Record upap_state := MkUpap {
  us_clientstate : upap_client;
  us_serverstate : upap_server;
  us_user : bytes;
  us_passwd : bytes;
  us_id : Z;
  us_timeouttime : Z;
  us_transmits : Z;
  us_maxtransmits : Z
}.

Inductive upap_event := UOutput (packet : bytes) | UNotify (e : auth_event).

(** The unit, the authentication layer, the timers and what was produced. *)
Record usys (A T : Type) := MkUsys { us : upap_state; ua : A; ut : T; ulog : list upap_event }.
Arguments MkUsys {A T}. Arguments us {A T}. Arguments ua {A T}. Arguments ut {A T}.
Arguments ulog {A T}.

Section Upap.
Context {A T K : Type} `{EqDecision K} `{!Timers K T} `{!TimersLaws K T}.
Context `{PapDefsLaws} `{PppDefsLaws} `{LcpDefsLaws} `{SecretDefsLaws} `{!AuthLayer A} `{!AuthLayerLaws A}.
Variable upap_key : K.             (** [upap_timeout] and its argument *)

Abbreviation sys := (usys A T).

(** *** Steps *)

Definition upd (g : upap_state → upap_state) (s : sys) : sys :=
  MkUsys (g (us s)) (ua s) (ut s) (ulog s).
Definition set_client (c : upap_client) : sys → sys :=
  upd (λ u, MkUpap c (us_serverstate u) (us_user u) (us_passwd u) (us_id u) (us_timeouttime u)
              (us_transmits u) (us_maxtransmits u)).
Definition set_server (c : upap_server) : sys → sys :=
  upd (λ u, MkUpap (us_clientstate u) c (us_user u) (us_passwd u) (us_id u) (us_timeouttime u)
              (us_transmits u) (us_maxtransmits u)).
Definition set_ids (i n : Z) : sys → sys :=
  upd (λ u, MkUpap (us_clientstate u) (us_serverstate u) (us_user u) (us_passwd u) i
              (us_timeouttime u) n (us_maxtransmits u)).
Definition set_login (user passwd : bytes) : sys → sys :=
  upd (λ u, MkUpap (us_clientstate u) (us_serverstate u) user passwd (us_id u)
              (us_timeouttime u) 0 (us_maxtransmits u)).
Definition set_auth (a : A) (s : sys) : sys := MkUsys (us s) a (ut s) (ulog s).
Definition output (p : bytes) (s : sys) : sys := MkUsys (us s) (ua s) (ut s) (UOutput p :: ulog s).
Definition notify (e : auth_event) (s : sys) : sys :=
  MkUsys (us s) (auth_notify e (ua s)) (ut s) (UNotify e :: ulog s).
Definition PPP_TIMEOUT (s : sys) : sys :=
  MkUsys (us s) (ua s) (TIMEOUT upap_key (us_timeouttime (us s)) (ut s)) (ulog s).
Definition PPP_UNTIMEOUT (s : sys) : sys :=
  MkUsys (us s) (ua s) (UNTIMEOUT upap_key (ut s)) (ulog s).

(** *** Packets sent *)

Definition upap_init : upap_state :=
  MkUpap UPAPCS_INITIAL UPAPSS_INITIAL [] [] 0 UPAP_DEFTIMEOUT 0 10.

Definition authreq_packet (id : Z) (user passwd : bytes) : bytes :=
  let outlen := UPAP_HEADERLEN + 2 + zlen user + zlen passwd in
  MAKEHEADER UPAP ++ [u8 UPAP_AUTHREQ; id] ++ PUTSHORT outlen ++
  [u8 (zlen user)] ++ user ++ [u8 (zlen passwd)] ++ passwd.

Definition upap_sauthreq (s : sys) : sys :=
  let id := u8 (us_id (us s) + 1) in
  let s := set_ids id (us_transmits (us s)) s in
  let s := output (authreq_packet id (us_user (us s)) (us_passwd (us s))) s in
  let s := PPP_TIMEOUT s in
  let s := set_ids (us_id (us s)) (us_transmits (us s) + 1) s in
  set_client UPAPCS_AUTHREQ s.

Definition resp_packet (code id : Z) (msg : bytes) : bytes :=
  let outlen := UPAP_HEADERLEN + 1 + zlen msg in
  MAKEHEADER UPAP ++ [u8 code; u8 id] ++ PUTSHORT outlen ++ [u8 (zlen msg)] ++ msg.

Definition upap_sresp (code id : Z) (msg : bytes) (s : sys) : sys :=
  output (resp_packet code id msg) s.

(** *** The administrator, the timer and the lower layer *)

Definition upap_authwithpeer (user passwd : bytes) (s : sys) : sys :=
  let s := set_login user passwd s in
  match us_clientstate (us s) with
  | UPAPCS_INITIAL | UPAPCS_PENDING => set_client UPAPCS_PENDING s
  | _ => upap_sauthreq s
  end.

Definition upap_authpeer (s : sys) : sys :=
  match us_serverstate (us s) with
  | UPAPSS_INITIAL | UPAPSS_PENDING => set_server UPAPSS_PENDING s
  | _ => set_server UPAPSS_LISTEN s
  end.

Definition upap_timeout (s : sys) : sys :=
  if decide (us_clientstate (us s) = UPAPCS_AUTHREQ) then
    if us_maxtransmits (us s) <=? us_transmits (us s)
    then notify (WithPeerFail UPAP) (set_client UPAPCS_BADAUTH s)
    else upap_sauthreq s
  else s.

Definition upap_lowerup (s : sys) : sys :=
  let s :=
    match us_clientstate (us s) with
    | UPAPCS_INITIAL => set_client UPAPCS_CLOSED s
    | UPAPCS_PENDING => upap_sauthreq s
    | _ => s
    end in
  match us_serverstate (us s) with
  | UPAPSS_INITIAL => set_server UPAPSS_CLOSED s
  | UPAPSS_PENDING => set_server UPAPSS_LISTEN s
  | _ => s
  end.

Definition upap_lowerdown (s : sys) : sys :=
  let s := if decide (us_clientstate (us s) = UPAPCS_AUTHREQ) then PPP_UNTIMEOUT s else s in
  set_server UPAPSS_INITIAL (set_client UPAPCS_INITIAL s).

Definition upap_protrej (s : sys) : sys :=
  let s := if decide (us_clientstate (us s) = UPAPCS_AUTHREQ)
           then notify (WithPeerFail UPAP) s else s in
  let s := if decide (us_serverstate (us s) = UPAPSS_LISTEN)
           then notify (PeerFail UPAP) s else s in
  upap_lowerdown s.

(** *** Packets received *)

Definition upap_rauthreq (id : Z) (inp : bytes) (len : Z) (s : sys) : rd sys :=
  match us_serverstate (us s) with
  | UPAPSS_INITIAL | UPAPSS_CLOSED | UPAPSS_PENDING => Rd s
  | UPAPSS_OPEN => Rd (upap_sresp UPAP_AUTHACK id [] s)
  | UPAPSS_BADAUTH => Rd (upap_sresp UPAP_AUTHNAK id [] s)
  | UPAPSS_LISTEN =>
      if len <? 1 then Rd s
      else
        rd_bind (getchar inp) (λ '(ruserlen, inp),
        let len := len - (1 + ruserlen + 1) in
        if len <? 0 then Rd s
        else
          rd_bind (getbytes ruserlen inp) (λ '(ruser, inp),
          rd_bind (getchar inp) (λ '(rpasswdlen, inp),
          if len <? rpasswdlen then Rd s
          else
            rd_bind (getbytes rpasswdlen inp) (λ '(rpasswd, _),
            rd_bind (auth_check ruser rpasswd (ua s)) (λ '(retcode, msg, a),
            let s := upap_sresp retcode id msg (set_auth a s) in
            Rd (if retcode =? UPAP_AUTHACK
                then notify (PeerSuccess UPAP) (set_server UPAPSS_OPEN s)
                else notify (PeerFail UPAP) (set_server UPAPSS_BADAUTH s)))))))
  end.

(** The message of an Ack or a Nak, which is printed; none if the packet is
    too short for it. *)
Definition get_message (inp : bytes) (len : Z) : rd (option bytes) :=
  if len <? 1 then Rd None
  else
    rd_bind (getchar inp) (λ '(msglen, inp),
    if len - 1 <? msglen then Rd None
    else rd_bind (getbytes msglen inp) (λ '(msg, _), Rd (Some msg))).

Definition upap_rauthack (id : Z) (inp : bytes) (len : Z) (s : sys) : rd sys :=
  if decide (us_clientstate (us s) = UPAPCS_AUTHREQ) then
    rd_bind (get_message inp len) (λ m,
    match m with
    | None => Rd s
    | Some _ => Rd (notify (WithPeerSuccess UPAP) (set_client UPAPCS_OPEN s))
    end)
  else Rd s.

Definition upap_rauthnak (id : Z) (inp : bytes) (len : Z) (s : sys) : rd sys :=
  if decide (us_clientstate (us s) = UPAPCS_AUTHREQ) then
    rd_bind (get_message inp len) (λ m,
    match m with
    | None => Rd s
    | Some _ => Rd (notify (WithPeerFail UPAP) (set_client UPAPCS_BADAUTH s))
    end)
  else Rd s.

Definition upap_input (packet : bytes) (s : sys) : rd sys :=
  get_header UPAP_HEADERLEN packet s (λ code id inp len,
    if code =? UPAP_AUTHREQ then upap_rauthreq id inp len s
    else if code =? UPAP_AUTHACK then upap_rauthack id inp len s
    else if code =? UPAP_AUTHNAK then upap_rauthnak id inp len s
    else Rd s).

(** ** Packets *)

Lemma codes_neq : UPAP_AUTHREQ ≠ UPAP_AUTHACK ∧ UPAP_AUTHREQ ≠ UPAP_AUTHNAK ∧
  UPAP_AUTHACK ≠ UPAP_AUTHNAK.
Proof.
  pose proof UPAP_codes as Hn. rewrite !list.NoDup_cons in Hn. set_solver.
Qed.

Lemma codes_u8 : u8 UPAP_AUTHREQ = UPAP_AUTHREQ ∧ u8 UPAP_AUTHACK = UPAP_AUTHACK ∧
  u8 UPAP_AUTHNAK = UPAP_AUTHNAK.
Proof.
  pose proof UPAP_code_bytes as Hb. rewrite !list.Forall_cons in Hb.
  split_and!; apply u8_id; apply Hb.
Qed.

(** A packet of a code with a body, as [upap_input] dispatches it. *)
Lemma upap_input_packet code id body s : zlen body + UPAP_HEADERLEN < 65536 →
  upap_input ([code; id] ++ PUTSHORT (UPAP_HEADERLEN + zlen body) ++ body) s =
  if code =? UPAP_AUTHREQ then upap_rauthreq id body (zlen body) s
  else if code =? UPAP_AUTHACK then upap_rauthack id body (zlen body) s
  else if code =? UPAP_AUTHNAK then upap_rauthnak id body (zlen body) s
  else Rd s.
Proof.
  intros Hl. unfold upap_input. rewrite UPAP_HEADERLEN_eq in *.
  by rewrite get_header_packet by lia.
Qed.

Definition authreq_body (user passwd : bytes) : bytes :=
  [zlen user] ++ user ++ [zlen passwd] ++ passwd.

Lemma upap_rauthreq_listen id user passwd s : us_serverstate (us s) = UPAPSS_LISTEN →
  upap_rauthreq id (authreq_body user passwd) (zlen (authreq_body user passwd)) s =
  rd_bind (auth_check user passwd (ua s)) (λ '(retcode, msg, a),
    let s := upap_sresp retcode id msg (set_auth a s) in
    Rd (if retcode =? UPAP_AUTHACK
        then notify (PeerSuccess UPAP) (set_server UPAPSS_OPEN s)
        else notify (PeerFail UPAP) (set_server UPAPSS_BADAUTH s))).
Proof.
  intros Hs. unfold upap_rauthreq. rewrite Hs. unfold authreq_body. cbn [app].
  pose proof (zlen_nonneg user). pose proof (zlen_nonneg passwd).
  rewrite !zlen_cons, zlen_app, zlen_cons.
  destruct (Z.ltb_spec (1 + (zlen user + (1 + zlen passwd))) 1); [lia|].
  cbn [rd_bind getchar].
  destruct (Z.ltb_spec (1 + (zlen user + (1 + zlen passwd)) - (1 + zlen user + 1)) 0); [lia|].
  rewrite getbytes_app. cbn [rd_bind getchar].
  match goal with |- context [?x <? zlen passwd] => destruct (Z.ltb_spec x (zlen passwd)); [lia|] end.
  rewrite <- (app_nil_r passwd) at 2. rewrite getbytes_app. cbn [rd_bind].
  by destruct (auth_check user passwd (ua s)) as [[[? ?] ?]| | |].
Qed.

Lemma get_message_body msg : get_message ([zlen msg] ++ msg) (zlen ([zlen msg] ++ msg)) = Rd (Some msg).
Proof.
  unfold get_message. cbn [app]. rewrite zlen_cons. pose proof (zlen_nonneg msg).
  destruct (Z.ltb_spec (1 + zlen msg) 1); [lia|]. cbn [rd_bind getchar].
  destruct (Z.ltb_spec (1 + zlen msg - 1) (zlen msg)); [lia|].
  rewrite <- (app_nil_r msg) at 2. by rewrite getbytes_app.
Qed.

(** What the peer makes of the packets of [upap_sauthreq] and [upap_sresp]. *)
Lemma upap_input_authreq id user passwd s : zlen user < 256 → zlen passwd < 256 →
  upap_input (payload (authreq_packet id user passwd)) s =
  upap_rauthreq id (authreq_body user passwd) (zlen (authreq_body user passwd)) s.
Proof.
  intros Hu Hp. unfold authreq_packet. rewrite payload_packet.
  pose proof (zlen_nonneg user). pose proof (zlen_nonneg passwd).
  destruct codes_u8 as (-> & _ & _). rewrite !u8_id by lia.
  assert (zlen (authreq_body user passwd) = 2 + zlen user + zlen passwd) as Hb.
  { unfold authreq_body. cbn [app]. rewrite zlen_cons, zlen_app, zlen_cons. lia. }
  replace (UPAP_HEADERLEN + 2 + zlen user + zlen passwd)
    with (UPAP_HEADERLEN + zlen (authreq_body user passwd)) by lia.
  fold (authreq_body user passwd).
  rewrite upap_input_packet by (rewrite UPAP_HEADERLEN_eq; lia). by rewrite Z.eqb_refl.
Qed.

Lemma upap_input_resp code id msg s : code = UPAP_AUTHACK ∨ code = UPAP_AUTHNAK →
  zlen msg < 256 → is_byte id → us_clientstate (us s) = UPAPCS_AUTHREQ →
  upap_input (payload (resp_packet code id msg)) s =
  Rd (if code =? UPAP_AUTHACK then notify (WithPeerSuccess UPAP) (set_client UPAPCS_OPEN s)
      else notify (WithPeerFail UPAP) (set_client UPAPCS_BADAUTH s)).
Proof.
  intros Hc Hm Hid Hs. unfold resp_packet. rewrite payload_packet. pose proof (zlen_nonneg msg).
  destruct codes_u8 as (_ & E1 & E2), codes_neq as (N1 & N2 & N3).
  replace (u8 code) with code by (destruct Hc; congruence). rewrite !u8_id by done.
  replace (UPAP_HEADERLEN + 1 + zlen msg) with (UPAP_HEADERLEN + zlen ([zlen msg] ++ msg))
    by (cbn [app]; rewrite zlen_cons; lia).
  rewrite upap_input_packet by (cbn [app]; rewrite zlen_cons, UPAP_HEADERLEN_eq; lia).
  unfold upap_rauthack, upap_rauthnak. rewrite get_message_body. cbn [rd_bind].
  rewrite !decide_True by done. apply not_eq_sym in N1, N2. apply Z.eqb_neq in N1, N2, N3.
  destruct Hc as [->| ->].
  - by rewrite N1, Z.eqb_refl.
  - rewrite N2, Z.eqb_refl. rewrite Z.eqb_sym in N3. by rewrite N3.
Qed.

(** C30: A whole exchange: the request that [upap_authwithpeer] sends makes the peer, when it
    listens, check exactly our name and password; the answer it sends takes our side to the
    state that agrees with the peer's, and both layers are told. *)
Theorem pap_exchange user passwd (c s : sys) code msg a :
  zlen user < 256 → zlen passwd < 256 →
  us_clientstate (us c) ≠ UPAPCS_INITIAL → us_clientstate (us c) ≠ UPAPCS_PENDING →
  us_serverstate (us s) = UPAPSS_LISTEN →
  auth_check user passwd (ua s) = Rd (code, msg, a) →
  ∃ req rsp, let c1 := upap_authwithpeer user passwd c in
    ulog c1 = UOutput req :: ulog c ∧
    ∃ s1 c2, upap_input (payload req) s = Rd s1 ∧ upap_input (payload rsp) c1 = Rd c2 ∧
      if decide (code = UPAP_AUTHACK) then
        us_serverstate (us s1) = UPAPSS_OPEN ∧ us_clientstate (us c2) = UPAPCS_OPEN ∧
        ulog s1 = UNotify (PeerSuccess UPAP) :: UOutput rsp :: ulog s ∧
        ulog c2 = UNotify (WithPeerSuccess UPAP) :: ulog c1
      else
        us_serverstate (us s1) = UPAPSS_BADAUTH ∧ us_clientstate (us c2) = UPAPCS_BADAUTH ∧
        ulog s1 = UNotify (PeerFail UPAP) :: UOutput rsp :: ulog s ∧
        ulog c2 = UNotify (WithPeerFail UPAP) :: ulog c1.
Proof.
  intros Hu Hp Hc1 Hc2 Hs Hcheck.
  destruct (auth_check_code _ _ _ _ _ _ Hcheck) as (Hcode & _ & Hm).
  set (id := u8 (us_id (us c) + 1)).
  exists (authreq_packet id user passwd), (resp_packet code id msg). cbv zeta.
  assert (upap_authwithpeer user passwd c = upap_sauthreq (set_login user passwd c)) as ->.
  { unfold upap_authwithpeer. cbn. by destruct (us_clientstate (us c)). }
  split; [done|]. eexists _, _. split_and!.
  - rewrite upap_input_authreq, upap_rauthreq_listen by done. by rewrite Hcheck.
  - by rewrite upap_input_resp by (done || apply u8_range).
  - case_decide as Hd; [subst code; by rewrite Z.eqb_refl|].
    apply Z.eqb_neq in Hd. rewrite Hd. by split_and!.
Qed.

(** ** Every packet is safe *)

Lemma get_message_safe inp len : Bytes inp → len <= zlen inp →
  ∃ m, get_message inp len = Rd m.
Proof.
  intros Hb Hl. unfold get_message. destruct (Z.ltb_spec len 1); [by eexists|].
  destruct (zlen_pos_cons inp) as (x & r & ->); [lia|]. cbn [rd_bind getchar].
  rewrite zlen_cons in Hl. destruct (Z.ltb_spec (len - 1) x); [by eexists|].
  rewrite getbytes_ok by lia. by eexists.
Qed.

(** What one packet may make the server report. *)
Definition authenticates (s : sys) (body : bytes) : Prop :=
  us_serverstate (us s) = UPAPSS_LISTEN ∧
  ∃ user passwd junk msg a, body = authreq_body user passwd ++ junk ∧
    auth_check user passwd (ua s) = Rd (UPAP_AUTHACK, msg, a).

(** The effect of handling a packet: nothing is reported without its cause. *)
Definition explained (s : sys) (code : Z) (body : bytes) (r : rd sys) : Prop :=
  ∃ s' l, r = Rd s' ∧ ulog s' = l ++ ulog s ∧
    (UNotify (PeerSuccess UPAP) ∈ l → code = UPAP_AUTHREQ ∧ authenticates s body) ∧
    (UNotify (WithPeerSuccess UPAP) ∈ l →
       code = UPAP_AUTHACK ∧ us_clientstate (us s) = UPAPCS_AUTHREQ).

Lemma explained_same s code body : explained s code body (Rd s).
Proof. exists s, []. split_and!; [done|done|..]; by intros ?%elem_of_nil. Qed.

Lemma explained_output s code body p :
  explained s code body (Rd (output p s)).
Proof.
  exists (output p s), [UOutput p]. split_and!; [done|done|..]; by intros ?%list_elem_of_singleton.
Qed.

Lemma rauthreq_explained id inp len s : Bytes inp → len <= zlen inp →
  (∀ u p, ∃ code msg a, auth_check u p (ua s) = Rd (code, msg, a)) →
  explained s UPAP_AUTHREQ inp (upap_rauthreq id inp len s).
Proof.
  intros Hb Hl Hcheck. unfold upap_rauthreq.
  destruct (us_serverstate (us s)) eqn:Hs; try apply explained_same; try apply explained_output.
  destruct (Z.ltb_spec len 1); [apply explained_same|].
  destruct (zlen_pos_cons inp) as (ulen & r & ->); [lia|]. cbn [rd_bind getchar].
  rewrite zlen_cons in Hl. apply Forall_cons_1 in Hb as [Hu Hb]. unfold is_byte in Hu.
  destruct (Z.ltb_spec (len - (1 + ulen + 1)) 0); [apply explained_same|].
  rewrite getbytes_ok by lia. cbn [rd_bind].
  destruct (zlen_pos_cons (zdrop ulen r)) as (plen & r' & Hr).
  { rewrite zlen_zdrop. lia. }
  rewrite Hr. cbn [rd_bind getchar].
  assert (zlen r' = zlen r - ulen - 1) as Hr'.
  { assert (zlen (zdrop ulen r) = 1 + zlen r') as E by (rewrite Hr; apply zlen_cons).
    rewrite zlen_zdrop in E. lia. }
  destruct (Z.ltb_spec (len - (1 + ulen + 1)) plen); [apply explained_same|].
  rewrite getbytes_ok by lia. cbn [rd_bind].
  destruct (Hcheck (ztake ulen r) (ztake plen r')) as (code & msg & a & Ha). rewrite Ha.
  cbn [rd_bind]. assert (is_byte plen) as Hp.
  { assert (Bytes (zdrop ulen r)) as Hd by by apply Bytes_zdrop. rewrite Hr in Hd.
    by apply Forall_cons_1 in Hd as [? _]. }
  unfold is_byte in Hp. pose proof (ztake_zdrop ulen r) as Er. pose proof (ztake_zdrop plen r') as Er'.
  assert (zlen (ztake ulen r) = ulen) as Eu by (rewrite zlen_ztake; lia).
  assert (zlen (ztake plen r') = plen) as Ep by (rewrite zlen_ztake; lia).
  destruct (Z.eqb_spec code UPAP_AUTHACK) as [->|_].
  - eexists _, [UNotify (PeerSuccess UPAP); UOutput _]. split_and!; [done|done|..].
    + intros _. split; [done|]. split; [done|].
      eexists (ztake ulen r), (ztake plen r'), (zdrop plen r'), msg, a. split; [|done].
      unfold authreq_body. rewrite Eu, Ep, <- !app_assoc. cbn [app].
      by rewrite Er', <- Hr, Er.
    + by intros [?|[?|?%elem_of_nil]%elem_of_cons]%elem_of_cons.
  - eexists _, [UNotify (PeerFail UPAP); UOutput _]. split_and!; [done|done|..];
      by intros [?|[?|?%elem_of_nil]%elem_of_cons]%elem_of_cons.
Qed.

Lemma rauth_explained id inp len s : Bytes inp → len <= zlen inp →
  explained s UPAP_AUTHACK inp (upap_rauthack id inp len s) ∧
  explained s UPAP_AUTHNAK inp (upap_rauthnak id inp len s).
Proof.
  intros Hb Hl. unfold upap_rauthack, upap_rauthnak.
  case_decide as Hs; [|split; apply explained_same].
  destruct (get_message_safe inp len Hb Hl) as [[m|] ->]; cbn [rd_bind];
    [|split; apply explained_same].
  split.
  - eexists _, [UNotify (WithPeerSuccess UPAP)]. split_and!; [done|done| |done].
    by intros ?%list_elem_of_singleton.
  - eexists _, [UNotify (WithPeerFail UPAP)]. split_and!; [done|done|..];
      by intros ?%list_elem_of_singleton.
Qed.

(** Whatever bytes arrive, [upap_input] reads only the packet and returns, provided the
    password check does; it reports that the peer authenticated itself only for a complete
    request, received while listening, whose name and password passed the check, and that
    we did only for an Ack while our request is outstanding. *)
Theorem upap_input_safe packet s : Bytes packet →
  (∀ u p, ∃ code msg a, auth_check u p (ua s) = Rd (code, msg, a)) →
  ∃ s' l, upap_input packet s = Rd s' ∧ ulog s' = l ++ ulog s ∧
    (UNotify (PeerSuccess UPAP) ∈ l →
       us_serverstate (us s) = UPAPSS_LISTEN ∧
       ∃ id hi lo user passwd junk msg a,
         packet = [UPAP_AUTHREQ; id; hi; lo] ++ authreq_body user passwd ++ junk ∧
         auth_check user passwd (ua s) = Rd (UPAP_AUTHACK, msg, a)) ∧
    (UNotify (WithPeerSuccess UPAP) ∈ l →
       us_clientstate (us s) = UPAPCS_AUTHREQ ∧ head packet = Some UPAP_AUTHACK).
Proof.
  intros Hb Hcheck. unfold upap_input. rewrite UPAP_HEADERLEN_eq.
  match goal with |- ∃ s' l, get_header 4 packet s ?k = _ ∧ _ =>
    destruct (get_header_cases packet s k Hb) as
      [->|(code & id & hi & lo & body & -> & _ & _ & Hbody & Hlen & _ & ->)] end.
  { exists s, []. split_and!; [done|done|..]; by intros ?%elem_of_nil. }
  assert (∀ r, explained s code body r → ∃ s' l, r = Rd s' ∧ ulog s' = l ++ ulog s ∧
    (UNotify (PeerSuccess UPAP) ∈ l → us_serverstate (us s) = UPAPSS_LISTEN ∧
       ∃ id' hi' lo' user passwd junk msg a,
         [code; id; hi; lo] ++ body =
           [UPAP_AUTHREQ; id'; hi'; lo'] ++ authreq_body user passwd ++ junk ∧
         auth_check user passwd (ua s) = Rd (UPAP_AUTHACK, msg, a)) ∧
    (UNotify (WithPeerSuccess UPAP) ∈ l → us_clientstate (us s) = UPAPCS_AUTHREQ ∧
       head ([code; id; hi; lo] ++ body) = Some UPAP_AUTHACK)) as Hex.
  { intros r (s' & l & -> & Hlog & H1' & H2'). exists s', l. split_and!; [done|done|..].
    - intros Hin. apply H1' in Hin as (-> & Hs & user & pw & junk & msg & a & -> & Ha).
      split; [done|]. by exists id, hi, lo, user, pw, junk, msg, a.
    - intros Hin. by apply H2' in Hin as (-> & Hs). }
  apply Hex. destruct (rauth_explained id body _ s Hbody Hlen) as [He1 He2].
  destruct (Z.eqb_spec code UPAP_AUTHREQ) as [->|_]; [by apply rauthreq_explained|].
  destruct (Z.eqb_spec code UPAP_AUTHACK) as [->|_]; [done|].
  destruct (Z.eqb_spec code UPAP_AUTHNAK) as [->|_]; [done|]. apply explained_same.
Qed.

(** ** Reachable states and the end of the retransmissions *)

(** The timer expires: the timeout is no longer pending when its routine runs. *)
Definition upap_expire (s : sys) : sys := upap_timeout (PPP_UNTIMEOUT s).

Inductive upap_op :=
  | OpAuthWithPeer (user passwd : bytes) | OpAuthPeer | OpExpire | OpLowerUp | OpLowerDown
  | OpProtRej | OpInput (packet : bytes).

Definition upap_exec (op : upap_op) (s : sys) : rd sys :=
  match op with
  | OpAuthWithPeer u p => Rd (upap_authwithpeer u p s)
  | OpAuthPeer => Rd (upap_authpeer s)
  | OpExpire => Rd (if decide (pending upap_key (ut s) = 0%nat) then s else upap_expire s)
  | OpLowerUp => Rd (upap_lowerup s)
  | OpLowerDown => Rd (upap_lowerdown s)
  | OpProtRej => Rd (upap_protrej s)
  | OpInput packet => upap_input packet s
  end.

Inductive upap_reachable : sys → Prop :=
  | upap_start a t : pending upap_key t = 0%nat → upap_reachable (MkUsys upap_init a t [])
  | upap_next op s s' : upap_reachable s → upap_exec op s = Rd s' → upap_reachable s'.

(** A request is outstanding only with a timer running, and at most
    [us_maxtransmits] requests follow one [upap_authwithpeer]. *)
Record upap_ok (s : sys) : Prop := MkOk {
  ok_timer : us_clientstate (us s) = UPAPCS_AUTHREQ →
    (0 < pending upap_key (ut s))%nat ∧ 1 <= us_transmits (us s);
  ok_pending : us_clientstate (us s) = UPAPCS_PENDING → us_transmits (us s) = 0;
  ok_transmits : 0 <= us_transmits (us s) <= us_maxtransmits (us s);
  ok_max : us_maxtransmits (us s) = 10
}.

Lemma pending_timeout t secs :
  pending upap_key (TIMEOUT upap_key secs t) = S (pending upap_key t).
Proof. by rewrite pending_TIMEOUT, decide_True. Qed.

Lemma pending_untimeout t : pending upap_key (UNTIMEOUT upap_key t) = pred (pending upap_key t).
Proof. by rewrite pending_UNTIMEOUT, decide_True. Qed.

Lemma sauthreq_ok s : 0 <= us_transmits (us s) < us_maxtransmits (us s) →
  us_maxtransmits (us s) = 10 → upap_ok (upap_sauthreq s).
Proof.
  intros Ht Hm. split; cbn; [|done|lia|done]. intros _. rewrite pending_timeout. lia.
Qed.

(** What a packet leaves alone. *)
Definition same_client (s s' : sys) : Prop :=
  ut s' = ut s ∧ us_transmits (us s') = us_transmits (us s) ∧
  us_maxtransmits (us s') = us_maxtransmits (us s) ∧
  (us_clientstate (us s') = us_clientstate (us s) ∨
   us_clientstate (us s) = UPAPCS_AUTHREQ ∧
   (us_clientstate (us s') = UPAPCS_OPEN ∨ us_clientstate (us s') = UPAPCS_BADAUTH)).

Lemma same_client_ok s s' : same_client s s' → upap_ok s → upap_ok s'.
Proof.
  intros (E1 & E2 & E3 & Hc) [O1 O2 O3 O4]. split; rewrite ?E1, ?E2, ?E3; try done.
  - intros Hs. destruct Hc as [E|[_ [E|E]]]; rewrite E in Hs; [by apply O1|done|done].
  - intros Hs. destruct Hc as [E|[_ [E|E]]]; rewrite E in Hs; [by apply O2|done|done].
Qed.

Lemma upap_input_same packet s s' : upap_input packet s = Rd s' → same_client s s'.
Proof.
  assert (same_client s s) as Hrefl by (unfold same_client; tauto).
  intros E. unfold upap_input, get_header in E. rd_inv E; try done.
  - unfold upap_rauthreq in E. rd_inv E; try done; destruct (_ =? _);
      unfold same_client; cbn; tauto.
  - unfold upap_rauthack in E. rd_inv E; try done. unfold same_client; cbn. tauto.
  - unfold upap_rauthnak in E. rd_inv E; try done. unfold same_client; cbn. tauto.
Qed.

(** Only the timer is used up: what is left of the client side is as before. *)
Lemma ok_upd s s' : upap_ok s →
  us_transmits (us s') = us_transmits (us s) → us_maxtransmits (us s') = us_maxtransmits (us s) →
  us_clientstate (us s') ≠ UPAPCS_AUTHREQ → us_clientstate (us s') ≠ UPAPCS_PENDING →
  upap_ok s'.
Proof. intros [O1 O2 O3 O4] E2 E3 Hc Hp. split; rewrite ?E2, ?E3; done. Qed.

Lemma ok_server s c : upap_ok s → upap_ok (set_server c s).
Proof. by intros [O1 O2 O3 O4]. Qed.

Lemma lowerup_client_ok s : upap_ok s →
  upap_ok (match us_clientstate (us s) with
           | UPAPCS_INITIAL => set_client UPAPCS_CLOSED s
           | UPAPCS_PENDING => upap_sauthreq s
           | _ => s
           end).
Proof.
  intros Hok. destruct (us_clientstate (us s)) eqn:E; try done.
  - by apply (ok_upd s).
  - destruct Hok as [O1 O2 O3 O4]. apply sauthreq_ok; [rewrite (O2 E); lia|done].
Qed.

Lemma expire_ok s : upap_ok s → upap_ok (upap_expire s).
Proof.
  intros [O1 O2 O3 O4]. unfold upap_expire, upap_timeout. cbn [us PPP_UNTIMEOUT].
  case_decide as Hc.
  - destruct (Z.leb_spec (us_maxtransmits (us s)) (us_transmits (us s))).
    + split; cbn; try done.
    + apply sauthreq_ok; cbn; [lia|done].
  - split; cbn; done.
Qed.

Lemma exec_ok op s s' : upap_ok s → upap_exec op s = Rd s' → upap_ok s'.
Proof.
  intros Hok. destruct op as [user passwd| | | | | |packet]; cbn [upap_exec]; intros E;
    try (injection E as <-).
  - unfold upap_authwithpeer. cbn [us set_login upd us_clientstate].
    destruct Hok as [O1 O2 O3 O4].
    destruct (us_clientstate (us s)); try (apply sauthreq_ok; cbn; [lia|done]);
      split; cbn; done || lia.
  - unfold upap_authpeer. destruct (us_serverstate (us s)); by apply ok_server.
  - case_decide; [done|]. by apply expire_ok.
  - unfold upap_lowerup. cbv zeta. pose proof (lowerup_client_ok s Hok) as Hc.
    set (s1 := match us_clientstate (us s) with UPAPCS_INITIAL => _ | _ => _ end) in *.
    destruct (us_serverstate (us s1)); try done; by apply ok_server.
  - unfold upap_lowerdown. apply ok_server. apply (ok_upd s); repeat case_decide; done.
  - unfold upap_protrej, upap_lowerdown. apply ok_server.
    apply (ok_upd s); repeat case_decide; done.
  - eapply same_client_ok; [by eapply upap_input_same|done].
Qed.

Lemma reachable_upap_ok s : upap_reachable s → upap_ok s.
Proof.
  induction 1 as [a t Ht|op s s' _ IH E]; [|by eapply exec_ok].
  split; cbn; done || lia.
Qed.

(** [n] expirations in a row. *)
Fixpoint expires (n : nat) (s : sys) : sys :=
  match n with O => s | S m => upap_expire (expires m s) end.

Definition is_output (e : upap_event) : bool := match e with UOutput _ => true | _ => false end.

Lemma expire_resends s : upap_ok s → us_clientstate (us s) = UPAPCS_AUTHREQ →
  us_transmits (us s) < us_maxtransmits (us s) →
  us_clientstate (us (upap_expire s)) = UPAPCS_AUTHREQ ∧
  us_transmits (us (upap_expire s)) = us_transmits (us s) + 1 ∧
  us_maxtransmits (us (upap_expire s)) = us_maxtransmits (us s) ∧
  pending upap_key (ut (upap_expire s)) = pending upap_key (ut s) ∧
  ∃ p, ulog (upap_expire s) = UOutput p :: ulog s.
Proof.
  intros Hok Hc Hlt. destruct (ok_timer s Hok Hc) as [Hp _].
  unfold upap_expire, upap_timeout. cbn [us PPP_UNTIMEOUT]. rewrite decide_True by done.
  destruct (Z.leb_spec (us_maxtransmits (us s)) (us_transmits (us s))); [lia|].
  split_and!; try done; [|by eexists]. cbn. rewrite pending_timeout, pending_untimeout. lia.
Qed.

Lemma expires_resend : ∀ n s, upap_ok s → us_clientstate (us s) = UPAPCS_AUTHREQ →
  us_transmits (us s) + Z.of_nat n <= us_maxtransmits (us s) →
  upap_ok (expires n s) ∧ us_clientstate (us (expires n s)) = UPAPCS_AUTHREQ ∧
  us_transmits (us (expires n s)) = us_transmits (us s) + Z.of_nat n ∧
  us_maxtransmits (us (expires n s)) = us_maxtransmits (us s) ∧
  pending upap_key (ut (expires n s)) = pending upap_key (ut s) ∧
  ∃ l, ulog (expires n s) = l ++ ulog s ∧ length l = n ∧ forallb is_output l = true.
Proof.
  induction n as [|n IH]; intros s Hok Hc Hn.
  { cbn [expires]. split_and!; try done; [lia|]. by exists []. }
  destruct (IH s Hok Hc ltac:(lia)) as (Hok' & Hc' & Ht & Hm & Hp & l & Hl & Hlen & Hall).
  cbn [expires].
  destruct (expire_resends _ Hok' Hc' ltac:(lia)) as (E1 & E2 & E3 & E4 & p & E5).
  split_and!; try lia; try done; [by apply expire_ok|].
  exists (UOutput p :: l). rewrite E5, Hl. cbn. by rewrite Hlen, Hall.
Qed.

(** In every reachable state an outstanding request has its timer running and has been sent
    at most [us_maxtransmits] times; if the peer stays silent, each expiration sends it
    again until that number is reached, and the next one gives up and reports failure. *)
Theorem upap_gives_up s : upap_reachable s → us_clientstate (us s) = UPAPCS_AUTHREQ →
  (0 < pending upap_key (ut s))%nat ∧ 1 <= us_transmits (us s) <= us_maxtransmits (us s) ∧
  let n := Z.to_nat (us_maxtransmits (us s) - us_transmits (us s)) in
  pending upap_key (ut (expires n s)) = pending upap_key (ut s) ∧
  ∃ l, length l = n ∧ forallb is_output l = true ∧
    us_clientstate (us (expires (S n) s)) = UPAPCS_BADAUTH ∧
    ulog (expires (S n) s) = UNotify (WithPeerFail UPAP) :: l ++ ulog s.
Proof.
  intros Hr Hc. pose proof (reachable_upap_ok s Hr) as Hok.
  destruct (ok_timer s Hok Hc) as [Hp Ht]. pose proof (ok_transmits s Hok).
  split_and!; [done|lia|lia|]. cbv zeta.
  set (n := Z.to_nat (us_maxtransmits (us s) - us_transmits (us s))).
  destruct (expires_resend n s Hok Hc ltac:(lia)) as (Hok' & Hc' & Ht' & Hm' & Hp' & l & Hl & Hlen & Hall).
  split; [done|]. exists l. split_and!; [done|done|..];
    cbn [expires]; unfold upap_expire at 1, upap_timeout;
    cbn [us PPP_UNTIMEOUT]; rewrite decide_True by done;
    destruct (Z.leb_spec (us_maxtransmits (us (expires n s)))
      (us_transmits (us (expires n s)))); try lia; cbn; by rewrite ?Hl.
Qed.

(** The timer of a request that was answered is not cancelled, not even when the lower layer
    goes down. *)
Lemma upap_stale_timer s id msg : us_clientstate (us s) = UPAPCS_AUTHREQ →
  zlen msg < 256 → ∃ s', upap_rauthack id ([zlen msg] ++ msg) (zlen ([zlen msg] ++ msg)) s = Rd s' ∧
    us_clientstate (us (upap_lowerdown s')) = UPAPCS_INITIAL ∧
    pending upap_key (ut (upap_lowerdown s')) = pending upap_key (ut s).
Proof.
  intros Hc Hm. unfold upap_rauthack. rewrite decide_True, get_message_body by done.
  eexists. split; [done|]. by split.
Qed.

End Upap.

(** ** Witnesses *)

#[local] Instance demo_layer : AuthLayer auth := auth_layer demo_open (λ _ _, true) None.
#[local] Instance demo_layer_laws : AuthLayerLaws auth :=
  auth_layer_laws demo_open (λ _ _, true) None.

Abbreviation demo_usys := (usys auth (Z * ppp_timer (K := unit))).

Definition demo_upap : demo_usys := MkUsys upap_init demo_auth (0, MkTimer [] 0 0 0) [].
Definition demo_client : demo_usys := upap_lowerup tt demo_upap.
Definition demo_server : demo_usys := upap_authpeer (upap_lowerup tt demo_upap).

Lemma pap_exchange_witness : ∃ req rsp s1 c2,
  ulog (upap_authwithpeer tt [97; 98] [120; 121] demo_client) = [UOutput req] ∧
  upap_input (payload req) demo_server = Rd s1 ∧
  upap_input (payload rsp) (upap_authwithpeer tt [97; 98] [120; 121] demo_client) = Rd c2 ∧
  us_serverstate (us s1) = UPAPSS_OPEN ∧ us_clientstate (us c2) = UPAPCS_OPEN.
Proof.
  destruct (pap_exchange tt [97; 98] [120; 121] demo_client demo_server UPAP_AUTHACK LOGIN_OK
    (set_addresses [[45]] demo_auth)) as (req & rsp & Hreq & s1 & c2 & Hs1 & Hc2 & Hd);
    [done | done | done | done | done | by vm_compute |].
  exists req, rsp, s1, c2. cbn in Hd. destruct Hd as (H1 & H2 & _). by split_and!.
Defined.

Lemma upap_input_safe_witness : ∃ s' l,
  upap_input [1; 7; 0; 9; 2; 97; 98; 1; 120] demo_server = Rd s' ∧ ulog s' = l ++ ulog demo_server.
Proof.
  destruct (upap_input_safe [1; 7; 0; 9; 2; 97; 98; 1; 120] demo_server) as (s' & l & H & Hl & _).
  - apply (bool_decide_unpack _). by vm_compute.
  - intros u p. apply (check_returns demo_open (λ _ _, true) None u p demo_auth demo_lines); [|split|done].
    + apply demo_open_ok.
    + done.
    + apply demo_lines_ok.
  - by exists s', l.
Defined.

Lemma upap_gives_up_witness :
  upap_reachable tt (upap_authwithpeer tt [97] [98] demo_client) ∧
  us_clientstate (us (expires tt 10 (upap_authwithpeer tt [97] [98] demo_client))) = UPAPCS_BADAUTH.
Proof.
  assert (upap_reachable tt (upap_authwithpeer tt [97] [98] demo_client)) as Hr.
  { apply (upap_next tt (OpAuthWithPeer [97] [98]) demo_client); [|done].
    apply (upap_next tt OpLowerUp demo_upap); [|done]. by apply upap_start. }
  split; [exact Hr|].
  destruct (upap_gives_up tt _ Hr eq_refl) as (_ & _ & _ & l & _ & _ & H & _). exact H.
Defined.
