(* ===== verification/Chap.v ===== *)
(** * The challenge handshake protocol ([ppp/chap.c])

    [chap_state] holds the client side (we answer challenges) and the server
    side (we challenge the peer) of a unit.  Secrets are looked up, and
    results reported, through the interface [AuthLayer] (file Auth), digests
    are those of file Md5, challenges are drawn from the generator of file
    Random, and the three timers are keys of the interface [Timers] (file
    Callout).  Packets sent and results reported are recorded in [clog], the
    newest first.  A read outside the packet is a fault. *)
From Stdlib Require Import ZArith Lia Bool.
From stdpp Require Import base tactics list sets numbers option.
From S2P Require Import Prelude Callout PppDefs Lcp Secrets Random Md5 Auth.

Local Open Scope Z_scope.

(** ** What the sources take from [pppLib.h] *)

Class ChapDefs := {
  CHAP_HEADERLEN : Z;
  CHAP_CHALLENGE : Z; CHAP_RESPONSE : Z; CHAP_SUCCESS : Z; CHAP_FAILURE : Z;
  CHAP_DEFTIMEOUT : Z; CHAP_DEFTRANSMITS : Z;
  MIN_CHALLENGE_LENGTH : Z; MAX_CHALLENGE_LENGTH : Z;
  MD5_SIGNATURE_SIZE : Z
}.

Class ChapDefsLaws `{ChapDefs} := {
  CHAP_HEADERLEN_eq : CHAP_HEADERLEN = 4;
  CHAP_codes : NoDup [CHAP_CHALLENGE; CHAP_RESPONSE; CHAP_SUCCESS; CHAP_FAILURE];
  CHAP_code_bytes : Bytes [CHAP_CHALLENGE; CHAP_RESPONSE; CHAP_SUCCESS; CHAP_FAILURE];
  CHAP_transmits_pos : 0 < CHAP_DEFTRANSMITS;
  challenge_lengths : 0 < MIN_CHALLENGE_LENGTH < MAX_CHALLENGE_LENGTH ∧ MAX_CHALLENGE_LENGTH < 256;
  MD5_SIGNATURE_SIZE_eq : MD5_SIGNATURE_SIZE = 16
}.

(** ** Data *)

Inductive chap_client := CHAPCS_INITIAL | CHAPCS_CLOSED | CHAPCS_PENDING | CHAPCS_LISTEN
  | CHAPCS_RESPONSE | CHAPCS_OPEN.
Inductive chap_server := CHAPSS_INITIAL | CHAPSS_CLOSED | CHAPSS_PENDING | CHAPSS_INITIAL_CHAL
  | CHAPSS_OPEN | CHAPSS_RECHALLENGE | CHAPSS_BADAUTH.

#[export] Instance chap_client_eq_dec : EqDecision chap_client.
Proof. solve_decision. Defined.
#[export] Instance chap_server_eq_dec : EqDecision chap_server.
Proof. solve_decision. Defined.

(** The client's part: [resp_name] and [resp_type] are what it answers with,
    [response] and [resp_id] the answer. *)
Record chap_resp := MkResp {
  clientstate : chap_client;
  resp_name : bytes;
  resp_type : Z;
  resp_id : Z;
  resp_transmits : Z;
  response : bytes
}.

(** The server's part: [challenge] holds [chal_len] bytes. *)
Record chap_chal := MkChal {
  serverstate : chap_server;
  chal_name : bytes;
  chal_type : Z;
  chal_id : Z;
  chal_transmits : Z;
  challenge : bytes;
  chal_interval : Z;
  chap_id : Z                  (** [id], the last id used *)
}.

Record chap_state := MkChap {
  cresp : chap_resp;
  cchal : chap_chal;
  timeouttime : Z;
  max_transmits : Z
}.

Inductive chap_event := COutput (packet : bytes) | CNotify (e : auth_event).

(** The three timeout routines of a unit. *)
Inductive chap_timer := ChallengeTimer | ResponseTimer | RechallengeTimer.

#[export] Instance chap_timer_eq_dec : EqDecision chap_timer.
Proof. solve_decision. Defined.

Record csys (A T : Type) := MkCsys {
  cs : chap_state; ca : A; ct : T; cr : rng; clog : list chap_event }.
Arguments MkCsys {A T}. Arguments cs {A T}. Arguments ca {A T}. Arguments ct {A T}.
Arguments cr {A T}. Arguments clog {A T}.

Section Chap.
Context {A T : Type} `{!Timers chap_timer T} `{!TimersLaws chap_timer T}.
Context `{PapDefs} `{ChapDefsLaws} `{PppDefsLaws} `{LcpDefsLaws} `{SecretDefsLaws}.
Context `{!AuthLayer A} `{!AuthLayerLaws A}.
Variable unit_digits : bytes.      (** the unit number, as [%d] prints it *)
Variable stack : bytes.            (** what an uninitialized [MD5_CTX] holds *)

Abbreviation sys := (csys A T).

(** *** Steps *)

Definition upd_resp (g : chap_resp → chap_resp) (s : sys) : sys :=
  MkCsys (MkChap (g (cresp (cs s))) (cchal (cs s)) (timeouttime (cs s)) (max_transmits (cs s)))
    (ca s) (ct s) (cr s) (clog s).
Definition upd_chal (g : chap_chal → chap_chal) (s : sys) : sys :=
  MkCsys (MkChap (cresp (cs s)) (g (cchal (cs s))) (timeouttime (cs s)) (max_transmits (cs s)))
    (ca s) (ct s) (cr s) (clog s).
Definition set_client (c : chap_client) : sys → sys :=
  upd_resp (λ u, MkResp c (resp_name u) (resp_type u) (resp_id u) (resp_transmits u) (response u)).
Definition set_resp_name (name : bytes) (type : Z) : sys → sys :=
  upd_resp (λ u, MkResp (clientstate u) name type (resp_id u) (resp_transmits u) (response u)).
Definition set_resp_id (i n : Z) : sys → sys :=
  upd_resp (λ u, MkResp (clientstate u) (resp_name u) (resp_type u) i n (response u)).
Definition set_response (r : bytes) : sys → sys :=
  upd_resp (λ u, MkResp (clientstate u) (resp_name u) (resp_type u) (resp_id u) (resp_transmits u) r).
Definition set_server (c : chap_server) : sys → sys :=
  upd_chal (λ u, MkChal c (chal_name u) (chal_type u) (chal_id u) (chal_transmits u) (challenge u)
              (chal_interval u) (chap_id u)).
Definition set_chal_name (name : bytes) (type : Z) : sys → sys :=
  upd_chal (λ u, MkChal (serverstate u) name type (chal_id u) (chal_transmits u) (challenge u)
              (chal_interval u) (chap_id u)).
Definition set_transmits (n : Z) : sys → sys :=
  upd_chal (λ u, MkChal (serverstate u) (chal_name u) (chal_type u) (chal_id u) n (challenge u)
              (chal_interval u) (chap_id u)).
(** [chal_len = ...; chal_id = ++id; chal_transmits = 0], and the bytes. *)
Definition set_challenge (c : bytes) : sys → sys :=
  upd_chal (λ u, MkChal (serverstate u) (chal_name u) (chal_type u) (u8 (chap_id u + 1)) 0 c
              (chal_interval u) (u8 (chap_id u + 1))).
Definition set_auth (a : A) (s : sys) : sys := MkCsys (cs s) a (ct s) (cr s) (clog s).
Definition set_rng (r : rng) (s : sys) : sys := MkCsys (cs s) (ca s) (ct s) r (clog s).
Definition output (p : bytes) (s : sys) : sys :=
  MkCsys (cs s) (ca s) (ct s) (cr s) (COutput p :: clog s).
Definition notify (e : auth_event) (s : sys) : sys :=
  MkCsys (cs s) (auth_notify e (ca s)) (ct s) (cr s) (CNotify e :: clog s).
Definition PPP_TIMEOUT (k : chap_timer) (secs : Z) (s : sys) : sys :=
  MkCsys (cs s) (ca s) (TIMEOUT k secs (ct s)) (cr s) (clog s).
Definition PPP_UNTIMEOUT (k : chap_timer) (s : sys) : sys :=
  MkCsys (cs s) (ca s) (UNTIMEOUT k (ct s)) (cr s) (clog s).

Abbreviation client s := (clientstate (cresp (cs s))).
Abbreviation server s := (serverstate (cchal (cs s))).

(** [ChapInit], with the generator seeded by the time of day. *)
Definition ChapInit (now : Z) (a : A) (t : T) (r : rng) : sys :=
  MkCsys (MkChap (MkResp CHAPCS_INITIAL [] 0 0 0 []) (MkChal CHAPSS_INITIAL [] 0 0 0 [] 0 0)
            CHAP_DEFTIMEOUT CHAP_DEFTRANSMITS)
    a t (srandom now r) [].

(** *** Digests *)

(** The digest of id, secret and challenge in a fresh context. *)
Definition chap_digest (id : Z) (secret challenge : bytes) : bytes :=
  ppp_MD5Final (ppp_MD5Update challenge (ppp_MD5Update secret
    (ppp_MD5Update [id] (ppp_MD5Init stack)))).

(** *** Packets sent *)

Definition chal_packet (id : Z) (challenge name : bytes) : bytes :=
  let outlen := CHAP_HEADERLEN + 1 + zlen challenge + zlen name in
  MAKEHEADER CHAP ++ [u8 CHAP_CHALLENGE; id] ++ PUTSHORT outlen ++
  [u8 (zlen challenge)] ++ challenge ++ name.

Definition ChapSendChallenge (s : sys) : sys :=
  let c := cchal (cs s) in
  let s := output (chal_packet (chal_id c) (challenge c) (chal_name c)) s in
  let s := PPP_TIMEOUT ChallengeTimer (timeouttime (cs s)) s in
  set_transmits (chal_transmits (cchal (cs s)) + 1) s.

Definition status_msg (code : Z) : bytes :=
  (if code =? CHAP_SUCCESS
   then [67; 72; 65; 80; 32; 97; 117; 116; 104; 101; 110; 116; 105; 99; 97; 116; 105; 111; 110; 32;
         115; 117; 99; 99; 101; 115; 115; 44; 32; 117; 110; 105; 116; 32]
   else [67; 72; 65; 80; 32; 97; 117; 116; 104; 101; 110; 116; 105; 99; 97; 116; 105; 111; 110; 32;
         102; 97; 105; 108; 117; 114; 101; 44; 32; 117; 110; 105; 116; 32])
  ++ unit_digits.

Definition status_packet (code id : Z) : bytes :=
  let msg := status_msg code in
  MAKEHEADER CHAP ++ [u8 code; id] ++ PUTSHORT (CHAP_HEADERLEN + zlen msg) ++ msg.

Definition ChapSendStatus (code : Z) (s : sys) : sys :=
  output (status_packet code (chal_id (cchal (cs s)))) s.

(** The random bytes of a challenge. *)
Fixpoint random_bytes (n : nat) (r : rng) : bytes * rng :=
  match n with
  | O => ([], r)
  | S n =>
      let '(x, r) := random r in
      let '(l, r) := random_bytes n r in
      (x mod 255 :: l, r)
  end.

Definition ChapGenChallenge (s : sys) : sys :=
  let '(x, r) := random (cr s) in
  let chal_len := x mod (MAX_CHALLENGE_LENGTH - MIN_CHALLENGE_LENGTH) + MIN_CHALLENGE_LENGTH in
  let '(c, r) := random_bytes (Z.to_nat chal_len) r in
  set_challenge c (set_rng r s).

Definition resp_packet (id : Z) (md name : bytes) : bytes :=
  let outlen := CHAP_HEADERLEN + 1 + zlen md + zlen name in
  MAKEHEADER CHAP ++ [u8 CHAP_RESPONSE; id] ++ PUTSHORT outlen ++ [u8 (zlen md)] ++ md ++ name.

Definition ChapSendResponse (s : sys) : sys :=
  let c := cresp (cs s) in
  let s := output (resp_packet (resp_id c) (response c) (resp_name c)) s in
  let s := set_client CHAPCS_RESPONSE s in
  let s := PPP_TIMEOUT ResponseTimer (timeouttime (cs s)) s in
  set_resp_id (resp_id (cresp (cs s))) (resp_transmits (cresp (cs s)) + 1) s.

(** *** The administrator, the timers and the lower layer *)

Definition ChapAuthWithPeer (our_name : bytes) (digest : Z) (s : sys) : sys :=
  let s := set_resp_name our_name digest s in
  match client s with
  | CHAPCS_INITIAL | CHAPCS_PENDING => set_client CHAPCS_PENDING s
  | _ => set_client CHAPCS_LISTEN s
  end.

(** "crank it up". *)
Definition start_challenge (st : chap_server) (s : sys) : sys :=
  set_server st (ChapSendChallenge (ChapGenChallenge s)).

Definition ChapAuthPeer (our_name : bytes) (digest : Z) (s : sys) : sys :=
  let s := set_chal_name our_name digest s in
  match server s with
  | CHAPSS_INITIAL | CHAPSS_PENDING => set_server CHAPSS_PENDING s
  | _ => start_challenge CHAPSS_INITIAL_CHAL s
  end.

Definition ChapChallengeTimeout (s : sys) : sys :=
  match server s with
  | CHAPSS_INITIAL_CHAL | CHAPSS_RECHALLENGE =>
      if max_transmits (cs s) <=? chal_transmits (cchal (cs s))
      then notify (PeerFail CHAP) (set_server CHAPSS_BADAUTH s)
      else ChapSendChallenge s
  | _ => s
  end.

Definition ChapResponseTimeout (s : sys) : sys :=
  if decide (client s = CHAPCS_RESPONSE) then ChapSendResponse s else s.

Definition ChapRechallenge (s : sys) : sys :=
  if decide (server s = CHAPSS_OPEN) then
    let s := start_challenge CHAPSS_RECHALLENGE s in
    if chal_interval (cchal (cs s)) =? 0 then s
    else PPP_TIMEOUT RechallengeTimer (chal_interval (cchal (cs s))) s
  else s.

Definition ChapLowerUp (s : sys) : sys :=
  let s :=
    match client s with
    | CHAPCS_INITIAL => set_client CHAPCS_CLOSED s
    | CHAPCS_PENDING => set_client CHAPCS_LISTEN s
    | _ => s
    end in
  match server s with
  | CHAPSS_INITIAL => set_server CHAPSS_CLOSED s
  | CHAPSS_PENDING => start_challenge CHAPSS_INITIAL_CHAL s
  | _ => s
  end.

Definition ChapLowerDown (s : sys) : sys :=
  let s :=
    match server s with
    | CHAPSS_INITIAL_CHAL | CHAPSS_RECHALLENGE => PPP_UNTIMEOUT ChallengeTimer s
    | CHAPSS_OPEN =>
        if chal_interval (cchal (cs s)) =? 0 then s else PPP_UNTIMEOUT RechallengeTimer s
    | _ => s
    end in
  let s := if decide (client s = CHAPCS_RESPONSE) then PPP_UNTIMEOUT ResponseTimer s else s in
  set_server CHAPSS_INITIAL (set_client CHAPCS_INITIAL s).

Definition ChapProtocolReject (s : sys) : sys :=
  let s :=
    match server s with
    | CHAPSS_INITIAL | CHAPSS_CLOSED => s
    | _ => notify (PeerFail CHAP) s
    end in
  let s :=
    match client s with
    | CHAPCS_INITIAL | CHAPCS_CLOSED => s
    | _ => notify (WithPeerFail CHAP) s
    end in
  ChapLowerDown s.

(** *** Packets received *)

(** [rhostname]: the rest of the packet, cut to the buffer, as a string. *)
Definition rhostname (len : Z) (inp : bytes) : rd bytes :=
  let len := if 256 <=? len then 255 else len in
  rd_bind (getbytes len inp) (λ '(name, _), Rd (cstr name)).

Definition ChapReceiveChallenge (id : Z) (inp : bytes) (len : Z) (s : sys) : rd sys :=
  match client s with
  | CHAPCS_CLOSED | CHAPCS_PENDING => Rd s
  | _ =>
      if len <? 2 then Rd s
      else
        rd_bind (getchar inp) (λ '(rchallenge_len, inp),
        let len := len - (1 + rchallenge_len) in
        if len <? 0 then Rd s
        else
          rd_bind (getbytes rchallenge_len inp) (λ '(rchallenge, inp),
          rd_bind (rhostname len inp) (λ name,
          rd_bind (auth_secret (resp_name (cresp (cs s))) name false (ca s)) (λ '(sec, a),
          let secret := default [] sec in
          let s := set_auth a s in
          let s := if decide (client s = CHAPCS_RESPONSE)
                   then PPP_UNTIMEOUT ResponseTimer s else s in
          let s := set_resp_id id 0 s in
          Rd (if resp_type (cresp (cs s)) =? CHAP_DIGEST_MD5
              then ChapSendResponse (set_response (chap_digest id secret rchallenge) s)
              else s)))))
  end.

(** [code] after the comparison of the digests. *)
Definition response_code (remmd : bytes) (sec : option bytes) (c : chap_chal) : Z :=
  match sec with
  | None => CHAP_FAILURE
  | Some secret =>
      if chal_type c =? CHAP_DIGEST_MD5 then
        if negb (zlen remmd =? MD5_SIGNATURE_SIZE) then CHAP_FAILURE
        else if bool_decide (chap_digest (chal_id c) secret (challenge c) = remmd)
             then CHAP_SUCCESS else CHAP_FAILURE
      else CHAP_FAILURE
  end.

(** After the status was sent. *)
Definition response_result (code : Z) (s : sys) : sys :=
  if code =? CHAP_SUCCESS then
    let old_state := server s in
    let s := set_server CHAPSS_OPEN s in
    let s := if decide (old_state = CHAPSS_INITIAL_CHAL)
             then notify (PeerSuccess CHAP) s else s in
    if chal_interval (cchal (cs s)) =? 0 then s
    else PPP_TIMEOUT RechallengeTimer (chal_interval (cchal (cs s))) s
  else notify (PeerFail CHAP) (set_server CHAPSS_BADAUTH s).

Definition ChapReceiveResponse (id : Z) (inp : bytes) (len : Z) (s : sys) : rd sys :=
  match server s with
  | CHAPSS_CLOSED | CHAPSS_PENDING => Rd s
  | st =>
      if negb (id =? chal_id (cchal (cs s))) then Rd s
      else if decide (st = CHAPSS_OPEN) then Rd (ChapSendStatus CHAP_SUCCESS s)
      else if decide (st = CHAPSS_BADAUTH) then Rd (ChapSendStatus CHAP_FAILURE s)
      else if len <? 2 then Rd s
      else
        rd_bind (getchar inp) (λ '(remmd_len, inp),
        let len := len - (1 + remmd_len) in
        if len <? 0 then Rd s
        else
          rd_bind (getbytes remmd_len inp) (λ '(remmd, inp),
          let s := PPP_UNTIMEOUT ChallengeTimer s in
          rd_bind (rhostname len inp) (λ name,
          rd_bind (auth_secret name (chal_name (cchal (cs s))) true (ca s)) (λ '(sec, a),
          let s := set_auth a s in
          let code := response_code remmd sec (cchal (cs s)) in
          Rd (response_result code (ChapSendStatus code s))))))
  end.

(** The message is printed: its bytes are read. *)
Definition ChapReceiveSuccess (id : Z) (inp : bytes) (len : Z) (s : sys) : rd sys :=
  match client s with
  | CHAPCS_RESPONSE =>
      let s := PPP_UNTIMEOUT ResponseTimer s in
      rd_bind (getbytes len inp) (λ _,
      Rd (notify (WithPeerSuccess CHAP) (set_client CHAPCS_OPEN s)))
  | _ => Rd s
  end.

Definition ChapReceiveFailure (id : Z) (inp : bytes) (len : Z) (s : sys) : rd sys :=
  match client s with
  | CHAPCS_RESPONSE =>
      let s := PPP_UNTIMEOUT ResponseTimer s in
      rd_bind (getbytes len inp) (λ _, Rd (notify (WithPeerFail CHAP) s))
  | _ => Rd s
  end.

Definition ChapInput (packet : bytes) (s : sys) : rd sys :=
  get_header CHAP_HEADERLEN packet s (λ code id inp len,
    if code =? CHAP_CHALLENGE then ChapReceiveChallenge id inp len s
    else if code =? CHAP_RESPONSE then ChapReceiveResponse id inp len s
    else if code =? CHAP_FAILURE then ChapReceiveFailure id inp len s
    else if code =? CHAP_SUCCESS then ChapReceiveSuccess id inp len s
    else Rd s).

(** ** Digests and challenges *)

Lemma chap_digest_md5 id secret chal : length stack = 64%nat →
  zlen secret < 4294967296 → zlen chal < 4294967296 →
  chap_digest id secret chal = md5 (id :: secret ++ chal).
Proof.
  intros Hst Hs Hc. unfold chap_digest. apply final_absorbed.
  change (id :: secret ++ chal) with (([] ++ [id]) ++ secret ++ chal). rewrite app_assoc.
  by apply update_absorbed, update_absorbed, update_absorbed, init_absorbed.
Qed.

Lemma chap_codes : CHAP_CHALLENGE ≠ CHAP_RESPONSE ∧ CHAP_CHALLENGE ≠ CHAP_SUCCESS ∧
  CHAP_CHALLENGE ≠ CHAP_FAILURE ∧ CHAP_RESPONSE ≠ CHAP_SUCCESS ∧ CHAP_RESPONSE ≠ CHAP_FAILURE ∧
  CHAP_SUCCESS ≠ CHAP_FAILURE.
Proof.
  pose proof CHAP_codes as Hn. rewrite !list.NoDup_cons, !not_elem_of_cons in Hn.
  destruct Hn as ((? & ? & ? & _) & (? & ? & _) & (? & _) & _). by split_and!.
Qed.

Lemma chap_codes_u8 : u8 CHAP_CHALLENGE = CHAP_CHALLENGE ∧ u8 CHAP_RESPONSE = CHAP_RESPONSE ∧
  u8 CHAP_SUCCESS = CHAP_SUCCESS ∧ u8 CHAP_FAILURE = CHAP_FAILURE.
Proof.
  pose proof CHAP_code_bytes as Hb. rewrite !list.Forall_cons in Hb.
  split_and!; apply u8_id; apply Hb.
Qed.

Lemma random_bytes_spec : ∀ n r, rng_ok r →
  length (fst (random_bytes n r)) = n ∧ Bytes (fst (random_bytes n r)) ∧
  rng_ok (snd (random_bytes n r)).
Proof.
  induction n as [|n IH]; intros r Hr; [done|]. cbn [random_bytes].
  destruct (random_ok r Hr) as [Hx Hr']. destruct (random r) as [x r']. cbn [fst snd] in *.
  destruct (IH r' Hr') as (Hl & Hb & Ho). destruct (random_bytes n r') as [l r'']. cbn [fst snd] in *.
  split_and!; [cbn; lia| |done]. apply Forall_cons_2; [|done].
  pose proof (Z.mod_pos_bound x 255 ltac:(lia)). unfold is_byte. lia.
Qed.

(** What [ChapGenChallenge] sets. *)
Lemma gen_challenge s : rng_ok (cr s) → ∃ c r, ChapGenChallenge s = set_challenge c (set_rng r s) ∧
  rng_ok r ∧ Bytes c ∧ MIN_CHALLENGE_LENGTH <= zlen c < MAX_CHALLENGE_LENGTH.
Proof.
  intros Hr. unfold ChapGenChallenge. destruct (random_ok _ Hr) as [Hx Hr'].
  destruct (random (cr s)) as [x r]. cbn [fst snd] in *. destruct challenge_lengths as [Hm Hm'].
  set (n := x mod _ + _).
  assert (MIN_CHALLENGE_LENGTH <= n < MAX_CHALLENGE_LENGTH) as Hn.
  { unfold n. pose proof (Z.mod_pos_bound x (MAX_CHALLENGE_LENGTH - MIN_CHALLENGE_LENGTH)). lia. }
  destruct (random_bytes_spec (Z.to_nat n) r Hr') as (Hl & Hb & Ho).
  destruct (random_bytes (Z.to_nat n) r) as [c r']. cbn [fst snd] in *.
  exists c, r'. split_and!; try done; unfold zlen; lia.
Qed.

(** ** Packets *)

Lemma ChapInput_packet code id body s : zlen body + CHAP_HEADERLEN < 65536 →
  ChapInput ([code; id] ++ PUTSHORT (CHAP_HEADERLEN + zlen body) ++ body) s =
  if code =? CHAP_CHALLENGE then ChapReceiveChallenge id body (zlen body) s
  else if code =? CHAP_RESPONSE then ChapReceiveResponse id body (zlen body) s
  else if code =? CHAP_FAILURE then ChapReceiveFailure id body (zlen body) s
  else if code =? CHAP_SUCCESS then ChapReceiveSuccess id body (zlen body) s
  else Rd s.
Proof.
  intros Hl. unfold ChapInput. rewrite CHAP_HEADERLEN_eq in *.
  by rewrite get_header_packet by lia.
Qed.

(** A value and a name, as challenges and responses carry them. *)
Definition value_body (value name : bytes) : bytes := [zlen value] ++ value ++ name.

Lemma value_body_len value name : zlen (value_body value name) = 1 + zlen value + zlen name.
Proof. unfold value_body. cbn [app]. rewrite zlen_cons, zlen_app. lia. Qed.

Definition name_ok (name : bytes) : Prop := Forall (λ c, c ≠ 0) name ∧ zlen name < 256.

Lemma rhostname_name name : name_ok name → rhostname (zlen name) name = Rd name.
Proof.
  intros [Hz Hl]. unfold rhostname. destruct (Z.leb_spec 256 (zlen name)); [lia|].
  rewrite <- (app_nil_r name) at 2. rewrite getbytes_app. cbn [rd_bind]. by rewrite cstr_id.
Qed.

Lemma receive_challenge id chal name s : 0 < zlen chal → name_ok name →
  client s ≠ CHAPCS_CLOSED → client s ≠ CHAPCS_PENDING →
  ChapReceiveChallenge id (value_body chal name) (zlen (value_body chal name)) s =
  rd_bind (auth_secret (resp_name (cresp (cs s))) name false (ca s)) (λ '(sec, a),
    let s := set_auth a s in
    let s := if decide (client s = CHAPCS_RESPONSE) then PPP_UNTIMEOUT ResponseTimer s else s in
    let s := set_resp_id id 0 s in
    Rd (if resp_type (cresp (cs s)) =? CHAP_DIGEST_MD5
        then ChapSendResponse (set_response (chap_digest id (default [] sec) chal) s) else s)).
Proof.
  intros Hc Hn Hn1 Hn2. unfold ChapReceiveChallenge. rewrite value_body_len.
  pose proof (zlen_nonneg name). destruct (Z.ltb_spec (1 + zlen chal + zlen name) 2); [lia|].
  unfold value_body. cbn [app rd_bind getchar].
  destruct (Z.ltb_spec (1 + zlen chal + zlen name - (1 + zlen chal)) 0); [lia|].
  rewrite getbytes_app. cbn [rd_bind].
  replace (1 + zlen chal + zlen name - (1 + zlen chal)) with (zlen name) by lia.
  rewrite rhostname_name by done. cbn [rd_bind]. by destruct (client s).
Qed.

Lemma receive_response md name s : 0 < zlen md → name_ok name →
  server s = CHAPSS_INITIAL_CHAL ∨ server s = CHAPSS_RECHALLENGE →
  ChapReceiveResponse (chal_id (cchal (cs s))) (value_body md name) (zlen (value_body md name)) s =
  let s := PPP_UNTIMEOUT ChallengeTimer s in
  rd_bind (auth_secret name (chal_name (cchal (cs s))) true (ca s)) (λ '(sec, a),
    let s := set_auth a s in
    let code := response_code md sec (cchal (cs s)) in
    Rd (response_result code (ChapSendStatus code s))).
Proof.
  intros Hc Hn Hst. unfold ChapReceiveResponse. rewrite value_body_len, Z.eqb_refl. cbn [negb].
  pose proof (zlen_nonneg name). destruct (Z.ltb_spec (1 + zlen md + zlen name) 2); [lia|].
  unfold value_body. cbn [app rd_bind getchar].
  destruct (Z.ltb_spec (1 + zlen md + zlen name - (1 + zlen md)) 0); [lia|].
  rewrite getbytes_app. cbn [rd_bind].
  replace (1 + zlen md + zlen name - (1 + zlen md)) with (zlen name) by lia.
  rewrite rhostname_name by done. cbn [rd_bind]. by destruct Hst as [->| ->].
Qed.

(** What the peer makes of the packets. *)
Lemma input_challenge id chal name s : 0 < zlen chal < 256 → name_ok name → is_byte id →
  ChapInput (payload (chal_packet id chal name)) s =
  ChapReceiveChallenge id (value_body chal name) (zlen (value_body chal name)) s.
Proof.
  intros Hc [Hz Hl] Hid. unfold chal_packet. rewrite payload_packet.
  destruct chap_codes_u8 as (-> & _). rewrite u8_id by lia.
  replace (CHAP_HEADERLEN + 1 + zlen chal + zlen name)
    with (CHAP_HEADERLEN + zlen (value_body chal name)) by (rewrite value_body_len; lia).
  fold (value_body chal name). pose proof (value_body_len chal name).
  rewrite ChapInput_packet by (rewrite CHAP_HEADERLEN_eq; lia). by rewrite Z.eqb_refl.
Qed.

Lemma input_response id md name s : 0 < zlen md < 256 → name_ok name → is_byte id →
  ChapInput (payload (resp_packet id md name)) s =
  ChapReceiveResponse id (value_body md name) (zlen (value_body md name)) s.
Proof.
  intros Hc [Hz Hl] Hid. unfold resp_packet. rewrite payload_packet.
  destruct chap_codes_u8 as (_ & -> & _), chap_codes as (N1 & _). rewrite u8_id by lia.
  replace (CHAP_HEADERLEN + 1 + zlen md + zlen name)
    with (CHAP_HEADERLEN + zlen (value_body md name)) by (rewrite value_body_len; lia).
  fold (value_body md name). pose proof (value_body_len md name).
  rewrite ChapInput_packet by (rewrite CHAP_HEADERLEN_eq; lia).
  apply not_eq_sym, Z.eqb_neq in N1. by rewrite N1, Z.eqb_refl.
Qed.

Lemma input_status code id s : code = CHAP_SUCCESS ∨ code = CHAP_FAILURE → is_byte id →
  zlen unit_digits < 256 → client s = CHAPCS_RESPONSE →
  ChapInput (payload (status_packet code id)) s =
  let s := PPP_UNTIMEOUT ResponseTimer s in
  Rd (if code =? CHAP_SUCCESS then notify (WithPeerSuccess CHAP) (set_client CHAPCS_OPEN s)
      else notify (WithPeerFail CHAP) s).
Proof.
  intros Hc Hid Hu Hs. unfold status_packet. rewrite payload_packet.
  destruct chap_codes_u8 as (_ & _ & E1 & E2), chap_codes as (_ & N1 & N2 & N3 & N4 & N5).
  replace (u8 code) with code by (destruct Hc; congruence).
  set (msg := status_msg code). assert (zlen msg < 512) as Hm.
  { unfold msg, status_msg. rewrite zlen_app. destruct (code =? CHAP_SUCCESS);
      match goal with |- zlen ?l + _ < _ => let n := eval vm_compute in (zlen l) in change (zlen l) with n end; lia. }
  rewrite ChapInput_packet by (rewrite CHAP_HEADERLEN_eq; lia).
  unfold ChapReceiveSuccess, ChapReceiveFailure. rewrite Hs.
  assert (getbytes (zlen msg) msg = Rd (msg, [])) as ->.
  { rewrite <- (app_nil_r msg) at 2. apply getbytes_app. }
  cbn [rd_bind]. apply not_eq_sym in N1, N2, N3, N4. apply Z.eqb_neq in N1, N2, N3, N4.
  destruct Hc as [->| ->]; rewrite ?N1, ?N2, ?N3, ?N4, ?Z.eqb_refl.
  - by apply Z.eqb_neq in N5; rewrite N5.
  - apply not_eq_sym, Z.eqb_neq in N5. by rewrite N5.
Qed.

(** ** A whole exchange *)

Lemma response_success s : server s = CHAPSS_INITIAL_CHAL →
  server (response_result CHAP_SUCCESS s) = CHAPSS_OPEN ∧
  clog (response_result CHAP_SUCCESS s) = CNotify (PeerSuccess CHAP) :: clog s ∧
  pending ChallengeTimer (ct (response_result CHAP_SUCCESS s)) = pending ChallengeTimer (ct s).
Proof.
  intros Hs. unfold response_result. rewrite Z.eqb_refl, Hs, decide_True by done.
  destruct (chal_interval _ =? 0); [done|]. split_and!; [done|done|].
  cbn [ct PPP_TIMEOUT notify set_server upd_chal]. by rewrite pending_TIMEOUT, decide_False.
Qed.


(** What the server makes of the digest of the secret [sec1], when its own is [sec2]. *)
Definition right_secret (id : Z) (chal : bytes) (sec1 sec2 : option bytes) : Prop :=
  ∃ s2, sec2 = Some s2 ∧ md5 (id :: s2 ++ chal) = md5 (id :: default [] sec1 ++ chal).

Lemma response_code_right id chal sec1 sec2 c : length stack = 64%nat →
  zlen (default [] sec1) < 4294967296 → zlen (default [] sec2) < 4294967296 →
  zlen chal < 4294967296 → chal_type c = CHAP_DIGEST_MD5 → chal_id c = id → challenge c = chal →
  (right_secret id chal sec1 sec2 ∧
     response_code (chap_digest id (default [] sec1) chal) sec2 c = CHAP_SUCCESS) ∨
  (¬ right_secret id chal sec1 sec2 ∧
     response_code (chap_digest id (default [] sec1) chal) sec2 c = CHAP_FAILURE).
Proof.
  intros Hst Hz1 Hz2 Hc Ht Hi Hch. unfold response_code.
  rewrite Ht, Z.eqb_refl, Hi, Hch, (chap_digest_md5 id (default [] sec1)), md5_len,
    MD5_SIGNATURE_SIZE_eq by done.
  cbn [Z.eqb Pos.eqb negb]. destruct sec2 as [s2|].
  - cbn [default] in Hz2. rewrite chap_digest_md5 by done. case_bool_decide as Hd.
    + left. split; [by exists s2|done].
    + right. split; [|done]. by intros (s2' & [= <-] & E).
  - right. split; [|done]. by intros (s2' & ? & E).
Qed.

(** C31: A whole exchange with MD5: the challenge of [ChapAuthPeer], the answer of the peer's
    [ChapReceiveChallenge] and the status that [ChapReceiveResponse] returns open both sides
    when the two secrets have the same digest (in particular when they are equal), and
    otherwise the server refuses; both layers are told, and both looked the secrets up under
    the names the two sides gave. *)
Theorem chap_exchange our_name his_name (c s : sys) sec1 sec2 a1 a2 :
  length stack = 64%nat → rng_ok (cr s) → name_ok our_name → name_ok his_name →
  zlen unit_digits < 256 → MAXSECRETLEN < 4294967296 →
  server s ≠ CHAPSS_INITIAL → server s ≠ CHAPSS_PENDING →
  client c ≠ CHAPCS_INITIAL → client c ≠ CHAPCS_PENDING →
  auth_secret his_name our_name false (ca c) = Rd (sec1, a1) →
  auth_secret his_name our_name true (ca s) = Rd (sec2, a2) →
  let s1 := ChapAuthPeer our_name CHAP_DIGEST_MD5 s in
  let c1 := ChapAuthWithPeer his_name CHAP_DIGEST_MD5 c in
  ∃ req rsp sts c2 s2 c3, clog s1 = COutput req :: clog s ∧
    ChapInput (payload req) c1 = Rd c2 ∧ clog c2 = COutput rsp :: clog c1 ∧
    ChapInput (payload rsp) s1 = Rd s2 ∧ ChapInput (payload sts) c2 = Rd c3 ∧
    let chal := challenge (cchal (cs s1)) in
    let id := chal_id (cchal (cs s1)) in
    (right_secret id chal sec1 sec2 ∧ server s2 = CHAPSS_OPEN ∧ client c3 = CHAPCS_OPEN ∧
     clog s2 = CNotify (PeerSuccess CHAP) :: COutput sts :: clog s1 ∧
     clog c3 = CNotify (WithPeerSuccess CHAP) :: clog c2) ∨
    (¬ right_secret id chal sec1 sec2 ∧ server s2 = CHAPSS_BADAUTH ∧
     clog s2 = CNotify (PeerFail CHAP) :: COutput sts :: clog s1 ∧
     clog c3 = CNotify (WithPeerFail CHAP) :: clog c2).
Proof.
  intros Hst Hr Hon Hhn Hu Hmax Hs1 Hs2 Hc1 Hc2 Hsec1 Hsec2 s1 c1.
  set (s0 := set_chal_name our_name CHAP_DIGEST_MD5 s).
  destruct (gen_challenge s0 Hr) as (chal & r & Hgen & _ & Hb & Hlen).
  destruct challenge_lengths as [Hm1 Hm2].
  assert (s1 = start_challenge CHAPSS_INITIAL_CHAL s0) as Es1.
  { unfold s1, ChapAuthPeer. fold s0. cbn [server cs s0 set_chal_name upd_chal cchal serverstate].
    by destruct (server s). }
  assert (c1 = set_client CHAPCS_LISTEN (set_resp_name his_name CHAP_DIGEST_MD5 c)) as Ec1.
  { unfold c1, ChapAuthWithPeer. cbn [cs set_resp_name upd_resp cresp clientstate].
    by destruct (client c). }
  unfold start_challenge in Es1. rewrite Hgen in Es1.
  set (id := u8 (chap_id (cchal (cs s)) + 1)).
  assert (chal_id (cchal (cs s1)) = id ∧ challenge (cchal (cs s1)) = chal ∧
    chal_type (cchal (cs s1)) = CHAP_DIGEST_MD5 ∧ chal_name (cchal (cs s1)) = our_name ∧
    server s1 = CHAPSS_INITIAL_CHAL ∧ ca s1 = ca s ∧
    clog s1 = COutput (chal_packet id chal our_name) :: clog s) as (Ei & Ech & Et & En & Est & Ea & El).
  { rewrite Es1. by split_and!. }
  assert (is_byte id) as Hid by apply u8_range.
  set (md := chap_digest id (default [] sec1) chal).
  assert (zlen (default [] sec1) < 4294967296 ∧ zlen (default [] sec2) < 4294967296) as [Hl1 Hl2].
  { split; [destruct sec1 as [x|]|destruct sec2 as [x|]]; try done; change (zlen x < 4294967296).
    - pose proof (auth_secret_len _ _ _ _ _ _ Hsec1). lia.
    - pose proof (auth_secret_len _ _ _ _ _ _ Hsec2). lia. }
  assert (zlen md = 16) as Hmd by (unfold md; rewrite chap_digest_md5 by (done || lia); apply md5_len).
  set (code := response_code md sec2 (cchal (cs s1))).
  exists (chal_packet id chal our_name), (resp_packet id md his_name), (status_packet code id).
  eexists _, _, _. split; [done|]. split.
  { rewrite input_challenge by (done || lia). rewrite receive_challenge; [|lia|done|by rewrite Ec1..].
    rewrite Ec1. cbn [cs set_client set_resp_name upd_resp cresp resp_name ca]. rewrite Hsec1.
    cbn [rd_bind]. cbv zeta. cbn. rewrite Z.eqb_refl. done. }
  split; [by rewrite Ec1|]. split.
  { rewrite input_response by (done || lia). rewrite <- Ei at 1.
    rewrite receive_response by (done || lia || by left). cbv zeta. cbn [cs PPP_UNTIMEOUT ca]. rewrite En, Ea, Hsec2. cbn [rd_bind].
    cbn [cs set_auth]. fold code. done. }
  pose proof (response_code_right id chal sec1 sec2 (cchal (cs s1)) Hst Hl1 Hl2 ltac:(lia) Et Ei Ech)
    as Hcode. fold md in Hcode. fold code in Hcode.
  assert (code = CHAP_SUCCESS ∨ code = CHAP_FAILURE) as Hcode'
    by (destruct Hcode as [[_ ->]|[_ ->]]; auto).
  split; [apply input_status; done|]. rewrite Ei, Ech.
  change (response_code md sec2 (cchal (cs (PPP_UNTIMEOUT ChallengeTimer s1)))) with code.
  clearbody code.
  destruct Hcode as [[Hright ->]|[Hright ->]]; [left|right]; (split; [done|]).
  - destruct (response_success (ChapSendStatus CHAP_SUCCESS
      (set_auth a2 (PPP_UNTIMEOUT ChallengeTimer s1)))) as (-> & -> & _); [done|].
    rewrite Z.eqb_refl. cbn [clog ChapSendStatus output cs set_auth PPP_UNTIMEOUT]. by rewrite Ei.
  - destruct chap_codes as (_ & _ & _ & _ & _ & N). apply not_eq_sym, Z.eqb_neq in N.
    unfold response_result. rewrite N. cbn. by rewrite Ei.
Qed.

(** ** Every packet is safe *)

(** What may make a packet report the peer's success. *)
Definition proves_secret (s : sys) (id : Z) (body : bytes) : Prop :=
  let c := cchal (cs s) in
  server s = CHAPSS_INITIAL_CHAL ∧ id = chal_id c ∧
  ∃ md name secret a, body = value_body md name ∧
    (∃ n, auth_secret n (chal_name c) true (ca s) = Rd (Some secret, a)) ∧
    chal_type c = CHAP_DIGEST_MD5 ∧ md = chap_digest (chal_id c) secret (challenge c).

(** The effect of handling a packet: nothing is reported without its cause. *)
Definition cexplained (s : sys) (code id : Z) (body : bytes) (r : rd sys) : Prop :=
  ∃ s' l, r = Rd s' ∧ clog s' = l ++ clog s ∧
    (CNotify (PeerSuccess CHAP) ∈ l → code = CHAP_RESPONSE ∧ proves_secret s id body) ∧
    (CNotify (WithPeerSuccess CHAP) ∈ l →
       code = CHAP_SUCCESS ∧ client s = CHAPCS_RESPONSE).

Lemma cexplained_same s code id body s' : clog s' = clog s → cexplained s code id body (Rd s').
Proof. intros E. exists s', []. split_and!; [done|done|..]; by intros ?%elem_of_nil. Qed.

Lemma cexplained_output s code id body s' p : clog s' = COutput p :: clog s →
  cexplained s code id body (Rd s').
Proof.
  intros E. exists s', [COutput p]. split_and!; [done|done|..]; by intros ?%list_elem_of_singleton.
Qed.

Lemma rhostname_ok len inp : Bytes inp → 0 <= len <= zlen inp → ∃ n, rhostname len inp = Rd n.
Proof.
  intros Hb Hl. unfold rhostname. destruct (Z.leb_spec 256 len);
    (rewrite getbytes_ok by lia; by eexists).
Qed.

(** The value field of a challenge or response. *)
Lemma value_field inp len : Bytes inp → 2 <= len <= zlen inp → ∃ v r,
  inp = v :: r ∧ 0 <= v < 256 ∧
  (len - (1 + v) < 0 ∨ 0 <= len - (1 + v) ∧
    getbytes v r = Rd (ztake v r, zdrop v r) ∧ inp = value_body (ztake v r) (zdrop v r) ∧
    zlen (ztake v r) = v ∧ ∃ n, rhostname (len - (1 + v)) (zdrop v r) = Rd n).
Proof.
  intros Hb Hl. destruct (zlen_pos_cons inp) as (v & r & ->); [lia|].
  apply Forall_cons_1 in Hb as [Hv Hb]. rewrite zlen_cons in Hl. exists v, r. split; [done|].
  split; [done|]. unfold is_byte in Hv. destruct (Z.lt_ge_cases (len - (1 + v)) 0); [by left|].
  right. assert (zlen (ztake v r) = v) as Ev by (rewrite zlen_ztake; lia).
  split_and!; [done|apply getbytes_ok; lia| |done|].
  - unfold value_body. by rewrite Ev, ztake_zdrop.
  - apply rhostname_ok; [by apply Bytes_zdrop|]. rewrite zlen_zdrop. lia.
Qed.

Section Safe.
Context (s : sys).
Hypothesis Hlookup : ∀ c v save, ∃ sec a, auth_secret c v save (ca s) = Rd (sec, a).

Lemma challenge_explained id inp len : Bytes inp → len <= zlen inp →
  cexplained s CHAP_CHALLENGE id inp (ChapReceiveChallenge id inp len s).
Proof.
  intros Hb Hl. unfold ChapReceiveChallenge.
  assert (cexplained s CHAP_CHALLENGE id inp (Rd s)) as Hsame by by apply cexplained_same.
  destruct (Z.ltb_spec len 2) as [|Hge]; [by destruct (client s)|].
  destruct (value_field inp len Hb ltac:(lia)) as (v & r & -> & Hv & Hcase).
  cbn [rd_bind getchar].
  destruct Hcase as [Hneg|(Hpos & Hget & _ & _ & n & Hn)].
  { apply Z.ltb_lt in Hneg. rewrite Hneg. by destruct (client s). }
  destruct (Z.ltb_spec (len - (1 + v)) 0); [lia|]. rewrite Hget. cbn [rd_bind]. rewrite Hn.
  cbn [rd_bind].
  destruct (Hlookup (resp_name (cresp (cs s))) n false) as (sec & a & ->). cbn [rd_bind].
  set (s0 := if decide _ then _ else _). set (r' := Rd _).
  assert (clog s0 = clog s) as Hs0 by (unfold s0; by case_decide).
  assert (cexplained s CHAP_CHALLENGE id (v :: r) r') as Hex.
  { unfold r'. destruct (_ =? CHAP_DIGEST_MD5); [|by apply cexplained_same].
    eapply cexplained_output. cbn. by rewrite Hs0. }
  by destruct (client s).
Qed.

Lemma response_explained id inp len : Bytes inp → len <= zlen inp →
  cexplained s CHAP_RESPONSE id inp (ChapReceiveResponse id inp len s).
Proof.
  intros Hb Hl. unfold ChapReceiveResponse.
  assert (cexplained s CHAP_RESPONSE id inp (Rd s)) as Hsame by by apply cexplained_same.
  assert (∀ c, cexplained s CHAP_RESPONSE id inp (Rd (ChapSendStatus c s))) as Hst.
  { intros c. by eapply cexplained_output. }
  destruct (Z.eqb_spec id (chal_id (cchal (cs s)))) as [->|]; [|by destruct (server s)].
  cbn [negb]. destruct (Z.ltb_spec len 2) as [|Hge].
  { destruct (server s); try done; repeat case_decide; done. }
  destruct (value_field inp len Hb ltac:(lia)) as (v & r & -> & Hv & Hcase).
  cbn [rd_bind getchar].
  destruct Hcase as [Hneg|(Hpos & Hget & Hbody & Hlen & n & Hn)].
  { apply Z.ltb_lt in Hneg. rewrite Hneg. destruct (server s); try done; repeat case_decide; done. }
  destruct (Z.ltb_spec (len - (1 + v)) 0); [lia|]. rewrite Hget. cbn [rd_bind]. rewrite Hn. cbn [rd_bind].
  destruct (Hlookup n (chal_name (cchal (cs s))) true) as (sec & a & Hsec).
  cbn [cs PPP_UNTIMEOUT ca]. rewrite Hsec. cbn [rd_bind cs set_auth PPP_UNTIMEOUT].
  set (code := response_code _ _ _).
  set (s1 := ChapSendStatus code (set_auth a (PPP_UNTIMEOUT ChallengeTimer s))).
  assert (cexplained s CHAP_RESPONSE (chal_id (cchal (cs s))) (v :: r) (Rd (response_result code s1)))
    as Hex; [|destruct (server s); try done; repeat case_decide; done].
  assert (clog s1 = [COutput (status_packet code (chal_id (cchal (cs s))))] ++ clog s) as Hlog by done.
  assert (server s1 = server s) as Hserver by done.
  assert (code = CHAP_SUCCESS → ∃ secret, sec = Some secret ∧
    chal_type (cchal (cs s)) = CHAP_DIGEST_MD5 ∧
    ztake v r = chap_digest (chal_id (cchal (cs s))) secret (challenge (cchal (cs s)))) as Hcode.
  { destruct chap_codes as (_ & _ & _ & _ & _ & N). unfold code, response_code.
    destruct sec as [x|]; [|done]. destruct (Z.eqb_spec (chal_type (cchal (cs s))) CHAP_DIGEST_MD5); [|done].
    destruct (negb _); [done|]. case_bool_decide; [|done]. intros _. by exists x. }
  clearbody s1 code. unfold response_result. rewrite Hserver.
  destruct (Z.eqb_spec code CHAP_SUCCESS) as [->|_].
  - destruct (Hcode eq_refl) as (x & -> & Ht & Hmd).
    set (s2 := if decide (server s = CHAPSS_INITIAL_CHAL) then _ else _).
    assert (∃ l, clog s2 = l ++ clog s ∧ (CNotify (PeerSuccess CHAP) ∈ l → server s = CHAPSS_INITIAL_CHAL) ∧
      (CNotify (WithPeerSuccess CHAP) ∉ l)) as (l & Hl2 & Hin & Hnin).
    { unfold s2. case_decide as Hd.
      - eexists [_; _]. split; [cbn; by rewrite Hlog|]. split; [done|].
        by intros [?|[?|?%elem_of_nil]%elem_of_cons]%elem_of_cons.
      - eexists [_]. split; [cbn; by rewrite Hlog|]. split; by intros ?%list_elem_of_singleton. }
    exists (if chal_interval (cchal (cs s2)) =? 0 then s2
      else PPP_TIMEOUT RechallengeTimer (chal_interval (cchal (cs s2))) s2), l.
    split; [by destruct (chal_interval _ =? 0)|]. split; [by destruct (chal_interval _ =? 0)|].
    split; [|done]. intros Hin'. split; [done|]. split; [by apply Hin|]. split; [done|].
    exists (ztake v r), (zdrop v r), x, a. split_and!; try done. by exists n.
  - eexists _, [CNotify (PeerFail CHAP); _]. split; [done|]. split; [cbn; by rewrite Hlog|].
    split; by intros [?|[?|?%elem_of_nil]%elem_of_cons]%elem_of_cons.
Qed.

Lemma status_explained id inp len : len <= zlen inp →
  cexplained s CHAP_SUCCESS id inp (ChapReceiveSuccess id inp len s) ∧
  cexplained s CHAP_FAILURE id inp (ChapReceiveFailure id inp len s).
Proof.
  intros Hl. unfold ChapReceiveSuccess, ChapReceiveFailure. rewrite getbytes_ok by done.
  cbn [rd_bind]. destruct (client s) eqn:E; try (split; by apply cexplained_same).
  split.
  - eexists _, [CNotify (WithPeerSuccess CHAP)]. split_and!; [done|done| |done].
    by intros ?%list_elem_of_singleton.
  - eexists _, [CNotify (WithPeerFail CHAP)]. split_and!; [done|done|..];
      by intros ?%list_elem_of_singleton.
Qed.

(** C32: Whatever bytes arrive, [ChapInput] reads only the packet and returns, provided the
    lookup of secrets does; it reports that the peer authenticated itself only for a response
    to the first challenge, with its id, that carries the digest of the id, a secret of the
    peer and the challenge; and that we did only for a Success while our response is out. *)
Theorem chap_input_safe packet : Bytes packet →
  ∃ s' l, ChapInput packet s = Rd s' ∧ clog s' = l ++ clog s ∧
    (CNotify (PeerSuccess CHAP) ∈ l → ∃ id hi lo body,
       packet = [CHAP_RESPONSE; id; hi; lo] ++ body ∧ proves_secret s id body) ∧
    (CNotify (WithPeerSuccess CHAP) ∈ l →
       client s = CHAPCS_RESPONSE ∧ head packet = Some CHAP_SUCCESS).
Proof.
  intros Hb. unfold ChapInput. rewrite CHAP_HEADERLEN_eq.
  match goal with |- ∃ s' l, get_header 4 packet s ?k = _ ∧ _ =>
    destruct (get_header_cases packet s k Hb) as
      [->|(code & id & hi & lo & body & -> & _ & _ & Hbody & Hlen & _ & ->)] end.
  { exists s, []. split_and!; [done|done|..]; by intros ?%elem_of_nil. }
  match goal with |- ∃ s' l, ?r = _ ∧ _ => assert (cexplained s code id body r) as Hex end.
  - destruct (status_explained id body _ Hlen) as [He1 He2].
    destruct (Z.eqb_spec code CHAP_CHALLENGE) as [->|_]; [by apply challenge_explained|].
    destruct (Z.eqb_spec code CHAP_RESPONSE) as [->|_]; [by apply response_explained|].
    destruct (Z.eqb_spec code CHAP_FAILURE) as [->|_]; [done|].
    destruct (Z.eqb_spec code CHAP_SUCCESS) as [->|_]; [done|]. by apply cexplained_same.
  - destruct Hex as (s' & l & Hr & Hlog & Hp & Hw). exists s', l. split_and!; [done|done|..].
    + intros Hin. apply Hp in Hin as [-> Hs]. by exists id, hi, lo, body.
    + intros Hin. by apply Hw in Hin as [-> Hs].
Qed.
End Safe.

(** ** Timers *)

(** The expiration of a timer. *)
Definition expire (k : chap_timer) (s : sys) : sys :=
  let s := PPP_UNTIMEOUT k s in
  match k with
  | ChallengeTimer => ChapChallengeTimeout s
  | ResponseTimer => ChapResponseTimeout s
  | RechallengeTimer => ChapRechallenge s
  end.

Lemma pending_to k k' secs (t : T) : pending k (TIMEOUT k' secs t) =
  (if decide (k = k') then S (pending k t) else pending k t).
Proof. apply pending_TIMEOUT. Qed.

(** With a rechallenge interval, each round of a rechallenge and its right answer leaves one
    more rechallenge timer running than there was before: [ChapRechallenge] and
    [ChapReceiveResponse] both start one. *)
Theorem rechallenge_accumulates s md name secret a :
  rng_ok (cr s) → server s = CHAPSS_OPEN → chal_interval (cchal (cs s)) ≠ 0 →
  (0 < pending RechallengeTimer (ct s))%nat →
  let s1 := expire RechallengeTimer s in
  zlen md = 16 → name_ok name → chal_type (cchal (cs s)) = CHAP_DIGEST_MD5 →
  auth_secret name (chal_name (cchal (cs s))) true (ca s) = Rd (Some secret, a) →
  md = chap_digest (chal_id (cchal (cs s1))) secret (challenge (cchal (cs s1))) →
  ∃ s2, ChapInput (payload (resp_packet (chal_id (cchal (cs s1))) md name)) s1 = Rd s2 ∧
    server s2 = CHAPSS_OPEN ∧
    pending RechallengeTimer (ct s2) = S (pending RechallengeTimer (ct s)).
Proof.
  intros Hr Hs Hint Hp s1 Hmd Hn Ht Hsec Hd.
  destruct (gen_challenge (PPP_UNTIMEOUT RechallengeTimer s) Hr) as (c & r & Hgen & _ & _ & _).
  apply Z.eqb_neq in Hint.
  assert (s1 = PPP_TIMEOUT RechallengeTimer (chal_interval (cchal (cs s)))
    (set_server CHAPSS_RECHALLENGE (ChapSendChallenge
      (set_challenge c (set_rng r (PPP_UNTIMEOUT RechallengeTimer s)))))) as Es1.
  { unfold s1, expire, ChapRechallenge. cbn [server cs PPP_UNTIMEOUT].
    rewrite Hs, decide_True by done. unfold start_challenge. rewrite Hgen.
    cbn. by rewrite Hint. }
  assert (server s1 = CHAPSS_RECHALLENGE ∧ chal_name (cchal (cs s1)) = chal_name (cchal (cs s)) ∧
    chal_type (cchal (cs s1)) = CHAP_DIGEST_MD5 ∧ ca s1 = ca s ∧
    chal_interval (cchal (cs s1)) = chal_interval (cchal (cs s)) ∧ is_byte (chal_id (cchal (cs s1))))
    as (Est & En & Et & Ea & Ei & Hid).
  { rewrite Es1. split_and!; try done; apply u8_range. }
  assert (pending RechallengeTimer (ct s1) = pending RechallengeTimer (ct s)) as Ep.
  { rewrite Es1. cbn [ct PPP_TIMEOUT set_server upd_chal ChapSendChallenge set_transmits output
      set_challenge set_rng PPP_UNTIMEOUT]. rewrite pending_to, decide_True, pending_to, decide_False by done.
    rewrite pending_UNTIMEOUT, decide_True by done. lia. }
  clearbody s1. rewrite input_response, receive_response; [|lia|done|by right|lia|done|done].
  cbv zeta. cbn [cs PPP_UNTIMEOUT ca]. rewrite En, Ea, Hsec. cbn [rd_bind].
  assert (response_code md (Some secret) (cchal (cs s1)) = CHAP_SUCCESS) as Hc.
  { unfold response_code. rewrite Et, Z.eqb_refl, Hmd, MD5_SIGNATURE_SIZE_eq. cbn [Z.eqb Pos.eqb negb].
    by rewrite bool_decide_true. }
  cbn [cs set_auth PPP_UNTIMEOUT]. rewrite Hc. eexists. split; [done|]. unfold response_result. rewrite Z.eqb_refl.
  cbn [cs ChapSendStatus output set_auth PPP_UNTIMEOUT]. rewrite Est, decide_False by done.
  cbn [cs ChapSendStatus output set_auth PPP_UNTIMEOUT set_server upd_chal cchal chal_interval].
  rewrite Ei, Hint. split; [done|].
  cbn [ct PPP_TIMEOUT set_server upd_chal ChapSendStatus output set_auth PPP_UNTIMEOUT].
  rewrite pending_to, decide_True by done. rewrite pending_UNTIMEOUT, decide_False, Ep by done. done.
Qed.

(** After a Failure the client stays in RESPONSE without a timer, and a Success that follows
    opens it. *)
Lemma failure_then_success s id inp len : client s = CHAPCS_RESPONSE → len <= zlen inp →
  ∃ s1 s2, ChapReceiveFailure id inp len s = Rd s1 ∧ ChapReceiveSuccess id inp len s1 = Rd s2 ∧
    client s2 = CHAPCS_OPEN ∧
    clog s2 = CNotify (WithPeerSuccess CHAP) :: CNotify (WithPeerFail CHAP) :: clog s.
Proof.
  intros Hs Hl. unfold ChapReceiveFailure. rewrite Hs, getbytes_ok by done. cbn [rd_bind].
  eexists _, _. split; [done|]. unfold ChapReceiveSuccess.
  cbn [cs notify PPP_UNTIMEOUT]. rewrite Hs, getbytes_ok by done. by split_and!.
Qed.

(** ** Reachable states and the end of the challenges *)

Inductive chap_op :=
  | OpAuthWithPeer (name : bytes) (digest : Z) | OpAuthPeer (name : bytes) (digest : Z)
  | OpExpire (k : chap_timer) | OpLowerUp | OpLowerDown | OpProtRej | OpInput (packet : bytes).

Definition chap_exec (op : chap_op) (s : sys) : rd sys :=
  match op with
  | OpAuthWithPeer n d => Rd (ChapAuthWithPeer n d s)
  | OpAuthPeer n d => Rd (ChapAuthPeer n d s)
  | OpExpire k => Rd (if decide (pending k (ct s) = 0%nat) then s else expire k s)
  | OpLowerUp => Rd (ChapLowerUp s)
  | OpLowerDown => Rd (ChapLowerDown s)
  | OpProtRej => Rd (ChapProtocolReject s)
  | OpInput packet => ChapInput packet s
  end.

Inductive chap_reachable : sys → Prop :=
  | chap_start now a t r : rng_ok r → (∀ k, pending k t = 0%nat) → chap_reachable (ChapInit now a t r)
  | chap_next op s s' : chap_reachable s → chap_exec op s = Rd s' → chap_reachable s'.

Definition challenging (st : chap_server) : bool :=
  match st with CHAPSS_INITIAL_CHAL | CHAPSS_RECHALLENGE => true | _ => false end.

(** A challenge is outstanding only with its timer running, and was sent at
    most [max_transmits] times. *)
Record chap_ok (s : sys) : Prop := MkChapOk {
  cok_timer : challenging (server s) = true →
    (0 < pending ChallengeTimer (ct s))%nat ∧ 1 <= chal_transmits (cchal (cs s));
  cok_transmits : 0 <= chal_transmits (cchal (cs s)) <= max_transmits (cs s);
  cok_max : max_transmits (cs s) = CHAP_DEFTRANSMITS;
  cok_rng : rng_ok (cr s)
}.

(** Everything but the server's state and the challenge timer is immaterial. *)
Lemma cok_frame s s' : chap_ok s →
  chal_transmits (cchal (cs s')) = chal_transmits (cchal (cs s)) →
  max_transmits (cs s') = max_transmits (cs s) → cr s' = cr s →
  challenging (server s') = false ∨
    server s' = server s ∧ pending ChallengeTimer (ct s') = pending ChallengeTimer (ct s) →
  chap_ok s'.
Proof.
  intros [O1 O2 O3 O4] E1 E2 E3 Hst. split; rewrite ?E1, ?E2, ?E3; try done.
  intros Hc. destruct Hst as [Hn|[Es Ep]]; [congruence|]. rewrite Ep. apply O1. by rewrite <- Es.
Qed.

Lemma start_challenge_ok st s : max_transmits (cs s) = CHAP_DEFTRANSMITS → rng_ok (cr s) →
  chap_ok (start_challenge st s).
Proof.
  intros Hm Hr. unfold start_challenge. pose proof CHAP_transmits_pos.
  destruct (gen_challenge s Hr) as (c & r & -> & Hr' & _ & _). split; cbn; [|lia|done|done].
  intros _. rewrite pending_to, decide_True by done. lia.
Qed.

Lemma other_timer k secs s : k ≠ ChallengeTimer → chap_ok s →
  chap_ok (PPP_TIMEOUT k secs s) ∧ chap_ok (PPP_UNTIMEOUT k s).
Proof.
  intros Hk Hok. split; (apply (cok_frame s); [done|done|done|done|right; split; [done|]]); cbn.
  - by rewrite pending_to, decide_False.
  - by rewrite pending_UNTIMEOUT, decide_False.
Qed.

Lemma chap_timeout_ok k secs s : chap_ok s → chap_ok (PPP_TIMEOUT k secs s).
Proof.
  intros [O1 O2 O3 O4]. split; try done. intros Hc. destruct (O1 Hc) as [Hp Ht].
  split; [|done]. cbn. rewrite pending_to. case_decide; lia.
Qed.

Lemma send_response_ok s : chap_ok s → chap_ok (ChapSendResponse s).
Proof.
  intros Hok. apply (cok_frame s); try done. right. split; [done|]. cbn.
  by rewrite pending_to, decide_False.
Qed.

Lemma chap_expire_ok k s : chap_ok s → chap_ok (expire k s).
Proof.
  intros Hok. unfold expire. destruct k.
  - unfold ChapChallengeTimeout. cbn [cs PPP_UNTIMEOUT].
    assert (challenging (server s) = false → chap_ok (PPP_UNTIMEOUT ChallengeTimer s)) as Hidle.
    { intros Hc. apply (cok_frame s); try done. by left. }
    assert (chap_ok (if max_transmits (cs s) <=? chal_transmits (cchal (cs s))
      then notify (PeerFail CHAP) (set_server CHAPSS_BADAUTH (PPP_UNTIMEOUT ChallengeTimer s))
      else ChapSendChallenge (PPP_UNTIMEOUT ChallengeTimer s))) as Hsend.
    { destruct (Z.leb_spec (max_transmits (cs s)) (chal_transmits (cchal (cs s)))).
      - apply (cok_frame s); try done. by left.
      - destruct Hok as [O1 O2 O3 O4]. split; cbn; try done; [|lia].
        intros _. rewrite pending_to, decide_True by done. lia. }
    destruct (server s); try done; by apply Hidle.
  - unfold ChapResponseTimeout. destruct (other_timer ResponseTimer 0 s ltac:(done) Hok) as [_ Hu].
    case_decide; [by apply send_response_ok|done].
  - unfold ChapRechallenge. destruct (other_timer RechallengeTimer 0 s ltac:(done) Hok) as [_ Hu].
    case_decide; [|done]. cbv zeta.
    assert (chap_ok (start_challenge CHAPSS_RECHALLENGE (PPP_UNTIMEOUT RechallengeTimer s))) as Hc.
    { apply start_challenge_ok; apply Hok. }
    destruct (_ =? 0); [done|]. by apply chap_timeout_ok.
Qed.

Lemma set_client_ok c s : chap_ok s → chap_ok (set_client c s).
Proof. intros Hok. apply (cok_frame s); try done. by right. Qed.

Lemma lowerdown_ok s : chap_ok s → chap_ok (ChapLowerDown s).
Proof.
  intros Hok. unfold ChapLowerDown. cbv zeta.
  apply (cok_frame s); try done; try (by left);
    case_decide; destruct (server s); try done; by destruct (chal_interval _ =? 0).
Qed.

(** What a packet does to the server's side. *)
Lemma input_ok packet s s' : chap_ok s → ChapInput packet s = Rd s' → chap_ok s'.
Proof.
  intros Hok E. unfold ChapInput, get_header in E. rd_inv E; try done.
  - unfold ChapReceiveChallenge in E. rd_inv E; try done;
      repeat first [apply send_response_ok | case_decide | case_match];
      (apply (cok_frame s); try done; right; split; [done|]); cbn;
      rewrite ?pending_to, ?pending_UNTIMEOUT, ?decide_False by done; done.
  - unfold ChapReceiveResponse in E. rd_inv E; try done;
      try (by (apply (cok_frame s); try done; by right)).
    all: unfold response_result; cbv zeta; repeat case_match; repeat case_decide;
      (apply (cok_frame s); try done; by left).
  - unfold ChapReceiveFailure in E. rd_inv E; try done.
    apply (cok_frame s); try done. right. split; [done|]. cbn.
    by rewrite pending_UNTIMEOUT, decide_False.
  - unfold ChapReceiveSuccess in E. rd_inv E; try done.
    apply (cok_frame s); try done. right. split; [done|]. cbn.
    by rewrite pending_UNTIMEOUT, decide_False.
Qed.

Lemma chap_exec_ok op s s' : chap_ok s → chap_exec op s = Rd s' → chap_ok s'.
Proof.
  intros Hok. destruct op as [name digest|name digest|k| | | |packet]; cbn [chap_exec]; intros E;
    try (injection E as <-).
  - unfold ChapAuthWithPeer. cbn [cs set_resp_name upd_resp cresp clientstate].
    destruct (client s); (apply (cok_frame s); try done; by right).
  - unfold ChapAuthPeer. cbn [cs set_chal_name upd_chal cchal serverstate].
    destruct (server s); try (apply start_challenge_ok; apply Hok);
      (apply (cok_frame s); try done; by left).
  - case_decide; [done|]. by apply chap_expire_ok.
  - unfold ChapLowerUp. cbv zeta. set (s1 := match client s with CHAPCS_INITIAL => _ | _ => _ end).
    assert (chap_ok s1) as Hok1 by (unfold s1; destruct (client s); try done; by apply set_client_ok).
    clearbody s1. destruct (server s1); try done.
    + apply (cok_frame s1); try done. by left.
    + apply start_challenge_ok; apply Hok1.
  - by apply lowerdown_ok.
  - unfold ChapProtocolReject. cbv zeta. apply lowerdown_ok.
    apply (cok_frame s); repeat case_match; try done; right; by split.
  - by eapply input_ok.
Qed.

Lemma chap_reachable_ok s : chap_reachable s → chap_ok s.
Proof.
  induction 1 as [now a t r Hr Ht|op s s' _ IH E]; [|by eapply chap_exec_ok].
  pose proof CHAP_transmits_pos. split; cbn; [done|lia|done|]. destruct Hr. by apply srandom_ok.
Qed.

(** [n] expirations of the challenge timer in a row. *)
Fixpoint chal_expires (n : nat) (s : sys) : sys :=
  match n with O => s | S m => expire ChallengeTimer (chal_expires m s) end.

Definition is_packet (e : chap_event) : bool := match e with COutput _ => true | _ => false end.

Lemma expire_challenging s : challenging (server s) = true →
  expire ChallengeTimer s =
  if max_transmits (cs s) <=? chal_transmits (cchal (cs s))
  then notify (PeerFail CHAP) (set_server CHAPSS_BADAUTH (PPP_UNTIMEOUT ChallengeTimer s))
  else ChapSendChallenge (PPP_UNTIMEOUT ChallengeTimer s).
Proof.
  intros Hc. unfold expire, ChapChallengeTimeout. cbn [cs PPP_UNTIMEOUT]. by destruct (server s).
Qed.

Lemma chal_expires_resend : ∀ n s, chap_ok s → challenging (server s) = true →
  chal_transmits (cchal (cs s)) + Z.of_nat n <= max_transmits (cs s) →
  chap_ok (chal_expires n s) ∧ server (chal_expires n s) = server s ∧
  chal_transmits (cchal (cs (chal_expires n s))) = chal_transmits (cchal (cs s)) + Z.of_nat n ∧
  max_transmits (cs (chal_expires n s)) = max_transmits (cs s) ∧
  pending ChallengeTimer (ct (chal_expires n s)) = pending ChallengeTimer (ct s) ∧
  ∃ l, clog (chal_expires n s) = l ++ clog s ∧ length l = n ∧ forallb is_packet l = true.
Proof.
  induction n as [|n IH]; intros s Hok Hc Hn.
  { cbn [chal_expires]. split_and!; try done; [lia|]. by exists []. }
  destruct (IH s Hok Hc ltac:(lia)) as (Hok' & Hs' & Ht & Hm & Hp & l & Hl & Hlen & Hall).
  cbn [chal_expires]. pose proof (chap_expire_ok ChallengeTimer _ Hok') as Hok2.
  assert (challenging (server (chal_expires n s)) = true) as Hc' by by rewrite Hs'.
  destruct (cok_timer _ Hok' Hc') as [Hp' _].
  rewrite expire_challenging in * by done.
  destruct (Z.leb_spec (max_transmits (cs (chal_expires n s)))
    (chal_transmits (cchal (cs (chal_expires n s))))); [lia|].
  split_and!; try done; [cbn; lia| |].
  - cbn. rewrite pending_to, decide_True, pending_UNTIMEOUT, decide_True by done. lia.
  - eexists (COutput _ :: l). cbn. rewrite Hl, Hlen. by split_and!.
Qed.

(** In every reachable state an outstanding challenge has its timer running and has been sent
    at most [max_transmits] times; if the peer stays silent, each expiration sends it again
    until that number is reached, and the next one gives up and reports failure. *)
Theorem chap_gives_up s : chap_reachable s → challenging (server s) = true →
  (0 < pending ChallengeTimer (ct s))%nat ∧
  1 <= chal_transmits (cchal (cs s)) <= max_transmits (cs s) ∧
  let n := Z.to_nat (max_transmits (cs s) - chal_transmits (cchal (cs s))) in
  pending ChallengeTimer (ct (chal_expires n s)) = pending ChallengeTimer (ct s) ∧
  ∃ l, length l = n ∧ forallb is_packet l = true ∧
    server (chal_expires (S n) s) = CHAPSS_BADAUTH ∧
    clog (chal_expires (S n) s) = CNotify (PeerFail CHAP) :: l ++ clog s.
Proof.
  intros Hr Hc. pose proof (chap_reachable_ok s Hr) as Hok.
  destruct (cok_timer s Hok Hc) as [Hp Ht]. pose proof (cok_transmits s Hok).
  split_and!; [done|lia|lia|]. cbv zeta.
  set (n := Z.to_nat (max_transmits (cs s) - chal_transmits (cchal (cs s)))).
  destruct (chal_expires_resend n s Hok Hc ltac:(lia))
    as (Hok' & Hs' & Ht' & Hm' & Hp' & l & Hl & Hlen & Hall).
  split; [done|]. exists l. split_and!; [done|done|..]; cbn [chal_expires];
    rewrite expire_challenging by (by rewrite Hs');
    destruct (Z.leb_spec (max_transmits (cs (chal_expires n s)))
      (chal_transmits (cchal (cs (chal_expires n s))))); try lia; cbn; by rewrite ?Hl.
Qed.

End Chap.

(** ** The values of RFC 1994 *)

#[export] Instance rfc_chap_defs : ChapDefs := {|
  CHAP_HEADERLEN := 4;
  CHAP_CHALLENGE := 1; CHAP_RESPONSE := 2; CHAP_SUCCESS := 3; CHAP_FAILURE := 4;
  CHAP_DEFTIMEOUT := 3; CHAP_DEFTRANSMITS := 10;
  MIN_CHALLENGE_LENGTH := 32; MAX_CHALLENGE_LENGTH := 64;
  MD5_SIGNATURE_SIZE := 16
|}.

#[export] Instance rfc_chap_defs_laws : ChapDefsLaws.
Proof.
  split; [done|compute_done|apply (bool_decide_unpack _); by vm_compute|done|done|done].
Qed.

(** ** Witnesses

    Two units: the file of the server lists the client "ab" with the secret
    "xy", and so does the file of the client. *)

#[local] Instance demo_layer : AuthLayer auth := auth_layer demo_open (λ _ _, true) None.
#[local] Instance demo_layer_laws : AuthLayerLaws auth :=
  auth_layer_laws demo_open (λ _ _, true) None.

Abbreviation demo_csys := (csys auth (Z * ppp_timer (K := chap_timer))).

Definition chap_conf : auth_conf :=
  MkConf [104] [115] [114] [117] [112] false true None (Some [112]) true.
Definition chap_auth : auth := MkAuth chap_conf (Some []) [] 0 PHASE_ESTABLISH false [].
Definition demo_stack : bytes := replicate 64 7.

Definition demo_start : demo_csys := ChapInit 5 chap_auth (0, MkTimer [] 0 0 0) rng_start.
Definition demo_unit : demo_csys := ChapLowerUp demo_start.

Lemma demo_start_reachable : chap_reachable [48] demo_stack demo_start.
Proof. apply chap_start; [apply rng_start_ok|by intros []]. Qed.

Lemma demo_unit_reachable : chap_reachable [48] demo_stack demo_unit.
Proof.
  apply (chap_next [48] demo_stack OpLowerUp demo_start); [apply demo_start_reachable|done].
Qed.

Lemma demo_rng_ok : rng_ok (cr demo_unit).
Proof. apply srandom_ok; [done|done|apply rng_start_ok]. Qed.

Lemma demo_secret c v save : c = [97; 98] → v = [115] → auth_secret c v save chap_auth =
  Rd (Some [120; 121], if save then set_addresses [[45]] chap_auth else chap_auth).
Proof. intros -> ->. by destruct save; vm_compute. Qed.

Lemma demo_lookup c v save : ∃ sec a, auth_secret c v save chap_auth = Rd (sec, a).
Proof.
  destruct (get_secret_file demo_open c v save chap_auth demo_lines) as (m & _ & E).
  - apply demo_open_ok.
  - split; [done|apply demo_lines_ok].
  - done.
  - change (auth_secret c v save chap_auth) with (get_secret demo_open c v save chap_auth).
    rewrite E. destruct (best_flag m <? 0); eauto.
Qed.

Lemma chap_exchange_witness : ∃ rsp s2,
  ChapInput [48] demo_stack (payload rsp) (ChapAuthPeer [115] CHAP_DIGEST_MD5 demo_unit) = Rd s2 ∧
  serverstate (cchal (cs s2)) = CHAPSS_OPEN.
Proof.
  destruct (chap_exchange [48] demo_stack [115] [97; 98] demo_unit demo_unit
    (Some [120; 121]) (Some [120; 121]) chap_auth (set_addresses [[45]] chap_auth))
    as (req & rsp & sts & c2 & s2 & c3 & _ & _ & _ & Hs2 & _ & Hres);
    [reflexivity | apply demo_rng_ok | by apply (bool_decide_unpack _) | by apply (bool_decide_unpack _)
    | reflexivity | reflexivity | discriminate | discriminate | discriminate | discriminate
    | by apply demo_secret | by apply demo_secret |].
  exists rsp, s2. split; [exact Hs2|].
  destruct Hres as [(_ & Hs & _)|(Hn & _)]; [exact Hs|].
  exfalso. apply Hn. exists [120; 121]. by split.
Defined.

Lemma chap_input_safe_witness : ∃ s' l,
  ChapInput [48] demo_stack [1; 7; 0; 9; 2; 97; 98; 1; 120] demo_unit = Rd s' ∧
  clog s' = l ++ clog demo_unit.
Proof.
  destruct (chap_input_safe [48] demo_stack demo_unit demo_lookup [1; 7; 0; 9; 2; 97; 98; 1; 120])
    as (s' & l & Hs & Hl & _).
  - apply (bool_decide_unpack _). by vm_compute.
  - by exists s', l.
Defined.

Lemma chap_gives_up_witness :
  chap_reachable [48] demo_stack (ChapAuthPeer [115] CHAP_DIGEST_MD5 demo_unit) ∧
  serverstate (cchal (cs (chal_expires 10 (ChapAuthPeer [115] CHAP_DIGEST_MD5 demo_unit)))) =
    CHAPSS_BADAUTH.
Proof.
  assert (chap_reachable [48] demo_stack (ChapAuthPeer [115] CHAP_DIGEST_MD5 demo_unit)) as Hr.
  { apply (chap_next [48] demo_stack (OpAuthPeer [115] CHAP_DIGEST_MD5) demo_unit);
      [apply demo_unit_reachable|done]. }
  split; [exact Hr|].
  destruct (chap_gives_up [48] demo_stack _ Hr) as (_ & _ & _ & l & _ & _ & Hb & _); [by vm_compute|].
  revert Hb. set (s := ChapAuthPeer _ _ _).
  replace (Z.to_nat (max_transmits (cs s) - chal_transmits (cchal (cs s)))) with 9%nat by by vm_compute.
  intros Hb. exact Hb.
Defined.

(** An open server with a rechallenge interval of 60 seconds and its timer. *)
Definition demo_open_server : demo_csys :=
  MkCsys (MkChap (MkResp CHAPCS_CLOSED [] 0 0 0 [])
                 (MkChal CHAPSS_OPEN [115] CHAP_DIGEST_MD5 0 0 [] 60 0) 3 10)
    chap_auth (0, MkTimer [MkCallout RechallengeTimer 60] 0 60 0) rng_start [].

Lemma rechallenge_accumulates_witness :
  let s1 := expire RechallengeTimer demo_open_server in
  let md := chap_digest demo_stack (chal_id (cchal (cs s1))) [120; 121] (challenge (cchal (cs s1))) in
  ∃ s2, ChapInput [48] demo_stack
    (payload (resp_packet (chal_id (cchal (cs s1))) md [97; 98])) s1 = Rd s2 ∧
    pending RechallengeTimer (ct s2) = 2%nat.
Proof.
  intros s1 md.
  destruct (rechallenge_accumulates [48] demo_stack demo_open_server md [97; 98] [120; 121]
    (set_addresses [[45]] chap_auth)) as (s2 & H1 & _ & H2).
  - apply rng_start_ok.
  - reflexivity.
  - discriminate.
  - vm_compute. lia.
  - unfold md. rewrite chap_digest_md5; [apply md5_len | reflexivity | reflexivity |].
    by vm_compute.
  - by apply (bool_decide_unpack _).
  - reflexivity.
  - by apply demo_secret.
  - reflexivity.
  - exists s2. split; [exact H1|]. rewrite H2. by vm_compute.
Defined.
