(* ===== verification/SlCompress.v ===== *)
(** * TCP/IP header compression ([sl_compress.c])

    Van Jacobson's compression for serial lines: [sl_compress_tcp] sends the
    differences between a segment's headers and those of the segment before
    it on the same connection, [sl_uncompress_tcp] rebuilds the headers.  The
    sender keeps the connections in a circular list in order of use.

    A packet is its two headers and the data behind them; the headers have
    the layout of RFC 791 and RFC 793 and lie in the first mbuf.  Multi-byte
    fields are kept in host order, [ip_sum] as it lies in memory, since the
    code stores it without conversion.  The receiver's copy that aligns the
    data does not change the packet and is left out.  The macros and constants of
    [sl_compress.h] are the class [SlDefs]. *)
From Stdlib Require Import ZArith Lia Bool.
From stdpp Require Import base tactics list sets numbers option.
From S2P Require Import Prelude Cksum.

Local Open Scope Z_scope.
Local Open Scope net_scope.

(** ** What comes from [sl_compress.h] and [tcp.h] *)

Inductive counter := sls_packets | sls_compressed | sls_searches | sls_misses
  | sls_uncompressedin | sls_compressedin | sls_errorin | sls_tossed.

(** [DECODES f cp] and the others are the new value of the field [f] and the
    pointer behind the bytes read. *)
Class SlDefs := {
  MAX_STATES : nat;
  NEW_C : Z; NEW_I : Z; TCP_PUSH_BIT : Z; NEW_S : Z; NEW_A : Z; NEW_W : Z; NEW_U : Z;
  TH_FIN : Z; TH_SYN : Z; TH_RST : Z; TH_PUSH : Z; TH_ACK : Z; TH_URG : Z;
  IPPROTO_TCP : Z;
  ENCODE : Z → bytes;
  ENCODEZ : Z → bytes;
  DECODEL : Z → bytes → rd (Z * bytes);
  DECODES : Z → bytes → rd (Z * bytes);
  DECODEU : Z → bytes → rd (Z * bytes);
  sl_stats : Type;
  sl_stats_zero : sl_stats;
  INCR : counter → sl_stats → sl_stats
}.

Class SlDefsLaws `{SlDefs} := {
  MAX_STATES_range : (2 < MAX_STATES < 256)%nat;
  sl_bits : (NEW_C, NEW_I, TCP_PUSH_BIT, NEW_S, NEW_A, NEW_W, NEW_U) = (64, 32, 16, 8, 4, 2, 1);
  th_bits : (TH_FIN, TH_SYN, TH_RST, TH_PUSH, TH_ACK, TH_URG) = (1, 2, 4, 8, 16, 32);
  IPPROTO_TCP_eq : IPPROTO_TCP = 6;
  (** Decoding what was encoded adds it to the field. *)
  DECODEL_ENCODE f n r : 0 < n < 65536 → DECODEL f (ENCODE n ++ r) = Rd (u32 (f + n), r);
  DECODES_ENCODE f n r : 0 < n < 65536 → DECODES f (ENCODE n ++ r) = Rd (u16 (f + n), r);
  DECODES_ENCODEZ f n r : DECODES f (ENCODEZ n ++ r) = Rd (u16 (f + n), r);
  DECODEU_ENCODEZ f n r : DECODEU f (ENCODEZ n ++ r) = Rd (u16 n, r);
  ENCODE_len n : zlen (ENCODE n) <= 3;
  ENCODEZ_len n : zlen (ENCODEZ n) <= 3
}.

(** ** Data *)

Record ip := MkIp {
  ip_v : Z; ip_hl : Z; ip_tos : Z; ip_len : Z; ip_id : Z; ip_off : Z; ip_ttl : Z; ip_p : Z;
  ip_sum : Z; ip_src : Z; ip_dst : Z;
  ip_opts : bytes
}.

Record tcphdr := MkTcp {
  th_ports : Z;              (** both ports, read as one [int] *)
  th_seq : Z; th_ack : Z; th_x2 : Z; th_off : Z; th_flags : Z; th_win : Z; th_sum : Z;
  th_urp : Z;
  th_opts : bytes
}.

(** The headers of a segment, as [cs_hdr] of a [cstate] keeps them. *)
Record hdr := MkHdr { h_ip : ip; h_th : tcphdr }.

Record packet := MkPacket { p_hdr : hdr; p_data : bytes }.

(** What goes over the line: a packet as it is, a packet whose protocol field
    names the connection, or the bytes of a compressed one. *)
Inductive frame :=
  | TYPE_IP (p : packet)
  | TYPE_UNCOMPRESSED_TCP (p : packet)
  | TYPE_COMPRESSED_TCP (b : bytes).

Definition zero_ip : ip := MkIp 0 0 0 0 0 0 0 0 0 0 0 [].
Definition zero_th : tcphdr := MkTcp 0 0 0 0 0 0 0 0 0 [].
Definition zero_hdr : hdr := MkHdr zero_ip zero_th.

(** A connection of the sender, and one of the receiver, which knows no
    headers until an uncompressed packet has arrived. *)
Record tcstate := MkTcs { cs_next : nat; cs_id : Z; cs_hdr : hdr }.
Record rcstate := MkRcs { cs_hlen : Z; cs_rhdr : hdr }.

#[export] Instance tcstate_inhabited : Inhabited tcstate := populate (MkTcs 0 0 zero_hdr).

Section SlCompress.
Context `{!SlDefs}.
(** Byte order of the machine. *)
Variable little_endian : bool.

Record slcompress := MkSl {
  last_cs : nat;
  last_recv : Z;
  last_xmit : Z;
  SLF_TOSS : bool;
  stats : sl_stats;
  tstate : list tcstate;
  rstate : list (option rcstate)
}.

(** *** Field updates *)

Definition set_last_cs (k : nat) (c : slcompress) : slcompress :=
  MkSl k (last_recv c) (last_xmit c) (SLF_TOSS c) (stats c) (tstate c) (rstate c).
Definition set_last_recv (k : Z) (c : slcompress) : slcompress :=
  MkSl (last_cs c) k (last_xmit c) (SLF_TOSS c) (stats c) (tstate c) (rstate c).
Definition set_last_xmit (k : Z) (c : slcompress) : slcompress :=
  MkSl (last_cs c) (last_recv c) k (SLF_TOSS c) (stats c) (tstate c) (rstate c).
Definition set_toss (b : bool) (c : slcompress) : slcompress :=
  MkSl (last_cs c) (last_recv c) (last_xmit c) b (stats c) (tstate c) (rstate c).
Definition incr (k : counter) (c : slcompress) : slcompress :=
  MkSl (last_cs c) (last_recv c) (last_xmit c) (SLF_TOSS c) (INCR k (stats c)) (tstate c) (rstate c).
Definition set_tstate (l : list tcstate) (c : slcompress) : slcompress :=
  MkSl (last_cs c) (last_recv c) (last_xmit c) (SLF_TOSS c) (stats c) l (rstate c).
Definition set_rstate (l : list (option rcstate)) (c : slcompress) : slcompress :=
  MkSl (last_cs c) (last_recv c) (last_xmit c) (SLF_TOSS c) (stats c) (tstate c) l.

Definition cs_at (c : slcompress) (k : nat) : tcstate := tstate c !!! k.
Definition set_next (k n : nat) (c : slcompress) : slcompress :=
  set_tstate (alter (λ t, MkTcs n (cs_id t) (cs_hdr t)) k (tstate c)) c.
Definition set_hdr (k : nat) (h : hdr) (c : slcompress) : slcompress :=
  set_tstate (alter (λ t, MkTcs (cs_next t) (cs_id t) h) k (tstate c)) c.

Definition set_ip_p (v : Z) (h : hdr) : hdr :=
  let i := h_ip h in
  MkHdr (MkIp (ip_v i) (ip_hl i) (ip_tos i) (ip_len i) (ip_id i) (ip_off i) (ip_ttl i) v
           (ip_sum i) (ip_src i) (ip_dst i) (ip_opts i)) (h_th h).
Definition set_ip_sum (v : Z) (h : hdr) : hdr :=
  let i := h_ip h in
  MkHdr (MkIp (ip_v i) (ip_hl i) (ip_tos i) (ip_len i) (ip_id i) (ip_off i) (ip_ttl i) (ip_p i)
           v (ip_src i) (ip_dst i) (ip_opts i)) (h_th h).
Definition set_ip_id (v : Z) (h : hdr) : hdr :=
  let i := h_ip h in
  MkHdr (MkIp (ip_v i) (ip_hl i) (ip_tos i) (ip_len i) v (ip_off i) (ip_ttl i) (ip_p i)
           (ip_sum i) (ip_src i) (ip_dst i) (ip_opts i)) (h_th h).
Definition set_ip_len (v : Z) (h : hdr) : hdr :=
  let i := h_ip h in
  MkHdr (MkIp (ip_v i) (ip_hl i) (ip_tos i) v (ip_id i) (ip_off i) (ip_ttl i) (ip_p i)
           (ip_sum i) (ip_src i) (ip_dst i) (ip_opts i)) (h_th h).
Definition upd_th (f : tcphdr → tcphdr) (h : hdr) : hdr := MkHdr (h_ip h) (f (h_th h)).
Definition set_seq (v : Z) : hdr → hdr :=
  upd_th (λ t, MkTcp (th_ports t) v (th_ack t) (th_x2 t) (th_off t) (th_flags t) (th_win t)
                 (th_sum t) (th_urp t) (th_opts t)).
Definition set_ack (v : Z) : hdr → hdr :=
  upd_th (λ t, MkTcp (th_ports t) (th_seq t) v (th_x2 t) (th_off t) (th_flags t) (th_win t)
                 (th_sum t) (th_urp t) (th_opts t)).
Definition set_flags (v : Z) : hdr → hdr :=
  upd_th (λ t, MkTcp (th_ports t) (th_seq t) (th_ack t) (th_x2 t) (th_off t) v (th_win t)
                 (th_sum t) (th_urp t) (th_opts t)).
Definition set_win (v : Z) : hdr → hdr :=
  upd_th (λ t, MkTcp (th_ports t) (th_seq t) (th_ack t) (th_x2 t) (th_off t) (th_flags t) v
                 (th_sum t) (th_urp t) (th_opts t)).
Definition set_sum (v : Z) : hdr → hdr :=
  upd_th (λ t, MkTcp (th_ports t) (th_seq t) (th_ack t) (th_x2 t) (th_off t) (th_flags t)
                 (th_win t) v (th_urp t) (th_opts t)).
Definition set_urp (v : Z) : hdr → hdr :=
  upd_th (λ t, MkTcp (th_ports t) (th_seq t) (th_ack t) (th_x2 t) (th_off t) (th_flags t)
                 (th_win t) (th_sum t) v (th_opts t)).

(** [th->th_flags |= bit], [th->th_flags &=~ bit]. *)
Definition put_flag (bit : Z) (on : bool) (h : hdr) : hdr :=
  let f := th_flags (h_th h) in
  set_flags (if on then Z.lor f bit else Z.land f (Z.lnot bit)) h.

(** *** The bytes of an IP header *)

Definition be16 (v : Z) : bytes := [v / 256; v mod 256].
Definition be32 (v : Z) : bytes := be16 (v / 65536) ++ be16 (v mod 65536).
Definition ip_bytes (i : ip) : bytes :=
  [16 * ip_v i + ip_hl i; ip_tos i] ++ be16 (ip_len i) ++ be16 (ip_id i) ++ be16 (ip_off i) ++
  [ip_ttl i; ip_p i] ++ store16 little_endian (ip_sum i) ++ be32 (ip_src i) ++ be32 (ip_dst i) ++
  ip_opts i.

(** [((u_short * )ip)[k]] *)
Definition u_short_at (i : ip) (k : nat) : Z :=
  let b := ip_bytes i in
  ushort little_endian (nth (2 * k) b 0) (nth (2 * k + 1) b 0).

(** [hlen << 2] after [hlen += th_off]. *)
Definition hdr_len (h : hdr) : Z := 4 * (ip_hl (h_ip h) + th_off (h_th h)).

(** *** Initialisation *)

Definition sl_compress_init : slcompress :=
  MkSl 0 255 255 true sl_stats_zero
    ((λ i, MkTcs (match i with O => MAX_STATES - 1 | S j => j end)%nat (Z.of_nat i) zero_hdr)
       <$> seq 0 MAX_STATES)
    (replicate MAX_STATES None).

(** *** The sender *)

Definition same_conn (h old : hdr) : bool :=
  (ip_src (h_ip h) =? ip_src (h_ip old)) && (ip_dst (h_ip h) =? ip_dst (h_ip old)) &&
  (th_ports (h_th h) =? th_ports (h_th old)).

(** The [do] loop: [lcs], [cs] and whether [cs] matched, and the number of
    searches counted. *)
Fixpoint search (fuel : nat) (h : hdr) (lastcs cs : nat) (c : slcompress)
  : rd (nat * nat * bool * slcompress) :=
  match fuel with
  | O => RdFuel
  | S fuel =>
      let lcs := cs in
      let cs := cs_next (cs_at c cs) in
      let c := incr sls_searches c in
      if same_conn h (cs_hdr (cs_at c cs)) then Rd (lcs, cs, true, c)
      else if decide (cs = lastcs) then Rd (lcs, cs, false, c)
      else search fuel h lastcs cs c
  end.

(** The connection of the headers [h]: found where it was, found and moved
    to the front, or ([false]) the oldest one to be used again. *)
Definition find_conn (h : hdr) (c : slcompress) : rd (nat * bool * slcompress) :=
  let cs := cs_next (cs_at c (last_cs c)) in
  if same_conn h (cs_hdr (cs_at c cs)) then Rd (cs, true, c)
  else
    let lastcs := last_cs c in
    let! '(lcs, cs, found, c) := search (S MAX_STATES) h lastcs cs c in
    if found then
      if decide (cs = lastcs) then Rd (cs, true, set_last_cs lcs c)
      else
        let c := set_next lcs (cs_next (cs_at c cs)) c in
        let c := set_next cs (cs_next (cs_at c lastcs)) c in
        Rd (cs, true, set_next lastcs cs c)
    else Rd (cs, false, set_last_cs lcs (incr sls_misses c)).

(** The fields that must not differ. *)
Definition same_fixed (h old : hdr) : bool :=
  let i := h_ip h in let oi := h_ip old in
  let t := h_th h in let ot := h_th old in
  (u_short_at i 0 =? u_short_at oi 0) && (u_short_at i 3 =? u_short_at oi 3) &&
  (u_short_at i 4 =? u_short_at oi 4) && (th_off t =? th_off ot) &&
  negb ((5 <? ip_hl i) &&
        negb (bool_decide (ztake (4 * (ip_hl i - 5)) (ip_opts i) =
                           ztake (4 * (ip_hl i - 5)) (ip_opts oi)))) &&
  negb ((5 <? th_off t) &&
        negb (bool_decide (ztake (4 * (th_off t - 5)) (th_opts t) =
                           ztake (4 * (th_off t - 5)) (th_opts ot)))).

(** The special cases of the [switch]; [None] is [goto uncompressed]. *)
Definition special (h old : hdr) (changes : Z) (new_seq : bytes) (deltaS deltaA : Z)
  : option (Z * bytes) :=
  let last_len := u32 (ip_len (h_ip old) - hdr_len h) in
  if changes =? 0 then
    if negb (ip_len (h_ip h) =? ip_len (h_ip old)) && (ip_len (h_ip old) =? hdr_len h)
    then Some (changes, new_seq) else None
  else if changes =? Z.lor NEW_S (Z.lor NEW_W NEW_U) then None
  else if changes =? Z.lor NEW_S (Z.lor NEW_A (Z.lor NEW_W NEW_U)) then None
  else if changes =? Z.lor NEW_S NEW_A then
    if (deltaS =? deltaA) && (deltaS =? last_len)
    then Some (Z.lor NEW_S (Z.lor NEW_W NEW_U), []) else Some (changes, new_seq)
  else if changes =? NEW_S then
    if deltaS =? last_len
    then Some (Z.lor NEW_S (Z.lor NEW_A (Z.lor NEW_W NEW_U)), []) else Some (changes, new_seq)
  else Some (changes, new_seq).

(** [if (delta) { ENCODE(delta); changes |= bit; }] *)
Definition encode_delta (delta bit : Z) (r : Z * bytes) : Z * bytes :=
  if delta =? 0 then r else (Z.lor r.1 bit, r.2 ++ ENCODE delta).

(** The change mask and the bytes of [new_seq]; [None] is [goto
    uncompressed]. *)
Definition encode_changes (h old : hdr) : option (Z * bytes) :=
  let t := h_th h in let ot := h_th old in
  match (if negb (Z.land (th_flags t) TH_URG =? 0) then Some (NEW_U, ENCODEZ (th_urp t))
         else if negb (th_urp t =? th_urp ot) then None else Some (0, [])) with
  | None => None
  | Some r =>
      let r := encode_delta (u16 (th_win t - th_win ot)) NEW_W r in
      let deltaA := u32 (th_ack t - th_ack ot) in
      if 65535 <? deltaA then None
      else
        let r := encode_delta deltaA NEW_A r in
        let deltaS := u32 (th_seq t - th_seq ot) in
        if 65535 <? deltaS then None
        else
          let r := encode_delta deltaS NEW_S r in
          match special h old r.1 r.2 deltaS deltaA with
          | None => None
          | Some (changes, new_seq) =>
              let delta := u32 (ip_id (h_ip h) - ip_id (h_ip old)) in
              let '(changes, new_seq) :=
                if delta =? 1 then (changes, new_seq)
                else (Z.lor changes NEW_I, new_seq ++ ENCODEZ delta) in
              let changes :=
                if negb (Z.land (th_flags t) TH_PUSH =? 0) then Z.lor changes TCP_PUSH_BIT
                else changes in
              Some (changes, new_seq)
          end
  end.

(** [uncompressed:] *)
Definition send_uncompressed (p : packet) (cs : nat) (c : slcompress) : frame * slcompress :=
  let c := set_hdr cs (p_hdr p) c in
  let id := cs_id (cs_at c cs) in
  (TYPE_UNCOMPRESSED_TCP (MkPacket (set_ip_p id (p_hdr p)) (p_data p)), set_last_xmit id c).

Definition send_compressed (p : packet) (cs : nat) (changes : Z) (new_seq : bytes)
    (compress_cid : bool) (c : slcompress) : frame * slcompress :=
  let deltaA := th_sum (h_th (p_hdr p)) in
  let c := set_hdr cs (p_hdr p) c in
  let id := cs_id (cs_at c cs) in
  let rest := [u8 (Z.shiftr deltaA 8); u8 deltaA] ++ new_seq ++ p_data p in
  let '(b, c) :=
    if negb compress_cid || negb (last_xmit c =? id)
    then ([u8 (Z.lor changes NEW_C); id] ++ rest, set_last_xmit id c)
    else (u8 changes :: rest, c) in
  (TYPE_COMPRESSED_TCP b, incr sls_compressed c).

Definition sl_compress_tcp (m_len : Z) (p : packet) (compress_cid : bool) (c : slcompress)
  : rd (frame * slcompress) :=
  let h := p_hdr p in
  if negb (Z.land (ip_off (h_ip h)) 16383 =? 0) || (m_len <? 40) then Rd (TYPE_IP p, c)
  else if negb (Z.land (th_flags (h_th h)) (Z.lor TH_SYN (Z.lor TH_FIN (Z.lor TH_RST TH_ACK)))
                =? TH_ACK) then Rd (TYPE_IP p, c)
  else
    let c := incr sls_packets c in
    let! '(cs, found, c) := find_conn h c in
    let old := cs_hdr (cs_at c cs) in
    Rd (if found && same_fixed h old then
          match encode_changes h old with
          | Some (changes, new_seq) => send_compressed p cs changes new_seq compress_cid c
          | None => send_uncompressed p cs c
          end
        else send_uncompressed p cs c).

(** *** The receiver *)

(** [bad:] *)
Definition bad (c : slcompress) : option packet * slcompress :=
  (None, incr sls_errorin (set_toss true c)).

(** The sum of the words of the header, folded twice, complemented. *)
Definition ip_checksum (i : ip) : Z :=
  let changes := u32 (word_sum little_endian (ztake (4 * ip_hl i) (ip_bytes i))) in
  let changes := Z.land changes 65535 + Z.shiftr changes 16 in
  let changes := Z.land changes 65535 + Z.shiftr changes 16 in
  u16 (Z.lnot changes).

Definition sl_uncompress_uncompressed (p : packet) (c : slcompress) : option packet * slcompress :=
  let id := ip_p (h_ip (p_hdr p)) in
  if Z.of_nat MAX_STATES <=? id then bad c
  else
    let c := set_toss false (set_last_recv id c) in
    let h := set_ip_p IPPROTO_TCP (p_hdr p) in
    let cs := MkRcs (hdr_len h) (set_ip_sum 0 h) in
    let c := set_rstate (<[Z.to_nat id := Some cs]> (rstate c)) c in
    (Some (MkPacket h (p_data p)), incr sls_uncompressedin c).

(** [if (changes & bit) DECODEx(field)] *)
Definition decode_field (changes bit : Z) (dec : Z → bytes → rd (Z * bytes)) (get : hdr → Z)
    (set : Z → hdr → hdr) (r : hdr * bytes) : rd (hdr * bytes) :=
  if Z.land changes bit =? 0 then Rd r
  else let! '(v, cp) := dec (get r.1) r.2 in Rd (set v r.1, cp).

(** The [switch] on the special cases and the sequence numbers. *)
Definition decode_specials (changes hlen : Z) (h : hdr) (cp : bytes) : rd (hdr * bytes) :=
  let i := u32 (ip_len (h_ip h) - hlen) in
  let SPECIAL_I := Z.lor NEW_S (Z.lor NEW_W NEW_U) in
  let SPECIAL_D := Z.lor NEW_S (Z.lor NEW_A (Z.lor NEW_W NEW_U)) in
  let specials := Z.land changes SPECIAL_D in
  if specials =? SPECIAL_I then
    Rd (set_seq (u32 (th_seq (h_th h) + i)) (set_ack (u32 (th_ack (h_th h) + i)) h), cp)
  else if specials =? SPECIAL_D then
    Rd (set_seq (u32 (th_seq (h_th h) + i)) h, cp)
  else
    let! '(h, cp) :=
      if Z.land changes NEW_U =? 0 then Rd (put_flag TH_URG false h, cp)
      else
        let h := put_flag TH_URG true h in
        let! '(v, cp) := DECODEU (th_urp (h_th h)) cp in Rd (set_urp v h, cp) in
    let! 'r := decode_field changes NEW_W DECODES (λ h, th_win (h_th h)) set_win (h, cp) in
    let! 'r := decode_field changes NEW_A DECODEL (λ h, th_ack (h_th h)) set_ack r in
    decode_field changes NEW_S DECODEL (λ h, th_seq (h_th h)) set_seq r.

(** The checksum, the push flag, the sequence numbers and the identifier. *)
Definition decode_changes (changes hlen : Z) (h : hdr) (cp : bytes) : rd (hdr * bytes) :=
  let! '(s1, cp) := getchar cp in
  let! '(s0, cp) := getchar cp in
  let h := set_sum (Z.lor (Z.shiftl s1 8) s0) h in
  let h := put_flag TH_PUSH (negb (Z.land changes TCP_PUSH_BIT =? 0)) h in
  let! '(h, cp) := decode_specials changes hlen h cp in
  if Z.land changes NEW_I =? 0 then Rd (set_ip_id (u16 (ip_id (h_ip h) + 1)) h, cp)
  else let! '(v, cp) := DECODES (ip_id (h_ip h)) cp in Rd (set_ip_id v h, cp).

(** A compressed packet of connection [last_recv]; the bytes behind the
    [len] bytes of the packet are [slack].  The code does not test that the
    connection has headers: without them it writes through pointers into a
    cleared structure, here a fault. *)
Definition sl_uncompress_rest (changes len : Z) (buf cp : bytes) (c : slcompress)
  : rd (option packet * slcompress) :=
  let k := Z.to_nat (last_recv c) in
  match rstate c !! k with
  | Some (Some cs) =>
      let! '(h, cp) := decode_changes changes (cs_hlen cs) (cs_rhdr cs) cp in
      let len := len - (zlen buf - zlen cp) in
      let c := set_rstate (<[k := Some (MkRcs (cs_hlen cs) h)]> (rstate c)) c in
      if len <? 0 then Rd (bad c)
      else
        let h := set_ip_len (u16 (len + cs_hlen cs)) h in
        let c := set_rstate (<[k := Some (MkRcs (cs_hlen cs) h)]> (rstate c)) c in
        Rd (Some (MkPacket (set_ip_sum (ip_checksum (h_ip h)) h) (ztake len cp)), c)
  | _ => RdFault
  end.

Definition sl_uncompress_compressed (b slack : bytes) (c : slcompress)
  : rd (option packet * slcompress) :=
  let c := incr sls_compressedin c in
  let buf := b ++ slack in
  let! '(changes, cp) := getchar buf in
  if Z.land changes NEW_C =? 0 then
    if SLF_TOSS c then Rd (None, incr sls_tossed c)
    else sl_uncompress_rest changes (zlen b) buf cp c
  else
    let! '(id, cp') := getchar cp in
    if Z.of_nat MAX_STATES <=? id then Rd (bad c)
    else sl_uncompress_rest changes (zlen b) buf cp' (set_last_recv id (set_toss false c)).

(** The packet is the buffer that [*bufp] designates when the result is not
    0. *)
Definition sl_uncompress_tcp (f : frame) (slack : bytes) (c : slcompress)
  : rd (option packet * slcompress) :=
  match f with
  | TYPE_UNCOMPRESSED_TCP p => Rd (sl_uncompress_uncompressed p c)
  | TYPE_COMPRESSED_TCP b => sl_uncompress_compressed b slack c
  | TYPE_IP _ => Rd (bad c)
  end.

(** ** The list of connections *)

Section Ring.
Context `{!SlDefsLaws}.

Implicit Types (c d : slcompress) (l a b : list nat) (k x y : nat).

Definition nx c k : nat := cs_next (cs_at c k).

Lemma last_indep {A} (p : A) pre (a b : A) : List.last (p :: pre) a = List.last (p :: pre) b.
Proof. revert p. induction pre as [|q pre IH]; intros p; [done|]. apply (IH q). Qed.

Fixpoint path (f : nat → nat) l : Prop :=
  match l with x :: ((y :: _) as r) => f x = y ∧ path f r | _ => True end.

Lemma path_app f l x b : path f (l ++ x :: b) ↔ path f (l ++ [x]) ∧ path f (x :: b).
Proof.
  induction l as [|y l IH]; [simpl; tauto|].
  destruct l as [|z l]; simpl in *; [tauto|]. rewrite IH. tauto.
Qed.

Lemma path_ext f g l y : (∀ z, z ∈ l → f z = g z) → path f (l ++ [y]) → path g (l ++ [y]).
Proof.
  induction l as [|x l IH]; [done|]. intros Hfg.
  destruct l as [|z l]; simpl; intros [Hx Hp]; (split; [rewrite <- Hfg; [done|set_solver]|]).
  - done.
  - apply IH; [set_solver|done].
Qed.

(** The connections [l], the most recently used first, linked into a circle
    that ends at [last_cs]. *)
Record ring c l : Prop := {
  ring_path : ∀ x r, l = x :: r → path (nx c) (x :: r ++ [x]);
  ring_last : list.last l = Some (last_cs c);
  ring_perm : l ≡ₚ seq 0 MAX_STATES;
  ring_len : length (tstate c) = MAX_STATES;
  ring_ids : ∀ k, (k < MAX_STATES)%nat → cs_id (cs_at c k) = Z.of_nat k
}.

(** Nothing but the order of the connections and statistics differ. *)
Record same_but_order c c' : Prop := {
  so_hdr : ∀ k, cs_hdr (cs_at c' k) = cs_hdr (cs_at c k);
  so_id : ∀ k, cs_id (cs_at c' k) = cs_id (cs_at c k);
  so_len : length (tstate c') = length (tstate c);
  so_recv : last_recv c' = last_recv c;
  so_xmit : last_xmit c' = last_xmit c;
  so_toss : SLF_TOSS c' = SLF_TOSS c;
  so_rstate : rstate c' = rstate c
}.

#[export] Instance same_but_order_trans : Transitive same_but_order.
Proof. intros a b c [] []. constructor; intros; congruence. Qed.

Lemma same_refl c : same_but_order c c.
Proof. by constructor. Qed.
Lemma same_last_cs k c : same_but_order c (set_last_cs k c).
Proof. by constructor. Qed.
Lemma same_incr n c : same_but_order c (incr n c).
Proof. by constructor. Qed.

Lemma cs_at_alter f k x c : (k < length (tstate c))%nat →
  cs_at (set_tstate (alter f k (tstate c)) c) x = if decide (k = x) then f (cs_at c x) else cs_at c x.
Proof.
  intros Hk. unfold cs_at. simpl. rewrite !list_lookup_total_alt. rewrite list_lookup_alter.
  case_decide as Hx; [|done]. subst x. by destruct (lookup_lt_is_Some_2 _ _ Hk) as [t ->].
Qed.

Lemma same_set_next k n c : (k < length (tstate c))%nat → same_but_order c (set_next k n c).
Proof.
  intros Hk. constructor; try done; unfold set_next.
  1,2: intros x; rewrite cs_at_alter by done; by case_decide.
  simpl. apply length_alter.
Qed.

Lemma nx_set_next k n c x : (k < length (tstate c))%nat →
  nx (set_next k n c) x = if decide (k = x) then n else nx c x.
Proof.
  intros Hk. unfold nx, set_next. rewrite cs_at_alter by done. by case_decide.
Qed.

Lemma ring_lt c l k : ring c l → k ∈ l → (k < MAX_STATES)%nat.
Proof. intros Hr. rewrite (ring_perm _ _ Hr), elem_of_seq. lia. Qed.

Lemma ring_NoDup c l : ring c l → NoDup l.
Proof. intros Hr. rewrite (ring_perm _ _ Hr). apply NoDup_seq. Qed.

Lemma ring_cons c l : ring c l → ∃ x y r, l = x :: y :: r.
Proof.
  intros Hr. pose proof (Permutation_length (ring_perm _ _ Hr)) as Hl.
  rewrite length_seq in Hl. pose proof MAX_STATES_range.
  destruct l as [|x [|y r]]; simpl in Hl; [lia|lia|eauto].
Qed.

(** A ring whose next pointers are those of [c] up to order. *)
Lemma ring_intro c c' l x r : ring c l → same_but_order c c' →
  x :: r ≡ₚ l → path (nx c') (x :: r ++ [x]) → list.last (x :: r) = Some (last_cs c') →
  ring c' (x :: r).
Proof.
  intros Hr Hs Hp Hpath Hlast. constructor.
  - by intros ? ? [= <- <-].
  - done.
  - by rewrite Hp, (ring_perm _ _ Hr).
  - rewrite (so_len _ _ Hs). apply (ring_len _ _ Hr).
  - intros k Hk. rewrite (so_id _ _ Hs). by apply (ring_ids _ _ Hr).
Qed.

(** *** The loop *)

Definition matches h c k : bool := same_conn h (cs_hdr (cs_at c k)).

Lemma search_spec h lastcs : ∀ post fuel cs c, (length post < fuel)%nat →
  post ≠ [] → path (nx c) (cs :: post) → NoDup post → list.last post = Some lastcs →
  ∃ pre y rest found c', post = pre ++ y :: rest ∧
    search fuel h lastcs cs c = Rd (List.last pre cs, y, found, c') ∧
    Forall (λ k, matches h c k = false) pre ∧ matches h c y = found ∧
    (found = false → rest = []) ∧
    same_but_order c c' ∧ (∀ k, nx c' k = nx c k) ∧ last_cs c' = last_cs c.
Proof.
  induction post as [|y post IH]; intros fuel cs c Hf Hne Hp Hnd Hl; [done|].
  destruct fuel as [|fuel]; [simpl in Hf; lia|]. cbn [search].
  destruct Hp as [Hy Hp]. unfold nx in Hy. change (cs_next (cs_at (incr sls_searches c) cs))
    with (cs_next (cs_at c cs)). rewrite Hy.
  change (cs_at (incr sls_searches c) y) with (cs_at c y).
  destruct (same_conn h (cs_hdr (cs_at c y))) eqn:Hm.
  { exists [], y, post, true, (incr sls_searches c). split_and!; done. }
  apply list.NoDup_cons in Hnd as [Hny Hnd].
  destruct post as [|z post].
  { injection Hl as <-. rewrite decide_True by done.
    exists [], y, [], false, (incr sls_searches c). split_and!; done. }
  rewrite last_cons_cons in Hl.
  rewrite decide_False by (intros ->; apply Hny; by eapply last_Some_elem_of).
  destruct (IH fuel y (incr sls_searches c)) as (pre & w & rest & found & c' & -> & Hs & Ha & Hw & He & Hso & Hnx & Hlc);
    [simpl in *; lia|done|done|done|done|].
  exists (y :: pre), w, rest, found, c'. split_and!; try done.
  - rewrite Hs. destruct pre as [|p pre]; [done|]. by rewrite (last_indep p pre y cs).
  - by apply list.Forall_cons_2.
  - etrans; [apply same_incr|done].
Qed.

(** *** Moving a connection to the front *)

(** The list after connection [y] has been used. *)
Definition lru_touch y l : list nat := y :: filter (λ k, k ≠ y) l.

(** The connection the specification chooses among [l]: the first that
    matches, or else the one that was used least recently. *)
Definition lru_find h c l : nat * bool :=
  match List.find (matches h c) l with
  | Some y => (y, true)
  | None => (List.last l O, false)
  end.

Lemma filter_ne y a : y ∉ a → filter (λ k, k ≠ y) a = a.
Proof.
  induction a as [|x a IH]; intros Hy; [done|].
  rewrite filter_cons, decide_True by set_solver. f_equal. apply IH. set_solver.
Qed.

Lemma lru_touch_split y a b : NoDup (a ++ y :: b) → lru_touch y (a ++ y :: b) = y :: a ++ b.
Proof.
  intros Hnd. apply list.NoDup_app in Hnd as (_ & Ha & Hb). apply list.NoDup_cons in Hb as [Hb _].
  unfold lru_touch. rewrite list.filter_app, filter_cons, decide_False by (intros Hn; by apply Hn).
  rewrite !filter_ne; [done|done|]. intros Hy. apply (Ha y Hy). by left.
Qed.

Lemma last_cons_last x a : ∃ b, x :: a = b ++ [List.last a x].
Proof.
  revert x. induction a as [|y a IH]; intros x; [by exists []|].
  destruct (IH y) as [b Hb]. exists (x :: b). rewrite Hb at 1. simpl.
  do 2 f_equal. f_equal. destruct a as [|z a]; [done|]. by rewrite (last_indep z a x y).
Qed.

Lemma list_last_snoc {A} (a : list A) (y : A) : list.last (a ++ [y]) = Some y.
Proof. apply last_snoc. Qed.

(** The last connection becomes the first: only [last_cs] moves. *)
Lemma rotate_ring c c' x pre y : ring c (x :: pre ++ [y]) → same_but_order c c' →
  (∀ k, nx c' k = nx c k) → last_cs c' = List.last pre x →
  ring c' (y :: x :: pre).
Proof.
  intros Hr Hs Hnx Hl.
  assert (Hp : path (nx c') ((x :: pre ++ [y]) ++ [x])).
  { eapply path_ext; [intros z _; symmetry; apply Hnx|]. by apply (ring_path _ _ Hr). }
  eapply ring_intro; [exact Hr|exact Hs| | |].
  - by rewrite (Permutation_cons_append (x :: pre)).
  - change (path (nx c') (((x :: pre) ++ [y]) ++ [x])) in Hp. rewrite <- app_assoc in Hp.
    change (path (nx c') ((x :: pre) ++ y :: [x])) in Hp.
    apply path_app in Hp as [Hp1 [Hp2 _]].
    change (path (nx c') (y :: (x :: pre) ++ [y])). split; [exact Hp2|exact Hp1].
  - destruct (last_cons_last x pre) as [b Hb]. rewrite Hb, Hl.
    change (y :: b ++ [List.last pre x]) with ((y :: b) ++ [List.last pre x]). apply list_last_snoc.
Qed.

(** A connection in the middle is taken out and put before the first. *)
Lemma move_ring c x pre y z rest : ring c (x :: pre ++ y :: z :: rest) →
  let c1 := set_next (List.last pre x) (cs_next (cs_at c y)) c in
  let c2 := set_next y (cs_next (cs_at c1 (last_cs c))) c1 in
  let c3 := set_next (last_cs c) y c2 in
  ring c3 (y :: x :: pre ++ z :: rest) ∧ same_but_order c c3.
Proof.
  intros Hr c1 c2 c3. set (p := List.last pre x) in *. set (e := last_cs c) in *.
  pose proof (ring_NoDup _ _ Hr) as Hnd. pose proof (ring_len _ _ Hr) as Hlen.
  destruct (last_cons_last x pre) as [a Ha]. fold p in Ha.
  pose proof (ring_last _ _ Hr) as Hlast. fold e in Hlast.
  destruct (last_cons_last z rest) as [b Hb].
  assert (He : e = List.last rest z).
  { rewrite !app_comm_cons, Hb, !app_comm_cons, app_assoc, list_last_snoc in Hlast. by injection Hlast. }
  rewrite <- He in Hb.
  assert (Hl : x :: pre ++ y :: z :: rest = a ++ p :: y :: b ++ [e]).
  { rewrite app_comm_cons, Ha, Hb, <- app_assoc. done. }
  assert (Hlt : ∀ k, k ∈ a ++ p :: y :: b ++ [e] → (k < length (tstate c))%nat).
  { intros k Hk. rewrite Hlen. eapply ring_lt; [exact Hr|]. by rewrite Hl. }
  rewrite Hl in Hnd.
  assert (Hpl : (p < length (tstate c))%nat) by (apply Hlt; set_solver).
  assert (Hyl : (y < length (tstate c1))%nat).
  { unfold c1. rewrite (so_len _ _ (same_set_next _ _ _ Hpl)). apply Hlt. set_solver. }
  assert (Hs1 : same_but_order c c1) by (by apply same_set_next).
  assert (Hs2 : same_but_order c1 c2) by (by apply same_set_next).
  assert (Hel : (e < length (tstate c2))%nat).
  { rewrite (so_len _ _ Hs2), (so_len _ _ Hs1). apply Hlt. set_solver. }
  assert (Hs3 : same_but_order c2 c3) by (by apply same_set_next).
  assert (Hs : same_but_order c c3) by (etrans; [|exact Hs3]; etrans; done).
  split; [|exact Hs].
  assert (Hnx : ∀ k, nx c3 k = if decide (e = k) then y else if decide (y = k) then nx c1 e
            else if decide (p = k) then nx c y else nx c k).
  { intros k. unfold c3. rewrite nx_set_next by done. case_decide; [done|].
    unfold c2. rewrite nx_set_next by done. case_decide; [done|].
    unfold c1. rewrite nx_set_next by done. done. }
  apply list.NoDup_app in Hnd as (Hnda & Hdis & Hnd).
  apply list.NoDup_cons in Hnd as [Hp1 Hnd]. apply list.NoDup_cons in Hnd as [Hy1 Hnd].
  apply list.NoDup_app in Hnd as (Hndb & Hdisb & _).
  assert (Hpe : p ≠ e) by (intros ->; set_solver).
  assert (Hye : y ≠ e) by (intros ->; set_solver).
  assert (Hpath : path (nx c) (a ++ p :: y :: b ++ [e; x])).
  { pose proof (ring_path _ _ Hr _ _ eq_refl) as Hp.
    change (path (nx c) ((x :: pre ++ y :: z :: rest) ++ [x])) in Hp.
    rewrite Hl, <- app_assoc in Hp. cbn [app] in Hp. by rewrite <- app_assoc in Hp. }
  apply path_app in Hpath as [Hpa [Hpy Hpath]].
  change (path (nx c) ((y :: b) ++ e :: [x])) in Hpath. apply path_app in Hpath as [Hpb [Hex _]].
  eapply ring_intro; [exact Hr|exact Hs| | |].
  - rewrite !app_comm_cons. by rewrite (Permutation_middle (x :: pre) (z :: rest) y).
  - change (path (nx c3) (y :: x :: (pre ++ z :: rest) ++ [y])). split.
    { rewrite Hnx, decide_False, decide_True by congruence.
      unfold c1. rewrite nx_set_next, decide_False by done. exact Hex. }
    change (path (nx c3) (((x :: pre) ++ z :: rest) ++ [y])).
    rewrite Ha, Hb, <- !app_assoc. simpl. apply path_app. split.
    { eapply path_ext; [|exact Hpa]. intros k Hk. rewrite Hnx.
      rewrite !decide_False; [done|intros ->; set_solver..]. }
    assert (Hb' : b ++ [e; y] = z :: rest ++ [y]).
    { rewrite app_comm_cons, Hb, <- app_assoc. done. }
    rewrite Hb'. split.
    { rewrite Hnx, decide_False, decide_False, decide_True by (try done; intros ->; set_solver).
      change (path (nx c) (y :: (b ++ [e]))) in Hpb. rewrite <- Hb in Hpb. apply Hpb. }
    rewrite <- Hb'. apply path_app. split.
    { destruct b as [|w b]; [done|]. eapply path_ext; [|apply Hpb].
      intros k Hk. rewrite Hnx. rewrite !decide_False; [done|intros ->; set_solver..]. }
    split; [|done]. rewrite Hnx. by apply decide_True.
  - rewrite !app_comm_cons, Hb, app_assoc, list_last_snoc. done.
Qed.

Lemma find_split h c pre y rest : Forall (λ k, matches h c k = false) pre →
  List.find (matches h c) (pre ++ y :: rest) =
    if matches h c y then Some y else List.find (matches h c) rest.
Proof. induction 1 as [|x pre Hx _ IH]; [done|]. simpl. by rewrite Hx. Qed.

Lemma list_last_default (a : list nat) y k : List.last (a ++ [y]) k = y.
Proof. induction a as [|x a IH]; [done|]. by destruct a. Qed.

Lemma ring_same c c' l : ring c l → same_but_order c c' → (∀ k, nx c' k = nx c k) →
  last_cs c' = last_cs c → ring c' l.
Proof.
  intros Hr Hs Hnx Hl. destruct (ring_cons _ _ Hr) as (x & y & r & ->).
  eapply ring_intro; [exact Hr|exact Hs|done| |by rewrite Hl; apply (ring_last _ _ Hr)].
  change (path (nx c') ((x :: y :: r) ++ [x])).
  eapply path_ext; [intros; symmetry; apply Hnx|]. by apply (ring_path _ _ Hr).
Qed.

Lemma find_conn_spec h c l : ring c l →
  let '(y, found) := lru_find h c l in
  ∃ c', find_conn h c = Rd (y, found, c') ∧ y ∈ l ∧
    ring c' (lru_touch y l) ∧ same_but_order c c'.
Proof.
  intros Hr. destruct (ring_cons _ _ Hr) as (x & x' & r' & ->).
  assert (x' :: r' ≠ []) as Hne by done. revert Hr Hne. generalize (x' :: r') as r. clear x' r'.
  intros r Hr Hne.
  pose proof (ring_NoDup _ _ Hr) as Hnd. pose proof (ring_last _ _ Hr) as Hlast.
  assert (Hx : cs_next (cs_at c (last_cs c)) = x).
  { destruct (last_cons_last x (r)) as [a Ha]. pose proof (ring_path _ _ Hr _ _ eq_refl) as Hp.
    rewrite Ha, list_last_snoc in Hlast. injection Hlast as Hlast.
    change (path (nx c) ((x :: r) ++ [x])) in Hp.
    rewrite Ha, <- app_assoc in Hp. apply path_app in Hp as [_ [Hp _]].
    rewrite Hlast in Hp. exact Hp. }
  unfold find_conn, lru_find. rewrite Hx. cbn [List.find].
  change (same_conn h (cs_hdr (cs_at c x))) with (matches h c x).
  destruct (matches h c x) eqn:Hm.
  { exists c. split_and!; [done|set_solver| |apply same_refl].
    change (x :: r) with ([] ++ x :: r). by rewrite lru_touch_split. }
  destruct (search_spec h (last_cs c) (r) (S MAX_STATES) x c)
    as (pre & y & rest & found & c' & Hpost & -> & Hpre & Hy & Hrest & Hs & Hnx & Hl).
  - pose proof (Permutation_length (ring_perm _ _ Hr)) as Hlen. rewrite length_seq in Hlen.
    simpl in *. lia.
  - done.
  - pose proof (ring_path _ _ Hr _ _ eq_refl) as Hp.
    change (path (nx c) ((x :: r) ++ [x])) in Hp.
    destruct (last_cons_last x (r)) as [a Ha]. rewrite Ha, <- app_assoc in Hp.
    apply path_app in Hp as [Hp _]. by rewrite Ha.
  - by apply list.NoDup_cons in Hnd as [_ Hnd].
  - by destruct r.
  - assert (Hr' : ring c (x :: pre ++ y :: rest)) by (by rewrite <- Hpost).
    rewrite Hpost in *. rewrite find_split by done. destruct found; rewrite Hy.
    + cbn [rd_bind]. destruct rest as [|z rest].
      * assert (y = last_cs c) as ->.
        { rewrite app_comm_cons, list_last_snoc in Hlast. by injection Hlast. }
        rewrite decide_True by done. eexists. split_and!; [done|set_solver| |].
        -- rewrite app_comm_cons, lru_touch_split, app_nil_r by (by rewrite <- app_comm_cons).
           apply (rotate_ring c _ x pre); [exact Hr'| |exact Hnx|done].
           etrans; [exact Hs|apply same_last_cs].
        -- etrans; [exact Hs|apply same_last_cs].
      * assert (y ≠ last_cs c) as Hyl.
        { intros ->. rewrite app_comm_cons, last_app_cons, last_cons_cons in Hlast.
          apply last_Some_elem_of in Hlast.
          rewrite app_comm_cons in Hnd. apply list.NoDup_app in Hnd as (_ & _ & Hnd).
          apply list.NoDup_cons in Hnd as [Hnd _]. done. }
        rewrite decide_False by done. rewrite <- Hl.
        destruct (move_ring c' x pre y z rest) as [Hr3 Hs3].
        { eapply ring_same; [exact Hr'|exact Hs|exact Hnx|exact Hl]. }
        eexists. split_and!; [done|set_solver| |etrans; done].
        rewrite app_comm_cons, lru_touch_split by (by rewrite <- app_comm_cons). done.
    + rewrite (Hrest eq_refl) in *. cbn [List.find rd_bind].
      rewrite app_comm_cons, (list_last_default (x :: pre) y), <- app_comm_cons. eexists. split_and!; [done|set_solver| |].
      * rewrite app_comm_cons, lru_touch_split, app_nil_r by (by rewrite <- app_comm_cons).
        apply (rotate_ring c _ x pre); [exact Hr'| |exact Hnx|done].
        etrans; [exact Hs|]. etrans; [apply same_incr|apply same_last_cs].
      * etrans; [exact Hs|]. etrans; [apply same_incr|apply same_last_cs].
Qed.

(** C34: the connection [find_conn] returns is the first in order of use
    whose addresses and ports match, or else the one used least recently;
    it becomes the most recently used one, and nothing else changes. *)
Theorem find_conn_lru h c l : ring c l →
  let '(y, found) := lru_find h c l in
  ∃ c', find_conn h c = Rd (y, found, c') ∧ y ∈ l ∧
    ring c' (lru_touch y l) ∧ same_but_order c c'.
Proof. apply find_conn_spec. Qed.
End Ring.

(** ** Encoding and decoding the differences *)

Section Delta.
Context `{!SlDefsLaws}.

Lemma bit_C : NEW_C = 64. Proof. by injection sl_bits. Qed.
Lemma bit_I : NEW_I = 32. Proof. by injection sl_bits. Qed.
Lemma bit_P : TCP_PUSH_BIT = 16. Proof. by injection sl_bits. Qed.
Lemma bit_S : NEW_S = 8. Proof. by injection sl_bits. Qed.
Lemma bit_A : NEW_A = 4. Proof. by injection sl_bits. Qed.
Lemma bit_W : NEW_W = 2. Proof. by injection sl_bits. Qed.
Lemma bit_U : NEW_U = 1. Proof. by injection sl_bits. Qed.
Lemma th_P : TH_PUSH = 8. Proof. by injection th_bits. Qed.
Lemma th_A : TH_ACK = 16. Proof. by injection th_bits. Qed.
Lemma th_U : TH_URG = 32. Proof. by injection th_bits. Qed.

(** The change mask with the given bits. *)
Definition mask (u w a s p i c : bool) : Z :=
  Z.b2z u + 2 * Z.b2z w + 4 * Z.b2z a + 8 * Z.b2z s + 16 * Z.b2z p + 32 * Z.b2z i + 64 * Z.b2z c.

Definition tcp_flags (push urg : bool) : Z := 16 + 8 * Z.b2z push + 32 * Z.b2z urg.

Lemma u16_delta x y : 0 <= x < 65536 → u16 (y + u16 (x - y)) = x.
Proof. intros Hx. unfold u16. rewrite Zplus_mod_idemp_r, Zplus_minus. by apply Z.mod_small. Qed.
Lemma u32_delta x y : 0 <= x < 4294967296 → u32 (y + u32 (x - y)) = x.
Proof. intros Hx. unfold u32. rewrite Zplus_mod_idemp_r, Zplus_minus. by apply Z.mod_small. Qed.
Lemma u16_delta32 x y : 0 <= x < 65536 → u16 (y + u32 (x - y)) = x.
Proof.
  intros Hx. unfold u16, u32. rewrite <- (Z.mod_small x 65536) at 2 by done.
  rewrite <- Zplus_mod_idemp_r, Z.mod_mod_divide by (by exists 65536).
  by rewrite Zplus_mod_idemp_r, Zplus_minus.
Qed.

Lemma u16_delta_0 x y : 0 <= x < 65536 → 0 <= y < 65536 → u16 (x - y) = 0 → x = y.
Proof. intros Hx Hy Hd. rewrite <- (u16_delta x y), Hd, Z.add_0_r, u16_id by done. done. Qed.
Lemma u32_delta_0 x y : 0 <= x < 4294967296 → 0 <= y < 4294967296 → u32 (x - y) = 0 → x = y.
Proof. intros Hx Hy Hd. rewrite <- (u32_delta x y), Hd, Z.add_0_r, u32_id by done. done. Qed.

(** *** Headers the compressor has sent *)

Definition ip_ok (i : ip) : Prop :=
  0 <= ip_v i < 16 ∧ 5 <= ip_hl i < 16 ∧ is_byte (ip_tos i) ∧ 0 <= ip_len i < 65536 ∧
  0 <= ip_id i < 65536 ∧ 0 <= ip_off i < 65536 ∧ is_byte (ip_ttl i) ∧ is_byte (ip_p i) ∧
  0 <= ip_src i < 4294967296 ∧ 0 <= ip_dst i < 4294967296 ∧
  zlen (ip_opts i) = 4 * (ip_hl i - 5) ∧ Bytes (ip_opts i).

Definition th_ok (t : tcphdr) : Prop :=
  0 <= th_seq t < 4294967296 ∧ 0 <= th_ack t < 4294967296 ∧ 5 <= th_off t < 16 ∧ th_x2 t = 0 ∧
  0 <= th_win t < 65536 ∧ 0 <= th_sum t < 65536 ∧ 0 <= th_urp t < 65536 ∧
  zlen (th_opts t) = 4 * (th_off t - 5).

(** The urgent pointer is used exactly when the flag is set, and the flags
    are those of a segment that can be compressed. *)
Definition conn_ok (h : hdr) : Prop :=
  ip_ok (h_ip h) ∧ th_ok (h_th h) ∧ ip_p (h_ip h) = IPPROTO_TCP ∧
  ∃ push urg, th_flags (h_th h) = tcp_flags push urg ∧ (urg = true ↔ th_urp (h_th h) ≠ 0).

Lemma ushort_inj le a b a' b' : is_byte a → is_byte b → is_byte a' → is_byte b' →
  ushort le a b = ushort le a' b' → a = a' ∧ b = b'.
Proof. unfold is_byte, ushort. destruct le; lia. Qed.

Lemma div256_byte v : 0 <= v < 65536 → is_byte (v / 256) ∧ is_byte (v mod 256).
Proof.
  intros Hv. split; [|apply u8_range]. unfold is_byte.
  split; [apply Z.div_pos; lia|apply Z.div_lt_upper_bound; lia].
Qed.

Lemma be16_inj v v' : v / 256 = v' / 256 → v mod 256 = v' mod 256 → v = v'.
Proof. intros. rewrite (Z.div_mod v 256), (Z.div_mod v' 256) by done. congruence. Qed.

Lemma u_short_fields i j : ip_ok i → ip_ok j →
  u_short_at i 0 = u_short_at j 0 →
  u_short_at i 3 = u_short_at j 3 →
  u_short_at i 4 = u_short_at j 4 →
  ip_v i = ip_v j ∧ ip_hl i = ip_hl j ∧ ip_tos i = ip_tos j ∧ ip_off i = ip_off j ∧
  ip_ttl i = ip_ttl j ∧ ip_p i = ip_p j.
Proof.
  intros (Hv & Hhl & Htos & _ & _ & Hoff & Httl & Hp & _) (Hv' & Hhl' & Htos' & _ & _ & Hoff' & Httl' & Hp' & _).
  unfold u_short_at. simpl. intros E0 E3 E4.
  apply ushort_inj in E0 as [E0 ?]; [|unfold is_byte; lia|done|unfold is_byte; lia|done].
  apply ushort_inj in E3 as [? ?]; [|by apply div256_byte..].
  apply ushort_inj in E4 as [? ?]; [|done..].
  split_and!; [lia|lia|done|by apply be16_inj|done|done].
Qed.

Lemma u_short_zero_ip i : ip_ok i →
  u_short_at i 0 ≠ u_short_at zero_ip 0.
Proof.
  intros (Hv & Hhl & Htos & _) E0. unfold u_short_at in E0. simpl in E0.
  unfold is_byte, ushort in *. destruct little_endian; lia.
Qed.

(** What [same_fixed] compares. *)
Record same_rest (h old : hdr) : Prop := {
  sr_v : ip_v (h_ip h) = ip_v (h_ip old);
  sr_hl : ip_hl (h_ip h) = ip_hl (h_ip old);
  sr_tos : ip_tos (h_ip h) = ip_tos (h_ip old);
  sr_off : ip_off (h_ip h) = ip_off (h_ip old);
  sr_ttl : ip_ttl (h_ip h) = ip_ttl (h_ip old);
  sr_p : ip_p (h_ip h) = ip_p (h_ip old);
  sr_opts : ip_opts (h_ip h) = ip_opts (h_ip old);
  sr_thoff : th_off (h_th h) = th_off (h_th old);
  sr_thopts : th_opts (h_th h) = th_opts (h_th old);
  sr_src : ip_src (h_ip h) = ip_src (h_ip old);
  sr_dst : ip_dst (h_ip h) = ip_dst (h_ip old);
  sr_ports : th_ports (h_th h) = th_ports (h_th old)
}.

Lemma opts_eq n (a b : bytes) : 5 <= n → zlen a = 4 * (n - 5) → zlen b = 4 * (n - 5) →
  negb ((5 <? n) && negb (bool_decide (ztake (4 * (n - 5)) a = ztake (4 * (n - 5)) b))) = true →
  a = b.
Proof.
  intros Hn Ha Hb. rewrite !ztake_all by lia. destruct (Z.ltb_spec 5 n); simpl.
  - rewrite negb_involutive. apply bool_decide_eq_true_1.
  - intros _. destruct a; [|rewrite zlen_cons in Ha; pose proof (zlen_nonneg a); lia].
    destruct b; [done|rewrite zlen_cons in Hb; pose proof (zlen_nonneg b); lia].
Qed.

Lemma same_fixed_spec h old : conn_ok h → old = zero_hdr ∨ conn_ok old →
  same_conn h old = true → same_fixed h old = true →
  conn_ok old ∧ same_rest h old.
Proof.
  intros (Hi & Ht & _) Hold Hc Hf. unfold same_fixed in Hf. rewrite !andb_true_iff in Hf.
  destruct Hf as [[[[[E0 E3] E4] Eo] Eio] Eto]. apply Z.eqb_eq in E0, E3, E4, Eo.
  destruct Hold as [->|Hold]; [by destruct (u_short_zero_ip _ Hi)|].
  split; [done|]. destruct Hold as (Hi' & Ht' & _).
  unfold same_conn in Hc. rewrite !andb_true_iff, !Z.eqb_eq in Hc. destruct Hc as [[Es Ed] Ep].
  destruct (u_short_fields _ _ Hi Hi' E0 E3 E4) as (Ev & Ehl & Etos & Eoff & Ettl & Epr).
  destruct Hi as (_ & ? & _ & _ & _ & _ & _ & _ & _ & _ & Hol & _).
  destruct Hi' as (_ & ? & _ & _ & _ & _ & _ & _ & _ & _ & Hol' & _).
  destruct Ht as (_ & _ & ? & _ & _ & _ & _ & Htl). destruct Ht' as (_ & _ & ? & _ & _ & _ & _ & Htl').
  constructor; try done.
  - apply (opts_eq (ip_hl (h_ip h))); [lia|done|congruence|done].
  - apply (opts_eq (th_off (h_th h))); [lia|done|congruence|done].
Qed.

(** *** The change mask *)

Lemma encode_delta_spec delta bit m (cp : bytes) : encode_delta delta bit (m, cp) =
  (if delta =? 0 then m else Z.lor m bit, cp ++ if delta =? 0 then [] else ENCODE delta).
Proof. unfold encode_delta. destruct (delta =? 0); [by rewrite app_nil_r|done]. Qed.

(** The special case chosen, if any. *)
Inductive special_case := Plain | SpecialI | SpecialD.

Definition special_mask (k : special_case) (u w a s : bool) : Z :=
  match k with Plain => mask u w a s false false false | SpecialI => 11 | SpecialD => 15 end.

Lemma special_spec h old u w a s new_seq deltaS deltaA m' seq' :
  special h old (mask u w a s false false false) new_seq deltaS deltaA = Some (m', seq') →
  ∃ k, m' = special_mask k u w a s ∧
    seq' = match k with Plain => new_seq | _ => [] end ∧
    match k with
    | Plain => Z.land m' 15 ≠ 11 ∧ Z.land m' 15 ≠ 15
    | SpecialI => (u, w, a, s) = (false, false, true, true) ∧ deltaS = deltaA ∧
                  deltaS = u32 (ip_len (h_ip old) - hdr_len h)
    | SpecialD => (u, w, a, s) = (false, false, false, true) ∧
                  deltaS = u32 (ip_len (h_ip old) - hdr_len h)
    end.
Proof.
  unfold special. rewrite bit_S, bit_A, bit_W, bit_U. set (n := u32 _).
  destruct u, w, a, s; cbn -[u32 andb]; intros Hs; try discriminate Hs.
  all: repeat match type of Hs with context [if ?b then _ else _] =>
         let E := fresh "E" in destruct b eqn:E end; try discriminate Hs; injection Hs as <- <-.
  all: try (by exists Plain).
  - exists SpecialI. destruct (Z.eqb_spec deltaS deltaA); [|discriminate].
    destruct (Z.eqb_spec deltaS n); [|discriminate]. by split_and!.
  - exists SpecialD. match goal with E : (deltaS =? n) = true |- _ =>
      apply Z.eqb_eq in E end. by split_and!.
Qed.

(** *** Testing the bits *)

Lemma land_mask k u w a s p i c : let m := special_mask k u w a s + 16 * Z.b2z p + 32 * Z.b2z i + 64 * Z.b2z c in
  Z.land m NEW_C = 64 * Z.b2z c ∧ Z.land m NEW_I = 32 * Z.b2z i ∧
  Z.land m TCP_PUSH_BIT = 16 * Z.b2z p ∧
  Z.land m 15 = special_mask k u w a s ∧ 0 <= m < 128.
Proof.
  rewrite bit_C, bit_I, bit_P. destruct k, u, w, a, s, p, i, c; split_and!; done.
Qed.

Lemma land_plain u w a s p i c :
  let m := special_mask Plain u w a s + 16 * Z.b2z p + 32 * Z.b2z i + 64 * Z.b2z c in
  Z.land m NEW_U = Z.b2z u ∧ Z.land m NEW_W = 2 * Z.b2z w ∧ Z.land m NEW_A = 4 * Z.b2z a ∧
  Z.land m NEW_S = 8 * Z.b2z s.
Proof.
  rewrite bit_U, bit_W, bit_A, bit_S. destruct u, w, a, s, p, i, c; split_and!; done.
Qed.

Lemma lor_mask k u w a s : let sm := special_mask k u w a s in
  Z.lor sm NEW_I = sm + 32 ∧ Z.lor sm TCP_PUSH_BIT = sm + 16 ∧
  Z.lor (sm + 32) TCP_PUSH_BIT = sm + 48 ∧ Z.land sm 15 = sm.
Proof. rewrite bit_I, bit_P. destruct k, u, w, a, s; done. Qed.

Lemma lor_C k u w a s p i :
  let m := special_mask k u w a s + 16 * Z.b2z p + 32 * Z.b2z i in
  Z.lor (m + 64 * Z.b2z false) NEW_C = m + 64 * Z.b2z true.
Proof. rewrite bit_C. destruct k, u, w, a, s, p, i; done. Qed.

Lemma lor_fields u w a :
  Z.lor (mask u false false false false false false) NEW_W = mask u true false false false false false ∧
  Z.lor (mask u w false false false false false) NEW_A = mask u w true false false false false ∧
  Z.lor (mask u w a false false false false) NEW_S = mask u w a true false false false.
Proof. rewrite bit_W, bit_A, bit_S. destruct u, w, a; done. Qed.

Lemma flag_tests p u : Z.land (tcp_flags p u) TH_URG = 32 * Z.b2z u ∧
  Z.land (tcp_flags p u) TH_PUSH = 8 * Z.b2z p.
Proof. rewrite th_U, th_P. destruct p, u; done. Qed.

Lemma put_flags h p u : th_flags (h_th h) = tcp_flags p u →
  (∀ b, put_flag TH_URG b h = set_flags (tcp_flags p b) h) ∧
  (∀ b, put_flag TH_PUSH b h = set_flags (tcp_flags b u) h).
Proof.
  intros Hf. unfold put_flag. rewrite Hf, th_U, th_P.
  split; intros b; f_equal; destruct p, u, b; done.
Qed.

(** *** The encoder *)

(** The encoding of a difference: nothing if there is none. *)
Definition enc (delta : Z) : bytes := if delta =? 0 then [] else ENCODE delta.

Definition dW h old : Z := u16 (th_win (h_th h) - th_win (h_th old)).
Definition dA h old : Z := u32 (th_ack (h_th h) - th_ack (h_th old)).
Definition dS h old : Z := u32 (th_seq (h_th h) - th_seq (h_th old)).
Definition dI h old : Z := u32 (ip_id (h_ip h) - ip_id (h_ip old)).
Definition nz (v : Z) : bool := negb (v =? 0).

Lemma enc_len v : zlen (enc v) <= 3.
Proof. unfold enc. case_match; [done|apply ENCODE_len]. Qed.

(** The case of the encoder and its output. *)
Record encoded (h old : hdr) (push urg : bool) (changes : Z) (new_seq : bytes) : Prop := {
  enc_ack : dA h old <= 65535;
  enc_seq : dS h old <= 65535;
  enc_urp : urg = false → th_urp (h_th h) = th_urp (h_th old);
  enc_case : ∃ k,
    let i := negb (dI h old =? 1) in
    changes = special_mask k urg (nz (dW h old)) (nz (dA h old)) (nz (dS h old))
              + 16 * Z.b2z push + 32 * Z.b2z i + 64 * Z.b2z false ∧
    new_seq = match k with
              | Plain => (if urg then ENCODEZ (th_urp (h_th h)) else []) ++
                         enc (dW h old) ++ enc (dA h old) ++ enc (dS h old)
              | _ => []
              end ++ (if i then ENCODEZ (dI h old) else []) ∧
    match k with
    | Plain => let m := special_mask k urg (nz (dW h old)) (nz (dA h old)) (nz (dS h old)) in
               m ≠ 11 ∧ m ≠ 15
    | SpecialI => (urg, nz (dW h old)) = (false, false) ∧ dS h old = dA h old ∧
                  dS h old = u32 (ip_len (h_ip old) - hdr_len h)
    | SpecialD => (urg, nz (dW h old), nz (dA h old)) = (false, false, false) ∧
                  dS h old = u32 (ip_len (h_ip old) - hdr_len h)
    end
}.

Lemma encode_steps h old (urg : bool) seq : let m0 := if urg then NEW_U else 0 in
  encode_delta (dS h old) NEW_S (encode_delta (dA h old) NEW_A
    (encode_delta (dW h old) NEW_W (m0, seq))) =
  (mask urg (nz (dW h old)) (nz (dA h old)) (nz (dS h old)) false false false,
   seq ++ enc (dW h old) ++ enc (dA h old) ++ enc (dS h old)).
Proof.
  intros m0. rewrite !encode_delta_spec. f_equal; [|by rewrite <- !app_assoc].
  assert (m0 = mask urg false false false false false false) as ->
    by (unfold m0; rewrite bit_U; by destruct urg).
  unfold nz. destruct (lor_fields urg false false) as (E1 & E2 & E3).
  destruct (lor_fields urg true false) as (_ & F2 & F3).
  destruct (lor_fields urg true true) as (_ & _ & G3).
  destruct (lor_fields urg false true) as (_ & _ & H3).
  destruct (dW h old =? 0), (dA h old =? 0), (dS h old =? 0); cbn [negb]; congruence.
Qed.

Lemma encode_changes_spec h old push urg changes seq :
  th_flags (h_th h) = tcp_flags push urg → encode_changes h old = Some (changes, seq) →
  encoded h old push urg changes seq.
Proof.
  intros Hf. unfold encode_changes. rewrite Hf.
  destruct (flag_tests push urg) as [-> ->].
  fold (dW h old) (dA h old) (dS h old) (dI h old).
  set (pre := if urg then ENCODEZ (th_urp (h_th h)) else []).
  match goal with |- match ?x with _ => _ end = _ → _ => destruct x as [r|] eqn:Hr end; [|done].
  assert (r = (if urg then NEW_U else 0, pre) ∧ (urg = false → th_urp (h_th h) = th_urp (h_th old)))
    as [-> Hurp].
  { destruct urg; cbn in Hr; [by injection Hr as <-|].
    destruct (Z.eqb_spec (th_urp (h_th h)) (th_urp (h_th old))); [|done]. by injection Hr as <-. }
  destruct (Z.ltb_spec 65535 (dA h old)); [done|].
  destruct (Z.ltb_spec 65535 (dS h old)); [done|].
  rewrite (encode_steps h old urg pre). cbn [fst snd].
  destruct (special _ _ _ _ _ _) as [[m' seq']|] eqn:Hs; [|done].
  apply special_spec in Hs as (k & -> & -> & Hk). intros Hc. constructor; [lia|lia|done|].
  exists k. cbn zeta.
  destruct (lor_mask k urg (nz (dW h old)) (nz (dA h old)) (nz (dS h old))) as (L1 & L2 & L3 & L15).
  set (sm := special_mask _ _ _ _ _) in *. clearbody sm. split_and!.
  - destruct (dI h old =? 1), push; cbn in Hc; injection Hc as <- _; cbn [negb Z.b2z];
      rewrite ?L1, ?L2, ?L3; lia.
  - destruct (dI h old =? 1); cbn in Hc; injection Hc as _ <-;
      cbn [negb]; rewrite ?app_nil_r; done.
  - destruct k; [by rewrite L15 in Hk| |].
    + by destruct Hk as ([= -> -> _ _] & ? & ?).
    + by destruct Hk as ([= -> -> -> _] & ?).
Qed.

(** *** The decoder *)

Lemma decode_field_enc changes bit delta dec get set v h r :
  (Z.land changes bit =? 0) = negb (nz delta) →
  (delta ≠ 0 → dec (get h) (ENCODE delta ++ r) = Rd (v, r)) →
  (delta = 0 → set v h = h) →
  decode_field changes bit dec get set (h, enc delta ++ r) = Rd (set v h, r).
Proof.
  intros Hb Hd Hs. unfold decode_field, enc. rewrite Hb. unfold nz.
  destruct (Z.eqb_spec delta 0); cbn [negb fst snd].
  - by rewrite (Hs e).
  - by rewrite Hd.
Qed.

Lemma b2z_test c n : 0 < n → (n * Z.b2z c =? 0) = negb c.
Proof. intros Hn. destruct c; cbn [Z.b2z negb]; [apply Z.eqb_neq|apply Z.eqb_eq]; lia. Qed.

(** The sequence numbers, window and urgent pointer of [h] in the headers
    [g] of the connection. *)
Definition with_fields (h g : hdr) : hdr :=
  set_seq (th_seq (h_th h)) (set_ack (th_ack (h_th h)) (set_win (th_win (h_th h))
    (set_urp (th_urp (h_th h)) (set_flags (th_flags (h_th h)) g)))).

Lemma set_same h :
  (∀ v, v = th_seq (h_th h) → set_seq v h = h) ∧ (∀ v, v = th_ack (h_th h) → set_ack v h = h) ∧
  (∀ v, v = th_win (h_th h) → set_win v h = h) ∧ (∀ v, v = th_urp (h_th h) → set_urp v h = h) ∧
  (∀ v, v = th_flags (h_th h) → set_flags v h = h).
Proof. destruct h as [i []]. split_and!; intros v ->; done. Qed.

Section Fields.
Variables (h g : hdr) (push urg : bool).
Hypothesis Hh : th_ok (h_th h).
Hypothesis Hg : th_ok (h_th g).
Hypothesis Hfl : th_flags (h_th h) = tcp_flags push urg.
Hypothesis Hurp : urg = false → th_urp (h_th h) = th_urp (h_th g).
Hypothesis HA : dA h g <= 65535.
Hypothesis HS : dS h g <= 65535.

Lemma delta_A : (dA h g ≠ 0 → 0 < dA h g < 65536) ∧ u32 (th_ack (h_th g) + dA h g) = th_ack (h_th h) ∧
  (dA h g = 0 → th_ack (h_th h) = th_ack (h_th g)).
Proof.
  destruct Hh as (_ & Ha & _). destruct Hg as (_ & Ha' & _). split_and!.
  - pose proof (u32_range (th_ack (h_th h) - th_ack (h_th g))). unfold dA in *. lia.
  - by apply u32_delta.
  - by apply u32_delta_0.
Qed.

Lemma delta_S : (dS h g ≠ 0 → 0 < dS h g < 65536) ∧ u32 (th_seq (h_th g) + dS h g) = th_seq (h_th h) ∧
  (dS h g = 0 → th_seq (h_th h) = th_seq (h_th g)).
Proof.
  destruct Hh as (Ha & _). destruct Hg as (Ha' & _). split_and!.
  - pose proof (u32_range (th_seq (h_th h) - th_seq (h_th g))). unfold dS in *. lia.
  - by apply u32_delta.
  - by apply u32_delta_0.
Qed.

Lemma delta_W : (dW h g ≠ 0 → 0 < dW h g < 65536) ∧ u16 (th_win (h_th g) + dW h g) = th_win (h_th h) ∧
  (dW h g = 0 → th_win (h_th h) = th_win (h_th g)).
Proof.
  destruct Hh as (_ & _ & _ & _ & Ha & _). destruct Hg as (_ & _ & _ & _ & Ha' & _). split_and!.
  - pose proof (u16_range (th_win (h_th h) - th_win (h_th g))). unfold dW in *. lia.
  - by apply u16_delta.
  - by apply u16_delta_0.
Qed.

Lemma decode_plain m hlen u0 r :
  th_flags (h_th g) = tcp_flags push u0 → Z.land m NEW_U = Z.b2z urg →
  Z.land m NEW_W = 2 * Z.b2z (nz (dW h g)) → Z.land m NEW_A = 4 * Z.b2z (nz (dA h g)) →
  Z.land m NEW_S = 8 * Z.b2z (nz (dS h g)) → Z.land m 15 ≠ 11 → Z.land m 15 ≠ 15 →
  decode_specials m hlen g ((if urg then ENCODEZ (th_urp (h_th h)) else []) ++
    enc (dW h g) ++ enc (dA h g) ++ enc (dS h g) ++ r) = Rd (with_fields h g, r).
Proof.
  intros Hgf HmU HmW HmA HmS H11 H15. unfold decode_specials.
  replace (Z.lor NEW_S (Z.lor NEW_A (Z.lor NEW_W NEW_U))) with 15
    by (by rewrite bit_S, bit_A, bit_W, bit_U).
  replace (Z.lor NEW_S (Z.lor NEW_W NEW_U)) with 11 by (by rewrite bit_S, bit_W, bit_U).
  rewrite (proj2 (Z.eqb_neq _ _) H11), (proj2 (Z.eqb_neq _ _) H15), HmU.
  destruct (put_flags g _ _ Hgf) as [Hput _].
  set (g1 := set_urp (th_urp (h_th h)) (set_flags (th_flags (h_th h)) g)).
  match goal with |- rd_bind ?x _ = _ =>
    replace x with (Rd (g1, enc (dW h g) ++ enc (dA h g) ++ enc (dS h g) ++ r)) end.
  2:{ unfold g1. rewrite Hfl. destruct urg; cbn [Z.b2z Z.eqb]; rewrite Hput.
      - rewrite DECODEU_ENCODEZ. cbn [rd_bind]. by rewrite u16_id by apply Hh.
      - destruct (set_same (set_flags (tcp_flags push false) g)) as (_ & _ & _ & Hs & _).
        by rewrite Hs by (by apply Hurp). }
  cbn [rd_bind]. destruct delta_W as (HW1 & HW2 & HW3). destruct delta_A as (HA1 & HA2 & HA3).
  destruct delta_S as (HS1 & HS2 & HS3).
  rewrite (decode_field_enc _ _ _ _ _ _ (th_win (h_th h)) g1).
  2:{ by rewrite HmW, b2z_test. }
  2:{ intros Hd. rewrite DECODES_ENCODE by auto. do 2 f_equal. exact HW2. }
  2:{ intros Hd. apply set_same. by apply HW3. }
  cbn [rd_bind]. rewrite (decode_field_enc _ _ _ _ _ _ (th_ack (h_th h)) (set_win _ g1)).
  2:{ by rewrite HmA, b2z_test. }
  2:{ intros Hd. rewrite DECODEL_ENCODE by auto. do 2 f_equal. exact HA2. }
  2:{ intros Hd. apply set_same. by apply HA3. }
  cbn [rd_bind]. rewrite (decode_field_enc _ _ _ _ _ _ (th_seq (h_th h)) (set_ack _ (set_win _ g1))).
  2:{ by rewrite HmS, b2z_test. }
  2:{ intros Hd. rewrite DECODEL_ENCODE by auto. do 2 f_equal. exact HS2. }
  2:{ intros Hd. apply set_same. by apply HS3. }
  done.
Qed.

(** Echoed terminal traffic and data transfer: no urgent data, the same
    window, and the sequence numbers move by the length of the last segment. *)
Lemma decode_special m hlen r : urg = false → th_flags (h_th g) = tcp_flags push false →
  dW h g = 0 → dS h g = u32 (ip_len (h_ip g) - hlen) →
  (Z.land m 15 = 11 ∧ dA h g = dS h g ∨ Z.land m 15 = 15 ∧ dA h g = 0) →
  decode_specials m hlen g r = Rd (with_fields h g, r).
Proof.
  intros Hu Hgf HW HSl Hm. unfold decode_specials.
  replace (Z.lor NEW_S (Z.lor NEW_A (Z.lor NEW_W NEW_U))) with 15
    by (by rewrite bit_S, bit_A, bit_W, bit_U).
  replace (Z.lor NEW_S (Z.lor NEW_W NEW_U)) with 11 by (by rewrite bit_S, bit_W, bit_U).
  destruct delta_W as (_ & _ & HW3). destruct delta_A as (_ & HA2 & HA3).
  destruct delta_S as (_ & HS2 & _). rewrite <- HSl, HS2.
  assert (Hbase : set_win (th_win (h_th h)) (set_urp (th_urp (h_th h))
                    (set_flags (th_flags (h_th h)) g)) = g).
  { rewrite (HW3 HW), (Hurp Hu), Hfl, Hu, <- Hgf. by destruct g as [? []]. }
  unfold with_fields. rewrite Hbase. destruct Hm as [[-> HA4]|[-> HA4]]; cbn [Z.eqb Pos.eqb].
  - by rewrite <- HA4, HA2.
  - do 2 f_equal. f_equal. symmetry. apply set_same. by apply HA3.
Qed.
End Fields.

Lemma h_with_fields h g : with_fields h g =
  MkHdr (h_ip g) (MkTcp (th_ports (h_th g)) (th_seq (h_th h)) (th_ack (h_th h)) (th_x2 (h_th g))
    (th_off (h_th g)) (th_flags (h_th h)) (th_win (h_th h)) (th_sum (h_th g)) (th_urp (h_th h))
    (th_opts (h_th g))).
Proof. destruct g as [? []]. reflexivity. Qed.

Lemma th_ok_set f s g : th_ok (h_th g) → 0 <= s < 65536 →
  th_ok (h_th (set_flags f (set_sum s g))).
Proof. destruct g as [? []]. unfold th_ok. cbn. tauto. Qed.

Lemma with_fields_eq h old flags : conn_ok h → conn_ok old → same_rest h old →
  set_ip_id (ip_id (h_ip h)) (with_fields h (set_flags flags (set_sum (th_sum (h_th h))
    (set_ip_sum 0 old)))) = set_ip_sum 0 (set_ip_len (ip_len (h_ip old)) h).
Proof.
  intros (_ & (_ & _ & _ & Hx & _) & _) (_ & (_ & _ & _ & Hx' & _) & _) [].
  rewrite h_with_fields. destruct h as [[] []], old as [[] []]. cbn in *. subst. reflexivity.
Qed.

Lemma decode_encode h old push urg changes seq c r : conn_ok h → conn_ok old → same_rest h old →
  th_flags (h_th h) = tcp_flags push urg → (urg = true ↔ th_urp (h_th h) ≠ 0) →
  encoded h old push urg changes seq →
  decode_changes (changes + 64 * Z.b2z c) (hdr_len old) (set_ip_sum 0 old)
    (u8 (Z.shiftr (th_sum (h_th h)) 8) :: u8 (th_sum (h_th h)) :: seq ++ r) =
  Rd (set_ip_sum 0 (set_ip_len (ip_len (h_ip old)) h), r).
Proof.
  intros Hh Ho Hsr Hfl Hu [HA HS Hurp (k & Hm & Hseq & Hk)].
  pose proof Hh as (Hhi & Hht & _). pose proof Ho as (Hoi & Hot & _ & push0 & urg0 & Hof & Hou).
  unfold decode_changes. cbn [getchar rd_bind].
  rewrite join16 by apply Hht.
  set (i := negb (dI h old =? 1)) in *.
  destruct (land_mask k urg (nz (dW h old)) (nz (dA h old)) (nz (dS h old)) push i c) as (_ & HI & HP & H15 & _).
  rewrite Z.mul_0_r, Z.add_0_r in Hm. rewrite <- Hm in HI, HP, H15.
  rewrite HP, b2z_test, negb_involutive by lia.
  set (g0 := set_sum (th_sum (h_th h)) (set_ip_sum 0 old)).
  destruct (put_flags g0 push0 urg0 Hof) as [_ ->].
  set (g := set_flags (tcp_flags push urg0) g0).
  assert (Hgt : th_ok (h_th g)).
  { apply (th_ok_set _ _ old Hot). apply Hht. }
  assert (Hd : decode_specials (changes + 64 * Z.b2z c) (hdr_len old) g (seq ++ r) =
    Rd (with_fields h g, (if i then ENCODEZ (dI h old) else []) ++ r)).
  { assert (Hl : hdr_len old = hdr_len h).
    { unfold hdr_len. by rewrite (sr_hl _ _ Hsr), (sr_thoff _ _ Hsr). }
    assert (Hu0 : urg = false → urg0 = false).
    { intros ->. destruct urg0; [|done]. destruct (proj1 Hou eq_refl).
      rewrite <- Hurp by done. destruct (Z.eq_dec (th_urp (h_th h)) 0); [done|].
      by apply Hu in n. }
    rewrite Hseq, <- !app_assoc, Hl. destruct k.
    - destruct (land_plain urg (nz (dW h old)) (nz (dA h old)) (nz (dS h old)) push i c) as (E1 & E2 & E3 & E4).
      rewrite <- Hm in E1, E2, E3, E4. rewrite <- !app_assoc.
      refine (decode_plain h g push urg Hht Hgt Hfl Hurp HA HS _ _ urg0 _ eq_refl E1 E2 E3 E4 _ _);
        rewrite H15; apply Hk.
    - destruct Hk as ([= Hu' HW] & HSA & HSl). rewrite app_nil_l.
      apply (decode_special h g push urg Hht Hgt Hfl Hurp HA HS); [done| | |done|left].
      + by rewrite <- (Hu0 Hu').
      + unfold nz in HW. apply negb_false_iff, Z.eqb_eq in HW. exact HW.
      + split; [exact H15|exact (eq_sym HSA)].
    - destruct Hk as ([= Hu' HW HA'] & HSl). rewrite app_nil_l.
      apply (decode_special h g push urg Hht Hgt Hfl Hurp HA HS); [done| | |done|right].
      + by rewrite <- (Hu0 Hu').
      + unfold nz in HW. apply negb_false_iff, Z.eqb_eq in HW. exact HW.
      + split; [exact H15|]. unfold nz in HA'. apply negb_false_iff, Z.eqb_eq in HA'. exact HA'. }
  rewrite Hd. cbn [rd_bind]. rewrite HI, b2z_test by lia.
  pose proof (with_fields_eq h old (tcp_flags push urg0) Hh Ho Hsr) as Hw. fold g0 in Hw. fold g in Hw.
  destruct Hhi as (_ & _ & _ & _ & Hid & _). rewrite <- Hw. unfold i.
  destruct (Z.eqb_spec (dI h old) 1) as [H1|H1]; cbn [negb].
  - cbn [app]. do 3 f_equal. change (u16 (ip_id (h_ip old) + 1) = ip_id (h_ip h)).
    rewrite <- H1. by apply u16_delta32.
  - rewrite DECODES_ENCODEZ. cbn [rd_bind]. do 3 f_equal.
    change (u16 (ip_id (h_ip old) + dI h old) = ip_id (h_ip h)). by apply u16_delta32.
Qed.
End Delta.

(** ** Sender and receiver together *)

Section Line.
Context `{!SlDefsLaws}.

(** A packet as the sender's IP hands it over: well formed, of the length it
    says, with the right checksum; the urgent pointer is used exactly with
    its flag, and the reserved bits of the TCP header are clear. *)
Definition pkt_ok (p : packet) : Prop :=
  let i := h_ip (p_hdr p) in let t := h_th (p_hdr p) in
  ip_ok i ∧ th_ok t ∧ ip_p i = IPPROTO_TCP ∧
  ip_len i = hdr_len (p_hdr p) + zlen (p_data p) ∧
  ip_sum i = rfc1071 little_endian (ip_bytes (h_ip (set_ip_sum 0 (p_hdr p)))) ∧
  0 <= th_flags t < 64 ∧ (Z.land (th_flags t) TH_URG ≠ 0 ↔ th_urp t ≠ 0).

(** What the link does with a frame: an IP packet is passed on, the others go
    to [sl_uncompress_tcp]. *)
Definition deliver (f : frame) (slack : bytes) (d : slcompress) : rd (option packet * slcompress) :=
  match f with TYPE_IP p => Rd (Some p, d) | _ => sl_uncompress_tcp f slack d end.

(** A packet crosses the line: the length of its first mbuf, whether
    connection numbers may be left out, and the memory behind the receiver's
    buffer. *)
Definition transfer (c d : slcompress) (q : Z * bool * bytes * packet)
  : rd (option packet * slcompress * slcompress) :=
  let '(m_len, cid, slack, p) := q in
  let! '(f, c) := sl_compress_tcp m_len p cid c in
  let! '(r, d) := deliver f slack d in
  Rd (r, c, d).

Fixpoint transfers (c d : slcompress) (qs : list (Z * bool * bytes * packet))
  : rd (list (option packet) * slcompress * slcompress) :=
  match qs with
  | [] => Rd ([], c, d)
  | q :: qs =>
      let! '(r, c, d) := transfer c d q in
      let! '(rs, c, d) := transfers c d qs in
      Rd (r :: rs, c, d)
  end.

(** The receiver knows the headers of the sender's connections. *)
Record sync (c d : slcompress) : Prop := {
  sy_ring : ∃ l, ring c l;
  sy_rlen : length (rstate d) = MAX_STATES;
  sy_conn : ∀ k, (k < MAX_STATES)%nat →
    cs_hdr (cs_at c k) = zero_hdr ∨
    conn_ok (cs_hdr (cs_at c k)) ∧
    rstate d !! k = Some (Some (MkRcs (hdr_len (cs_hdr (cs_at c k)))
                                  (set_ip_sum 0 (cs_hdr (cs_at c k)))));
  sy_last : last_xmit c = 255 ∨ last_xmit c = last_recv d ∧ SLF_TOSS d = false
}.

(** *** Checksums *)

Lemma Bytes_be16 v : 0 <= v < 65536 → Bytes (be16 v).
Proof.
  intros Hv. apply div256_byte in Hv as [? ?].
  apply Forall_cons_2; [done|]. by apply Forall_cons_2; [|apply Forall_nil_2].
Qed.

Lemma Bytes_be32 v : 0 <= v < 4294967296 → Bytes (be32 v).
Proof.
  intros Hv. apply Bytes_app; apply Bytes_be16; [|apply u16_range].
  split; [apply Z.div_pos; lia|apply Z.div_lt_upper_bound; lia].
Qed.

Lemma Bytes_ip_bytes i : ip_ok i → ip_sum i = 0 → Bytes (ip_bytes i).
Proof.
  intros (Hv & Hhl & Htos & Hlen & Hid & Hoff & Httl & Hp & Hsrc & Hdst & _ & Ho) Hs.
  unfold ip_bytes. rewrite Hs.
  apply Bytes_app; [|apply Bytes_app; [by apply Bytes_be16|apply Bytes_app; [by apply Bytes_be16|
    apply Bytes_app; [by apply Bytes_be16|apply Bytes_app; [|apply Bytes_app; [|
    apply Bytes_app; [by apply Bytes_be32|apply Bytes_app; [by apply Bytes_be32|done]]]]]]]].
  - repeat apply Forall_cons_2; [unfold is_byte; lia|done|apply Forall_nil_2].
  - repeat apply Forall_cons_2; [done|done|apply Forall_nil_2].
  - destruct little_endian; repeat apply Forall_cons_2; try done; apply Forall_nil_2.
Qed.

Lemma length_ip_bytes i : ip_ok i → zlen (ip_bytes i) = 4 * ip_hl i.
Proof.
  intros (_ & _ & _ & _ & _ & _ & _ & _ & _ & _ & Ho & _). unfold ip_bytes, be32, be16, store16.
  unfold zlen in *.
  rewrite !length_app. destruct little_endian; cbn [length]; lia.
Qed.

Lemma ip_checksum_rfc1071 i : ip_ok i → ip_sum i = 0 → ip_checksum i = rfc1071 little_endian (ip_bytes i).
Proof.
  intros Hi Hs. pose proof (Bytes_ip_bytes i Hi Hs) as Hb. pose proof (length_ip_bytes i Hi) as Hl.
  unfold ip_checksum. rewrite ztake_all by lia. rewrite word_sum_wsum.
  set (b := ip_bytes i) in *.
  assert (He : Nat.even (length b) = true).
  { rewrite <- even_of_nat. change (Z.of_nat (length b)) with (zlen b). rewrite Hl.
    by rewrite Z.even_mul. }
  pose proof (wsum_bound little_endian b Hb He) as Hw. pose proof (wsum_nonneg little_endian true b Hb).
  assert (ip_hl i < 16) by apply Hi.
  rewrite u32_id by lia.
  assert (Hfold : ∀ x, Z.land x 65535 + Z.shiftr x 16 = x mod 65536 + x / 65536).
  { intros x. change 65535 with (Z.ones 16). by rewrite Z.land_ones, Z.shiftr_div_pow2 by lia. }
  rewrite !Hfold. set (x := wsum little_endian true b) in *.
  pose proof (fold16 x ltac:(lia)) as F1. set (y := x mod 65536 + x / 65536) in *.
  assert (0 <= y <= 65565).
  { unfold y. pose proof (Z.mod_pos_bound x 65536 ltac:(lia)). split; [apply F1|].
    assert (x / 65536 <= 30) by (apply Z.div_le_upper_bound; lia). lia. }
  pose proof (fold16 y ltac:(lia)) as F2. set (z := y mod 65536 + y / 65536) in *.
  assert (0 <= z <= 65535).
  { split; [apply F2|]. unfold z. destruct (Z.lt_ge_cases y 65536).
    - rewrite Z.mod_small, Z.div_small by lia. lia.
    - replace y with (y - 65536 + 1 * 65536) at 1 by lia. rewrite Z.mod_add, Z.mod_small by lia.
      assert (y / 65536 < 2) by (apply Z.div_lt_upper_bound; lia). lia. }
  destruct (rfc1071_spec little_endian b Hb) as (s & -> & Hs' & Hoc).
  replace s with z.
  - unfold u16. change 65536 with (2 ^ 16). rewrite <- Z.land_ones by lia.
    change (Z.ones 16) with 65535. by apply complement16.
  - apply oc_eq_small; [lia|lia|]. etrans; [exact F2|]. etrans; [exact F1|]. by symmetry.
Qed.

(** *** The connections *)

Lemma cs_at_set_hdr k h c x : (k < length (tstate c))%nat →
  cs_at (set_hdr k h c) x =
    if decide (k = x) then MkTcs (cs_next (cs_at c k)) (cs_id (cs_at c k)) h else cs_at c x.
Proof.
  intros Hk. unfold set_hdr. rewrite cs_at_alter by done. case_decide; [by subst|done].
Qed.

Lemma ring_set_hdr k h c l : ring c l → (k < MAX_STATES)%nat → ring (set_hdr k h c) l.
Proof.
  intros Hr Hk. rewrite <- (ring_len _ _ Hr) in Hk. constructor.
  - intros x r ->. change (path (nx (set_hdr k h c)) ((x :: r) ++ [x])).
    eapply path_ext; [|by apply (ring_path _ _ Hr)].
    intros z _. unfold nx. rewrite cs_at_set_hdr by done. by case_decide; subst.
  - apply (ring_last _ _ Hr).
  - apply (ring_perm _ _ Hr).
  - unfold set_hdr. simpl. rewrite length_alter. apply (ring_len _ _ Hr).
  - intros x Hx. rewrite cs_at_set_hdr by done. rewrite <- (ring_ids _ _ Hr x Hx).
    by case_decide; subst.
Qed.

Lemma ring_cong c c' l : ring c l → tstate c' = tstate c → last_cs c' = last_cs c → ring c' l.
Proof.
  intros [R1 R2 R3 R4 R5] Ht Hl.
  assert (Hat : ∀ x, cs_at c' x = cs_at c x) by (intros; unfold cs_at; by rewrite Ht).
  constructor; [|by rewrite Hl|done|by rewrite Ht|by intros; rewrite Hat; apply R5].
  intros x r ->. specialize (R1 x r eq_refl). change (path (nx c') ((x :: r) ++ [x])).
  eapply path_ext; [|exact R1]. intros z _. unfold nx. by rewrite Hat.
Qed.

(** Both sides take the headers [h] over for connection [k]. *)
Lemma sync_update c c' d d' k h l : sync c d → ring c' l → (k < MAX_STATES)%nat → conn_ok h →
  (∀ x, (x < MAX_STATES)%nat → cs_hdr (cs_at c' x) = if decide (k = x) then h else cs_hdr (cs_at c x)) →
  rstate d' = <[k := Some (MkRcs (hdr_len h) (set_ip_sum 0 h))]> (rstate d) →
  last_xmit c' = 255 ∨ last_xmit c' = last_recv d' ∧ SLF_TOSS d' = false →
  sync c' d'.
Proof.
  intros [_ Hlen Hconn _] Hr Hk Hh Hc Hd Hl. constructor; [by exists l| | |done].
  - by rewrite Hd, length_insert.
  - intros x Hx. rewrite Hc, Hd by done. case_decide as Hkx.
    + subst x. right. split; [done|]. rewrite list_lookup_insert_eq; [done|lia].
    + destruct (Hconn x Hx) as [H1|[H1 H2]]; [by left|right]. split; [done|].
      by rewrite list_lookup_insert_ne.
Qed.

(** *** A packet crosses the line *)

Lemma compressible_flags f : 0 <= f < 64 →
  Z.land f (Z.lor TH_SYN (Z.lor TH_FIN (Z.lor TH_RST TH_ACK))) = TH_ACK →
  ∃ push urg, f = tcp_flags push urg ∧ (urg = true ↔ Z.land f TH_URG ≠ 0).
Proof.
  pose proof th_bits as [= -> -> -> _ -> ->]. intros Hf.
  assert (Hall : Forall (λ n, Z.land (Z.of_nat n) 23 = 16 →
    ∃ push urg, Z.of_nat n = tcp_flags push urg ∧ (urg = true ↔ Z.land (Z.of_nat n) 32 ≠ 0)) (seq 0 64)).
  { repeat (apply Forall_cons_2;
      [intros Hn; first [discriminate Hn | exists false, false; done | exists true, false; done
                        | exists false, true; done | exists true, true; done]|]).
    apply Forall_nil_2. }
  rewrite list.Forall_forall in Hall. specialize (Hall (Z.to_nat f)).
  rewrite Z2Nat.id in Hall by lia. apply Hall. apply elem_of_seq. lia.
Qed.

Lemma pkt_conn_ok p : pkt_ok p →
  Z.land (th_flags (h_th (p_hdr p))) (Z.lor TH_SYN (Z.lor TH_FIN (Z.lor TH_RST TH_ACK))) = TH_ACK →
  conn_ok (p_hdr p).
Proof.
  intros (Hi & Ht & Hp & _ & _ & Hf & Hu) Hc. split_and!; try done.
  destruct (compressible_flags _ Hf Hc) as (push & urg & Hfl & Hurg).
  exists push, urg. split; [done|]. by rewrite Hurg.
Qed.

Lemma set_ip_p_same h v : ip_p (h_ip h) = v → ∀ w, set_ip_p v (set_ip_p w h) = h.
Proof. destruct h as [[] ?]. cbn. by intros ->. Qed.

Lemma uncompressed_step c c' d p slack l y : sync c d → pkt_ok p → conn_ok (p_hdr p) →
  ring c' l → (y < MAX_STATES)%nat → same_but_order c c' →
  ∃ c2 d2 f, send_uncompressed p y c' = (f, c2) ∧ deliver f slack d = Rd (Some p, d2) ∧ sync c2 d2.
Proof.
  intros Hs Hp Hc Hr Hy Ho. unfold send_uncompressed.
  assert (Hyl : (y < length (tstate c'))%nat) by (by rewrite (ring_len _ _ Hr)).
  assert (Hid : cs_id (cs_at (set_hdr y (p_hdr p) c') y) = Z.of_nat y).
  { rewrite cs_at_set_hdr, decide_True by done. by apply (ring_ids _ _ Hr). }
  rewrite Hid. eexists _, _, _. split; [done|]. pose proof MAX_STATES_range.
  cbn [deliver sl_uncompress_tcp]. unfold sl_uncompress_uncompressed.
  cbn [p_hdr p_data]. change (ip_p (h_ip (set_ip_p (Z.of_nat y) (p_hdr p)))) with (Z.of_nat y).
  destruct (Z.leb_spec (Z.of_nat MAX_STATES) (Z.of_nat y)); [lia|].
  rewrite set_ip_p_same by apply Hp.
  assert (MkPacket (p_hdr p) (p_data p) = p) as -> by (by destruct p).
  split; [reflexivity|]. set (h := p_hdr p) in *.
  apply (sync_update c _ d _ y h l).
  - done.
  - by apply (ring_cong (set_hdr y h c')); [apply ring_set_hdr|..].
  - done.
  - done.
  - intros x Hx. change (cs_hdr (cs_at (set_hdr y h c') x) = if decide (y = x) then h else cs_hdr (cs_at c x)).
    rewrite cs_at_set_hdr by done. case_decide; [done|]. apply (so_hdr _ _ Ho).
  - cbn [rstate]. by rewrite Nat2Z.id.
  - by right.
Qed.

(** The frame [send_compressed] makes: the mask with or without the
    connection. *)
Lemma send_compressed_frame p k u w a s push i seq cid c y :
  let ch := special_mask k u w a s + 16 * Z.b2z push + 32 * Z.b2z i in
  let c1 := set_hdr y (p_hdr p) c in
  let id := cs_id (cs_at c1 y) in
  ∃ b cc, send_compressed p y (ch + 64 * Z.b2z false) seq cid c =
    (TYPE_COMPRESSED_TCP ((ch + 64 * Z.b2z cc) :: (if cc : bool then [id] else []) ++
       u8 (Z.shiftr (th_sum (h_th (p_hdr p))) 8) :: u8 (th_sum (h_th (p_hdr p))) :: seq ++ p_data p), b) ∧
    tstate b = tstate c1 ∧ last_cs b = last_cs c1 ∧
    last_xmit b = (if cc then id else last_xmit c) ∧ (cc = false → last_xmit c = id).
Proof.
  intros ch c1 id. unfold send_compressed. fold c1. fold id.
  pose proof (lor_C k u w a s push i) as HC. fold ch in HC. rewrite HC.
  destruct (land_mask k u w a s push i true) as (_ & _ & _ & _ & Hm1).
  destruct (land_mask k u w a s push i false) as (_ & _ & _ & _ & Hm0).
  fold ch in Hm1, Hm0. cbn zeta in HC.
  rewrite (u8_id (ch + 64 * Z.b2z true)), (u8_id (ch + 64 * Z.b2z false)) by lia.
  change (last_xmit c1) with (last_xmit c).
  destruct (negb cid || negb (last_xmit c =? id)) eqn:E.
  - eexists _, true. by split_and!.
  - eexists _, false. apply orb_false_iff in E as [_ E]. apply negb_false_iff, Z.eqb_eq in E.
    by split_and!.
Qed.

(** What [sl_uncompress_rest] rebuilds. *)
Lemma uncompress_rest_spec c old p k u w a s push i cc seq slack pre d :
  let ch := special_mask k u w a s + 16 * Z.b2z push + 32 * Z.b2z i + 64 * Z.b2z false in
  let cp := u8 (Z.shiftr (th_sum (h_th (p_hdr p))) 8) :: u8 (th_sum (h_th (p_hdr p))) :: seq ++ p_data p in
  pkt_ok p → conn_ok (p_hdr p) → conn_ok old → same_rest (p_hdr p) old →
  encode_changes (p_hdr p) old = Some (ch, seq) →
  rstate d !! Z.to_nat (last_recv d) = Some (Some (MkRcs (hdr_len old) (set_ip_sum 0 old))) →
  ch = c →
  ∃ d', sl_uncompress_rest (c + 64 * Z.b2z cc) (zlen (pre ++ cp)) ((pre ++ cp) ++ slack) (cp ++ slack) d =
      Rd (Some p, d') ∧
    rstate d' = <[Z.to_nat (last_recv d) := Some (MkRcs (hdr_len (p_hdr p)) (set_ip_sum 0 (p_hdr p)))]> (rstate d) ∧
    last_recv d' = last_recv d ∧ SLF_TOSS d' = SLF_TOSS d.
Proof.
  intros ch cp Hp Hh Ho Hsr He Hd Hc. unfold sl_uncompress_rest. rewrite Hd. cbn [cs_hlen cs_rhdr].
  pose proof Hh as (Hi & Ht & _ & push' & urg & Hfl & Hu).
  pose proof (encode_changes_spec _ _ _ _ _ _ Hfl He) as Hen. rewrite Hc in Hen.
  unfold cp. cbn [app]. rewrite <- !app_assoc.
  rewrite (decode_encode _ _ _ _ _ _ cc (p_data p ++ slack) Hh Ho Hsr Hfl Hu Hen). cbn [rd_bind].
  pose proof Hp as (_ & _ & _ & Hlen & Hsum & _).
  assert (Hl : hdr_len old = hdr_len (p_hdr p)).
  { unfold hdr_len. by rewrite (sr_hl _ _ Hsr), (sr_thoff _ _ Hsr). }
  match goal with |- context [if ?x <? 0 then _ else _] => replace x with (zlen (p_data p)) end.
  2:{ repeat (rewrite zlen_app || rewrite zlen_cons). lia. }
  pose proof (zlen_nonneg (p_data p)).
  destruct (Z.ltb_spec (zlen (p_data p)) 0); [lia|].
  assert (u16 (zlen (p_data p) + hdr_len old) = ip_len (h_ip (p_hdr p))) as ->.
  { rewrite Hl, u16_id; [lia|]. destruct Hi as (_ & _ & _ & ? & _). lia. }
  assert (set_ip_len (ip_len (h_ip (p_hdr p))) (set_ip_sum 0 (set_ip_len (ip_len (h_ip old)) (p_hdr p))) =
          set_ip_sum 0 (p_hdr p)) as -> by (by destruct (p_hdr p) as [[] ?]).
  rewrite ip_checksum_rfc1071, <- Hsum.
  2:{ by destruct (p_hdr p) as [[] ?]. }
  2:{ done. }
  rewrite ztake_app_le, ztake_all by lia.
  assert (MkPacket (set_ip_sum (ip_sum (h_ip (p_hdr p))) (set_ip_sum 0 (p_hdr p))) (p_data p) = p) as ->
    by (by destruct p as [[[] ?] ?]).
  eexists. split; [done|]. cbn. rewrite Hl. split_and!; try done.
  by rewrite list_insert_insert_eq.
Qed.

Lemma compressed_step c c' d p k u w a s push i seq cid slack l y :
  let ch := special_mask k u w a s + 16 * Z.b2z push + 32 * Z.b2z i + 64 * Z.b2z false in
  sync c d → pkt_ok p → conn_ok (p_hdr p) → ring c' l → (y < MAX_STATES)%nat →
  same_but_order c c' → same_conn (p_hdr p) (cs_hdr (cs_at c' y)) = true →
  same_fixed (p_hdr p) (cs_hdr (cs_at c' y)) = true →
  encode_changes (p_hdr p) (cs_hdr (cs_at c' y)) = Some (ch, seq) →
  ∃ c2 d2 f, send_compressed p y ch seq cid c' = (f, c2) ∧
    deliver f slack d = Rd (Some p, d2) ∧ sync c2 d2.
Proof.
  intros ch Hs Hp Hc Hr Hy Ho Hsc Hsf He.
  assert (Hyl : (y < length (tstate c'))%nat) by (by rewrite (ring_len _ _ Hr)).
  pose proof MAX_STATES_range as HM.
  assert (Hold : cs_hdr (cs_at c' y) = cs_hdr (cs_at c y)) by apply (so_hdr _ _ Ho).
  destruct (same_fixed_spec (p_hdr p) (cs_hdr (cs_at c' y))) as [Hco Hsr]; try done.
  { rewrite Hold. destruct (sy_conn _ _ Hs y Hy) as [Hz|[Hz _]]; [by left|by right]. }
  assert (Hrs : rstate d !! y = Some (Some (MkRcs (hdr_len (cs_hdr (cs_at c' y)))
                                      (set_ip_sum 0 (cs_hdr (cs_at c' y)))))).
  { rewrite Hold in *. destruct (sy_conn _ _ Hs y Hy) as [Hz|[_ Hz]]; [|done].
    rewrite Hz in Hco. destruct Hco as ((_ & Hbad & _) & _). cbn in Hbad. lia. }
  destruct (send_compressed_frame p k u w a s push i seq cid c' y) as (c2 & cc & Hsend & Ht & Hlc & Hx & Hx').
  fold ch in Hsend. rewrite Hsend. clear Hsend.
  assert (Hid : cs_id (cs_at (set_hdr y (p_hdr p) c') y) = Z.of_nat y).
  { rewrite cs_at_set_hdr, decide_True by done. by apply (ring_ids _ _ Hr). }
  rewrite Hid in Hx, Hx'. rewrite Hid. rewrite (so_xmit _ _ Ho) in Hx, Hx'.
  set (cp := u8 (Z.shiftr (th_sum (h_th (p_hdr p))) 8) :: u8 (th_sum (h_th (p_hdr p))) :: seq ++ p_data p).
  set (pre := (ch + 64 * Z.b2z cc) :: if cc then [Z.of_nat y] else []).
  set (d0 := incr sls_compressedin d).
  set (d1 := if cc then set_last_recv (Z.of_nat y) (set_toss false d0) else d0).
  assert (Hd1 : last_recv d1 = Z.of_nat y ∧ SLF_TOSS d1 = false ∧ rstate d1 = rstate d).
  { unfold d1. destruct cc; [done|]. specialize (Hx' eq_refl).
    destruct (sy_last _ _ Hs) as [Hl|[Hl Hl2]]; [lia|]. split_and!; [|done|done].
    cbn. congruence. }
  destruct Hd1 as (Hd1r & Hd1t & Hd1s).
  destruct (uncompress_rest_spec ch (cs_hdr (cs_at c' y)) p k u w a s push i cc seq slack pre d1)
    as (d2 & Hd2 & Hr2 & Hl2 & Ht2); try done.
  { by rewrite Hd1r, Nat2Z.id, Hd1s. }
  exists c2, d2, (TYPE_COMPRESSED_TCP (pre ++ cp)). split_and!.
  - unfold pre, ch. by rewrite Z.mul_0_r, Z.add_0_r.
  - cbn [deliver sl_uncompress_tcp]. unfold sl_uncompress_compressed. fold d0.
    assert (HC : Z.land (ch + 64 * Z.b2z cc) NEW_C = 64 * Z.b2z cc).
    { unfold ch. rewrite Z.mul_0_r, Z.add_0_r. apply land_mask. }
    fold cp in Hd2. clearbody cp ch. unfold pre. cbn [app getchar rd_bind].
    rewrite HC, b2z_test by lia. destruct cc; cbn [negb app getchar rd_bind].
    + destruct (Z.leb_spec (Z.of_nat MAX_STATES) (Z.of_nat y)); [lia|]. exact Hd2.
    + unfold d1 in Hd1t. rewrite Hd1t. exact Hd2.
  - apply (sync_update c c2 d d2 y (p_hdr p) l); try done.
    + by apply (ring_cong (set_hdr y (p_hdr p) c')); [apply ring_set_hdr|..].
    + intros x Hx0. unfold cs_at. rewrite Ht.
      change (cs_hdr (cs_at (set_hdr y (p_hdr p) c') x) = if decide (y = x) then p_hdr p else cs_hdr (cs_at c x)).
      rewrite cs_at_set_hdr by done. case_decide; [done|]. apply (so_hdr _ _ Ho).
    + rewrite Hr2, Hd1s, Hd1r, Nat2Z.id. done.
    + right. rewrite Hx, Hl2, Ht2, Hd1r, Hd1t. split; [|done].
      destruct cc; [done|]. by rewrite Hx'.
Qed.

(** One packet reaches the other side unchanged. *)
Lemma transfer_step c d m_len cid slack p : sync c d → pkt_ok p →
  ∃ c' d', transfer c d (m_len, cid, slack, p) = Rd (Some p, c', d') ∧ sync c' d'.
Proof.
  intros Hs Hp. unfold transfer, sl_compress_tcp.
  destruct (negb _ || _); [by exists c, d|].
  destruct (Z.eqb_spec (Z.land (th_flags (h_th (p_hdr p)))
    (Z.lor TH_SYN (Z.lor TH_FIN (Z.lor TH_RST TH_ACK)))) TH_ACK) as [Hf|]; cbn [negb]; [|by exists c, d].
  pose proof (pkt_conn_ok p Hp Hf) as Hc. destruct (sy_ring _ _ Hs) as [l Hl].
  pose proof (find_conn_spec (p_hdr p) (incr sls_packets c) l) as Hfc.
  destruct (lru_find (p_hdr p) (incr sls_packets c) l) as [y found] eqn:Hlf.
  destruct Hfc as (c' & -> & Hy & Hr & Ho). { by destruct Hl. }
  assert (Ho' : same_but_order c c') by (etrans; [apply (same_incr sls_packets)|done]).
  assert (Hy' : (y < MAX_STATES)%nat) by (by apply (ring_lt c l)).
  cbn [rd_bind].
  assert (Hu : ∃ c2 d2, (let! '(r, d0) := deliver (send_uncompressed p y c').1 slack d in
                Rd (r, (send_uncompressed p y c').2, d0)) = Rd (Some p, c2, d2) ∧ sync c2 d2).
  { destruct (uncompressed_step c c' d p slack _ y Hs Hp Hc Hr Hy' Ho') as (c2 & d2 & f & -> & Hd & Hsy).
    exists c2, d2. cbn [fst snd]. by rewrite Hd. }
  destruct found; cbn [andb]; [|by destruct (send_uncompressed p y c')].
  destruct (same_fixed (p_hdr p) (cs_hdr (cs_at c' y))) eqn:Hsf;
    [|by destruct (send_uncompressed p y c')].
  destruct (encode_changes (p_hdr p) (cs_hdr (cs_at c' y))) as [[ch seq]|] eqn:He;
    [|by destruct (send_uncompressed p y c')].
  destruct Hc as (Hi & Ht & Hpr & push & urg & Hfl & Hur).
  pose proof (encode_changes_spec _ _ _ _ _ _ Hfl He) as [_ _ _ (k & Hch & _)].
  rewrite Hch in He. rewrite Hch.
  edestruct (compressed_step c c' d p) as (c2 & d2 & f & -> & Hd & Hsy);
    [exact Hs|exact Hp| |exact Hr|exact Hy'|exact Ho'| |exact Hsf|exact He|].
  - split_and!; [done|done|done|]. by exists push, urg.
  - unfold lru_find in Hlf. destruct (List.find _ l) eqn:Hfind; [|by injection Hlf].
    injection Hlf as ->. apply List.find_some in Hfind as [_ Hm].
    rewrite (so_hdr _ _ Ho'). exact Hm.
  - exists c2, d2. cbn [rd_bind]. by rewrite Hd.
Qed.

Lemma transfers_step qs : ∀ c d, sync c d → Forall (λ q, pkt_ok q.2) qs →
  ∃ c' d', transfers c d qs = Rd (Some <$> qs.*2, c', d') ∧ sync c' d'.
Proof.
  induction qs as [|[[[m_len cid] slack] p] qs IH]; intros c d Hs Hq; [by exists c, d|].
  apply Forall_cons_1 in Hq as [Hp Hq]. cbn [transfers].
  destruct (transfer_step c d m_len cid slack p Hs Hp) as (c1 & d1 & -> & Hs1). cbn [rd_bind].
  destruct (IH c1 d1 Hs1 Hq) as (c2 & d2 & -> & Hs2). by exists c2, d2.
Qed.

(** *** The start *)

Lemma cs_at_init k : (k < MAX_STATES)%nat → cs_at sl_compress_init k =
  MkTcs (match k with O => MAX_STATES - 1 | S j => j end)%nat (Z.of_nat k) zero_hdr.
Proof.
  intros Hk. unfold cs_at, sl_compress_init. cbn [tstate]. apply list_lookup_total_correct.
  rewrite list_lookup_fmap, lookup_seq_lt by done. done.
Qed.

Lemma path_down n : ∀ f, (∀ k, (k < n)%nat → f (S k) = k) → path f (reverse (seq 0 (S n))).
Proof.
  induction n as [|n IH]; intros f Hf; [done|].
  rewrite seq_S, reverse_snoc. specialize (IH f ltac:(intros; apply Hf; lia)).
  rewrite seq_S, reverse_snoc in *. split; [by apply Hf; lia|exact IH].
Qed.

Lemma ring_init : ring sl_compress_init (reverse (seq 1 (MAX_STATES - 1)) ++ [0%nat]).
Proof.
  pose proof MAX_STATES_range as HM.
  destruct MAX_STATES as [|n] eqn:E; [lia|].
  assert (Hl : reverse (seq 1 (S n - 1)) ++ [0%nat] = reverse (seq 0 (S n))).
  { cbn [seq]. rewrite reverse_cons. do 2 f_equal. f_equal. lia. }
  rewrite Hl. assert (Hnx : ∀ k, (k < n)%nat → nx sl_compress_init (S k) = k).
  { intros k Hk. unfold nx. by rewrite cs_at_init by lia. }
  constructor.
  - intros x r Hxr. change (path (nx sl_compress_init) ((x :: r) ++ [x])). rewrite <- Hxr.
    assert (x = n) as ->. { rewrite seq_S, reverse_snoc in Hxr. by injection Hxr. }
    cbn [seq]. rewrite reverse_cons, <- app_assoc. apply path_app. split.
    + rewrite <- reverse_cons. apply (path_down n). done.
    + split; [|done]. unfold nx. rewrite cs_at_init by lia. cbn. rewrite E. lia.
  - cbn [seq]. by rewrite reverse_cons, last_snoc.
  - rewrite E. apply reverse_Permutation.
  - cbn [sl_compress_init tstate]. by rewrite length_fmap, length_seq.
  - intros k Hk. by rewrite cs_at_init.
Qed.

Lemma sync_init : sync sl_compress_init sl_compress_init.
Proof.
  constructor; [eexists; apply ring_init| | |by left].
  - apply length_replicate.
  - intros k Hk. left. by rewrite cs_at_init.
Qed.

(** C33: over a line that loses nothing, the receiver rebuilds every packet
    exactly, whatever the mixture of connections, of compressible and other
    packets, of first-mbuf lengths and of the memory behind the buffers. *)
Theorem sl_roundtrip qs : Forall (λ q, pkt_ok q.2) qs →
  ∃ c d, transfers sl_compress_init sl_compress_init qs = Rd (Some <$> qs.*2, c, d).
Proof.
  intros Hq. destruct (transfers_step qs _ _ sync_init Hq) as (c & d & Ht & _). by exists c, d.
Qed.
End Line.

End SlCompress.

(** ** The macros of 4.4BSD *)

Definition bsd_encode (z : bool) (n : Z) : bytes :=
  let n := u16 n in
  if (256 <=? n) || (z && (n =? 0)) then [0; n / 256; n mod 256] else [n].

Definition bsd_decode (cp : bytes) : rd (Z * bytes) :=
  match cp with
  | 0 :: a :: b :: r => Rd (256 * a + b, r)
  | 0 :: _ => RdFault
  | n :: r => Rd (n, r)
  | [] => RdFault
  end.

#[export] Instance bsd_sl : SlDefs := {
  MAX_STATES := 3;
  NEW_C := 64; NEW_I := 32; TCP_PUSH_BIT := 16; NEW_S := 8; NEW_A := 4; NEW_W := 2; NEW_U := 1;
  TH_FIN := 1; TH_SYN := 2; TH_RST := 4; TH_PUSH := 8; TH_ACK := 16; TH_URG := 32;
  IPPROTO_TCP := 6;
  ENCODE := bsd_encode false;
  ENCODEZ := bsd_encode true;
  DECODEL f cp := rd_bind (bsd_decode cp) (λ '(n, r), Rd (u32 (f + n), r));
  DECODES f cp := rd_bind (bsd_decode cp) (λ '(n, r), Rd (u16 (f + n), r));
  DECODEU f cp := bsd_decode cp;
  sl_stats := counter → Z;
  sl_stats_zero := λ _, 0;
  INCR k s := λ j, match k, j with
    | sls_packets, sls_packets | sls_compressed, sls_compressed
    | sls_searches, sls_searches | sls_misses, sls_misses
    | sls_uncompressedin, sls_uncompressedin | sls_compressedin, sls_compressedin
    | sls_errorin, sls_errorin | sls_tossed, sls_tossed => s j + 1
    | _, _ => s j
    end
}.

Lemma bsd_decode_encode z n r : (z = true ∨ 0 < n < 65536) →
  bsd_decode (bsd_encode z n ++ r) = Rd (u16 n, r).
Proof.
  intros Hz. unfold bsd_encode. pose proof (u16_range n) as Hr.
  assert (Hd : 256 * (u16 n / 256) + u16 n mod 256 = u16 n) by (symmetry; apply Z.div_mod; lia).
  destruct (Z.leb_spec 256 (u16 n)); cbn [orb]; [cbn; by rewrite Hd|].
  destruct (Z.eqb_spec (u16 n) 0) as [E|E].
  - destruct z; [cbn; by rewrite Hd|]. destruct Hz as [|Hz]; [done|]. rewrite u16_id in E; lia.
  - rewrite andb_false_r. cbn [app bsd_decode]. by destruct (u16 n).
Qed.

#[export] Instance bsd_sl_laws : SlDefsLaws.
Proof.
  assert (Hlen : ∀ z n, zlen (bsd_encode z n) <= 3) by (intros z n; unfold bsd_encode; by case_match).
  constructor; [cbn; lia|done|done|done| | | | |apply Hlen|apply Hlen].
  - intros f n r Hn. cbn. rewrite bsd_decode_encode by auto. cbn. by rewrite (u16_id n) by lia.
  - intros f n r Hn. cbn. rewrite bsd_decode_encode by auto. cbn. by rewrite (u16_id n) by lia.
  - intros f n r. cbn. rewrite bsd_decode_encode by auto. cbn. unfold u16.
    by rewrite Zplus_mod_idemp_r.
  - intros f n r. cbn. by rewrite bsd_decode_encode by auto.
Qed.

(** ** Examples *)

(** A segment of 40 bytes of headers; the checksum is filled in. *)
Definition demo_packet (ports seq ack id flags urp : Z) (data : bytes) : packet :=
  let i sum := MkIp 4 5 0 (40 + zlen data) id 0 64 6 sum 167772161 167772162 [] in
  let t := MkTcp ports seq ack 0 5 flags 8192 4660 urp [] in
  MkPacket (MkHdr (i (ip_checksum true (i 0))) t) data.

Definition demo_line : list (Z * bool * bytes * packet) :=
  [(41, true, [], demo_packet 1000 100 7 1 16 0 [1]);
   (41, true, [], demo_packet 1000 101 7 2 24 0 [2]);
   (42, true, [9], demo_packet 2000 500 9 7 24 0 [3; 4]);
   (41, true, [], demo_packet 1000 102 8 3 48 5 [5]);
   (40, false, [], demo_packet 1000 103 8 4 2 0 [])].

(** The kinds of frame the segments travel in, and their sizes. *)
Definition frame_size (f : frame) : Z * Z :=
  match f with
  | TYPE_IP p => (0, 40 + zlen (p_data p))
  | TYPE_UNCOMPRESSED_TCP p => (1, 40 + zlen (p_data p))
  | TYPE_COMPRESSED_TCP b => (2, zlen b)
  end.

Fixpoint frames (c : slcompress) (qs : list (Z * bool * bytes * packet)) : list (Z * Z) :=
  match qs with
  | [] => []
  | (m_len, cid, _, p) :: qs =>
      match sl_compress_tcp true m_len p cid c with
      | Rd (f, c) => frame_size f :: frames c qs
      | _ => []
      end
  end.

Example demo_frames : frames sl_compress_init demo_line = [(1, 41); (2, 4); (1, 42); (2, 8); (0, 40)].
Proof. vm_compute. reflexivity. Qed.

Lemma demo_packet_ok ports seq ack id flags urp data :
  0 <= seq < 65536 → 0 <= ack < 65536 → 0 <= id < 65536 → 0 <= flags < 64 → 0 <= urp < 65536 →
  (Z.land flags 32 ≠ 0 ↔ urp ≠ 0) → zlen data <= 1000 →
  pkt_ok true (demo_packet ports seq ack id flags urp data).
Proof.
  intros Hs Ha Hid Hf Hu Hfu Hd. pose proof (zlen_nonneg data).
  assert (Hi : ∀ s, ip_ok (MkIp 4 5 0 (40 + zlen data) id 0 64 6 s 167772161 167772162 [])).
  { intros s. unfold ip_ok, is_byte. cbn. split_and!; try lia; constructor. }
  unfold pkt_ok, demo_packet. cbn [p_hdr p_data h_ip h_th]. split_and!; try apply Hi; try done.
  - unfold th_ok. cbn. split_and!; try lia; done.
  - unfold set_ip_sum. cbn [h_ip ip_sum ip_v ip_hl ip_tos ip_len ip_id ip_off ip_ttl ip_p ip_src ip_dst ip_opts].
    by apply ip_checksum_rfc1071.
  - apply Hf.
  - apply Hf.
Qed.

Lemma sl_roundtrip_witness : ∃ c d,
  transfers true sl_compress_init sl_compress_init demo_line = Rd (Some <$> demo_line.*2, c, d).
Proof.
  apply (@sl_roundtrip bsd_sl true bsd_sl_laws). unfold demo_line.
  repeat (apply Forall_cons_2; [apply demo_packet_ok; [lia|lia|lia|lia|lia|done|done]|]).
  apply Forall_nil_2.
Defined.

Lemma find_conn_lru_witness :
  let c := sl_compress_init in let h := p_hdr (demo_packet 1000 100 7 1 16 0 []) in
  let l := reverse (seq 1 (MAX_STATES - 1)) ++ [0%nat] in
  let '(y, found) := lru_find h c l in
  ∃ c', find_conn h c = Rd (y, found, c') ∧ y ∈ l ∧
    ring c' (lru_touch y l) ∧ same_but_order c c'.
Proof. cbv zeta. apply (@find_conn_lru bsd_sl bsd_sl_laws). apply ring_init. Defined.

(** *** What the compressed form cannot say *)

Definition rebuilt (qs : list (Z * bool * bytes * packet)) : list (option packet) :=
  match transfers true sl_compress_init sl_compress_init qs with Rd (r, _, _) => r | _ => [] end.

(** The urgent flag of a connection stays set when the next segment moves the
    sequence number by the length of the last one and keeps the urgent
    pointer without the flag. *)
Lemma urgent_flag_sticks :
  let p := demo_packet 1000 101 7 2 16 5 [2] in
  let q := demo_packet 1000 101 7 2 48 5 [2] in
  rebuilt [(41, true, [], demo_packet 1000 100 7 1 48 5 [1]); (41, true, [], p)] =
    [Some (demo_packet 1000 100 7 1 48 5 [1]); Some q].
Proof. vm_compute. reflexivity. Qed.

(** The reserved bits of the flags are those of the last uncompressed
    segment. *)
Lemma reserved_bits_lost :
  rebuilt [(41, true, [], demo_packet 1000 100 7 1 16 0 [1]);
           (41, true, [], demo_packet 1000 101 7 2 80 0 [2])] =
    [Some (demo_packet 1000 100 7 1 16 0 [1]); Some (demo_packet 1000 101 7 2 16 0 [2])].
Proof. vm_compute. reflexivity. Qed.

(** A compressed packet for a connection of which no headers are known is
    not refused. *)
Lemma unknown_connection_faults :
  match sl_uncompress_tcp true (TYPE_COMPRESSED_TCP [64; 2; 0; 0; 1]) [] sl_compress_init with
  | RdFault => true | _ => false end = true.
Proof. vm_compute. reflexivity. Qed.
