(* ===== verification/PppFrame.v ===== *)
(** * Asynchronous framing of PPP ([if_ppp.c])

    The network interface below the protocols of PPP: packets are queued by
    [pppoutput], given a compressed header by [ppp_dequeue], and written to the
    serial line with a frame check sequence, the special characters escaped
    ([ppp_wrt_task], [ppp_wrt_flush]).  Received characters come through
    [pppintr] and [ppp_tty_read] to [pppinput], which undoes all this in place
    in its input mbufs and hands packets to [ppppktin].

    An output packet is the list of the bytes of its mbufs, an input mbuf
    ([ibuf]) its cluster's size, the offset of the data and the data.  The
    constants of [ppp_defs.h] and the macro [PPP_FCS] are the class
    [FrameDefs]; the serial driver, the mbuf pool, the header compressor (file
    SlCompress, here on bytes) and the stack above are the class [PppEnv].
    Printing and statistics other than [if_ierrors] are left out. *)
From Stdlib Require Import ZArith Lia Bool.
From stdpp Require Import base tactics list numbers option.
From S2P Require Import Prelude.

Local Open Scope Z_scope.

(** ** What comes from the headers *)

Class FrameDefs := {
  PPP_FLAG : Z; PPP_ESCAPE : Z; PPP_TRANS : Z; PPP_ALLSTATIONS : Z; PPP_UI : Z;
  PPP_INITFCS : Z; PPP_GOODFCS : Z; PPP_HDRLEN : Z; PPP_FCSLEN : Z;
  PPP_IP : Z; PPP_LCP : Z; PPP_VJC_COMP : Z; PPP_VJC_UNCOMP : Z;
  PPP_MTU : Z; PPP_MRU : Z; PPP_MAXMRU : Z;
  MAX_HDR : Z; MAX_STATES : Z; IFQ_MAXLEN : Z;
  PPP_FCS : (Z → Z) → Z → Z → Z;                    (** table, sequence, character *)
  TYPE_IP : Z; TYPE_UNCOMPRESSED_TCP : Z; TYPE_COMPRESSED_TCP : Z;
  IPPROTO_TCP : Z;
  ENETDOWN : Z; ENOBUFS : Z; EAFNOSUPPORT : Z; EINVAL : Z
}.

Class FrameDefsLaws `{FrameDefs} := {
  frame_chars : (PPP_FLAG, PPP_ESCAPE, PPP_TRANS) = (126, 125, 32);
  frame_header : (PPP_ALLSTATIONS, PPP_UI, PPP_HDRLEN, PPP_FCSLEN) = (255, 3, 4, 2);
  frame_fcs : (PPP_INITFCS, PPP_GOODFCS) = (65535, 61624);
  PPP_FCS_eq tab fcs c : PPP_FCS tab fcs c = Z.lxor (Z.shiftr fcs 8) (tab (Z.land (Z.lxor fcs c) 255));
  frame_ip : PPP_IP = 33;
  mru_range : 0 < PPP_MRU <= PPP_MAXMRU;
  MAX_HDR_range : 0 <= MAX_HDR
}.

Class PppEnv (E : Type) := {
  mHdrClGet : Z → E → option Z * E;                 (** the size of the cluster *)
  twrite : bytes → E → Z * E;                       (** [write] on the line *)
  fionwrite : E → Z;                                (** characters waiting for the line *)
  line : E → bytes;                                 (** all that was written *)
  m_prepend : E → bool * E;
  output_hook : bytes → E → bool * E;
  input_hook : bytes → E → bool * E;
  sl_compress_tcp : bytes → bool → E → Z * bytes * E;   (** from the IP header on *)
  sl_uncompress_tcp : bytes → Z → E → option bytes * E;
  sl_error : E → E;                                 (** [TYPE_ERROR] *)
  sl_compress_init : E → E;
  ip_full : E → bool;
  ip_enqueue : bytes → E → E;                       (** [IF_ENQUEUE], [ipintr] *)
  kick : E → E                                      (** [semGive], [kill] *)
}.

(** The driver writes a prefix. *)
Class PppEnvLaws E `{PppEnv E} := {
  twrite_spec b e : let '(cc, e') := twrite b e in
    cc <= zlen b ∧ line e' = line e ++ ztake cc b;
  cluster_size n e s : (mHdrClGet n e).1 = Some s → 4 <= s;
  mHdrClGet_line n e : line (mHdrClGet n e).2 = line e
}.

(** ** The frame check sequence *)

(** [fcstab], by rows of sixteen. *)
Definition fcstab_rows : list (list Z) :=
  [[0x0000; 0x1189; 0x2312; 0x329b; 0x4624; 0x57ad; 0x6536; 0x74bf; 0x8c48; 0x9dc1; 0xaf5a; 0xbed3; 0xca6c; 0xdbe5; 0xe97e; 0xf8f7];
   [0x1081; 0x0108; 0x3393; 0x221a; 0x56a5; 0x472c; 0x75b7; 0x643e; 0x9cc9; 0x8d40; 0xbfdb; 0xae52; 0xdaed; 0xcb64; 0xf9ff; 0xe876];
   [0x2102; 0x308b; 0x0210; 0x1399; 0x6726; 0x76af; 0x4434; 0x55bd; 0xad4a; 0xbcc3; 0x8e58; 0x9fd1; 0xeb6e; 0xfae7; 0xc87c; 0xd9f5];
   [0x3183; 0x200a; 0x1291; 0x0318; 0x77a7; 0x662e; 0x54b5; 0x453c; 0xbdcb; 0xac42; 0x9ed9; 0x8f50; 0xfbef; 0xea66; 0xd8fd; 0xc974];
   [0x4204; 0x538d; 0x6116; 0x709f; 0x0420; 0x15a9; 0x2732; 0x36bb; 0xce4c; 0xdfc5; 0xed5e; 0xfcd7; 0x8868; 0x99e1; 0xab7a; 0xbaf3];
   [0x5285; 0x430c; 0x7197; 0x601e; 0x14a1; 0x0528; 0x37b3; 0x263a; 0xdecd; 0xcf44; 0xfddf; 0xec56; 0x98e9; 0x8960; 0xbbfb; 0xaa72];
   [0x6306; 0x728f; 0x4014; 0x519d; 0x2522; 0x34ab; 0x0630; 0x17b9; 0xef4e; 0xfec7; 0xcc5c; 0xddd5; 0xa96a; 0xb8e3; 0x8a78; 0x9bf1];
   [0x7387; 0x620e; 0x5095; 0x411c; 0x35a3; 0x242a; 0x16b1; 0x0738; 0xffcf; 0xee46; 0xdcdd; 0xcd54; 0xb9eb; 0xa862; 0x9af9; 0x8b70];
   [0x8408; 0x9581; 0xa71a; 0xb693; 0xc22c; 0xd3a5; 0xe13e; 0xf0b7; 0x0840; 0x19c9; 0x2b52; 0x3adb; 0x4e64; 0x5fed; 0x6d76; 0x7cff];
   [0x9489; 0x8500; 0xb79b; 0xa612; 0xd2ad; 0xc324; 0xf1bf; 0xe036; 0x18c1; 0x0948; 0x3bd3; 0x2a5a; 0x5ee5; 0x4f6c; 0x7df7; 0x6c7e];
   [0xa50a; 0xb483; 0x8618; 0x9791; 0xe32e; 0xf2a7; 0xc03c; 0xd1b5; 0x2942; 0x38cb; 0x0a50; 0x1bd9; 0x6f66; 0x7eef; 0x4c74; 0x5dfd];
   [0xb58b; 0xa402; 0x9699; 0x8710; 0xf3af; 0xe226; 0xd0bd; 0xc134; 0x39c3; 0x284a; 0x1ad1; 0x0b58; 0x7fe7; 0x6e6e; 0x5cf5; 0x4d7c];
   [0xc60c; 0xd785; 0xe51e; 0xf497; 0x8028; 0x91a1; 0xa33a; 0xb2b3; 0x4a44; 0x5bcd; 0x6956; 0x78df; 0x0c60; 0x1de9; 0x2f72; 0x3efb];
   [0xd68d; 0xc704; 0xf59f; 0xe416; 0x90a9; 0x8120; 0xb3bb; 0xa232; 0x5ac5; 0x4b4c; 0x79d7; 0x685e; 0x1ce1; 0x0d68; 0x3ff3; 0x2e7a];
   [0xe70e; 0xf687; 0xc41c; 0xd595; 0xa12a; 0xb0a3; 0x8238; 0x93b1; 0x6b46; 0x7acf; 0x4854; 0x59dd; 0x2d62; 0x3ceb; 0x0e70; 0x1ff9];
   [0xf78f; 0xe606; 0xd49d; 0xc514; 0xb1ab; 0xa022; 0x92b9; 0x8330; 0x7bc7; 0x6a4e; 0x58d5; 0x495c; 0x3de3; 0x2c6a; 0x1ef1; 0x0f78]].

Definition fcstab (i : Z) : Z := nth (Z.to_nat i) (concat fcstab_rows) 0.

Section Frame.
Context `{!FrameDefs}.

Definition pppfcs (fcs : Z) (cp : bytes) : Z := fold_left (PPP_FCS fcstab) cp fcs.

(** ** State *)

Inductive scflag := SC_COMP_PROT | SC_COMP_AC | SC_COMP_TCP | SC_NO_TCP_CCID | SC_REJ_COMP_AC
  | SC_REJ_COMP_TCP | SC_ENABLE_IP | SC_RCV_B7_0 | SC_RCV_B7_1 | SC_RCV_ODDP | SC_RCV_EVNP
  | SC_FLUSH | SC_ESCAPED | SC_DISCARD_PKT.

#[export] Instance scflag_eq_dec : EqDecision scflag.
Proof. solve_decision. Defined.

Record ibuf := MkIb { ib_size : Z; ib_off : Z; ib_data : bytes }.

Record ppp_softc := MkSc {
  sc_flags : scflag → bool;
  sc_asyncmap : list Z;          (** eight words of 32 bits *)
  sc_rasyncmap : Z;
  sc_mru : Z;
  sc_open : bool;                (** [sc_fd] is not 0 *)
  if_up : bool; if_running : bool;
  if_mtu : Z;
  sc_fastq : list (list bytes);
  if_snd : list (list bytes);
  sc_inq : list (list bytes);
  sc_outm : option (list bytes);
  sc_outfcs : Z;
  sc_m : list ibuf;              (** the input mbufs *)
  sc_mc : nat;                   (** the current one *)
  sc_fcs : Z;
  sc_ilen : Z;
  sc_qlen : Z;
  if_ierrors : Z
}.

Definition set_scflag (f : scflag) (b : bool) (sc : ppp_softc) : ppp_softc :=
  MkSc (λ g, if decide (f = g) then b else sc_flags sc g) (sc_asyncmap sc) (sc_rasyncmap sc) (sc_mru sc)
    (sc_open sc) (if_up sc) (if_running sc) (if_mtu sc) (sc_fastq sc) (if_snd sc) (sc_inq sc) (sc_outm sc)
    (sc_outfcs sc) (sc_m sc) (sc_mc sc) (sc_fcs sc) (sc_ilen sc) (sc_qlen sc) (if_ierrors sc).
Definition set_maps (a : list Z) (r : Z) (sc : ppp_softc) : ppp_softc :=
  MkSc (sc_flags sc) a r (sc_mru sc) (sc_open sc) (if_up sc) (if_running sc) (if_mtu sc) (sc_fastq sc)
    (if_snd sc) (sc_inq sc) (sc_outm sc) (sc_outfcs sc) (sc_m sc) (sc_mc sc) (sc_fcs sc) (sc_ilen sc)
    (sc_qlen sc) (if_ierrors sc).
Definition set_mru (v : Z) (sc : ppp_softc) : ppp_softc :=
  MkSc (sc_flags sc) (sc_asyncmap sc) (sc_rasyncmap sc) v (sc_open sc) (if_up sc) (if_running sc) (if_mtu sc)
    (sc_fastq sc) (if_snd sc) (sc_inq sc) (sc_outm sc) (sc_outfcs sc) (sc_m sc) (sc_mc sc) (sc_fcs sc)
    (sc_ilen sc) (sc_qlen sc) (if_ierrors sc).
Definition set_if (up running : bool) (mtu : Z) (sc : ppp_softc) : ppp_softc :=
  MkSc (sc_flags sc) (sc_asyncmap sc) (sc_rasyncmap sc) (sc_mru sc) (sc_open sc) up running mtu
    (sc_fastq sc) (if_snd sc) (sc_inq sc) (sc_outm sc) (sc_outfcs sc) (sc_m sc) (sc_mc sc) (sc_fcs sc)
    (sc_ilen sc) (sc_qlen sc) (if_ierrors sc).
Definition set_outq (fast snd : list (list bytes)) (sc : ppp_softc) : ppp_softc :=
  MkSc (sc_flags sc) (sc_asyncmap sc) (sc_rasyncmap sc) (sc_mru sc) (sc_open sc) (if_up sc) (if_running sc)
    (if_mtu sc) fast snd (sc_inq sc) (sc_outm sc) (sc_outfcs sc) (sc_m sc) (sc_mc sc) (sc_fcs sc)
    (sc_ilen sc) (sc_qlen sc) (if_ierrors sc).
Definition set_inq (q : list (list bytes)) (sc : ppp_softc) : ppp_softc :=
  MkSc (sc_flags sc) (sc_asyncmap sc) (sc_rasyncmap sc) (sc_mru sc) (sc_open sc) (if_up sc) (if_running sc)
    (if_mtu sc) (sc_fastq sc) (if_snd sc) q (sc_outm sc) (sc_outfcs sc) (sc_m sc) (sc_mc sc) (sc_fcs sc)
    (sc_ilen sc) (sc_qlen sc) (if_ierrors sc).
Definition set_out (m : option (list bytes)) (fcs : Z) (sc : ppp_softc) : ppp_softc :=
  MkSc (sc_flags sc) (sc_asyncmap sc) (sc_rasyncmap sc) (sc_mru sc) (sc_open sc) (if_up sc) (if_running sc)
    (if_mtu sc) (sc_fastq sc) (if_snd sc) (sc_inq sc) m fcs (sc_m sc) (sc_mc sc) (sc_fcs sc)
    (sc_ilen sc) (sc_qlen sc) (if_ierrors sc).
Definition set_in (m : list ibuf) (mc : nat) (fcs ilen : Z) (sc : ppp_softc) : ppp_softc :=
  MkSc (sc_flags sc) (sc_asyncmap sc) (sc_rasyncmap sc) (sc_mru sc) (sc_open sc) (if_up sc) (if_running sc)
    (if_mtu sc) (sc_fastq sc) (if_snd sc) (sc_inq sc) (sc_outm sc) (sc_outfcs sc) m mc fcs ilen (sc_qlen sc)
    (if_ierrors sc).
Definition set_qlen (v : Z) (sc : ppp_softc) : ppp_softc :=
  MkSc (sc_flags sc) (sc_asyncmap sc) (sc_rasyncmap sc) (sc_mru sc) (sc_open sc) (if_up sc) (if_running sc)
    (if_mtu sc) (sc_fastq sc) (if_snd sc) (sc_inq sc) (sc_outm sc) (sc_outfcs sc) (sc_m sc) (sc_mc sc)
    (sc_fcs sc) (sc_ilen sc) v (if_ierrors sc).
Definition ierror (sc : ppp_softc) : ppp_softc :=
  MkSc (sc_flags sc) (sc_asyncmap sc) (sc_rasyncmap sc) (sc_mru sc) (sc_open sc) (if_up sc) (if_running sc)
    (if_mtu sc) (sc_fastq sc) (if_snd sc) (sc_inq sc) (sc_outm sc) (sc_outfcs sc) (sc_m sc) (sc_mc sc)
    (sc_fcs sc) (sc_ilen sc) (sc_qlen sc) (if_ierrors sc + 1).

(** [ESCAPE_P]. *)
Definition ESCAPE_P (asyncmap : list Z) (c : Z) : bool :=
  Z.testbit (nth (Z.to_nat (Z.shiftr c 5)) asyncmap 0) (Z.land c 31).

Section Env.
Context {E : Type} `{!PppEnv E}.
Implicit Types (sc : ppp_softc) (e : E).

(** ** Opening, and requests to the line *)

Definition HDROFF : Z := MAX_HDR.

(** Input mbufs until there is room for a packet of the MRU; the result is
    whether there is.  A cluster has at least a byte, so that [len] rounds are
    enough. *)
Fixpoint getm_new (n : nat) (len : Z) (e : E) : Z * list ibuf * E :=
  match n with
  | O => (len, [], e)
  | S n =>
      if 0 <? len then
        let '(s, e) := mHdrClGet len e in
        match s with
        | None => (len, [], e)
        | Some s => let '(len, l, e) := getm_new n (len - s) e in (len, MkIb s 0 [] :: l, e)
        end
      else (len, [], e)
  end.

Fixpoint getm_walk (l : list ibuf) (len : Z) (e : E) : Z * list ibuf * E :=
  if 0 <? len then
    match l with
    | [] => getm_new (Z.to_nat len) len e
    | b :: l => let '(len, l, e) := getm_walk l (len - ib_size b) e in (len, b :: l, e)
    end
  else (len, l, e).

Definition pppgetm sc e : bool * ppp_softc * E :=
  let '(len, l, e) := getm_walk (sc_m sc) (HDROFF + sc_mru sc + PPP_HDRLEN + PPP_FCSLEN) e in
  (len <=? 0, set_in l (sc_mc sc) (sc_fcs sc) (sc_ilen sc) sc, e).

(** [pppalloc] and [pppopen], the device and the task given. *)
Definition pppopen e : option ppp_softc * E :=
  let sc := MkSc (λ _, false) [0; 0; 0; 0; 0; 0; 0; 0] 0 PPP_MRU true false true PPP_MTU
              [] [] [] None 0 [] 0 0 0 0 0 in
  let e := sl_compress_init e in
  let '(ok, sc, e) := pppgetm sc e in
  if negb ok then (None, e)
  else (Some (set_maps [0xffffffff; 0; 0; 0x60000000; 0; 0; 0; 0] 0 sc), e).

(** [pinit], which the interface's start calls. *)
Definition pinit sc : ppp_softc := set_if true true (if_mtu sc) sc.

(** The requests of [ppptioctl] that change something; [PPPIOCSFLAGS] sets the
    flags that are in [SC_MASK]. *)
Inductive tioctl :=
  | PPPIOCSFLAGS (mask : scflag → bool) (flags : scflag → bool)
  | PPPIOCSASYNCMAP (v : Z) | PPPIOCSRASYNCMAP (v : Z) | PPPIOCSXASYNCMAP (v : list Z)
  | PPPIOCSMRU (v : Z) | PPPIOCSMAXCID (v : Z) | SIOCSIFMTU (v : Z).

Definition xasyncmap (v : list Z) : list Z :=
  match v with
  | a :: _ :: c :: d :: r => a :: 0 :: Z.ldiff c 0x40000000 :: Z.lor d 0x60000000 :: r
  | _ => v
  end.

Definition ppptioctl (cmd : tioctl) sc e : Z * ppp_softc * E :=
  match cmd with
  | PPPIOCSFLAGS mask flags =>
      (0, MkSc (λ f, if mask f then flags f else sc_flags sc f) (sc_asyncmap sc) (sc_rasyncmap sc) (sc_mru sc)
            (sc_open sc) (if_up sc) (if_running sc) (if_mtu sc) (sc_fastq sc) (if_snd sc) (sc_inq sc)
            (sc_outm sc) (sc_outfcs sc) (sc_m sc) (sc_mc sc) (sc_fcs sc) (sc_ilen sc) (sc_qlen sc)
            (if_ierrors sc), e)
  | PPPIOCSASYNCMAP v => (0, set_maps (v :: tail (sc_asyncmap sc)) (sc_rasyncmap sc) sc, e)
  | PPPIOCSRASYNCMAP v => (0, set_maps (sc_asyncmap sc) v sc, e)
  | PPPIOCSXASYNCMAP v => (0, set_maps (xasyncmap v) (sc_rasyncmap sc) sc, e)
  | PPPIOCSMRU mru =>
      if (PPP_MRU <=? mru) && (mru <=? PPP_MAXMRU) then
        let '(ok, sc, e) := pppgetm (set_mru mru sc) e in
        if ok then (0, sc, e)
        else
          let '(ok, sc, e) := pppgetm (set_mru PPP_MRU sc) e in
          (ENOBUFS, if ok then sc else set_if false (if_running sc) (if_mtu sc) sc, e)
      else (0, sc, e)
  | PPPIOCSMAXCID v => if MAX_STATES <? v then (EINVAL, sc, e) else (0, sc, sl_compress_init e)
  | SIOCSIFMTU v => (0, set_if (if_up sc) (if_running sc) v sc, e)
  end.

(** ** Output *)

Definition interactive_ports : list Z := [0; 513; 0; 0; 0; 21; 0; 23].
Definition INTERACTIVE (p : Z) : bool := nth (Z.to_nat (Z.land p 7)) interactive_ports 0 =? p.

(** Whether a packet, whose IP header is in the first mbuf, goes ahead of the
    others. *)
Definition interactive (ip : bytes) : bool :=
  (nth 9 ip 0 =? IPPROTO_TCP) &&
  let ports := zdrop (4 * Z.land (nth 0 ip 0) 15) ip in
  (INTERACTIVE (nth 2 ports 0 * 256 + nth 3 ports 0) || INTERACTIVE (nth 0 ports 0 * 256 + nth 1 ports 0)).

Inductive family := AF_INET | AF_UNSPEC (address control protocol : Z) | AF_OTHER.

Definition qfull {A} (q : list A) : bool := IFQ_MAXLEN <=? zlen q.

(** [room]: the first mbuf has space before its data for the header. *)
Definition pppoutput (dst : family) (room : bool) (m0 : list bytes) sc e : Z * ppp_softc * E :=
  if (negb (sc_open sc) || negb (if_running sc) || negb (if_up sc)) &&
     match dst with AF_UNSPEC _ _ _ => false | _ => true end
  then (ENETDOWN, sc, e)
  else
    let '(err, fast, (address, control, protocol)) :=
      match dst with
      | AF_INET =>
          (if sc_flags sc SC_ENABLE_IP then 0 else ENETDOWN, interactive (hd [] m0), (PPP_ALLSTATIONS, PPP_UI, PPP_IP))
      | AF_UNSPEC a c p => (0, false, (a, c, p))
      | AF_OTHER => (EAFNOSUPPORT, false, (0, 0, 0))
      end in
    if negb (err =? 0) then (err, sc, e)
    else
      let '(ok, e) := if room then (true, e) else m_prepend e in
      if negb ok then (ENOBUFS, sc, e)
      else
        let hdr := [u8 address; u8 control; u8 (Z.shiftr protocol 8); u8 protocol] in
        let m := if room then (hdr ++ hd [] m0) :: tail m0 else hdr :: m0 in
        let '(took, e) := output_hook (concat m) e in
        if took then (0, sc, e)
        else if qfull (if fast then sc_fastq sc else if_snd sc) then (ENOBUFS, sc, e)
        else
          (0, if fast then set_outq (sc_fastq sc ++ [m]) (if_snd sc) sc
              else set_outq (sc_fastq sc) (if_snd sc ++ [m]) sc, kick e).

(** [pppwrite] of a packet with its header, in the mbufs [m]. *)
Definition pppwrite (m : list bytes) sc e : Z * ppp_softc * E :=
  match m with
  | (a :: c :: p1 :: p2 :: r) :: m => pppoutput (AF_UNSPEC a c (p1 * 256 + p2)) true (r :: m) sc e
  | _ => (-1, sc, e)
  end.

(** The TCP/IP header compression of a packet with protocol IP: the header is
    in the first mbuf or, when that holds only the PPP header, in the next.
    The result is the type. *)
Definition vj_compress (m : list bytes) sc e : Z * list bytes * E :=
  match m with
  | h :: r =>
      if PPP_HDRLEN <? zlen h then
        let '(type, b, e) := sl_compress_tcp (zdrop PPP_HDRLEN h) (negb (sc_flags sc SC_NO_TCP_CCID)) e in
        (type, (ztake PPP_HDRLEN h ++ b) :: r, e)
      else
        match r with
        | b :: r =>
            let '(type, b, e) := sl_compress_tcp b (negb (sc_flags sc SC_NO_TCP_CCID)) e in
            (type, h :: b :: r, e)
        | [] => (TYPE_IP, m, e)
        end
  | [] => (TYPE_IP, m, e)
  end.

(** The byte of the IP header with the protocol. *)
Definition ip_p_of (m : list bytes) : Z :=
  match m with
  | h :: r => if PPP_HDRLEN <? zlen h then nth 9 (zdrop PPP_HDRLEN h) 0 else nth 9 (hd [] r) 0
  | [] => 0
  end.

Definition vj_output (m : list bytes) sc e : Z * list bytes * E :=
  if sc_flags sc SC_COMP_TCP && (ip_p_of m =? IPPROTO_TCP) then
    let '(type, m, e) := vj_compress m sc e in
    let protocol := if type =? TYPE_UNCOMPRESSED_TCP then PPP_VJC_UNCOMP
                    else if type =? TYPE_COMPRESSED_TCP then PPP_VJC_COMP else PPP_IP in
    match m with
    | (a :: c :: p1 :: p2 :: h) :: r =>
        (protocol, (a :: c :: (if type =? TYPE_COMPRESSED_TCP then 0 else p1) :: u8 protocol :: h) :: r, e)
    | _ => (protocol, m, e)
    end
  else (PPP_IP, m, e).

(** "Compress the address/control and protocol, if possible." *)
Definition compress_header (protocol : Z) (cp : bytes) sc : bytes :=
  let ac := sc_flags sc SC_COMP_AC && (nth 0 cp 0 =? PPP_ALLSTATIONS) && (nth 1 cp 0 =? PPP_UI) &&
            negb (protocol =? PPP_ALLSTATIONS) && negb (protocol =? PPP_LCP) in
  let b := if ac then zdrop 2 cp else cp in
  if sc_flags sc SC_COMP_PROT && (protocol <? 255) then
    if ac then zdrop 1 b
    else zdrop 1 (nth 0 cp 0 :: nth 0 cp 0 :: nth 1 cp 0 :: zdrop 3 cp)
  else b.

Definition ppp_dequeue sc e : option (list bytes) * ppp_softc * E :=
  match sc_fastq sc, if_snd sc with
  | [], [] => (None, sc, e)
  | m :: fast, snd | [] as fast, m :: snd =>
      let sc := set_outq fast snd sc in
      let cp := hd [] m in
      let protocol := nth 2 cp 0 * 256 + nth 3 cp 0 in
      let '(protocol, m, e) := if protocol =? PPP_IP then vj_output m sc e else (protocol, m, e) in
      (Some (compress_header protocol (hd [] m) sc :: tail m), sc, e)
  end.

(** The bytes before the first that is to be escaped. *)
Fixpoint plain_run (asyncmap : list Z) (b : bytes) : bytes :=
  match b with
  | [] => []
  | c :: r => if ESCAPE_P asyncmap c then [] else c :: plain_run asyncmap r
  end.

(** The [for] loop over [write]: every call is given the whole run.  The result
    is [nleft]; it decreases by at least one in each round. *)
Fixpoint write_run (n : nat) (run : bytes) (nleft : Z) e : Z * E :=
  match n with
  | O => (nleft, e)
  | S n =>
      if 0 <? nleft then
        let '(cc, e) := twrite run e in
        if cc <=? 0 then (nleft, e) else write_run n run (nleft - Z.min cc nleft) e
      else (nleft, e)
  end.

(** The [while] loop over an mbuf; the result is what could not be written.
    Every round takes at least a character. *)
Fixpoint put_mbuf (n : nat) (asyncmap : list Z) (b : bytes) e : bytes * E :=
  match n with
  | O => (b, e)
  | S n =>
      match b with
      | [] => ([], e)
      | _ =>
          let run := plain_run asyncmap b in
          let '(nleft, e) := write_run (length run) run (zlen run) e in
          let b := zdrop (zlen run - nleft) b in
          if 0 <? nleft then (b, e)
          else
            match b with
            | [] => ([], e)
            | c :: r =>
                let '(cc, e) := twrite [PPP_ESCAPE] e in
                if negb (cc =? 1) then (b, e)
                else
                  let '(cc, e) := twrite [Z.lxor c PPP_TRANS] e in
                  if negb (cc =? 1) then (b, e) else put_mbuf n asyncmap r e
            end
      end
  end.

Definition escape (asyncmap : list Z) (c : Z) : bytes :=
  if ESCAPE_P asyncmap c then [PPP_ESCAPE; Z.lxor c PPP_TRANS] else [c].

(** The sequence and the closing flag. *)
Definition endseq (asyncmap : list Z) (fcs : Z) : bytes :=
  escape asyncmap (Z.land (Z.lnot fcs) 255) ++ escape asyncmap (Z.land (Z.shiftr (Z.lnot fcs) 8) 255) ++ [PPP_FLAG].

(** The mbufs of a packet, the sequence of the first computed; whatever the
    outcome, the packet is given up. *)
Fixpoint put_chain (asyncmap : list Z) (m : list bytes) (fcs : Z) e : E :=
  match m with
  | [] => e
  | b :: r =>
      let '(rest, e) := put_mbuf (length b) asyncmap b e in
      match rest, r with
      | _ :: _, _ => e                                   (* the rest does not fit *)
      | [], [] => (twrite (endseq asyncmap fcs) e).2
      | [], b' :: _ => put_chain asyncmap r (pppfcs fcs b') e
      end
  end.

(** The loop over the packets, the body of [ppp_wrt_task] and [ppp_wrt_flush];
    every round takes a packet. *)
Fixpoint wrt_loop (n : nat) sc e : ppp_softc * E :=
  match n with
  | O => (sc, e)
  | S n =>
      match sc_outm sc with
      | Some m => wrt_loop n (set_out None (sc_outfcs sc) sc) (put_chain (sc_asyncmap sc) m (sc_outfcs sc) e)
      | None =>
          let '(m, sc, e) := ppp_dequeue sc e in
          match m with
          | None => (sc, e)
          | Some m =>
              let e := if fionwrite e =? 0 then (twrite [PPP_FLAG] e).2 else e in
              let fcs := pppfcs PPP_INITFCS (hd [] m) in
              wrt_loop n (set_out None fcs sc) (put_chain (sc_asyncmap sc) m fcs e)
          end
      end
  end.

Definition packets_out sc : nat :=
  S (length (sc_fastq sc) + length (if_snd sc) + match sc_outm sc with Some _ => 1 | None => 0 end).

Definition ppp_wrt_flush sc e : ppp_softc * E := wrt_loop (packets_out sc) sc e.

(** ** Input *)

Definition COMPTYPE (proto : Z) : Z :=
  if proto =? PPP_VJC_COMP then TYPE_COMPRESSED_TCP else TYPE_UNCOMPRESSED_TCP.

Definition ib_set (off : Z) (d : bytes) (b : ibuf) : ibuf := MkIb (ib_size b) off d.

(** The IP packet of a VJ-compressed one, in place in the first mbuf; the
    length of that mbuf is corrected by that of the whole packet. *)
Definition vj_input (proto : Z) (m : list ibuf) sc e : option (list ibuf) * ppp_softc * E :=
  match m with
  | b :: r =>
      if sc_flags sc SC_REJ_COMP_TCP then (None, ierror sc, e)
      else if (proto =? PPP_VJC_COMP) && (ib_off b <? MAX_HDR) then (None, ierror sc, e)
      else
        let cp := ib_data b in
        let ilen := zlen (concat (ib_data <$> m)) - PPP_HDRLEN in
        let '(x, e) := sl_uncompress_tcp (zdrop PPP_HDRLEN cp) (COMPTYPE proto) e in
        match x with
        | None => (None, ierror sc, e)
        | Some x =>
            let len := zlen cp - PPP_HDRLEN + (zlen x + PPP_HDRLEN - ilen) in
            let d := ztake len (nth 0 cp 0 :: nth 1 cp 0 :: 0 :: PPP_IP :: x) in
            (Some (ib_set (ib_off b + zlen cp - zlen d) d b :: r), sc, e)
        end
  | [] => (None, sc, e)
  end.

Definition ppppktin (m : list ibuf) sc e : ppp_softc * E :=
  let cp := ib_data (hd (MkIb 0 0 []) m) in
  let proto := nth 2 cp 0 * 256 + nth 3 cp 0 in
  let vj := (proto =? PPP_VJC_COMP) || (proto =? PPP_VJC_UNCOMP) in
  let '(m, sc, e) := if vj then vj_input proto m sc e else (Some m, sc, e) in
  let proto := if vj then PPP_IP else proto in
  match m with
  | None => (sc, e)
  | Some m =>
      let m := ib_data <$> m in
      let '(took, e) := input_hook (concat m) e in
      if took then (sc, e)
      else if proto =? PPP_IP then
        if negb (if_up sc) || negb (sc_flags sc SC_ENABLE_IP) then (sc, e)
        else if ip_full e then (ierror sc, e)
        else (sc, ip_enqueue (zdrop PPP_HDRLEN (concat m)) e)
      else if qfull (sc_inq sc) then (ierror sc, e)
      else (set_inq (sc_inq sc ++ [m]) sc, kick e)
  end.

(** [pppread] of [count] bytes: the packet is consumed, [count] is the
    result. *)
Definition pppread (count : Z) sc : Z * bytes * ppp_softc :=
  match sc_inq sc with
  | [] => (0, [], sc)
  | m :: q => (count, ztake count (concat m), set_inq q sc)
  end.

Definition paritytab : list Z :=
  [0x96696996; 0x69969669; 0x69969669; 0x96696996; 0x69969669; 0x96696996; 0x96696996; 0x69969669].

Definition note_char (c : Z) sc : ppp_softc :=
  let sc := set_scflag (if Z.testbit c 7 then SC_RCV_B7_1 else SC_RCV_B7_0) true sc in
  set_scflag (if Z.testbit (nth (Z.to_nat (Z.shiftr c 5)) paritytab 0) (Z.land c 31)
              then SC_RCV_ODDP else SC_RCV_EVNP) true sc.

(** [flush:] *)
Definition flush sc : ppp_softc :=
  if sc_flags sc SC_FLUSH then sc else set_scflag SC_FLUSH true (ierror sc).

(** Characters stored in the current mbuf. *)
Definition store (cs : bytes) sc : ppp_softc :=
  set_in (alter (λ b, ib_set (ib_off b) (ib_data b ++ cs) b) (sc_mc sc) (sc_m sc)) (sc_mc sc) (sc_fcs sc)
    (sc_ilen sc + zlen cs) sc.

Definition trailingspace (b : ibuf) : Z := ib_size b - ib_off b - zlen (ib_data b).

(** "Initialize buffer on first octet received." *)
Definition first_octet (c : Z) sc e : bool * ppp_softc * E :=
  if sc_ilen sc =? 0 then
    let '(sc, e) := match sc_m sc with [] => let '(_, sc, e) := pppgetm sc e in (sc, e) | _ => (sc, e) end in
    match sc_m sc with
    | [] => (false, sc, e)
    | b :: r =>
        let off := if HDROFF + PPP_HDRLEN <=? ib_size b then HDROFF else 0 in
        let sc := set_in (ib_set off [] b :: r) 0 PPP_INITFCS 0 sc in
        if negb (c =? PPP_ALLSTATIONS) then
          if sc_flags sc SC_REJ_COMP_AC then (false, sc, e) else (true, store [PPP_ALLSTATIONS; PPP_UI] sc, e)
        else (true, sc, e)
    end
  else (true, sc, e).

(** "Is this mbuf full?" *)
Definition next_mbuf sc e : bool * ppp_softc * E :=
  match sc_m sc !! sc_mc sc with
  | None => (false, sc, e)
  | Some b =>
      if trailingspace b <=? 0 then
        let '(sc, e) :=
          match sc_m sc !! S (sc_mc sc) with
          | None => let '(_, sc, e) := pppgetm sc e in (sc, e)
          | Some _ => (sc, e)
          end in
        match sc_m sc !! S (sc_mc sc) with
        | None => (false, sc, e)
        | Some _ =>
            (true, set_in (alter (ib_set 0 []) (S (sc_mc sc)) (sc_m sc)) (S (sc_mc sc)) (sc_fcs sc) (sc_ilen sc) sc, e)
        end
      else (true, sc, e)
  end.

(** "Packet beyond configured mru?", and the character stored. *)
Definition octet_store (c : Z) sc e : ppp_softc * E :=
  let sc' := set_in (sc_m sc) (sc_mc sc) (sc_fcs sc) (sc_ilen sc + 1) sc in
  if sc_mru sc + PPP_HDRLEN + PPP_FCSLEN <? sc_ilen sc' then (flush sc', e)
  else
    let '(ok, sc, e) := next_mbuf sc' e in
    if negb ok then (flush sc, e)
    else
      let sc := store [c] (set_in (sc_m sc) (sc_mc sc) (sc_fcs sc) (sc_ilen sc - 1) sc) in
      (set_in (sc_m sc) (sc_mc sc) (PPP_FCS fcstab (sc_fcs sc) c) (sc_ilen sc) sc, e).

(** From "initialize buffer" to [flush:], a character after unescaping. *)
Definition octet (c : Z) sc e : ppp_softc * E :=
  let '(ok, sc, e) := first_octet c sc e in
  if negb ok then (flush sc, e)
  else if (sc_ilen sc =? 1) && negb (c =? PPP_UI) then (flush sc, e)
  else
    let sc := if (sc_ilen sc =? 2) && Z.testbit c 0 then store [0] sc else sc in
    if (sc_ilen sc =? 3) && negb (Z.testbit c 0) then (flush sc, e)
    else octet_store c sc e.

Definition chop (b : ibuf) : ibuf := ib_set (ib_off b) (ztake (zlen (ib_data b) - 1) (ib_data b)) b.

(** "Remove FCS trailer", and take the packet's mbufs off the chain. *)
Definition excise sc : list ibuf * ppp_softc :=
  let l := alter chop (sc_mc sc) (sc_m sc) in
  let mc := match l !! sc_mc sc with
            | Some b => if zlen (ib_data b) =? 0 then (sc_mc sc - 1)%nat else sc_mc sc
            | None => sc_mc sc
            end in
  let l := alter chop mc l in
  (take (S mc) l, set_in (drop (S mc) l) mc (sc_fcs sc) (sc_ilen sc) sc).

(** A flag: the end of a packet, which is the result if it is in order. *)
Definition frame_end sc e : option (list ibuf) * ppp_softc * E :=
  let ilen := sc_ilen sc in
  let sc := set_in (sc_m sc) (sc_mc sc) (sc_fcs sc) 0 sc in
  let bad := sc_flags sc SC_FLUSH || sc_flags sc SC_ESCAPED in
  if bad || ((0 <? ilen) && negb (sc_fcs sc =? PPP_GOODFCS)) then
    (None, if bad then set_scflag SC_FLUSH false (set_scflag SC_ESCAPED false sc) else ierror sc, sl_error e)
  else if ilen <? PPP_HDRLEN + PPP_FCSLEN then (None, if ilen =? 0 then sc else ierror sc, e)
  else let '(m, sc) := excise sc in (Some m, sc, e).

(** A character; the result is the packet that is complete. *)
Definition frame_char (c : Z) sc e : option (list ibuf) * ppp_softc * E :=
  let c := Z.land c 255 in
  let sc := note_char c sc in
  if c =? PPP_FLAG then frame_end sc e
  else if sc_flags sc SC_FLUSH then (None, sc, e)
  else if (c <? 32) && Z.testbit (sc_rasyncmap sc) c then (None, sc, e)
  else if sc_flags sc SC_ESCAPED then
    let '(sc, e) := octet (Z.lxor c PPP_TRANS) (set_scflag SC_ESCAPED false sc) e in (None, sc, e)
  else if c =? PPP_ESCAPE then (None, set_scflag SC_ESCAPED true sc, e)
  else let '(sc, e) := octet c sc e in (None, sc, e).

(** [pppinput]. *)
Definition pppinput (c : Z) sc e : option (list ibuf) * ppp_softc * E :=
  let '(m, sc, e) := frame_char c sc e in
  match m with
  | None => (None, sc, e)
  | Some m =>
      let '(sc, e) := ppppktin m sc e in
      let '(_, sc, e) := pppgetm sc e in
      (Some m, sc, e)
  end.

(** Characters in sequence; the packets handed up. *)
Fixpoint receive (cs : bytes) sc e : list bytes * ppp_softc * E :=
  match cs with
  | [] => ([], sc, e)
  | c :: cs =>
      let '(m, sc, e) := pppinput c sc e in
      let '(l, sc, e) := receive cs sc e in
      (match m with Some m => concat (ib_data <$> m) :: l | None => l end, sc, e)
  end.

(** *** The hook of the serial driver *)

Definition PPPBUFSIZE : Z := PPP_MTU * 2.

(** For a character from the line: the counts of the jobs for the network
    task.  [full] is whether the driver's buffer is, [opened] the state of
    LCP. *)
Definition pppintr (full opened : bool) (c : Z) sc : list Z * ppp_softc :=
  let sc := if sc_qlen sc =? 0 then set_scflag SC_DISCARD_PKT full sc else sc in
  let sc := set_qlen (sc_qlen sc + 1) sc in
  if PPPBUFSIZE <? sc_qlen sc then ([sc_qlen sc], set_qlen 0 sc)
  else if negb opened && (Z.land c 255 =? 84) then ([sc_qlen sc], sc)
  else if Z.land c 255 =? PPP_FLAG then ([sc_qlen sc], set_qlen 0 sc)
  else ([], sc).

Definition CLIENT : bytes := [67; 76; 73; 69; 78; 84].
Definition CLIENTSERVER : bytes := CLIENT ++ [83; 69; 82; 86; 69; 82].

(** The job: [buf] is what could be read of [count] characters. *)
Definition ppp_tty_read (opened : bool) (count : Z) (buf : bytes) sc e : list bytes * ppp_softc * E :=
  if PPPBUFSIZE <? count then ([], ierror sc, e)
  else if negb opened && bool_decide (ztake 6 buf = CLIENT) then
    ([], set_qlen 0 sc, (twrite CLIENTSERVER e).2)
  else if sc_flags sc SC_DISCARD_PKT then ([], set_scflag SC_DISCARD_PKT false (ierror sc), e)
  else receive buf sc e.

End Env.

(** ** The frame check sequence *)

Section Fcs.
Context `{!FrameDefsLaws}.

(** The division by [x^16 + x^12 + x^5 + 1], the lowest bit first. *)
Definition crc_bit (r : Z) : Z :=
  if Z.testbit r 0 then Z.lxor (Z.shiftr r 1) 0x8408 else Z.shiftr r 1.
Fixpoint crc_bits (n : nat) (r : Z) : Z := match n with O => r | S n => crc_bits n (crc_bit r) end.
Definition crc_byte (fcs c : Z) : Z := crc_bits 8 (Z.lxor fcs c).

Lemma crc_bit_lxor a b : crc_bit (Z.lxor a b) = Z.lxor (crc_bit a) (crc_bit b).
Proof.
  unfold crc_bit. rewrite Z.lxor_spec, Z.shiftr_lxor.
  destruct (Z.testbit a 0), (Z.testbit b 0); cbn [xorb].
  - rewrite (Z.lxor_assoc _ 33800), (Z.lxor_comm 33800 (Z.lxor _ 33800)), (Z.lxor_assoc _ 33800 33800).
    by rewrite Z.lxor_nilpotent, Z.lxor_0_r.
  - by rewrite !Z.lxor_assoc, (Z.lxor_comm 33800).
  - by rewrite Z.lxor_assoc.
  - done.
Qed.

Lemma crc_iter_lxor n : ∀ a b, crc_bits n (Z.lxor a b) = Z.lxor (crc_bits n a) (crc_bits n b).
Proof. induction n as [|n IH]; intros a b; [done|]. cbn [crc_bits]. by rewrite crc_bit_lxor, IH. Qed.

Lemma crc_bit_even k : crc_bit (2 * k) = k.
Proof.
  unfold crc_bit. rewrite Z.testbit_even_0, Z.shiftr_div_pow2 by done. change (2 ^ 1) with 2.
  rewrite Z.mul_comm, Z.div_mul by done. done.
Qed.

Lemma crc_shift n : ∀ k, crc_bits n (2 ^ Z.of_nat n * k) = k.
Proof.
  induction n as [|n IH]; intros k; [by rewrite Z.mul_1_l|].
  rewrite Nat2Z.inj_succ, Z.pow_succ_r, <- Z.mul_assoc by lia. cbn [crc_bits]. by rewrite crc_bit_even.
Qed.

Lemma fcstab_entry : forallb (λ i, fcstab (Z.of_nat i) =? crc_bits 8 (Z.of_nat i)) (seq 0 256) = true.
Proof. vm_compute. reflexivity. Qed.

Lemma fcstab_crc i : 0 <= i < 256 → fcstab i = crc_bits 8 i.
Proof.
  intros Hi. pose proof fcstab_entry as Hf. rewrite forallb_forall in Hf.
  specialize (Hf (Z.to_nat i)). rewrite in_seq, Z2Nat.id in Hf by lia. apply Z.eqb_eq, Hf. lia.
Qed.

Lemma land_255 x : Z.land x 255 = x mod 256.
Proof. change 255 with (Z.ones 8). by rewrite Z.land_ones. Qed.

Lemma shiftr_8 x : Z.shiftr x 8 = x / 256.
Proof. by rewrite Z.shiftr_div_pow2. Qed.

Lemma PPP_FCS_crc fcs c : 0 <= c < 256 → PPP_FCS fcstab fcs c = crc_byte fcs c.
Proof.
  intros Hc. rewrite PPP_FCS_eq. unfold crc_byte. set (x := Z.lxor fcs c).
  assert (x = Z.lxor (2 ^ Z.of_nat 8 * (x / 256)) (x mod 256)) as Hx.
  { change (2 ^ Z.of_nat 8) with 256. rewrite <- Z.add_nocarry_lxor; [apply Z.div_mod; done|].
    apply Z.bits_inj'. intros n Hn. rewrite Z.land_spec, Z.bits_0. change 256 with (2 ^ 8).
    destruct (Z.lt_ge_cases n 8); [by rewrite Z.mul_comm, Z.mul_pow2_bits_low|].
    rewrite Z.mod_pow2_bits_high by lia. apply andb_false_r. }
  rewrite Hx at 2. rewrite crc_iter_lxor, crc_shift, land_255, fcstab_crc by (apply Z.mod_pos_bound; done).
  f_equal. rewrite <- shiftr_8. unfold x. rewrite Z.shiftr_lxor, (shiftr_8 c), Z.div_small, Z.lxor_0_r by lia. done.
Qed.

Lemma pppfcs_spec fcs cp : Bytes cp → pppfcs fcs cp = fold_left crc_byte cp fcs.
Proof.
  intros Hb. revert fcs. induction Hb as [|c cp Hc _ IH]; intros fcs; [done|].
  unfold pppfcs in *. cbn [fold_left]. by rewrite PPP_FCS_crc.
Qed.

Lemma pppfcs_app fcs a b : pppfcs fcs (a ++ b) = pppfcs (pppfcs fcs a) b.
Proof. apply fold_left_app. Qed.

Lemma pppfcs_snoc fcs a c : pppfcs fcs (a ++ [c]) = PPP_FCS fcstab (pppfcs fcs a) c.
Proof. by rewrite pppfcs_app. Qed.

(** The sequence is a number of 16 bits. *)
Lemma crc_bit_range r : 0 <= r < 65536 → 0 <= crc_bit r < 65536.
Proof.
  intros Hr. unfold crc_bit. rewrite Z.shiftr_div_pow2 by done. change (2 ^ 1) with 2.
  pose proof (Z.div_pos r 2). pose proof (Z.div_lt_upper_bound r 2 32768).
  destruct (Z.testbit r 0); [|lia]. split; [apply Z.lxor_nonneg; lia|].
  destruct (Z.eq_dec (Z.lxor (r / 2) 33800) 0) as [->|Hne]; [done|].
  assert (0 <= Z.lxor (r / 2) 33800) by (apply Z.lxor_nonneg; lia).
  apply Z.log2_lt_pow2 with (b := 16); [lia|].
  eapply Z.le_lt_trans; [apply Z.log2_lxor; lia|].
  apply Z.max_lub_lt; [|reflexivity]. destruct (Z.eq_dec (r / 2) 0) as [->|]; [reflexivity|].
  apply Z.log2_lt_pow2; [lia|]. change (2 ^ 16) with 65536. lia.
Qed.

Lemma lxor_range n a b : 0 <= n → 0 <= a < 2 ^ n → 0 <= b < 2 ^ n → 0 <= Z.lxor a b < 2 ^ n.
Proof.
  intros Hn Ha Hb. split; [apply Z.lxor_nonneg; lia|].
  assert (Z.lxor a b = Z.lxor a b mod 2 ^ n) as ->; [|apply Z.mod_pos_bound; lia].
  symmetry. apply Z.bits_inj'. intros i Hi. destruct (Z.lt_ge_cases i n).
  - by rewrite Z.mod_pow2_bits_low.
  - rewrite Z.mod_pow2_bits_high, Z.lxor_spec by lia.
    rewrite <- (Z.mod_small a (2 ^ n)), <- (Z.mod_small b (2 ^ n)) by lia. by rewrite !Z.mod_pow2_bits_high by lia.
Qed.

Lemma PPP_FCS_range fcs c : 0 <= fcs < 65536 → 0 <= c < 256 → 0 <= PPP_FCS fcstab fcs c < 65536.
Proof.
  intros Hf Hc. rewrite PPP_FCS_crc by done. unfold crc_byte.
  assert (0 <= Z.lxor fcs c < 65536) as Hx by (apply (lxor_range 16); [lia|lia|change (2 ^ 16) with 65536; lia]).
  revert Hx. generalize (Z.lxor fcs c). generalize 8%nat. intros n.
  induction n as [|n IH]; intros x Hx; [done|]. by apply IH, crc_bit_range.
Qed.

Lemma pppfcs_range fcs cp : 0 <= fcs < 65536 → Bytes cp → 0 <= pppfcs fcs cp < 65536.
Proof.
  intros Hf Hb. revert fcs Hf. induction Hb as [|c cp Hc _ IH]; intros fcs Hf; [done|]. apply IH. by apply PPP_FCS_range.
Qed.

(** The two characters sent for a sequence. *)
Definition fcs_lo (fcs : Z) : Z := Z.land (Z.lnot fcs) 255.
Definition fcs_hi (fcs : Z) : Z := Z.land (Z.shiftr (Z.lnot fcs) 8) 255.

Lemma fcs_second : forallb (λ h, PPP_FCS fcstab (Z.lxor (Z.of_nat h) 0x0f78) (255 - Z.of_nat h) =? 61624) (seq 0 256) = true.
Proof.
  apply forallb_forall. intros h Hh. apply in_seq in Hh. apply Z.eqb_eq. rewrite PPP_FCS_eq.
  pose proof (proj1 (forallb_forall (λ h, Z.lxor (Z.shiftr (Z.lxor (Z.of_nat h) 0x0f78) 8)
    (fcstab (Z.land (Z.lxor (Z.lxor (Z.of_nat h) 0x0f78) (255 - Z.of_nat h)) 255)) =? 61624) (seq 0 256))
    ltac:(vm_compute; reflexivity) h) as Hb.
  apply Z.eqb_eq, Hb, in_seq. lia.
Qed.

(** After them the sequence has the fixed value that the receiver expects. *)
Lemma good_fcs fcs : 0 <= fcs < 65536 → pppfcs fcs [fcs_lo fcs; fcs_hi fcs] = PPP_GOODFCS.
Proof.
  intros Hf. pose proof frame_fcs as Hg. injection Hg as _ ->. unfold pppfcs. cbn [fold_left].
  assert (Hh : 0 <= fcs / 256 < 256) by (split; [apply Z.div_pos; lia|apply Z.div_lt_upper_bound; lia]).
  assert (PPP_FCS fcstab fcs (fcs_lo fcs) = Z.lxor (fcs / 256) 0x0f78) as ->.
  { rewrite PPP_FCS_eq, shiftr_8. f_equal.
    assert (Z.land (Z.lxor fcs (fcs_lo fcs)) 255 = 255) as ->; [|reflexivity].
    apply Z.bits_inj'. intros n Hn. unfold fcs_lo. rewrite Z.land_spec, Z.lxor_spec, Z.land_spec, Z.lnot_spec by done.
    destruct (Z.testbit 255 n), (Z.testbit fcs n); reflexivity. }
  assert (fcs_hi fcs = 255 - fcs / 256) as ->.
  { unfold fcs_hi. rewrite land_255, shiftr_8. unfold Z.lnot. rewrite <- Z.sub_1_r.
    symmetry. apply (Z.mod_unique_pos _ _ (-1)); [lia|].
    assert ((- fcs - 1) / 256 = - (fcs / 256) - 1) as ->; [|lia].
    symmetry. apply (Z.div_unique_pos _ _ _ (255 - fcs mod 256)); pose proof (Z.mod_pos_bound fcs 256); [lia|].
    pose proof (Z.div_mod fcs 256). lia. }
  pose proof fcs_second as H2. rewrite forallb_forall in H2. specialize (H2 (Z.to_nat (fcs / 256))).
  rewrite in_seq, Z2Nat.id in H2 by lia. apply Z.eqb_eq, H2. lia.
Qed.
End Fcs.

(** ** Input mbufs *)

Section Input.
Context `{!FrameDefsLaws} {E : Type} `{!PppEnv E, !PppEnvLaws E}.
Implicit Types (sc : ppp_softc) (e : E).

(** The pool refused a cluster. *)
Definition pool_fails : Prop := ∃ n (e : E), (mHdrClGet n e).1 = None.

Fixpoint total (l : list ibuf) : Z := match l with [] => 0 | b :: l => ib_size b + total l end.

Fixpoint spaces (l : list ibuf) : Z := match l with [] => 0 | b :: l => trailingspace b + spaces l end.

Lemma total_app l k : total (l ++ k) = total l + total k.
Proof. induction l as [|b l IH]; cbn; lia. Qed.

(** A fresh cluster. *)
Definition fresh (b : ibuf) : Prop := 4 <= ib_size b ∧ ib_off b = 0 ∧ ib_data b = [].

Lemma getm_new_spec n : ∀ len e, let '(len', l, e') := getm_new n len e in
  line e' = line e ∧ Forall fresh l ∧ len' = len - total l ∧
  (len <= Z.of_nat n → len' <= 0 ∨ pool_fails).
Proof.
  induction n as [|n IH]; intros len e; cbn [getm_new].
  { split_and!; try done; cbn; [lia|]. intros. left. lia. }
  destruct (Z.ltb_spec 0 len); [|split_and!; try done; cbn; [lia|]; intros; left; lia].
  pose proof (cluster_size len e) as Hs. pose proof (mHdrClGet_line len e) as Hl.
  destruct (mHdrClGet len e) as [s e1] eqn:Hm. cbn [fst snd] in *.
  destruct s as [s|].
  - specialize (IH (len - s) e1). destruct (getm_new n (len - s) e1) as [[len' l] e2].
    destruct IH as (I1 & I2 & I3 & I4). specialize (Hs s eq_refl). split_and!.
    + congruence.
    + constructor; [by split_and!|done].
    + cbn. lia.
    + intros. apply I4. lia.
  - split_and!; try done; [cbn; lia|]. intros _. right. exists len, e. by rewrite Hm.
Qed.

Abbreviation sized l := (Forall (λ b, 4 <= ib_size b) l).

Lemma total_nonneg l : sized l → 0 <= total l.
Proof. induction 1; cbn; lia. Qed.

Lemma fresh_sized l : Forall fresh l → sized l.
Proof. apply List.Forall_impl. by intros b (? & _). Qed.

Lemma getm_walk_spec l : sized l → ∀ len e, let '(len', l', e') := getm_walk l len e in
  line e' = line e ∧ ∃ k, l' = l ++ k ∧ Forall fresh k ∧ (len' <= 0 → len <= total l') ∧ (len' <= 0 ∨ pool_fails).
Proof.
  induction 1 as [|b l Hb Hl IH]; intros len e; cbn [getm_walk].
  - destruct (Z.ltb_spec 0 len).
    + pose proof (getm_new_spec (Z.to_nat len) len e) as Hn.
      destruct (getm_new _ len e) as [[len' l] e1]. destruct Hn as (N1 & N2 & N3 & N4).
      split; [done|]. exists l. split_and!; try done; [cbn; lia|]. apply N4. lia.
    + split; [done|]. exists []. split_and!; try done; try (cbn; lia); left; lia.
  - destruct (Z.ltb_spec 0 len).
    + specialize (IH (len - ib_size b) e). destruct (getm_walk l _ e) as [[len' l'] e1].
      destruct IH as (I1 & k & -> & I2 & I3 & I4). split; [done|]. exists k. split_and!; try done. cbn. lia.
    + split; [done|]. exists []. rewrite app_nil_r. pose proof (total_nonneg l Hl).
      split_and!; try done; try (cbn; lia); left; lia.
Qed.

(** Room for a packet of the MRU. *)
Definition need sc : Z := HDROFF + sc_mru sc + PPP_HDRLEN + PPP_FCSLEN.

Lemma pppgetm_spec sc e : sized (sc_m sc) →
  ∃ k e' ok, pppgetm sc e = (ok, set_in (sc_m sc ++ k) (sc_mc sc) (sc_fcs sc) (sc_ilen sc) sc, e') ∧
    line e' = line e ∧ Forall fresh k ∧ (need sc <= total (sc_m sc ++ k) ∨ pool_fails) ∧
    (ok = true → need sc <= total (sc_m sc ++ k)).
Proof.
  intros Hs. unfold pppgetm. pose proof (getm_walk_spec (sc_m sc) Hs (need sc) e) as Hw. unfold need in *.
  destruct (getm_walk _ _ e) as [[len l] e']. destruct Hw as (W1 & k & -> & W2 & W3 & W4).
  exists k, e', (len <=? 0). split_and!; try done; [destruct W4; [left; auto|by right]|].
  intros Hok. apply Z.leb_le in Hok. auto.
Qed.

(** What characters do not change. *)
Record kept sc sc' : Prop := {
  kt_rasyncmap : sc_rasyncmap sc' = sc_rasyncmap sc;
  kt_mru : sc_mru sc' = sc_mru sc;
  kt_rej : sc_flags sc' SC_REJ_COMP_AC = sc_flags sc SC_REJ_COMP_AC;
  kt_inq : sc_inq sc' = sc_inq sc
}.

Lemma kept_refl sc : kept sc sc.
Proof. by split. Qed.

Lemma kept_trans sc1 sc2 sc3 : kept sc1 sc2 → kept sc2 sc3 → kept sc1 sc3.
Proof. intros [] []. split; congruence. Qed.

(** *** The packet so far *)

Fixpoint offs (l : list ibuf) : Z := match l with [] => 0 | b :: l => ib_off b + offs l end.

Lemma offs_app l k : offs (l ++ k) = offs l + offs k.
Proof. induction l as [|b l IH]; cbn; lia. Qed.

Abbreviation contents l := (concat (ib_data <$> l)).

(** The mbufs [pre] are full, [cur] is the current one, [post] is to be used;
    [data] is the packet so far. *)
Record holds_at (pre : list ibuf) (cur : ibuf) (post : list ibuf) (data : bytes) sc : Prop := {
  ha_m : sc_m sc = pre ++ cur :: post;
  ha_mc : sc_mc sc = length pre;
  ha_full : Forall (λ b, trailingspace b = 0) pre;
  ha_space : 0 <= trailingspace cur;
  ha_off : Forall (λ b, 0 <= ib_off b) (pre ++ [cur]);
  ha_offs : offs (pre ++ [cur]) <= HDROFF;
  ha_data : contents (pre ++ [cur]) = data;
  ha_room : Forall (λ b, 4 <= ib_size b - ib_off b) (pre ++ [cur]);
  ha_first : zlen data <= 3 → pre = []
}.

Lemma alter_middle {A} (f : A → A) (pre : list A) cur post :
  alter f (length pre) (pre ++ cur :: post) = pre ++ f cur :: post.
Proof. induction pre as [|x pre IH]; [done|]. cbn. f_equal. exact IH. Qed.

Lemma contents_app l k : contents (l ++ k) = contents l ++ contents k.
Proof. by rewrite fmap_app, concat_app. Qed.

Lemma contents_one b : contents [b] = ib_data b.
Proof. cbn. by rewrite app_nil_r. Qed.

(** A packet's mbufs, but for the room in the current one. *)
Lemma full_total pre cur : Forall (λ b, trailingspace b = 0) pre →
  total (pre ++ [cur]) = offs (pre ++ [cur]) + zlen (contents (pre ++ [cur])) + trailingspace cur.
Proof.
  induction 1 as [|b pre Hb _ IH]; cbn [app total offs].
  - rewrite contents_one. unfold trailingspace. lia.
  - rewrite IH. cbn. rewrite zlen_app. unfold trailingspace in *. lia.
Qed.

Lemma store_holds cs pre cur post data sc : holds_at pre cur post data sc → zlen cs <= trailingspace cur →
  holds_at pre (ib_set (ib_off cur) (ib_data cur ++ cs) cur) post (data ++ cs) (store cs sc).
Proof.
  intros [] Hc. pose proof (zlen_nonneg cs). split; cbn; try done.
  - by rewrite ha_m0, ha_mc0, alter_middle.
  - unfold trailingspace in *. cbn. rewrite zlen_app. lia.
  - rewrite Forall_app, list.Forall_singleton in *. by destruct ha_off0.
  - rewrite offs_app in *. exact ha_offs0.
  - rewrite <- ha_data0, !contents_app, !contents_one. cbn. by rewrite app_assoc.
  - rewrite Forall_app, list.Forall_singleton in *. by destruct ha_room0.
  - rewrite zlen_app. intros. apply ha_first0. lia.
Qed.

Lemma store_sized cs sc : sized (sc_m sc) → sized (sc_m (store cs sc)).
Proof. intros Hs. cbn. apply Forall_alter; [done|]. by intros. Qed.

Lemma store_kept cs sc : kept sc (store cs sc).
Proof. by split. Qed.

Lemma holds_same pre cur post data sc sc' : sc_m sc' = sc_m sc → sc_mc sc' = sc_mc sc →
  holds_at pre cur post data sc → holds_at pre cur post data sc'.
Proof. intros Hm Hc []. split; congruence || done. Qed.

(** Between characters: every cluster has room for a header. *)
Record ready sc : Prop := {
  rd_sized : sized (sc_m sc);
  rd_mru : 0 <= sc_mru sc
}.

Lemma ready_kept sc sc' : ready sc → kept sc sc' → sized (sc_m sc') → ready sc'.
Proof. intros [Hs Hm] [] Hs'. split; [done|]. by rewrite kt_mru0. Qed.

Lemma need_pos sc : ready sc → 0 < need sc.
Proof.
  intros [_ Hm]. unfold need, HDROFF. pose proof frame_header as Hh. pose proof MAX_HDR_range.
  assert (PPP_HDRLEN = 4 ∧ PPP_FCSLEN = 2) as [-> ->] by (injection Hh; auto). lia.
Qed.

Lemma pppgetm_ready sc e : ready sc →
  ∃ k ok e', pppgetm sc e = (ok, set_in (sc_m sc ++ k) (sc_mc sc) (sc_fcs sc) (sc_ilen sc) sc, e') ∧
    sized (sc_m sc ++ k) ∧ (need sc <= total (sc_m sc ++ k) ∨ pool_fails) ∧
    (ok = true → need sc <= total (sc_m sc ++ k)).
Proof.
  intros [Hs Hm]. destruct (pppgetm_spec sc e Hs) as (k & e' & ok & -> & _ & Hk & Hn & Hok).
  exists k, ok, e'. split_and!; try done. apply Forall_app. split; [done|by apply fresh_sized].
Qed.

Lemma set_in_kept m mc fcs ilen sc : kept sc (set_in m mc fcs ilen sc).
Proof. by split. Qed.

(** *** The packet that characters stand for *)

(** The address and control octets, and the first octet of the protocol, may
    be left out by the sender. *)
Definition expand_ac (raw : bytes) : bytes :=
  match raw with
  | c :: _ => if c =? 255 then raw else 255 :: 3 :: raw
  | [] => []
  end.
Definition expand_prot (raw : bytes) : bytes :=
  match raw with
  | a :: b :: p :: r => if Z.testbit p 0 then a :: b :: 0 :: p :: r else raw
  | _ => raw
  end.
Definition expand (raw : bytes) : bytes := expand_prot (expand_ac raw).

(** What is stored before the character [c] that comes after [raw]. *)
Definition start (raw : bytes) (c : Z) : bytes :=
  match raw with [] => if c =? 255 then [] else [255; 3] | _ => expand raw end.
Definition stuff (raw : bytes) (c : Z) : bytes :=
  if (zlen (start raw c) =? 2) && Z.testbit c 0 then start raw c ++ [0] else start raw c.

Lemma long_ne {A} (x y z : A) l : (zlen (x :: y :: z :: l) =? 2) = false.
Proof. apply Z.eqb_neq. rewrite !zlen_cons. pose proof (zlen_nonneg l). lia. Qed.

Lemma expand_snoc raw c : expand (raw ++ [c]) = stuff raw c ++ [c].
Proof.
  unfold stuff, start, expand. destruct raw as [|a raw]; cbn [app expand_ac].
  { destruct (c =? 255); [by destruct (Z.testbit c 0)|].
    change (zlen [255; 3] =? 2) with true. cbn [andb expand_prot app]. by destruct (Z.testbit c 0). }
  destruct (Z.eqb_spec a 255) as [->|].
  - destruct raw as [|b raw]; [done|]. destruct raw as [|p raw].
    { cbn [app expand_prot]. change (zlen [255; b] =? 2) with true. cbn [andb]. by destruct (Z.testbit c 0). }
    cbn [expand_prot app]. by destruct (Z.testbit p 0); rewrite long_ne.
  - cbn [expand_prot app]. by destruct (Z.testbit a 0); rewrite long_ne.
Qed.

Lemma expand_nil raw : zlen (expand raw) = 0 → raw = [].
Proof.
  intros Hz. assert (expand raw = []) as He by (destruct (expand raw) as [|x l]; [done|]; rewrite zlen_cons in Hz; pose proof (zlen_nonneg l); lia).
  destruct raw as [|a raw]; [done|]. exfalso. revert He. unfold expand, expand_ac, expand_prot. by repeat case_match.
Qed.

(** The packet so far is in the input mbufs. *)
Definition partial (raw : bytes) sc : Prop :=
  sc_ilen sc = zlen (expand raw) ∧
  (raw ≠ [] → sc_fcs sc = pppfcs PPP_INITFCS raw ∧
     ∃ pre cur post, holds_at pre cur post (expand raw) sc ∧ ib_data cur ≠ []).

Lemma first_mbuf_off b : 4 <= ib_size b →
  let off := if HDROFF + PPP_HDRLEN <=? ib_size b then HDROFF else 0 in
  0 <= off <= HDROFF ∧ 4 <= ib_size b - off.
Proof.
  intros Hb. cbn. unfold HDROFF. pose proof MAX_HDR_range. pose proof frame_header as Hh.
  assert (PPP_HDRLEN = 4) as -> by (injection Hh; auto).
  destruct (Z.leb_spec (MAX_HDR + 4) (ib_size b)); lia.
Qed.

(** The reset of the first mbuf. *)
Lemma reset_holds b r fcs sc : 4 <= ib_size b →
  let off := if HDROFF + PPP_HDRLEN <=? ib_size b then HDROFF else 0 in
  holds_at [] (ib_set off [] b) r [] (set_in (ib_set off [] b :: r) 0 fcs 0 sc).
Proof.
  intros Hb off. pose proof (first_mbuf_off b Hb) as [Ho1 Ho2]. fold off in Ho1, Ho2.
  split; cbn; try done; try lia.
  - unfold trailingspace, zlen. cbn [ib_set ib_size ib_off ib_data length]. lia.
  - constructor; [cbn; lia|done].
  - constructor; [cbn; lia|done].
Qed.

(** The mbufs when the first octet comes. *)
Definition first_mbufs sc e : ppp_softc * E :=
  match sc_m sc with [] => let '(_, sc, e) := pppgetm sc e in (sc, e) | _ => (sc, e) end.

Lemma first_mbufs_spec sc e : ready sc →
  let '(sc', e') := first_mbufs sc e in
  sized (sc_m sc') ∧ kept sc sc' ∧ sc_flags sc' = sc_flags sc ∧ (sc_m sc' = [] → pool_fails).
Proof.
  intros Hr. unfold first_mbufs. destruct (sc_m sc) as [|b r] eqn:Hm.
  - destruct (pppgetm_ready sc e Hr) as (k & ok & e' & -> & Hs & Hn & _). cbn. split_and!; try done.
    intros Hk. pose proof (need_pos sc Hr). destruct Hn as [Hn|]; [|done]. rewrite Hk in Hn. cbn in Hn. lia.
  - split_and!; try done; rewrite Hm; [rewrite <- Hm; apply Hr|done].
Qed.

Lemma first_octet_spec c raw sc e : ready sc → partial raw sc →
  let '(ok, sc', e') := first_octet c sc e in
  sized (sc_m sc') ∧ kept sc sc' ∧ sc_flags sc' = sc_flags sc ∧
  if ok : bool then
    (raw = [] → c ≠ 255 → sc_flags sc SC_REJ_COMP_AC = false) ∧ sc_fcs sc' = pppfcs PPP_INITFCS raw ∧
    sc_ilen sc' = zlen (start raw c) ∧ ∃ pre cur post, holds_at pre cur post (start raw c) sc'
  else raw = [] ∧ c ≠ 255 ∧ sc_flags sc SC_REJ_COMP_AC = true ∨ pool_fails.
Proof.
  intros Hr [Hi Hp]. unfold first_octet. destruct (Z.eqb_spec (sc_ilen sc) 0) as [Hz|Hz].
  - assert (raw = []) as -> by (apply expand_nil; congruence). change (match sc_m sc with [] => _ | _ => _ end) with (first_mbufs sc e).
    pose proof (first_mbufs_spec sc e Hr) as Hf. destruct (first_mbufs sc e) as [sc1 e1].
    destruct Hf as (Hs & Hk & Hfl & Hn). destruct (sc_m sc1) as [|b r] eqn:Hm.
    { rewrite Hm. split_and!; try done. right. auto. }
    pose proof Hs as Hs'. apply list.Forall_cons_1 in Hs as [Hb Hs].
    pose proof (reset_holds b r PPP_INITFCS sc1 Hb) as Hh. cbv zeta in Hh |- *.
    set (b' := ib_set _ [] b) in *. set (sc2 := set_in (b' :: r) 0 PPP_INITFCS 0 sc1) in *.
    assert (ib_size b' = ib_size b) as Hb' by done. clearbody b'. cbn [start].
    assert (sized (sc_m sc2)) as Hs2 by (cbn; constructor; [lia|done]).
    assert (kept sc sc2) as Hk2 by (eapply kept_trans; [exact Hk|apply set_in_kept]).
    assert (PPP_ALLSTATIONS = 255 ∧ PPP_UI = 3) as [-> ->] by (pose proof frame_header as Hx; injection Hx; auto).
    destruct (Z.eqb_spec c 255) as [->|Hc]; cbn [negb].
    + split_and!; try done; try exact Hfl. by eexists _, _, _.
    + assert (sc_flags sc2 SC_REJ_COMP_AC = sc_flags sc SC_REJ_COMP_AC) as -> by (cbn; by rewrite Hfl).
      destruct (sc_flags sc SC_REJ_COMP_AC) eqn:Hrej.
      * split_and!; try done; try exact Hfl. by left.
      * split_and!; [by apply store_sized|eapply kept_trans; [exact Hk2|apply store_kept]|apply Hfl|done|done|done|].
        eexists _, _, _. apply (store_holds [255; 3] _ _ _ [] _ Hh).
        destruct Hh. cbn [app] in ha_room0. apply list.Forall_cons_1 in ha_room0 as [ha_room0 _]. unfold trailingspace.
        cbn [app] in ha_data0. rewrite contents_one in ha_data0. rewrite ha_data0. unfold zlen. cbn [length]. lia.
  - assert (raw ≠ []) as Hne by (intros ->; rewrite Hi in Hz; done). destruct (Hp Hne) as [Hf Hh].
    destruct Hh as (pre & cur & post & Hh & _).
    destruct raw as [|a raw]; [done|]. split_and!; try done; [apply Hr|]. by eexists _, _, _.
Qed.

Lemma lookup_middle {A} (pre : list A) x post : (pre ++ x :: post) !! length pre = Some x.
Proof. by rewrite list_lookup_middle. Qed.

Lemma lookup_after {A} (pre : list A) x post : (pre ++ x :: post) !! S (length pre) = head post.
Proof. rewrite lookup_app_r by lia. replace (S (length pre) - length pre)%nat with 1%nat by lia. by destruct post. Qed.

(** The next mbuf becomes the current one. *)
Lemma advance_holds pre cur b post data fcs ilen sc : holds_at pre cur (b :: post) data sc →
  trailingspace cur = 0 → 4 <= ib_size b →
  holds_at (pre ++ [cur]) (ib_set 0 [] b) post data
    (set_in (alter (ib_set 0 []) (S (length pre)) (pre ++ cur :: b :: post)) (S (length pre)) fcs ilen sc).
Proof.
  intros [] Ht Hb. split; cbn [sc_m sc_mc set_in].
  - replace (S (length pre)) with (length (pre ++ [cur])) by (rewrite length_app; cbn; lia).
    change (pre ++ cur :: b :: post) with (pre ++ [cur] ++ b :: post). by rewrite app_assoc, alter_middle.
  - rewrite length_app. cbn. lia.
  - apply Forall_app. split; [done|by constructor].
  - unfold trailingspace, zlen. cbn [ib_set ib_size ib_off ib_data length]. lia.
  - apply Forall_app. split; [done|]. constructor; [cbn; lia|done].
  - rewrite offs_app. cbn. lia.
  - rewrite contents_app, contents_one. cbn. by rewrite app_nil_r.
  - apply Forall_app. split; [done|]. constructor; [cbn; lia|done].
  - intros Hd. pose proof (ha_first0 Hd) as ->. exfalso. cbn [app] in ha_data0, ha_room0. rewrite contents_one in ha_data0.
    apply list.Forall_cons_1 in ha_room0 as [ha_room0 _].
    unfold trailingspace in Ht. rewrite ha_data0 in Ht. lia.
Qed.

Lemma next_mbuf_spec pre cur post data sc e : ready sc → holds_at pre cur post data sc →
  zlen data < sc_mru sc + PPP_HDRLEN + PPP_FCSLEN →
  let '(ok, sc', e') := next_mbuf sc e in
  sized (sc_m sc') ∧ kept sc sc' ∧ sc_flags sc' = sc_flags sc ∧
  if ok : bool then
    sc_fcs sc' = sc_fcs sc ∧ sc_ilen sc' = sc_ilen sc ∧
    ∃ pre cur post, holds_at pre cur post data sc' ∧ 1 <= trailingspace cur
  else pool_fails.
Proof.
  intros Hr Hh Hz. pose proof Hh as []. unfold next_mbuf. rewrite ha_m0, ha_mc0, lookup_middle, lookup_after.
  pose proof (rd_sized _ Hr) as Hs. rewrite ha_m0 in Hs.
  destruct (Z.leb_spec (trailingspace cur) 0) as [Ht|Ht].
  2: { split_and!; try done; [by rewrite ha_m0|]. exists pre, cur, post. split; [done|lia]. }
  destruct post as [|b post]; cbn [head].
  - destruct (pppgetm_ready sc e Hr) as (k & ok & e' & -> & Hs' & Hn & _). rewrite ha_m0, <- app_assoc in Hs', Hn.
    cbn [sc_m sc_mc set_in]. rewrite ha_m0, <- app_assoc. cbn [app] in *. rewrite ha_mc0, lookup_after.
    destruct k as [|b k]; cbn [head].
    + split_and!; try done. destruct Hn as [Hn|]; [|done]. exfalso.
      rewrite full_total, ha_data0 in Hn by done. unfold need in Hn. lia.
    + split_and!; try done.
      * cbn. by apply Forall_alter.
      * eexists _, _, _. split.
        -- apply (advance_holds pre cur b k data); [|lia|by decompose_Forall].
           split; cbn; congruence || done.
        -- unfold trailingspace, zlen. cbn [ib_set ib_size ib_off ib_data length]. decompose_Forall. lia.
  - cbn [sc_m sc_mc]. rewrite ha_m0, ha_mc0, lookup_after. cbn [head].
    split_and!; try done.
    + cbn. by apply Forall_alter.
    + eexists _, _, _. split.
      * apply (advance_holds pre cur b post data); [done|lia|by decompose_Forall].
      * unfold trailingspace, zlen. cbn [ib_set ib_size ib_off ib_data length]. decompose_Forall. lia.
Qed.

(** *** A character *)

(** The characters that the receiver accepts after [raw]. *)
Definition accepts (rej : bool) (mru : Z) (raw : bytes) (c : Z) : bool :=
  match raw with [] => (c =? 255) || negb rej | _ => true end &&
  (negb (zlen (start raw c) =? 1) || (c =? 3)) &&
  (negb (zlen (stuff raw c) =? 3) || Z.testbit c 0) &&
  (zlen (stuff raw c) <? mru + PPP_HDRLEN + PPP_FCSLEN).

(** The outcome of a character: it belongs to the packet, or the packet is
    given up. *)
Definition took (raw : bytes) sc sc' : Prop := sc_flags sc' = sc_flags sc ∧ partial raw sc'.
Definition gave_up sc sc' : Prop :=
  sc_flags sc' SC_FLUSH = true ∧ sc_flags sc' SC_ESCAPED = sc_flags sc SC_ESCAPED.

Lemma flush_spec sc : sc_m (flush sc) = sc_m sc ∧ kept sc (flush sc) ∧ gave_up sc (flush sc).
Proof.
  unfold flush, gave_up. destruct (sc_flags sc SC_FLUSH) eqn:Hf; [by split_and!|].
  by split_and!.
Qed.

Lemma flushed sc1 sc2 : sized (sc_m sc2) → kept sc1 sc2 → sc_flags sc2 = sc_flags sc1 →
  sized (sc_m (flush sc2)) ∧ kept sc1 (flush sc2) ∧ gave_up sc1 (flush sc2).
Proof.
  intros Hs Hk Hf. destruct (flush_spec sc2) as (-> & Hk' & Hg). split; [done|]. split; [by eapply kept_trans|].
  destruct Hg as [Hg1 Hg2]. split; [done|]. by rewrite Hg2, Hf.
Qed.

Lemma stuff_holds raw c pre cur post sc : holds_at pre cur post (start raw c) sc →
  sc_ilen sc = zlen (start raw c) →
  let sc' := if (sc_ilen sc =? 2) && Z.testbit c 0 then store [0] sc else sc in
  sc_ilen sc' = zlen (stuff raw c) ∧ ∃ cur, holds_at pre cur post (stuff raw c) sc'.
Proof.
  intros Hh Hi sc'. subst sc'. unfold stuff. rewrite Hi. destruct (Z.eqb_spec (zlen (start raw c)) 2) as [H2|]; cbn [andb].
  2: { split; [done|by exists cur]. }
  destruct (Z.testbit c 0); [|split; [done|by exists cur]]. split.
  - cbn. rewrite zlen_app. rewrite Hi. reflexivity.
  - eexists. apply store_holds; [done|]. destruct Hh. pose proof (ha_first0 ltac:(lia)) as ->.
    cbn [app] in ha_data0, ha_room0. apply list.Forall_cons_1 in ha_room0 as [ha_room0 _]. rewrite contents_one in ha_data0. unfold trailingspace. rewrite ha_data0.
    change (zlen [0]) with 1. lia.
Qed.

Lemma octet_store_spec c pre cur post data sc e : ready sc → holds_at pre cur post data sc →
  sc_ilen sc = zlen data →
  let '(sc', e') := octet_store c sc e in
  sized (sc_m sc') ∧ kept sc sc' ∧
  let ok := zlen data <? sc_mru sc + PPP_HDRLEN + PPP_FCSLEN in
  (ok = true ∧ sc_flags sc' = sc_flags sc ∧ sc_ilen sc' = zlen (data ++ [c]) ∧
     sc_fcs sc' = PPP_FCS fcstab (sc_fcs sc) c ∧ (∃ pre cur post, holds_at pre cur post (data ++ [c]) sc' ∧ ib_data cur ≠ []) ∨
   (ok = false ∨ pool_fails) ∧ gave_up sc sc').
Proof.
  intros Hr Hh Hi. unfold octet_store. set (sc1 := set_in _ _ _ (sc_ilen sc + 1) sc).
  assert (Hk1 : kept sc sc1) by apply set_in_kept.
  destruct (Z.ltb_spec (sc_mru sc + PPP_HDRLEN + PPP_FCSLEN) (sc_ilen sc1)) as [Hz|Hz]; cbn in Hz; rewrite Hi in Hz.
  { destruct (flushed sc sc1) as (? & ? & ?); try done; [apply Hr|]. split_and!; try done. right. split; [left|done].
    apply Z.ltb_ge. lia. }
  assert (Hr1 : ready sc1) by (apply (ready_kept sc); [done|done|apply Hr]).
  pose proof (next_mbuf_spec pre cur post data sc1 e Hr1 (holds_same pre cur post data sc sc1 eq_refl eq_refl Hh) ltac:(cbn; lia)) as Hn.
  destruct (next_mbuf sc1 e) as [[ok sc2] e2]. destruct Hn as (Hs2 & Hk2 & Hf2 & Hok).
  pose proof (kept_trans _ _ _ Hk1 Hk2) as Hk. destruct ok; cbn [negb].
  2: { destruct (flushed sc sc2) as (? & ? & ?); try done. split_and!; try done. right. split; [by right|done]. }
  destruct Hok as (Hfcs & Hi2 & pre' & cur' & post' & Hh2 & Ht).
  set (sc3 := set_in _ _ _ (sc_ilen sc2 - 1) sc2).
  assert (Hh3 : holds_at pre' cur' post' data sc3) by exact (holds_same _ _ _ _ sc2 sc3 eq_refl eq_refl Hh2).
  apply (store_holds [c]) in Hh3; [|by change (zlen [c]) with 1].
  split_and!.
  - by apply store_sized.
  - eapply kept_trans; [exact Hk|]. by split.
  - left. split_and!; [apply Z.ltb_lt; lia|done| | |].
    + cbn [sc_ilen set_in store sc3]. rewrite Hi2, zlen_app. cbn [sc_ilen set_in sc1]. lia.
    + cbn. by rewrite Hfcs.
    + eexists _, _, _. split; [refine (holds_same _ _ _ _ (store [c] sc3) _ _ _ Hh3); reflexivity|].
      cbn. by destruct (ib_data cur').
Qed.

Lemma octet_spec c raw sc e : ready sc → partial raw sc →
  let '(sc', e') := octet c sc e in
  sized (sc_m sc') ∧ kept sc sc' ∧
  let ok := accepts (sc_flags sc SC_REJ_COMP_AC) (sc_mru sc) raw c in
  (ok = true ∧ took (raw ++ [c]) sc sc' ∨ (ok = false ∨ pool_fails) ∧ gave_up sc sc').
Proof.
  intros Hr Hp. unfold octet. pose proof (first_octet_spec c raw sc e Hr Hp) as Hf.
  destruct (first_octet c sc e) as [[ok sc1] e1]. destruct Hf as (Hs1 & Hk1 & Hf1 & Hok).
  assert (PPP_UI = 3) as -> by (pose proof frame_header as Hx; injection Hx; auto).
  destruct ok; cbn [negb].
  2: { destruct (flushed sc sc1 Hs1 Hk1 Hf1) as (? & ? & ?). split_and!; try done. right. split; [|done].
       destruct Hok as [(-> & Hc & Hrej)|]; [left|by right]. unfold accepts.
       rewrite Hrej, (proj2 (Z.eqb_neq c 255)) by done. done. }
  destruct Hok as (Hrej & Hfcs & Hi & pre & cur & post & Hh).
  assert (Hfirst : match raw with [] => (c =? 255) || negb (sc_flags sc SC_REJ_COMP_AC) | _ => true end = true).
  { destruct raw; [|done]. destruct (Z.eqb_spec c 255); [done|]. by rewrite Hrej. }
  unfold accepts. rewrite Hfirst. cbn [andb]. clear Hfirst. rewrite <- Hi.
  destruct ((sc_ilen sc1 =? 1) && negb (c =? 3)) eqn:H1.
  { apply andb_true_iff in H1 as [-> Hc]. apply negb_true_iff in Hc as ->.
    destruct (flushed sc sc1 Hs1 Hk1 Hf1) as (? & ? & ?). split_and!; try done. right. split; [by left|done]. }
  assert (negb (sc_ilen sc1 =? 1) || (c =? 3) = true) as -> by (by destruct (sc_ilen sc1 =? 1), (c =? 3)).
  cbn [andb]. destruct (stuff_holds raw c pre cur post sc1 Hh Hi) as [Hi2 [cur2 Hh2]]. cbv zeta in Hi2, Hh2.
  set (sc2 := if (sc_ilen sc1 =? 2) && Z.testbit c 0 then store [0] sc1 else sc1) in *.
  assert (Hs2 : sized (sc_m sc2) ∧ kept sc sc2 ∧ sc_flags sc2 = sc_flags sc ∧ sc_fcs sc2 = sc_fcs sc1).
  { unfold sc2. destruct ((sc_ilen sc1 =? 2) && Z.testbit c 0); [|by split_and!]. split_and!; [by apply store_sized| |done|done].
    eapply kept_trans; [exact Hk1|apply store_kept]. }
  clearbody sc2. destruct Hs2 as (Hs2 & Hk2 & Hf2 & Hfcs2).
  destruct ((sc_ilen sc2 =? 3) && negb (Z.testbit c 0)) eqn:H3.
  { rewrite Hi2 in H3. apply andb_true_iff in H3 as [-> Hc]. apply negb_true_iff in Hc as ->.
    destruct (flushed sc sc2 Hs2 Hk2 Hf2) as (? & ? & ?). split_and!; try done. right. split; [by left|done]. }
  rewrite Hi2 in H3. assert (negb (zlen (stuff raw c) =? 3) || Z.testbit c 0 = true) as -> by (by destruct (zlen (stuff raw c) =? 3), (Z.testbit c 0)).
  cbn [andb]. pose proof (octet_store_spec c pre cur2 post _ sc2 e1 (ready_kept _ _ Hr Hk2 Hs2) Hh2 Hi2) as Ho.
  destruct (octet_store c sc2 e1) as [sc3 e3]. destruct Ho as (Hs3 & Hk3 & Ho). cbv zeta in Ho |- *.
  rewrite (kt_mru _ _ Hk2) in Ho. split_and!; [done|by eapply kept_trans|].
  destruct Ho as [(-> & Hf3 & Hi3 & Hfcs3 & Hh3)|[Ho [Hg1 Hg2]]].
  - left. split; [done|]. split; [congruence|]. rewrite <- expand_snoc in Hi3, Hh3. split; [done|]. intros _.
    split; [|done]. rewrite Hfcs3, Hfcs2, Hfcs. by rewrite pppfcs_snoc.
  - right. split; [done|]. split; [done|]. by rewrite Hg2, Hf2.
Qed.

(** *** The end of a packet *)

Local Ltac zl := rewrite ?zlen_app; unfold zlen; cbn [length]; lia.

Definition inside (b : ibuf) : Prop := 0 <= ib_off b ∧ 0 <= trailingspace b.

Lemma ztake_app_length {A} (l k : list A) n : zlen l = n → ztake n (l ++ k) = l.
Proof. intros <-. unfold ztake, zlen. rewrite Nat2Z.id. apply take_app_length. Qed.

Lemma chop_snoc b d x : ib_data b = d ++ [x] → chop b = ib_set (ib_off b) d b.
Proof. intros Hb. unfold chop. f_equal. rewrite Hb. apply ztake_app_length. zl. Qed.

Lemma chop_inside b d x : ib_data b = d ++ [x] → inside b → inside (chop b).
Proof.
  intros Hb [Ho Ht]. rewrite (chop_snoc b d x Hb). split; [done|]. unfold trailingspace in *. rewrite Hb, zlen_app in Ht.
  change (zlen [x]) with 1 in Ht. cbn. lia.
Qed.

Lemma holds_inside pre cur post data sc : holds_at pre cur post data sc → Forall inside (pre ++ [cur]).
Proof.
  intros []. apply Forall_app in ha_off0 as [Ho Hc]. apply Forall_app. split.
  - rewrite list.Forall_forall in *. intros b Hb. specialize (Ho b Hb). specialize (ha_full0 b Hb). split; [done|lia].
  - constructor; [|done]. split; [by apply list.Forall_cons_1 in Hc as [? _]|done].
Qed.

Lemma app_length_take {A} (l : list A) x k : take (S (length l)) (l ++ x :: k) = l ++ [x] ∧ drop (S (length l)) (l ++ x :: k) = k.
Proof.
  change (x :: k) with ([x] ++ k). rewrite app_assoc. replace (S (length l)) with (length (l ++ [x])) by (rewrite length_app; cbn; lia).
  split; [apply take_app_length|apply drop_app_length].
Qed.

Lemma excise_spec pre cur post data sc : sized (sc_m sc) → holds_at pre cur post data sc → ib_data cur ≠ [] →
  6 <= zlen data →
  let '(m, sc') := excise sc in
  contents m = ztake (zlen data - 2) data ∧ Forall inside m ∧ sized (sc_m sc') ∧ kept sc sc' ∧
  sc_flags sc' = sc_flags sc ∧ sc_ilen sc' = sc_ilen sc.
Proof.
  intros Hs Hh Hne Hz. pose proof (holds_inside _ _ _ _ _ Hh) as Hin. destruct Hh. rewrite ha_m0 in Hs.
  apply Forall_app in Hin as [Hpre Hcur]. apply list.Forall_cons_1 in Hcur as [Hcur _].
  apply Forall_app in Hs as [Hspre Hs]. apply list.Forall_cons_1 in Hs as [Hsc Hs].
  unfold excise. rewrite ha_m0, ha_mc0, alter_middle, lookup_middle. rewrite contents_app, contents_one in ha_data0.
  destruct (ib_data cur) as [|x d _] eqn:Hd using rev_ind; [done|]. pose proof (chop_inside _ _ _ Hd Hcur) as Hc1.
  rewrite (chop_snoc cur d x Hd) in *. cbn [ib_set ib_data].
  destruct d as [|y d _] using rev_ind.
  - change (zlen (@nil Z) =? 0) with true. cbv iota.
    destruct pre as [|b pre _] using rev_ind.
    { exfalso. subst data. done. }
    rewrite length_app. cbn [length]. replace (length pre + 1 - 1)%nat with (length pre) by lia.
    rewrite <- app_assoc. cbn [app]. rewrite alter_middle. rewrite !(proj1 (app_length_take _ _ _)), !(proj2 (app_length_take _ _ _)).
    apply Forall_app in Hpre as [Hpre Hb]. apply list.Forall_cons_1 in Hb as [Hb _].
    apply Forall_app in ha_full0 as [_ Hfb]. apply list.Forall_cons_1 in Hfb as [Hfb _].
    apply Forall_app in ha_room0 as [Hrb _]. apply Forall_app in Hrb as [_ Hrb]. apply list.Forall_cons_1 in Hrb as [Hrb _].
    apply Forall_app in Hspre as [Hspre _].
    destruct (ib_data b) as [|z db _] eqn:Hdb using rev_ind.
    { exfalso. unfold trailingspace in Hfb. rewrite Hdb in Hfb. unfold zlen in Hfb. cbn in Hfb. lia. }
    pose proof (chop_inside _ _ _ Hdb Hb) as Hc2. rewrite (chop_snoc b db z Hdb) in *.
    split_and!; try done.
    + rewrite contents_app, contents_one. cbn [ib_set ib_data]. subst data. rewrite contents_app, contents_one, Hdb.
      rewrite <- !app_assoc, (app_assoc (contents pre)). symmetry. apply ztake_app_length. zl.
    + apply Forall_app. split; [done|by constructor].
    + cbn. by constructor.
  - rewrite (proj2 (Z.eqb_neq (zlen (d ++ [y])) 0)) by zl.
    rewrite alter_middle. rewrite !(proj1 (app_length_take _ _ _)), !(proj2 (app_length_take _ _ _)).
    pose proof (chop_inside (ib_set (ib_off cur) (d ++ [y]) cur) d y eq_refl Hc1) as Hc2. rewrite (chop_snoc (ib_set (ib_off cur) (d ++ [y]) cur) d y eq_refl) in *.
    split_and!; try done.
    + rewrite contents_app, contents_one. cbn [ib_set ib_data]. subst data.
      rewrite <- !app_assoc, (app_assoc (contents pre)). symmetry. apply ztake_app_length. zl.
    + apply Forall_app. split; [done|by constructor].
Qed.


(** *** The receiver without mbufs

    [raw] are the characters since the last flag, escapes undone. *)

Record rx := Rx { rx_flush : bool; rx_esc : bool; rx_raw : bytes }.
Record rx_config := Cfg { cf_rej : bool; cf_mru : Z; cf_rmap : Z }.

Definition cfg_of sc : rx_config := Cfg (sc_flags sc SC_REJ_COMP_AC) (sc_mru sc) (sc_rasyncmap sc).

(** [lost]: there was no mbuf for the character. *)
Definition rx_octet (cf : rx_config) (lost : bool) (c : Z) (r : rx) : rx :=
  if accepts (cf_rej cf) (cf_mru cf) (rx_raw r) c && negb lost then Rx false false (rx_raw r ++ [c])
  else Rx true false (rx_raw r).

(** The packet of a frame, without its check sequence. *)
Definition rx_packet (raw : bytes) : option bytes :=
  if (match raw with [] => true | _ => pppfcs PPP_INITFCS raw =? PPP_GOODFCS end) && (6 <=? zlen (expand raw))
  then Some (ztake (zlen (expand raw) - 2) (expand raw)) else None.

Definition rx_char (cf : rx_config) (lost : bool) (c : Z) (r : rx) : option bytes * rx :=
  if c =? 126 then (if rx_flush r || rx_esc r then None else rx_packet (rx_raw r), Rx false false [])
  else if rx_flush r then (None, r)
  else if (c <? 32) && Z.testbit (cf_rmap cf) c then (None, r)
  else if rx_esc r then (None, rx_octet cf lost (Z.lxor c 32) r)
  else if c =? 125 then (None, Rx false true (rx_raw r))
  else (None, rx_octet cf lost c r).

Fixpoint rx_run (cf : rx_config) (cs : list (Z * bool)) (r : rx) : list bytes * rx :=
  match cs with
  | [] => ([], r)
  | (c, lost) :: cs =>
      let '(p, r) := rx_char cf lost c r in
      let '(l, r) := rx_run cf cs r in
      (match p with Some p => p :: l | None => l end, r)
  end.

Record agrees (r : rx) sc : Prop := {
  ag_ready : ready sc;
  ag_flush : sc_flags sc SC_FLUSH = rx_flush r;
  ag_esc : sc_flags sc SC_ESCAPED = rx_esc r;
  ag_raw : rx_flush r = false → partial (rx_raw r) sc
}.

Lemma partial_same raw sc sc' : sc_m sc' = sc_m sc → sc_mc sc' = sc_mc sc → sc_fcs sc' = sc_fcs sc →
  sc_ilen sc' = sc_ilen sc → partial raw sc → partial raw sc'.
Proof.
  intros Hm Hc Hf Hi [Hp1 Hp2]. split; [congruence|]. intros Hne. destruct (Hp2 Hne) as (Hq & pre & cur & post & Hh & Hn).
  split; [congruence|]. exists pre, cur, post. split; [|done]. by eapply holds_same.
Qed.

(** Flags that the receiver does not look at. *)
Lemma note_char_spec c sc : let sc' := note_char c sc in
  sc_m sc' = sc_m sc ∧ sc_mc sc' = sc_mc sc ∧ sc_fcs sc' = sc_fcs sc ∧ sc_ilen sc' = sc_ilen sc ∧ kept sc sc' ∧
  sc_flags sc' SC_FLUSH = sc_flags sc SC_FLUSH ∧ sc_flags sc' SC_ESCAPED = sc_flags sc SC_ESCAPED.
Proof.
  cbv zeta. unfold note_char. destruct (Z.testbit c 7), (Z.testbit (nth _ paritytab 0) _); by split_and!.
Qed.

Lemma agrees_note c r sc : agrees r sc → agrees r (note_char c sc).
Proof.
  intros []. destruct (note_char_spec c sc) as (Hm & Hc & Hf & Hi & Hk & Hfl & He).
  split; [|by rewrite Hfl|by rewrite He|].
  - apply (ready_kept sc); [done|done|]. rewrite Hm. apply ag_ready0.
  - intros Hr. eapply partial_same; eauto.
Qed.

Lemma frame_consts : PPP_FLAG = 126 ∧ PPP_ESCAPE = 125 ∧ PPP_TRANS = 32 ∧ PPP_HDRLEN = 4 ∧ PPP_FCSLEN = 2.
Proof. pose proof frame_chars as H1. pose proof frame_header as H2. injection H1. injection H2. auto. Qed.

(** Whether the check sequence lets a frame through. *)
Lemma fcs_check raw sc : partial raw sc →
  (0 <? sc_ilen sc) && negb (sc_fcs sc =? PPP_GOODFCS) =
  negb (match raw with [] => true | _ => pppfcs PPP_INITFCS raw =? PPP_GOODFCS end).
Proof.
  intros [Hi Hp]. rewrite Hi. destruct raw as [|a raw]; [done|]. destruct (Hp ltac:(done)) as [-> _].
  rewrite (proj2 (Z.ltb_lt _ _)); [done|]. pose proof (zlen_nonneg (expand (a :: raw))).
  destruct (Z.eq_dec (zlen (expand (a :: raw))) 0) as [Hz|]; [|lia]. by apply expand_nil in Hz.
Qed.

Lemma agrees_reset sc : ready sc → sc_flags sc SC_FLUSH = false → sc_flags sc SC_ESCAPED = false → sc_ilen sc = 0 →
  agrees (Rx false false []) sc.
Proof. intros. by split. Qed.

Lemma frame_end_spec r sc e : agrees r sc →
  let '(m, sc', e') := frame_end sc e in
  ((λ m, contents m) <$> m) = (if rx_flush r || rx_esc r then None else rx_packet (rx_raw r)) ∧
  (∀ l, m = Some l → Forall inside l) ∧ kept sc sc' ∧ agrees (Rx false false []) sc'.
Proof.
  intros []. unfold frame_end. rewrite <- ag_flush0, <- ag_esc0. set (sc1 := set_in _ _ _ 0 sc).
  assert (Hr1 : ready sc1) by (split; apply ag_ready0).
  destruct (sc_flags sc SC_FLUSH) eqn:Hfl, (sc_flags sc SC_ESCAPED) eqn:He;
    cbn [sc_flags set_in sc1]; rewrite ?Hfl, ?He; cbn [orb];
    try (split_and!; [done|done|by split|by apply agrees_reset; [split; apply ag_ready0|..]]).
  specialize (ag_raw0 ltac:(congruence)). pose proof (fcs_check _ _ ag_raw0) as Hc. change (sc_fcs sc1) with (sc_fcs sc). rewrite Hc.
  unfold rx_packet. destruct (match rx_raw r with [] => true | _ => _ end) eqn:Hg; cbn [negb andb].
  2: { split_and!; [done|done|by split|]. apply agrees_reset; [split; apply ag_ready0|done..]. }
  destruct frame_consts as (_ & _ & _ & -> & ->). change (4 + 2) with 6. destruct ag_raw0 as [Hi Hp]. rewrite Hi.
  rewrite Z.leb_antisym. destruct (Z.ltb_spec (zlen (expand (rx_raw r))) 6) as [Hz|Hz]; cbn [negb].
  { split_and!; try done; destruct (zlen (expand (rx_raw r)) =? 0); try (by split); (apply agrees_reset; [split; apply ag_ready0|done..]). }
  assert (rx_raw r ≠ []) as Hne by (intros Hx; rewrite Hx in Hz; done).
  destruct (Hp Hne) as (_ & pre & cur & post & Hh & Hcur).
  pose proof (excise_spec pre cur post _ sc1 (rd_sized _ Hr1) (holds_same _ _ _ _ sc sc1 eq_refl eq_refl Hh) Hcur Hz) as Hx.
  destruct (excise sc1) as [m sc2]. destruct Hx as (Hx1 & Hx2 & Hx3 & Hx4 & Hx5 & Hx6). split_and!.
  - cbn. by rewrite Hx1.
  - by intros l [= <-].
  - eapply kept_trans; [|exact Hx4]. by split.
  - apply agrees_reset; [by apply (ready_kept sc1)|by rewrite Hx5|by rewrite Hx5|by rewrite Hx6].
Qed.


Lemma rx_octet_spec c r sc e : agrees r sc → rx_flush r = false → sc_flags sc SC_ESCAPED = false →
  ∃ lost, (lost = true → pool_fails) ∧
  let '(sc', e') := octet c sc e in kept sc sc' ∧ agrees (rx_octet (cfg_of sc) lost c r) sc'.
Proof.
  intros [] Hr He. pose proof (octet_spec c (rx_raw r) sc e ag_ready0 (ag_raw0 Hr)) as Ho.
  destruct (octet c sc e) as [sc' e']. destruct Ho as (Hs & Hk & Ho). cbv zeta in Ho.
  pose proof (ready_kept _ _ ag_ready0 Hk Hs) as Hr'. unfold rx_octet. cbn [cf_rej cf_mru cfg_of].
  destruct Ho as [(-> & Hf & Hp)|(Ho & Hg1 & Hg2)].
  - exists false. split; [done|]. split; [done|]. split; [done|by rewrite Hf, ag_flush0|by rewrite Hf, He|done].
  - destruct Ho as [->|Hp].
    + exists false. split; [done|]. split; [done|]. split; [done|done|by rewrite Hg2|done].
    + exists true. split; [done|]. split; [done|]. rewrite andb_false_r. split; [done|done|by rewrite Hg2|done].
Qed.

Lemma agrees_flag r r' f b sc : agrees r sc → rx_flush r' = sc_flags (set_scflag f b sc) SC_FLUSH →
  rx_esc r' = sc_flags (set_scflag f b sc) SC_ESCAPED → (rx_flush r' = false → rx_flush r = false) →
  rx_raw r' = rx_raw r → agrees r' (set_scflag f b sc).
Proof.
  intros [] Hf He Hi Hr. split; [split; apply ag_ready0|done|done|]. intros Hx. rewrite Hr.
  apply (partial_same _ sc); try done. auto.
Qed.

Lemma frame_char_spec c r sc e : agrees r sc →
  ∃ lost, (lost = true → pool_fails) ∧
  let '(m, sc', e') := frame_char c sc e in
  let '(p, r') := rx_char (cfg_of sc) lost (Z.land c 255) r in
  ((λ m, contents m) <$> m) = p ∧ (∀ l, m = Some l → Forall inside l) ∧ kept sc sc' ∧ agrees r' sc'.
Proof.
  intros Ha. unfold frame_char. set (b := Z.land c 255). pose proof (agrees_note b r sc Ha) as Hn.
  destruct (note_char_spec b sc) as (_ & _ & _ & _ & Hk & _ & _). set (sc1 := note_char b sc) in *.
  assert (cfg_of sc = cfg_of sc1) as -> by (destruct Hk; unfold cfg_of; congruence).
  clearbody sc1 b. unfold rx_char. destruct frame_consts as (-> & -> & -> & _ & _).
  destruct (Z.eqb_spec b 126) as [->|Hb].
  { exists false. split; [done|]. pose proof (frame_end_spec r sc1 e Hn) as He. destruct (frame_end sc1 e) as [[m sc2] e2].
    destruct He as (? & ? & ? & ?). split_and!; try done. by eapply kept_trans. }
  pose proof Hn as []. rewrite ag_flush0, ag_esc0. destruct (rx_flush r) eqn:Hf; [exists false; by split_and!|].
  cbn [cf_rmap cfg_of]. destruct (_ && _); [exists false; by split_and!|].
  destruct (rx_esc r) eqn:Hx.
  - set (sc2 := set_scflag SC_ESCAPED false sc1). set (r2 := Rx false false (rx_raw r)).
    assert (Ha2 : agrees r2 sc2).
    { apply (agrees_flag r); try done. }
    destruct (rx_octet_spec (Z.lxor b 32) r2 sc2 e Ha2 eq_refl eq_refl) as (lost & Hl & Ho).
    exists lost. split; [done|]. destruct (octet _ sc2 e) as [sc3 e3]. destruct Ho as [Hk3 Ho]. split_and!; try done.
    eapply kept_trans; [exact Hk|]. eapply kept_trans; [|exact Hk3]. by split.
  - destruct (b =? 125).
    + exists false. split_and!; try done; [eapply kept_trans; [exact Hk|by split]|]. by apply (agrees_flag r).
    + destruct (rx_octet_spec b r sc1 e Hn Hf ltac:(congruence)) as (lost & Hl & Ho).
      exists lost. split; [done|]. destruct (octet b sc1 e) as [sc3 e3]. destruct Ho as [Hk3 Ho]. split_and!; try done.
      by eapply kept_trans.
Qed.

(** What the stack above does to the state of the receiver: nothing. *)
Definition same_input sc sc' : Prop :=
  (sc_m sc', sc_mc sc', sc_fcs sc', sc_ilen sc') = (sc_m sc, sc_mc sc, sc_fcs sc, sc_ilen sc) ∧
  (sc_flags sc', sc_mru sc', sc_rasyncmap sc') = (sc_flags sc, sc_mru sc, sc_rasyncmap sc).

Lemma agrees_same r sc sc' : agrees r sc → same_input sc sc' → agrees r sc' ∧ cfg_of sc' = cfg_of sc.
Proof.
  intros [[Hs Hm] Hf He Hr] [[= H1 H2 H3 H4] [= H5 H6 H7]]. unfold cfg_of. rewrite H5, H6, H7. split; [|done].
  split; [split; [by rewrite H1|by rewrite H6]|by rewrite H5|by rewrite H5|].
  intros Hx. apply (partial_same _ sc); auto.
Qed.

Lemma ppppktin_input m sc e : same_input sc (ppppktin m sc e).1.
Proof.
  unfold ppppktin, vj_input. repeat case_match; simplify_eq/=; done.
Qed.

Lemma getm_agrees r sc e : agrees r sc → let '(_, sc', e') := pppgetm sc e in agrees r sc' ∧ cfg_of sc' = cfg_of sc.
Proof.
  intros []. destruct (pppgetm_ready sc e ag_ready0) as (k & ok & e' & -> & Hs & _ & _). split; [|done].
  split; try done; [split; [done|apply ag_ready0]|]. intros Hf. destruct (ag_raw0 Hf) as [Hi Hp]. split; [done|].
  intros Hne. destruct (Hp Hne) as (Hq & pre & cur & post & Hh & Hc). split; [done|].
  exists pre, cur, (post ++ k). split; [|done]. destruct Hh. split; try done. cbn. rewrite ha_m0, <- app_assoc. done.
Qed.

Lemma pppinput_spec c r sc e : agrees r sc →
  ∃ lost, (lost = true → pool_fails) ∧
  let '(m, sc', e') := pppinput c sc e in
  let '(p, r') := rx_char (cfg_of sc) lost (Z.land c 255) r in
  ((λ m, contents m) <$> m) = p ∧ (∀ l, m = Some l → Forall inside l) ∧ agrees r' sc' ∧ cfg_of sc' = cfg_of sc.
Proof.
  intros Ha. destruct (frame_char_spec c r sc e Ha) as (lost & Hl & Hf). exists lost. split; [done|].
  unfold pppinput. destruct (frame_char c sc e) as [[m sc1] e1]. destruct (rx_char _ lost _ r) as [p r'].
  destruct Hf as (Hm & Hin & Hk & Ha1). assert (cfg_of sc1 = cfg_of sc) as Hc by (destruct Hk; unfold cfg_of; congruence).
  destruct m as [m|]; [|by split_and!].
  pose proof (ppppktin_input m sc1 e1) as Hp. destruct (ppppktin m sc1 e1) as [sc2 e2]. cbn [fst] in Hp.
  destruct (agrees_same _ _ _ Ha1 Hp) as [Ha2 Hc2]. pose proof (getm_agrees _ sc2 e2 Ha2) as Hg.
  destruct (pppgetm sc2 e2) as [[ok sc3] e3]. destruct Hg as [Ha3 Hc3]. split_and!; try done. congruence.
Qed.

(** The receiver is the one without mbufs; where the pool fails, the packet
    is lost. *)
Lemma receive_spec cs : ∀ r sc e, agrees r sc →
  ∃ losts, length losts = length cs ∧ (In true losts → pool_fails) ∧
  let '(l, sc', e') := receive cs sc e in
  let '(l', r') := rx_run (cfg_of sc) (zip ((λ c, Z.land c 255) <$> cs) losts) r in
  l = l' ∧ agrees r' sc'.
Proof.
  induction cs as [|c cs IH]; intros r sc e Ha; [by exists []|].
  destruct (pppinput_spec c r sc e Ha) as (lost & Hl & Hp). cbn [receive].
  destruct (pppinput c sc e) as [[m sc1] e1]. destruct (rx_char _ lost _ r) as [p r1] eqn:Hr.
  destruct Hp as (Hm & _ & Ha1 & Hc1). destruct (IH r1 sc1 e1 Ha1) as (losts & Hlen & Hl' & Hx).
  exists (lost :: losts). split; [cbn; lia|]. split; [intros [->|]; auto|].
  destruct (receive cs sc1 e1) as [[l sc2] e2]. cbn [fmap list_fmap zip rx_run]. cbn. rewrite Hr.
  rewrite <- Hc1. cbn in Hx. destruct (rx_run _ _ r1) as [l' r2]. destruct Hx as [-> Ha2]. split; [|done].
  destruct m, p; cbn in Hm; by simplify_eq.
Qed.

End Input.

End Frame.
