(* ===== verification/PppWire.v ===== *)
(** * PPP frames from one end of the line to the other ([if_ppp.c])

    What [ppp_wrt_flush] writes, character by character, and what the receiver
    of file PppFrame makes of it: the round trip of whole queues of packets,
    the receiver against arbitrary characters and against damage, and the
    requests that set the character maps and the MRU, between starts of the
    interface and characters that arrive. *)
From Stdlib Require Import ZArith Lia Bool.
From stdpp Require Import base tactics list numbers option.
From S2P Require Import Prelude PppFrame.

Local Open Scope Z_scope.

(** ** Output *)

Section Output.
Context `{FrameDefsLaws} {E : Type} `{!PppEnv E, !PppEnvLaws E}.
Implicit Types (sc : ppp_softc) (e : E).

(** A line that takes all that is written. *)
Definition writes_all : Prop := ∀ b e, (twrite b e).1 = zlen b.

Definition escapes (asyncmap : list Z) (b : bytes) : bytes := concat (escape asyncmap <$> b).

Lemma escapes_app a b1 b2 : escapes a (b1 ++ b2) = escapes a b1 ++ escapes a b2.
Proof. unfold escapes. by rewrite fmap_app, concat_app. Qed.

Lemma twrite_all b e : writes_all → ∃ e', twrite b e = (zlen b, e') ∧ line e' = line e ++ b.
Proof.
  intros Hw. specialize (Hw b e). pose proof (twrite_spec b e) as Ht. destruct (twrite b e) as [cc e']. cbn in Hw. subst cc.
  exists e'. split; [done|]. destruct Ht as [_ ->]. f_equal. unfold ztake, zlen. by rewrite Nat2Z.id, firstn_all.
Qed.

Lemma write_run_all run e : writes_all → ∃ e', write_run (length run) run (zlen run) e = (0, e') ∧ line e' = line e ++ run.
Proof.
  intros Hw. destruct run as [|c run]; [exists e; by rewrite app_nil_r|]. cbn [length write_run].
  assert (0 < zlen (c :: run)) as Hz by (rewrite zlen_cons; pose proof (zlen_nonneg run); lia).
  rewrite (proj2 (Z.ltb_lt _ _)) by done. destruct (twrite_all (c :: run) e Hw) as (e' & -> & Hl).
  rewrite (proj2 (Z.leb_gt _ _)) by done. rewrite Z.min_id, Z.sub_diag. exists e'. split; [|done].
  by destruct (length run).
Qed.

Lemma plain_run_spec a b : ∃ rest, b = plain_run a b ++ rest ∧ escapes a (plain_run a b) = plain_run a b ∧
  match rest with c :: _ => ESCAPE_P a c = true | [] => True end.
Proof.
  induction b as [|c b (rest & IH1 & IH2 & IH3)]; [by exists []|]. cbn [plain_run]. destruct (ESCAPE_P a c) eqn:He.
  - exists (c :: b). by split_and!.
  - exists rest. split_and!; [cbn; by f_equal| |done]. unfold escapes in *. cbn. rewrite IH2. unfold escape. by rewrite He.
Qed.

Lemma put_mbuf_spec a n : writes_all → ∀ b e, (length b <= n)%nat →
  ∃ e', put_mbuf n a b e = ([], e') ∧ line e' = line e ++ escapes a b.
Proof.
  intros Hw. induction n as [|n IH]; intros b e Hn.
  { destruct b; [|cbn in Hn; lia]. exists e. split; [done|]. by rewrite app_nil_r. }
  cbn [put_mbuf]. destruct b as [|c0 b0] eqn:Hb; [exists e; split; [done|]; by rewrite app_nil_r|]. rewrite <- Hb in *.
  destruct (plain_run_spec a b) as (rest & Hr & He & Hc).
  destruct (write_run_all (plain_run a b) e Hw) as (e1 & -> & Hl1). rewrite Z.sub_0_r. change (0 <? 0) with false. cbv iota.
  assert (zdrop (zlen (plain_run a b)) b = rest) as ->.
  { rewrite Hr at 2. unfold zdrop, zlen. rewrite Nat2Z.id. apply drop_app_length. }
  rewrite Hr, escapes_app, He. destruct rest as [|c rest].
  { exists e1. split; [done|]. by rewrite app_nil_r, Hl1. }
  destruct (twrite_all [PPP_ESCAPE] e1 Hw) as (e2 & -> & Hl2). change (negb (zlen [PPP_ESCAPE] =? 1)) with false. cbv iota.
  destruct (twrite_all [Z.lxor c PPP_TRANS] e2 Hw) as (e3 & -> & Hl3). change (negb (zlen [Z.lxor c PPP_TRANS] =? 1)) with false. cbv iota.
  destruct (IH rest e3) as (e4 & -> & Hl4).
  { rewrite Hr, length_app in Hn. cbn in Hn. lia. }
  exists e4. split; [done|]. rewrite Hl4, Hl3, Hl2, Hl1. unfold escapes. cbn. unfold escape at 2. rewrite Hc.
  by rewrite <- !app_assoc.
Qed.

(** The characters of a packet. *)
Definition frame (a : list Z) (p : bytes) : bytes :=
  escapes a p ++ endseq a (pppfcs PPP_INITFCS p).

Lemma put_chain_spec a m : writes_all → m ≠ [] → ∀ fcs e,
  line (put_chain a m fcs e) = line e ++ escapes a (concat m) ++ endseq a (pppfcs fcs (concat (tail m))).
Proof.
  intros Hw Hm. induction m as [|b m IH]; [done|]. intros fcs e. cbn [put_chain].
  destruct (put_mbuf_spec a (length b) Hw b e ltac:(done)) as (e1 & -> & Hl1). destruct m as [|b' m].
  - destruct (twrite_all (endseq a fcs) e1 Hw) as (e2 & -> & Hl2). cbn. rewrite Hl2, Hl1, app_nil_r. by rewrite <- app_assoc.
  - rewrite IH by done. rewrite Hl1. cbn [concat list.tail]. by rewrite !escapes_app, <- pppfcs_app, <- !app_assoc.
Qed.

(** *** Whole queues *)

(** The packets in the order in which they are sent. *)
Definition queued sc : list (list bytes) := sc_fastq sc ++ if_snd sc.

(** A packet as it is sent without header compression of TCP. *)
Definition sent sc (m : list bytes) : bytes :=
  let cp := hd [] m in compress_header (nth 2 cp 0 * 256 + nth 3 cp 0) cp sc ++ concat (tail m).

(** Frames, each perhaps with a flag before it. *)
Inductive frames (a : list Z) : list bytes → bytes → Prop :=
  | frames_nil : frames a [] []
  | frames_cons (b : bool) p ps out :
      frames a ps out → frames a (p :: ps) ((if b then [PPP_FLAG] else []) ++ frame a p ++ out).

Lemma ppp_dequeue_spec sc e : sc_flags sc SC_COMP_TCP = false →
  match queued sc with
  | [] => ppp_dequeue sc e = (None, sc, e)
  | m :: q => ∃ m' sc', ppp_dequeue sc e = (Some m', sc', e) ∧ concat m' = sent sc m ∧ m' ≠ [] ∧
      queued sc' = q ∧ sc_flags sc' = sc_flags sc ∧ sc_asyncmap sc' = sc_asyncmap sc ∧ sc_outm sc' = sc_outm sc ∧
      (∀ x, sent sc' x = sent sc x)
  end.
Proof.
  intros Hv. unfold queued, ppp_dequeue, vj_output.
  destruct (sc_fastq sc) as [|m f] eqn:Hf, (if_snd sc) as [|m' s] eqn:Hs; cbn [app]; try done; rewrite ?app_nil_r;
    cbn [sc_flags set_outq]; rewrite Hv; cbn [andb];
    match goal with |- context [nth 2 (hd [] ?m) 0 * 256 + ?p =? PPP_IP] =>
      destruct (Z.eqb_spec (nth 2 (hd [] m) 0 * 256 + p) PPP_IP) as [<-|_] end;
    (eexists _, _; split_and!; [reflexivity|reflexivity|done|cbn; by rewrite ?app_nil_r|done..]).
Qed.

Lemma wrt_loop_spec n : writes_all → ∀ sc e, sc_flags sc SC_COMP_TCP = false → sc_outm sc = None →
  (length (queued sc) < n)%nat →
  ∃ out, line (wrt_loop n sc e).2 = line e ++ out ∧ frames (sc_asyncmap sc) (sent sc <$> queued sc) out.
Proof.
  intros Hw. induction n as [|n IH]; intros sc e Hv Ho Hn; [lia|]. cbn [wrt_loop]. rewrite Ho.
  pose proof (ppp_dequeue_spec sc e Hv) as Hd. destruct (queued sc) as [|m q] eqn:Hq.
  { rewrite Hd. exists []. split; [by rewrite app_nil_r|constructor]. }
  destruct Hd as (m' & sc1 & -> & Hc & Hne & Hq1 & Hf1 & Ha1 & Ho1 & Hs1).
  set (e1 := if fionwrite e =? 0 then (twrite [PPP_FLAG] e).2 else e).
  assert (∃ b : bool, line e1 = line e ++ if b then [PPP_FLAG] else []) as [b Hl1].
  { unfold e1. destruct (fionwrite e =? 0).
    - exists true. destruct (twrite_all [PPP_FLAG] e Hw) as (? & -> & ?). done.
    - exists false. by rewrite app_nil_r. }
  clearbody e1. set (sc2 := set_out None _ sc1).
  destruct (IH sc2 (put_chain (sc_asyncmap sc1) m' (pppfcs PPP_INITFCS (hd [] m')) e1)) as (out & Hl & Hfr).
  - cbn. by rewrite Hf1.
  - done.
  - change (queued sc2) with (queued sc1). rewrite Hq1. cbn in Hn. lia.
  - exists ((if b then [PPP_FLAG] else []) ++ frame (sc_asyncmap sc) (sent sc m) ++ out). split.
    + rewrite Hl, put_chain_spec by done. rewrite Hl1, Ha1. unfold frame. rewrite <- Hc, <- pppfcs_app.
      destruct m' as [|h m']; [done|]. cbn [hd list.tail concat]. by rewrite <- !app_assoc.
    + cbn [fmap list_fmap]. constructor. change (queued sc2) with (queued sc1) in Hfr. rewrite Hq1 in Hfr.
      cbn in Hfr. rewrite Ha1 in Hfr. erewrite list_fmap_ext; [exact Hfr|]. intros i x _. cbn. by rewrite <- Hs1.
Qed.
End Output.

(** ** From one end of the line to the other *)

(** The map of characters to escape, as the requests to the line leave it:
    flags and escapes are escaped, [0x5e] and the characters from [0x20] to
    [0x3f] are not, since their escaped forms would be a flag and control
    characters. *)
Definition map_ok (a : list Z) : Prop :=
  length a = 8%nat ∧ ESCAPE_P a 126 = true ∧ ESCAPE_P a 125 = true ∧ ESCAPE_P a 94 = false ∧ nth 1 a 0 = 0.

(** The characters that the receiver drops are escaped by the sender. *)
Definition rmap_ok (a : list Z) (rmap : Z) : Prop :=
  ∀ c, 0 <= c < 32 → Z.testbit rmap c = true → ESCAPE_P a c = true.

Lemma map_ok_row1 a c : map_ok a → 32 <= c < 64 → ESCAPE_P a c = false.
Proof.
  intros (_ & _ & _ & _ & H1) Hc. unfold ESCAPE_P. rewrite Z.shiftr_div_pow2 by done.
  assert (c / 2 ^ 5 = 1) as -> by (symmetry; apply (Z.div_unique_pos _ _ _ (c - 32)); change (2 ^ 5) with 32; lia).
  change (Z.to_nat 1) with 1%nat. rewrite H1. apply Z.testbit_0_l.
Qed.

Lemma lxor_32 c : 0 <= c < 256 →
  (Z.lxor c 32 = if Z.testbit c 5 then c - 32 else c + 32) ∧ 0 <= Z.lxor c 32 < 256.
Proof.
  intros Hc. pose proof (proj1 (forallb_forall (λ n, let c := Z.of_nat n in
    (Z.lxor c 32 =? if Z.testbit c 5 then c - 32 else c + 32) && (0 <=? Z.lxor c 32) && (Z.lxor c 32 <? 256)) (seq 0 256))
    ltac:(vm_compute; reflexivity) (Z.to_nat c)) as Hb.
  cbv zeta in Hb. rewrite in_seq, Z2Nat.id in Hb by lia. specialize (Hb ltac:(lia)).
  apply andb_true_iff in Hb as [Hb H3]. apply andb_true_iff in Hb as [H1 H2].
  apply Z.eqb_eq in H1. apply Z.leb_le in H2. apply Z.ltb_lt in H3. auto.
Qed.

Lemma lxor_32_back c : Z.lxor (Z.lxor c 32) 32 = c.
Proof. by rewrite Z.lxor_assoc, Z.lxor_nilpotent, Z.lxor_0_r. Qed.

Lemma escaped_form a c : map_ok a → 0 <= c < 256 → ESCAPE_P a c = true → Z.lxor c 32 ≠ 126 ∧ 32 <= Z.lxor c 32.
Proof.
  intros Ha Hc He. pose proof Ha as (_ & _ & _ & H94 & _).
  assert (¬ 32 <= c < 64) as Hnr by (intros Hx; rewrite (map_ok_row1 a c Ha Hx) in He; done).
  assert (c ≠ 94) as Hn94 by (intros ->; congruence). destruct (lxor_32 c Hc) as [Hx _]. split.
  - intros Hy. apply Hn94. rewrite <- (lxor_32_back c), Hy. done.
  - rewrite Hx. destruct (Z.testbit c 5) eqn:H5; [|lia]. destruct (Z.lt_ge_cases c 32) as [Hlt|]; [|lia]. exfalso.
    rewrite <- (Z.mod_small c (2 ^ 5)) in H5 by lia. by rewrite Z.mod_pow2_bits_high in H5 by lia.
Qed.

Section Roundtrip.
Context `{FrameDefsLaws}.
Implicit Types (cf : rx_config) (a : list Z).

Lemma escape_bytes a c : 0 <= c < 256 → Bytes (escape a c).
Proof.
  intros Hc. unfold escape. destruct frame_consts as (_ & -> & -> & _). destruct (lxor_32 c Hc) as [_ Hx].
  destruct (ESCAPE_P a c); repeat constructor; lia.
Qed.

Lemma escapes_bytes a b : Bytes b → Bytes (escapes a b).
Proof.
  unfold escapes. induction 1 as [|c b Hc Hb IH]; [constructor|]. cbn. apply Forall_app. split; [by apply escape_bytes|done].
Qed.

(** The receiver when mbufs are never short. *)
Fixpoint rx_all cf (cs : bytes) (r : rx) : list bytes * rx :=
  match cs with
  | [] => ([], r)
  | c :: cs =>
      let '(p, r) := rx_char cf false c r in
      let '(l, r) := rx_all cf cs r in
      (match p with Some p => p :: l | None => l end, r)
  end.

Lemma rx_run_all cf cs : ∀ r losts, length losts = length cs → ¬ In true losts → rx_run cf (zip cs losts) r = rx_all cf cs r.
Proof.
  induction cs as [|c cs IH]; intros r [|b losts] Hlen Hn; try done. cbn. destruct b; [exfalso; apply Hn; by left|].
  destruct (rx_char cf false c r) as [p r']. rewrite IH; [done|cbn in Hlen; lia|]. intros Hi. apply Hn. by right.
Qed.

Lemma rx_all_app cf c1 : ∀ c2 r, rx_all cf (c1 ++ c2) r =
  let '(l1, r) := rx_all cf c1 r in let '(l2, r) := rx_all cf c2 r in (l1 ++ l2, r).
Proof.
  induction c1 as [|c c1 IH]; intros c2 r; cbn [app rx_all]; [by destruct (rx_all cf c2 r)|].
  destruct (rx_char cf false c r) as [p r1]. rewrite IH. destruct (rx_all cf c1 r1) as [l1 r2].
  destruct (rx_all cf c2 r2) as [l2 r3]. by destruct p.
Qed.

Lemma rx_escape cf a raw c : map_ok a → rmap_ok a (cf_rmap cf) → 0 <= c < 256 →
  accepts (cf_rej cf) (cf_mru cf) raw c = true →
  rx_all cf (escape a c) (Rx false false raw) = ([], Rx false false (raw ++ [c])).
Proof.
  intros Ha Hr Hc Hacc. pose proof Ha as (_ & H126 & H125 & _). unfold escape.
  destruct frame_consts as (_ & -> & -> & _). destruct (ESCAPE_P a c) eqn:He.
  - destruct (escaped_form a c Ha Hc He) as [Hl' Hl].
    cbn [rx_all]. unfold rx_char at 1. cbn -[Z.lxor Z.testbit rx_char].
    unfold rx_char. cbn [rx_flush rx_esc rx_raw]. rewrite (proj2 (Z.eqb_neq _ _) Hl'), (proj2 (Z.ltb_ge _ _) Hl).
    cbn [andb]. rewrite lxor_32_back. unfold rx_octet. cbn [rx_raw]. by rewrite Hacc.
  - cbn [rx_all]. unfold rx_char. cbn [rx_flush rx_esc rx_raw].
    rewrite (proj2 (Z.eqb_neq c 126)) by (intros ->; congruence).
    rewrite (proj2 (Z.eqb_neq c 125)) by (intros ->; congruence).
    assert ((c <? 32) && Z.testbit (cf_rmap cf) c = false) as ->.
    { destruct (Z.ltb_spec c 32); [|done]. destruct (Z.testbit (cf_rmap cf) c) eqn:Hb; [|done].
      rewrite (Hr c) in He by (done || lia). done. }
    unfold rx_octet. cbn [rx_raw]. by rewrite Hacc.
Qed.

Fixpoint accepted cf (raw b : bytes) : Prop :=
  match b with
  | [] => True
  | c :: b => accepts (cf_rej cf) (cf_mru cf) raw c = true ∧ accepted cf (raw ++ [c]) b
  end.

Lemma rx_escapes cf a b : map_ok a → rmap_ok a (cf_rmap cf) → Bytes b → ∀ raw, accepted cf raw b →
  rx_all cf (escapes a b) (Rx false false raw) = ([], Rx false false (raw ++ b)).
Proof.
  intros Ha Hr. unfold escapes. induction 1 as [|c b Hc Hb IH]; intros raw Hacc; [by rewrite app_nil_r|].
  destruct Hacc as [H1 H2]. cbn [fmap list_fmap concat]. rewrite rx_all_app, rx_escape, IH by done.
  by rewrite <- app_assoc.
Qed.

(** Past the header every character is accepted while there is room. *)
Lemma expand_long raw b : 4 <= zlen (expand raw) → expand (raw ++ b) = expand raw ++ b.
Proof.
  revert raw. induction b as [|c b IH]; intros raw Hz; [by rewrite !app_nil_r|].
  change (c :: b) with ([c] ++ b). rewrite !app_assoc.
  assert (expand (raw ++ [c]) = expand raw ++ [c]) as <-; [|apply IH].
  - rewrite expand_snoc. f_equal. unfold stuff, start. destruct raw as [|x raw]; [done|].
    by rewrite (proj2 (Z.eqb_neq _ _)) by lia.
  - rewrite expand_snoc, zlen_app. unfold stuff, start. destruct raw as [|x raw]; [done|].
    rewrite (proj2 (Z.eqb_neq _ _)) by lia. cbn [andb]. pose proof (zlen_nonneg [c]). lia.
Qed.

Lemma accepted_long cf b : ∀ raw, 4 <= zlen (expand raw) → zlen (expand raw) + zlen b <= cf_mru cf + 6 → accepted cf raw b.
Proof.
  induction b as [|c b IH]; intros raw Hz Hm; [done|]. rewrite zlen_cons in Hm. pose proof (zlen_nonneg b). cbn [accepted].
  split.
  - unfold accepts, stuff, start. destruct raw as [|x raw]; [done|].
    destruct frame_consts as (_ & _ & _ & -> & ->).
    rewrite (proj2 (Z.eqb_neq _ 2)), (proj2 (Z.eqb_neq _ 1)) by lia. cbn [andb negb orb].
    rewrite (proj2 (Z.eqb_neq _ 3)) by lia. apply Z.ltb_lt. lia.
  - apply IH; rewrite expand_long by done; rewrite zlen_app; change (zlen [c]) with 1; lia.
Qed.

(** The four forms of a header. *)
Lemma sent_forms sc p1 p2 h t : 0 <= p1 < 256 → 0 <= p2 < 256 →
  let s := sent sc ((255 :: 3 :: p1 :: p2 :: h) :: t) in
  let rest := h ++ concat t in
  s = 255 :: 3 :: p1 :: p2 :: rest ∨ p1 = 0 ∧ s = 255 :: 3 :: p2 :: rest ∨
  sc_flags sc SC_COMP_AC = true ∧ (s = p1 :: p2 :: rest ∨ p1 = 0 ∧ p2 < 255 ∧ s = p2 :: rest).
Proof.
  intros H1 H2 s rest. subst s rest. unfold sent, compress_header. cbn [hd list.tail nth].
  assert (∀ x : bytes, zdrop 2 (255 :: 3 :: x) = x ∧ zdrop 1 (255 :: x) = x) as Hd by done.
  destruct (sc_flags sc SC_COMP_AC && _ && _ && _ && _) eqn:Hac.
  - apply andb_true_iff in Hac as [Hac _]. apply andb_true_iff in Hac as [Hac _]. apply andb_true_iff in Hac as [Hac _].
    apply andb_true_iff in Hac as [Hac _]. right. right. split; [done|].
    destruct (sc_flags sc SC_COMP_PROT); cbn [andb]; [|by left].
    destruct (Z.ltb_spec (p1 * 256 + p2) 255); [|by left]. assert (p1 = 0) as -> by lia. right.
    split_and!; [done|lia|done].
  - destruct (sc_flags sc SC_COMP_PROT); cbn [andb]; [|by left].
    destruct (Z.ltb_spec (p1 * 256 + p2) 255); [|by left]. assert (p1 = 0) as -> by lia. right. left. by split.
Qed.

Ltac zl_test l k := let b := eval cbv in (Z.of_nat (length l) =? k) in change (zlen l =? k) with b.
Ltac hdr := unfold accepts, stuff, start, expand, expand_ac, expand_prot; cbn [app];
  repeat match goal with
  | |- context [zlen [] =? ?k] => zl_test (@nil Z) k
  | |- context [zlen [?a] =? ?k] => zl_test [a] k
  | |- context [zlen [?a; ?b] =? ?k] => zl_test [a; b] k
  | |- context [zlen [?a; ?b; ?c] =? ?k] => zl_test [a; b; c] k
  | |- context [zlen [?a; ?b; ?c; ?d] =? ?k] => zl_test [a; b; c; d] k
  | |- context [?x =? ?x] => rewrite (Z.eqb_refl x)
  | H : ?x ≠ ?y |- context [?x =? ?y] => rewrite (proj2 (Z.eqb_neq x y) H)
  | H : Z.testbit ?x ?n = _ |- context [Z.testbit ?x ?n] => rewrite H
  | _ => progress cbn [andb orb negb app]
  end.

Lemma header_accepted cf s p1 p2 rest : Z.testbit p1 0 = false → Z.testbit p2 0 = true →
  0 <= cf_mru cf → 4 + zlen rest <= cf_mru cf + 6 →
  s = 255 :: 3 :: p1 :: p2 :: rest ∨ p1 = 0 ∧ s = 255 :: 3 :: p2 :: rest ∨
    cf_rej cf = false ∧ (s = p1 :: p2 :: rest ∨ p1 = 0 ∧ p2 < 255 ∧ s = p2 :: rest) →
  accepted cf [] s ∧ expand s = 255 :: 3 :: p1 :: p2 :: rest.
Proof.
  intros H1 H2 Hm Hz Hs. destruct frame_consts as (_ & _ & _ & Hh & Hf).
  assert (p1 ≠ 255) as Hp1 by (intros ->; done).
  assert (p1 ≠ 3) as Hp1' by (intros ->; done).
  assert (Hb : ∀ l : bytes, zlen l <= 3 → (zlen l <? cf_mru cf + PPP_HDRLEN + PPP_FCSLEN) = true).
  { intros l Hl. rewrite Hh, Hf. apply Z.ltb_lt. lia. }
  assert (Hlong : ∀ hd, expand hd = [255; 3; p1; p2] → accepted cf hd rest ∧ expand (hd ++ rest) = 255 :: 3 :: p1 :: p2 :: rest).
  { intros hd Hhd. assert (zlen (expand hd) = 4) as H4 by by rewrite Hhd. split; [apply accepted_long; lia|].
    rewrite expand_long by lia. by rewrite Hhd. }
  destruct Hs as [->|[[-> ->]|[Hrej [->|(-> & Hp2 & ->)]]]].
  - destruct (Hlong [255; 3; p1; p2]) as [Hacc He]; [by hdr|]. split; [|exact He].
    cbn [accepted app]. split_and!; try exact Hacc; hdr; try (apply Hb; done); done.
  - destruct (Hlong [255; 3; p2]) as [Hacc He]; [by hdr|]. split; [|exact He].
    cbn [accepted app]. split_and!; try exact Hacc; hdr; try (apply Hb; done); done.
  - destruct (Hlong [p1; p2]) as [Hacc He]; [by hdr|]. split; [|exact He].
    cbn [accepted app]. rewrite Hrej. split_and!; try exact Hacc; hdr; try (apply Hb; done); done.
  - assert (p2 ≠ 255) as Hp2' by lia. destruct (Hlong [p2]) as [Hacc He]; [by hdr|]. split; [|exact He].
    cbn [accepted app]. rewrite Hrej. split_and!; try exact Hacc; hdr; try (apply Hb; done); done.
Qed.

(** A packet as the protocols hand it to the interface. *)
Definition packet_ok (mru : Z) (m : list bytes) : Prop :=
  ∃ p1 p2 h t, m = (255 :: 3 :: p1 :: p2 :: h) :: t ∧ Z.testbit p1 0 = false ∧ Z.testbit p2 0 = true ∧
    Bytes (concat m) ∧ zlen (concat m) <= mru + 4.

Definition trailer (p : bytes) : bytes := let f := pppfcs PPP_INITFCS p in [fcs_lo f; fcs_hi f].

Lemma frame_eq a p : frame a p = escapes a (p ++ trailer p) ++ [PPP_FLAG].
Proof. unfold frame, endseq, trailer. rewrite escapes_app, <- !app_assoc. unfold escapes. cbn. by rewrite app_nil_r, <- !app_assoc. Qed.

Lemma trailer_bytes p : Bytes (trailer p).
Proof.
  unfold trailer, fcs_lo, fcs_hi. rewrite !land_255. repeat constructor; apply Z.mod_pos_bound; done.
Qed.

(** One frame is received as the packet it was made from. *)
Lemma rx_frame cf a sc m : map_ok a → rmap_ok a (cf_rmap cf) → 0 <= cf_mru cf → packet_ok (cf_mru cf) m →
  (sc_flags sc SC_COMP_AC = true → cf_rej cf = false) →
  Bytes (sent sc m) ∧ rx_all cf (frame a (sent sc m)) (Rx false false []) = ([concat m], Rx false false []).
Proof.
  intros Ha Hr Hm0 (p1 & p2 & h & t & -> & H1 & H2 & Hb & Hz) Hac. cbn [concat] in Hb, Hz |- *.
  cbn [app] in Hb, Hz |- *. set (rest := h ++ concat t) in *.
  pose proof Hb as Hb'. do 2 apply list.Forall_cons_1 in Hb' as [_ Hb']. apply list.Forall_cons_1 in Hb' as [Hb1 Hb'].
  apply list.Forall_cons_1 in Hb' as [Hb2 Hb'].
  set (s := sent sc _).
  assert (Hs : s = 255 :: 3 :: p1 :: p2 :: rest ∨ p1 = 0 ∧ s = 255 :: 3 :: p2 :: rest ∨
     cf_rej cf = false ∧ (s = p1 :: p2 :: rest ∨ p1 = 0 ∧ p2 < 255 ∧ s = p2 :: rest)).
  { destruct (sent_forms sc p1 p2 h t Hb1 Hb2) as [?|[?|[? ?]]]; [by left|by right; left|right; right]. split; auto. }
  clearbody s. assert (Hsb : Bytes s).
  { destruct Hs as [->|[[_ ->]|[_ [->|(_ & _ & ->)]]]]; repeat (constructor; [unfold is_byte in *; lia|]); done. }
  split; [done|]. set (tr := trailer s).
  destruct (header_accepted cf (s ++ tr) p1 p2 (rest ++ tr)) as [Hacc He]; try done.
  { rewrite zlen_app. rewrite !zlen_cons in Hz. change (zlen tr) with 2. lia. }
  { destruct Hs as [->|[[? ->]|[? [->|(? & ? & ->)]]]]; [by left|by right; left|by right; right; split; [|left]|].
    right; right. split; [done|]. by right. }
  rewrite frame_eq, rx_all_app. fold tr. rewrite rx_escapes; [|done|done|apply Forall_app; split; [done|apply trailer_bytes]|done].
  cbn [app rx_all]. unfold rx_char. destruct frame_consts as (-> & _). cbn [Z.eqb Pos.eqb rx_flush rx_esc rx_raw orb].
  unfold rx_packet. assert (pppfcs PPP_INITFCS (s ++ tr) = PPP_GOODFCS) as ->.
  { rewrite pppfcs_app. apply good_fcs, pppfcs_range; [|done]. pose proof frame_fcs as Hg. injection Hg as -> _. lia. }
  rewrite Z.eqb_refl, He. cbn [app] in *.
  assert (match s ++ tr with [] => true | _ => true end = true) as -> by by destruct (s ++ tr).
  change (255 :: 3 :: p1 :: p2 :: rest ++ tr) with ((255 :: 3 :: p1 :: p2 :: rest) ++ tr).
  rewrite zlen_app. change (zlen tr) with 2. rewrite (proj2 (Z.leb_le _ _)).
  2: { rewrite !zlen_cons. pose proof (zlen_nonneg rest). lia. }
  cbn [andb]. f_equal. f_equal. unfold ztake. rewrite Z.add_simpl_r. unfold zlen. rewrite Nat2Z.id. apply take_app_length.
Qed.

Lemma rx_frames cf a sc ms out : map_ok a → rmap_ok a (cf_rmap cf) → 0 <= cf_mru cf →
  (sc_flags sc SC_COMP_AC = true → cf_rej cf = false) → Forall (packet_ok (cf_mru cf)) ms →
  frames a (sent sc <$> ms) out →
  Bytes out ∧ rx_all cf out (Rx false false []) = ((λ m, concat m) <$> ms, Rx false false []).
Proof.
  intros Ha Hr Hm Hac Hms. revert out. induction Hms as [|m ms Hp Hms IH]; intros out Hf; inversion Hf; subst; [done|].
  destruct (rx_frame cf a sc m Ha Hr Hm Hp Hac) as [Hb Hx]. destruct (IH _ ltac:(done)) as [Hb' IH'].
  destruct frame_consts as (Hflag & _).
  split.
  - apply Forall_app. split; [destruct b; rewrite ?Hflag; repeat constructor; lia|]. apply Forall_app. split; [|done].
    rewrite frame_eq. apply Forall_app. split; [apply escapes_bytes, Forall_app; split; [done|apply trailer_bytes]|].
    rewrite Hflag. repeat constructor; lia.
  - assert (Hflg : rx_all cf (if b then [PPP_FLAG] else []) (Rx false false []) = ([], Rx false false [])).
    { destruct b; [|done]. cbn [rx_all]. unfold rx_char. by rewrite Hflag. }
    by rewrite rx_all_app, Hflg, rx_all_app, Hx, IH'.
Qed.

(** A receiver between packets. *)
Definition idle sc : Prop :=
  ready sc ∧ sc_flags sc SC_FLUSH = false ∧ sc_flags sc SC_ESCAPED = false ∧ sc_ilen sc = 0.

Lemma land_bytes b : Bytes b → (λ c, Z.land c 255) <$> b = b.
Proof. induction 1 as [|c b Hc Hb IH]; [done|]. cbn. f_equal; [|exact IH]. rewrite land_255. by apply Z.mod_small. Qed.

Lemma transmit_spec {E E'} `{!PppEnv E, !PppEnvLaws E} `{!PppEnv E', !PppEnvLaws E'} sc (e : E) rc (e' : E') :
  writes_all (E := E) → ¬ pool_fails (E := E') →
  sc_flags sc SC_COMP_TCP = false → sc_outm sc = None → map_ok (sc_asyncmap sc) →
  rmap_ok (sc_asyncmap sc) (sc_rasyncmap rc) → (sc_flags sc SC_COMP_AC = true → sc_flags rc SC_REJ_COMP_AC = false) →
  idle rc → Forall (packet_ok (sc_mru rc)) (queued sc) →
  ∃ out, line (ppp_wrt_flush sc e).2 = line e ++ out ∧
    let '(l, rc', _) := receive out rc e' in l = (λ m, concat m) <$> queued sc ∧ agrees (Rx false false []) rc'.
Proof.
  intros Hw Hp Hv Ho Ha Hr Hac (Hrd & Hi1 & Hi2 & Hi3) Hms. unfold ppp_wrt_flush.
  destruct (wrt_loop_spec (packets_out sc) Hw sc e Hv Ho) as (out & Hl & Hf).
  { unfold packets_out, queued. rewrite length_app. lia. }
  exists out. split; [done|].
  destruct (rx_frames (cfg_of rc) (sc_asyncmap sc) sc (queued sc) out) as [Hb Hx]; try done; [apply Hrd|].
  destruct (receive_spec out (Rx false false []) rc e') as (losts & Hlen & Hlost & Hrx); [by apply agrees_reset|].
  destruct (receive out rc e') as [[l rc'] e1]. rewrite land_bytes in Hrx by done.
  rewrite rx_run_all, Hx in Hrx; [done|done|]. intros Hin. auto.
Qed.
End Roundtrip.

(** ** Damaged frames *)

Section Damage.
Context `{FrameDefsLaws}.

Lemma crc_bit_kernel x : 0 <= x < 65536 → crc_bit x = 0 → x = 0.
Proof.
  intros Hx. unfold crc_bit. rewrite Z.shiftr_div_pow2 by done. change (2 ^ 1) with 2.
  destruct (Z.testbit x 0) eqn:Hb; intros Hz.
  - apply Z.lxor_eq in Hz. pose proof (Z.div_lt_upper_bound x 2 32768). lia.
  - pose proof (Z.bit0_mod x) as Hm. rewrite Hb in Hm. pose proof (Z.div_mod x 2). cbn in Hm. lia.
Qed.

Lemma crc_kernel n : ∀ x, 0 <= x < 65536 → crc_bits n x = 0 → x = 0.
Proof.
  induction n as [|n IH]; intros x Hx Hz; [done|]. apply crc_bit_kernel; [done|]. apply IH; [by apply crc_bit_range|done].
Qed.

Lemma crc_bits_add n : ∀ k x, crc_bits n (crc_bits k x) = crc_bits (k + n) x.
Proof. intros k. induction k as [|k IH]; intros x; [done|]. cbn [crc_bits Nat.add]. apply IH. Qed.

(** Two characters are taken as one number of 16 bits. *)
Lemma crc_two fcs c d : crc_byte (crc_byte fcs c) d = crc_bits 16 (Z.lxor fcs (Z.lxor c (2 ^ 8 * d))).
Proof.
  unfold crc_byte. rewrite <- (crc_shift 8 d) at 1. rewrite <- crc_iter_lxor, crc_bits_add. f_equal.
  by rewrite Z.lxor_assoc.
Qed.

Lemma pppfcs_lxor a b : ∀ f g, length a = length b → Bytes a → Bytes b →
  Z.lxor (pppfcs f a) (pppfcs g b) = pppfcs (Z.lxor f g) (zip_with Z.lxor a b).
Proof.
  revert b. induction a as [|x a IH]; intros [|y b] f g Hlen Ha Hb; try done.
  apply list.Forall_cons_1 in Ha as [Hx Ha]. apply list.Forall_cons_1 in Hb as [Hy Hb].
  change (pppfcs f (x :: a)) with (pppfcs (PPP_FCS fcstab f x) a). change (pppfcs g (y :: b)) with (pppfcs (PPP_FCS fcstab g y) b).
  rewrite IH by (done || (cbn in Hlen; lia)). cbn [zip_with].
  change (pppfcs (Z.lxor f g) (Z.lxor x y :: zip_with Z.lxor a b)) with
    (pppfcs (PPP_FCS fcstab (Z.lxor f g) (Z.lxor x y)) (zip_with Z.lxor a b)). f_equal.
  rewrite !PPP_FCS_crc by first [done|apply (lxor_range 8); done]. unfold crc_byte. rewrite <- crc_iter_lxor. f_equal.
  rewrite !Z.lxor_assoc. f_equal. by rewrite <- !Z.lxor_assoc, (Z.lxor_comm x g).
Qed.

Lemma Bytes_two c d : is_byte c → is_byte d → Bytes [c; d].
Proof. intros. constructor; [done|]. constructor; [done|constructor]. Qed.

Lemma PPP_FCS_inj a b x : is_byte x → 0 <= a < 65536 → 0 <= b < 65536 →
  PPP_FCS fcstab a x = PPP_FCS fcstab b x → a = b.
Proof.
  intros Hx Ha Hb Hab. rewrite !PPP_FCS_crc in Hab by done. unfold crc_byte in Hab.
  assert (Z.lxor a b = 0) as Hz; [|by apply Z.lxor_eq]. apply (crc_kernel 8).
  - apply (lxor_range 16); [lia|change (2 ^ 16) with 65536; lia..].
  - replace (Z.lxor a b) with (Z.lxor (Z.lxor a x) (Z.lxor b x)); [rewrite crc_iter_lxor, Hab; apply Z.lxor_nilpotent|].
    rewrite !Z.lxor_assoc, (Z.lxor_comm b x), <- (Z.lxor_assoc x x b), Z.lxor_nilpotent, Z.lxor_0_l. done.
Qed.

Lemma pppfcs_inj p : Bytes p → ∀ a b, 0 <= a < 65536 → 0 <= b < 65536 → pppfcs a p = pppfcs b p → a = b.
Proof.
  induction 1 as [|x p Hx Hp IH]; intros a b Ha Hb Hab; [done|].
  change (pppfcs (PPP_FCS fcstab a x) p = pppfcs (PPP_FCS fcstab b x) p) in Hab.
  apply IH in Hab; [|by apply PPP_FCS_range..]. by apply (PPP_FCS_inj _ _ x).
Qed.

Lemma two_kernel x y : is_byte x → is_byte y → crc_bits 16 (Z.lxor x (256 * y)) = 0 → x = 0 ∧ y = 0.
Proof.
  intros Hx Hy Hz. unfold is_byte in *. apply crc_kernel in Hz.
  - apply Z.lxor_eq in Hz. lia.
  - apply (lxor_range 16); [done|change (2 ^ 16) with 65536; lia..].
Qed.

Lemma pppfcs_two f c d : is_byte c → is_byte d → pppfcs f [c; d] = crc_bits 16 (Z.lxor f (Z.lxor c (256 * d))).
Proof. intros Hc Hd. rewrite pppfcs_spec by by apply Bytes_two. cbn [fold_left]. apply crc_two. Qed.

Lemma is_byte_lxor c d : is_byte c → is_byte d → is_byte (Z.lxor c d).
Proof. by apply (lxor_range 8). Qed.

(** The check sequence changes with any change of two adjacent octets. *)
Lemma pppfcs_damage fcs pre c d c' d' post : 0 <= fcs < 65536 → Bytes (pre ++ c :: d :: post) → is_byte c' → is_byte d' →
  pppfcs fcs (pre ++ c :: d :: post) = pppfcs fcs (pre ++ c' :: d' :: post) → c = c' ∧ d = d'.
Proof.
  intros Hf Hb Hc' Hd'. apply Forall_app in Hb as [Hpre Hb]. apply list.Forall_cons_1 in Hb as [Hc Hb].
  apply list.Forall_cons_1 in Hb as [Hd Hpost]. rewrite !pppfcs_app. pose proof (pppfcs_range fcs pre Hf Hpre) as Hf'.
  generalize dependent (pppfcs fcs pre). intros f Hf'.
  change (c :: d :: post) with ([c; d] ++ post). change (c' :: d' :: post) with ([c'; d'] ++ post). rewrite !pppfcs_app.
  intros Heq. apply pppfcs_inj in Heq; [|done|apply pppfcs_range; [done|by apply Bytes_two]..].
  assert (Hx : pppfcs 0 [Z.lxor c c'; Z.lxor d d'] = 0).
  { transitivity (pppfcs (Z.lxor f f) (zip_with Z.lxor [c; d] [c'; d'])); [by rewrite Z.lxor_nilpotent|].
    rewrite <- pppfcs_lxor by (done || by apply Bytes_two). rewrite Heq. apply Z.lxor_nilpotent. }
  rewrite pppfcs_two, Z.lxor_0_l in Hx by by apply is_byte_lxor.
  apply two_kernel in Hx as [H1 H2]; [|by apply is_byte_lxor..]. split; by apply Z.lxor_eq.
Qed.

End Damage.

(** ** Opening and requests *)

Section Requests.
Context `{FrameDefsLaws} {E : Type} `{!PppEnv E, !PppEnvLaws E}.
Implicit Types (sc : ppp_softc) (e : E).

(** What a request may ask: the flags of the receiver are not in [SC_MASK], an
    extended map has eight words. *)
Definition request_ok (cmd : tioctl) : Prop :=
  match cmd with
  | PPPIOCSFLAGS mask _ => mask SC_FLUSH = false ∧ mask SC_ESCAPED = false
  | PPPIOCSXASYNCMAP v => length v = 8%nat
  | _ => True
  end.

(** A line between packets whose characters can be escaped. *)
Record line_ok sc : Prop := {
  lo_map : map_ok (sc_asyncmap sc);
  lo_idle : idle sc;
  lo_mru : PPP_MRU <= sc_mru sc <= PPP_MAXMRU
}.

Lemma map_ok_row0 v a : map_ok a → map_ok (v :: tail a).
Proof. intros (Hl & H1 & H2 & H3 & H4). destruct a as [|a0 [|a1 a]]; try done. Qed.

Lemma map_ok_xasyncmap v : length v = 8%nat → map_ok (xasyncmap v).
Proof.
  intros Hl. destruct v as [|v0 [|v1 [|v2 [|v3 v]]]]; try done. cbn [xasyncmap].
  split_and!; [done| | | |done]; unfold ESCAPE_P.
  - change (Z.testbit (Z.lor v3 1610612736) 30 = true). by rewrite Z.lor_spec, orb_true_r.
  - change (Z.testbit (Z.lor v3 1610612736) 29 = true). by rewrite Z.lor_spec, orb_true_r.
  - change (Z.testbit (Z.ldiff v2 1073741824) 30 = false). by rewrite Z.ldiff_spec, andb_false_r.
Qed.

(** *** What a line goes through

    Requests, the start of the interface, and characters from the line; each
    leaves the following alone but where it says so. *)
Inductive line_op := Request (cmd : tioctl) | Init | Chars (cs : bytes).

Definition is_init (op : line_op) : bool := match op with Init => true | _ => false end.

Definition op_ok (op : line_op) : Prop := match op with Request cmd => request_ok cmd | _ => True end.

Definition line_exec (op : line_op) sc e : ppp_softc * E :=
  match op with
  | Request cmd => let '(_, sc, e) := ppptioctl cmd sc e in (sc, e)
  | Init => (pinit sc, e)
  | Chars cs => let '(_, sc, e) := receive cs sc e in (sc, e)
  end.

Fixpoint line_run (ops : list line_op) sc e : ppp_softc * E :=
  match ops with
  | [] => (sc, e)
  | op :: ops => let '(sc, e) := line_exec op sc e in line_run ops sc e
  end.

(** Whatever the receiver is doing. *)
Record line_inv sc : Prop := {
  li_map : map_ok (sc_asyncmap sc);
  li_agrees : ∃ r, agrees r sc;
  li_mru : PPP_MRU <= sc_mru sc <= PPP_MAXMRU
}.

(** Between packets this is [line_ok]. *)
Lemma line_inv_ok sc : line_inv sc → sc_flags sc SC_FLUSH = false → sc_flags sc SC_ESCAPED = false → sc_ilen sc = 0 → line_ok sc.
Proof. intros [Hm (r & Ha) Hu] Hf He Hi. split; [done| |done]. split; [apply Ha|done]. Qed.

Lemma agrees_fields r sc sc' : agrees r sc →
  (sc_m sc', sc_mc sc', sc_fcs sc', sc_ilen sc') = (sc_m sc, sc_mc sc, sc_fcs sc, sc_ilen sc) →
  (sc_flags sc' SC_FLUSH, sc_flags sc' SC_ESCAPED) = (sc_flags sc SC_FLUSH, sc_flags sc SC_ESCAPED) →
  0 <= sc_mru sc' → agrees r sc'.
Proof.
  intros [[Hs _] Hf He Hp] [= H1 H2 H3 H4] [= H5 H6] Hm. split; [split; [by rewrite H1|done]|congruence|congruence|].
  intros Hx. apply (partial_same _ sc); auto.
Qed.

(** The input mbufs have room for a packet of the MRU. *)
Definition room sc : Prop := need sc <= total (sc_m sc).

Definition conf sc : bool * bool * list Z * Z := (if_up sc, if_running sc, sc_asyncmap sc, sc_mru sc).

Abbreviation sized l := (Forall (λ b, 4 <= ib_size b) l).

(** The mbufs do not get fewer, and the interface is as it was. *)
Record steady sc sc' : Prop := {
  sd_conf : conf sc' = conf sc;
  sd_sized : sized (sc_m sc) → sized (sc_m sc') ∧ total (sc_m sc) <= total (sc_m sc')
}.

Lemma steady_refl sc : steady sc sc.
Proof. split; [done|]. intros ?. split; [done|lia]. Qed.

Lemma steady_trans sc1 sc2 sc3 : steady sc1 sc2 → steady sc2 sc3 → steady sc1 sc3.
Proof.
  intros [A1 A2] [B1 B2]. split; [congruence|]. intros Hs. destruct (A2 Hs) as [Hs2 ?]. destruct (B2 Hs2). split; [done|lia].
Qed.

Lemma total_sizes l : total l = foldr Z.add 0 (ib_size <$> l).
Proof. induction l as [|b l IH]; [done|]. cbn. by rewrite IH. Qed.

Lemma steady_sizes sc sc' : conf sc' = conf sc → ib_size <$> sc_m sc' = ib_size <$> sc_m sc → steady sc sc'.
Proof.
  intros Hc Hs. split; [done|]. intros Hz. rewrite !total_sizes, Hs. split; [|lia].
  assert (Hf : Forall (λ n, 4 <= n) (ib_size <$> sc_m sc)) by exact (proj2 (Forall_fmap ib_size (λ n, 4 <= n) (sc_m sc)) Hz).
  rewrite <- Hs in Hf. exact (proj1 (Forall_fmap ib_size (λ n, 4 <= n) (sc_m sc')) Hf).
Qed.

Lemma sizes_alter f (k : nat) (l : list ibuf) : (∀ b, ib_size (f b) = ib_size b) → ib_size <$> alter f k l = ib_size <$> l.
Proof.
  intros Hf. revert k. induction l as [|b l IH]; intros [|k]; [done|done|cbn; by rewrite Hf|].
  change (ib_size b :: (ib_size <$> alter f k l) = ib_size b :: (ib_size <$> l)). by rewrite IH.
Qed.

Lemma getm_walk_enough l : ∀ len e, len <= total l → (getm_walk l len e).1.1 <= 0.
Proof.
  induction l as [|b l IH]; intros len e Hl; cbn [getm_walk]; cbn [total] in Hl; destruct (Z.ltb_spec 0 len); try (cbn; lia).
  specialize (IH (len - ib_size b) e ltac:(lia)). by destruct (getm_walk l _ e) as [[len' l'] e1].
Qed.

Lemma getm_steady sc e : let '(ok, sc', _) := pppgetm sc e in
  steady sc sc' ∧ (sized (sc_m sc) → (room sc' ∨ pool_fails) ∧ (ok = true → room sc') ∧ (room sc → ok = true)).
Proof.
  destruct (pppgetm sc e) as [[ok sc'] e'] eqn:Hg. split; [split|].
  - unfold pppgetm in Hg. destruct (getm_walk _ _ _) as [[len l] e1]. by simplify_eq.
  - intros Hs. destruct (pppgetm_spec sc e Hs) as (k & e1 & ok1 & Hg' & _ & Hk & _). rewrite Hg in Hg'. simplify_eq/=.
    pose proof (fresh_sized k Hk) as Hks. pose proof (total_nonneg k Hks). rewrite total_app, Forall_app. split; [done|lia].
  - intros Hs. destruct (pppgetm_spec sc e Hs) as (k & e1 & ok1 & Hg' & _ & Hk & Hn & Hok). rewrite Hg in Hg'. simplify_eq/=.
    split; [done|]. split; [done|]. intros Hr. unfold room, need in Hr. unfold pppgetm in Hg.
    pose proof (getm_walk_enough (sc_m sc) (HDROFF + sc_mru sc + PPP_HDRLEN + PPP_FCSLEN) e Hr) as Hw.
    destruct (getm_walk _ _ _) as [[len l] e2]. simplify_eq. apply Z.leb_le, Hw.
Qed.

(** **** Characters *)

Lemma steady_flag f b sc : steady sc (set_scflag f b sc).
Proof. by apply steady_sizes. Qed.

Lemma steady_flush sc : steady sc (flush sc).
Proof. unfold flush. destruct (sc_flags sc SC_FLUSH); [apply steady_refl|by apply steady_sizes]. Qed.

Lemma steady_store cs sc : steady sc (store cs sc).
Proof. apply steady_sizes; [done|]. by apply sizes_alter. Qed.

Lemma steady_in mc fcs ilen sc : steady sc (set_in (sc_m sc) mc fcs ilen sc).
Proof. by apply steady_sizes. Qed.

Lemma first_octet_steady c sc e : let '(_, sc', _) := first_octet c sc e in steady sc sc'.
Proof.
  unfold first_octet. destruct (sc_ilen sc =? 0); [|apply steady_refl].
  assert (Hg : let '(sc', _) := match sc_m sc with [] => let '(_, sc, e) := pppgetm sc e in (sc, e) | _ => (sc, e) end in steady sc sc').
  { destruct (sc_m sc); [|apply steady_refl]. pose proof (getm_steady sc e) as Hg. destruct (pppgetm sc e) as [[ok sc1] e1]. apply Hg. }
  destruct (match sc_m sc with [] => let '(_, sc, e) := pppgetm sc e in (sc, e) | _ => (sc, e) end) as [sc1 e1].
  destruct (sc_m sc1) as [|b r] eqn:Hm; [done|].
  set (sc2 := set_in (ib_set (if HDROFF + PPP_HDRLEN <=? ib_size b then HDROFF else 0) [] b :: r) 0 PPP_INITFCS 0 sc1).
  assert (Hs : steady sc sc2). { apply (steady_trans _ sc1); [done|]. apply steady_sizes; [done|]. by rewrite Hm. }
  destruct (negb _); [|done]. destruct (sc_flags sc2 SC_REJ_COMP_AC); [done|]. apply (steady_trans _ sc2); [done|apply steady_store].
Qed.

Lemma next_mbuf_steady sc e : let '(_, sc', _) := next_mbuf sc e in steady sc sc'.
Proof.
  unfold next_mbuf. destruct (sc_m sc !! sc_mc sc) as [b|]; [|apply steady_refl]. destruct (trailingspace b <=? 0); [|apply steady_refl].
  assert (Hg : let '(sc', _) := match sc_m sc !! S (sc_mc sc) with None => let '(_, sc, e) := pppgetm sc e in (sc, e) | Some _ => (sc, e) end in steady sc sc').
  { destruct (sc_m sc !! S (sc_mc sc)); [apply steady_refl|]. pose proof (getm_steady sc e) as Hg. destruct (pppgetm sc e) as [[ok sc1] e1]. apply Hg. }
  destruct (match sc_m sc !! S (sc_mc sc) with None => let '(_, sc, e) := pppgetm sc e in (sc, e) | Some _ => (sc, e) end) as [sc1 e1].
  destruct (sc_m sc1 !! S (sc_mc sc1)); [|done]. apply (steady_trans _ sc1); [done|]. apply steady_sizes; [done|]. by apply sizes_alter.
Qed.

Lemma octet_steady c sc e : steady sc (octet c sc e).1.
Proof.
  unfold octet. pose proof (first_octet_steady c sc e) as H1. destruct (first_octet c sc e) as [[ok sc1] e1].
  assert (Hfl : ∀ sc2, steady sc sc2 → steady sc (flush sc2)) by (intros sc2 Hs; apply (steady_trans _ sc2); [done|apply steady_flush]).
  destruct ok; cbn [negb]; [|by apply Hfl]. destruct ((sc_ilen sc1 =? 1) && negb (c =? PPP_UI)); [by apply Hfl|].
  set (sc2 := if (sc_ilen sc1 =? 2) && Z.testbit c 0 then store [0] sc1 else sc1).
  assert (H2 : steady sc sc2). { unfold sc2. destruct (_ && _); [|done]. apply (steady_trans _ sc1); [done|apply steady_store]. }
  clearbody sc2. destruct ((sc_ilen sc2 =? 3) && negb (Z.testbit c 0)); [by apply Hfl|]. unfold octet_store. set (sc3 := set_in _ _ _ (sc_ilen sc2 + 1) sc2).
  assert (H3 : steady sc sc3) by (apply (steady_trans _ sc2); [done|apply steady_in]).
  destruct (_ <? _); [by apply Hfl|]. pose proof (next_mbuf_steady sc3 e1) as H4. destruct (next_mbuf sc3 e1) as [[ok sc4] e2].
  assert (H5 : steady sc sc4) by by apply (steady_trans _ sc3).
  destruct ok; cbn [negb]; [|by apply Hfl]. apply (steady_trans _ sc4); [done|]. cbn [fst].
  eapply steady_trans; [apply steady_in|]. eapply steady_trans; [apply steady_store|]. apply steady_in.
Qed.

(** A packet takes its mbufs away. *)
Lemma frame_char_steady c sc e : let '(m, sc', _) := frame_char c sc e in
  match m with
  | None => steady sc sc'
  | Some _ => conf sc' = conf sc ∧ (sized (sc_m sc) → sized (sc_m sc'))
  end.
Proof.
  unfold frame_char. set (sc1 := note_char (Z.land c 255) sc).
  assert (H1 : steady sc sc1) by (unfold sc1, note_char; eapply steady_trans; apply steady_flag).
  clearbody sc1. set (d := Z.land c 255). destruct (d =? PPP_FLAG).
  - unfold frame_end. set (sc2 := set_in _ _ _ 0 sc1).
    assert (H2 : steady sc sc2) by (apply (steady_trans _ sc1); [done|apply steady_in]).
    destruct (_ || _).
    { apply (steady_trans _ sc2); [done|]. destruct (_ || _); [|by apply steady_sizes]. eapply steady_trans; apply steady_flag. }
    destruct (_ <? _).
    { apply (steady_trans _ sc2); [done|]. destruct (_ =? _); [apply steady_refl|by apply steady_sizes]. }
    unfold excise. cbn -[alter]. split; [apply H2|]. intros Hs. apply H2 in Hs as [Hs _]. apply Forall_drop.
    set (mc := match _ with Some _ => _ | None => _ end). clearbody mc.
    by destruct (sd_sized _ _ (steady_sizes sc2 (set_in (alter chop mc (alter chop (sc_mc sc2) (sc_m sc2))) 0 0 0 sc2)
      eq_refl ltac:(cbn -[alter]; by rewrite !sizes_alter)) Hs).
  - destruct (sc_flags sc1 SC_FLUSH); [done|]. destruct (_ && _); [done|]. destruct (sc_flags sc1 SC_ESCAPED).
    + pose proof (octet_steady (Z.lxor d PPP_TRANS) (set_scflag SC_ESCAPED false sc1) e) as Ho.
      destruct (octet _ _ e) as [sc2 e2]. apply (steady_trans _ sc1); [done|]. eapply steady_trans; [apply steady_flag|done].
    + destruct (d =? PPP_ESCAPE); [apply (steady_trans _ sc1); [done|apply steady_flag]|].
      pose proof (octet_steady d sc1 e) as Ho. destruct (octet d sc1 e) as [sc2 e2]. by apply (steady_trans _ sc1).
Qed.

Lemma ppppktin_conf m sc e : conf (ppppktin m sc e).1 = conf sc.
Proof. unfold ppppktin, vj_input. repeat case_match; simplify_eq/=; done. Qed.

(** Afterwards the mbufs have room again, unless the pool fails. *)
Lemma pppinput_room c sc e : sized (sc_m sc) → let '(_, sc', _) := pppinput c sc e in
  conf sc' = conf sc ∧ sized (sc_m sc') ∧ (room sc → room sc' ∨ pool_fails).
Proof.
  intros Hs. unfold pppinput. pose proof (frame_char_steady c sc e) as Hf. destruct (frame_char c sc e) as [[m sc1] e1].
  destruct m as [m|].
  - destruct Hf as [Hc Hz]. specialize (Hz Hs). pose proof (ppppktin_input m sc1 e1) as [[= Hm _ _ _] _].
    pose proof (ppppktin_conf m sc1 e1) as Hc2. destruct (ppppktin m sc1 e1) as [sc2 e2]. cbn [fst] in *.
    rewrite <- Hm in Hz. pose proof (getm_steady sc2 e2) as Hg. destruct (pppgetm sc2 e2) as [[ok sc3] e3].
    destruct Hg as [[Hc3 Hs3] Hg]. split; [congruence|]. split; [by apply Hs3|]. intros _. by apply Hg.
  - destruct Hf as [Hc Hz]. destruct (Hz Hs) as [Hz1 Ht]. split; [done|]. split; [done|]. intros Hr. left.
    unfold room, need in *. unfold conf in Hc. injection Hc as _ _ _ ->. lia.
Qed.

Lemma receive_room cs : ∀ sc e, sized (sc_m sc) → let '(_, sc', _) := receive cs sc e in
  conf sc' = conf sc ∧ (room sc → room sc' ∨ pool_fails).
Proof.
  induction cs as [|c cs IH]; intros sc e Hs; [by split; [|left]|]. cbn [receive].
  pose proof (pppinput_room c sc e Hs) as Hp. destruct (pppinput c sc e) as [[m sc1] e1]. destruct Hp as (Hc1 & Hs1 & Hr1).
  specialize (IH sc1 e1 Hs1). destruct (receive cs sc1 e1) as [[l sc2] e2]. destruct IH as [Hc2 Hr2].
  split; [congruence|]. intros Hr. destruct (Hr1 Hr); [auto|by right].
Qed.

(** **** Requests *)

(** What [PPPIOCSMRU] promises: the MRU with room for it; or the usual MRU,
    and room for it unless the interface is down. *)
Definition mru_request v sc e : Prop :=
  let '(err, sc', _) := ppptioctl (PPPIOCSMRU v) sc e in
  (err = 0 ∧ sc_mru sc' = v ∧ room sc' ∧ if_up sc' = if_up sc ∨
   err = ENOBUFS ∧ sc_mru sc' = PPP_MRU ∧ (if_up sc' = true → room sc')) ∧
  sc_asyncmap sc' = sc_asyncmap sc ∧ (room sc → room sc' ∧ if_up sc' = if_up sc) ∧
  ∀ r, agrees r sc → agrees r sc'.

Lemma mru_request_ok v sc e : line_inv sc → PPP_MRU <= v <= PPP_MAXMRU → mru_request v sc e.
Proof.
  intros [Hm (r & Ha) Hu] Hv. assert (Hmr : 0 <= PPP_MRU) by (pose proof mru_range; lia). unfold mru_request. cbn [ppptioctl].
  rewrite (proj2 (Z.leb_le PPP_MRU v)), (proj2 (Z.leb_le v PPP_MAXMRU)) by lia. cbn [andb].
  assert (Hset : ∀ x sc0, 0 <= x → ∀ r, agrees r sc0 → agrees r (set_mru x sc0)) by (intros; by eapply agrees_fields).
  assert (Hs : sized (sc_m (set_mru v sc))) by apply Ha.
  pose proof (getm_steady (set_mru v sc) e) as Hg. pose proof (λ r Ha, getm_agrees r (set_mru v sc) e (Hset v sc ltac:(lia) r Ha)) as Hga.
  destruct (pppgetm (set_mru v sc) e) as [[ok sc1] e1]. destruct Hg as [[Hc1 Hs1] Hg]. destruct (Hg Hs) as (_ & Hok & _).
  destruct (Hs1 Hs) as [Hz1 Ht1]. unfold conf in Hc1. injection Hc1 as Hup1 Hrun1 Hmap1 Hmru1. cbn in *. destruct ok.
  { split; [left; auto|]. split; [done|]. split; [auto|]. intros r' Hr'. apply (Hga r' Hr'). }
  pose proof (getm_steady (set_mru PPP_MRU sc1) e1) as Hg2.
  pose proof (λ r Ha, getm_agrees r (set_mru PPP_MRU sc1) e1 (Hset PPP_MRU sc1 Hmr r Ha)) as Hga2.
  destruct (pppgetm (set_mru PPP_MRU sc1) e1) as [[ok2 sc2] e2]. destruct Hg2 as [[Hc2 Hs2] Hg2]. destruct (Hg2 Hz1) as (_ & Hok2 & Hroom2).
  unfold conf in Hc2. injection Hc2 as Hup2 Hrun2 Hmap2 Hmru2. cbn in *.
  assert (Hag : ∀ r', agrees r' sc → agrees r' sc2) by (intros r' Hr'; apply Hga2, (Hga r' Hr')).
  assert (Hr : room sc → ok2 = true). { intros Hr. apply Hroom2. unfold room, need in *. cbn. lia. }
  destruct ok2.
  - split; [right; auto|]. split; [congruence|]. split; [|done]. intros _. split; [auto|congruence].
  - split; [right; done|]. split; [cbn; congruence|]. split; [intros Hx; by discriminate Hr|].
    intros r' Hr'. apply (agrees_fields r' sc2); try done; [by apply Hag|]. cbn. lia.
Qed.

Lemma ppptioctl_inv cmd sc e : request_ok cmd → line_inv sc → let '(_, sc', _) := ppptioctl cmd sc e in
  line_inv sc' ∧ (room sc → room sc' ∧ if_up sc' = if_up sc).
Proof.
  intros Hc Hl. pose proof Hl as [Hm (r & Ha) Hu]. pose proof mru_range as Hmr.
  assert (Hag : ∀ sc', (sc_m sc', sc_mc sc', sc_fcs sc', sc_ilen sc') = (sc_m sc, sc_mc sc, sc_fcs sc, sc_ilen sc) →
    (sc_flags sc' SC_FLUSH, sc_flags sc' SC_ESCAPED) = (sc_flags sc SC_FLUSH, sc_flags sc SC_ESCAPED) →
    sc_mru sc' = sc_mru sc → map_ok (sc_asyncmap sc') → line_inv sc').
  { intros sc' H1 H2 H3 H4. split; [done| |by rewrite H3]. exists r. apply (agrees_fields r sc); try done. lia. }
  destruct cmd as [mask flags|v|v|v|v|v|v]; cbn [ppptioctl]; try by split; [apply Hag|].
  - destruct Hc as [H1 H2]. split; [|done]. apply Hag; try done. cbn. by rewrite H1, H2.
  - split; [|done]. apply Hag; try done. by apply map_ok_row0.
  - split; [|done]. apply Hag; try done. by apply map_ok_xasyncmap.
  - destruct ((PPP_MRU <=? v) && (v <=? PPP_MAXMRU)) eqn:Hv; [|done].
    pose proof (mru_request_ok v sc e Hl) as Hx. unfold mru_request in Hx. cbn [ppptioctl] in Hx. rewrite Hv in Hx.
    apply andb_true_iff in Hv as [H1 H2]. apply Z.leb_le in H1, H2. specialize (Hx ltac:(lia)).
    destruct (let '(_, _, _) := pppgetm _ _ in _) as [[err sc'] e']. destruct Hx as (Hx & Hmap & Hr & Hagr). split; [|done].
    split; [by rewrite Hmap|exists r; auto|]. destruct Hx as [(_ & -> & _)|(_ & -> & _)]; lia.
  - by destruct (MAX_STATES <? v).
Qed.

(** **** Runs *)

Lemma line_exec_inv op sc e : op_ok op → line_inv sc → let '(sc', _) := line_exec op sc e in
  line_inv sc' ∧ (room sc → room sc' ∧ if_up sc' = is_init op || if_up sc ∨ pool_fails ∧ ∃ cs, op = Chars cs).
Proof.
  intros Hop Hl. destruct op as [cmd| |cs]; cbn [line_exec].
  - pose proof (ppptioctl_inv cmd sc e Hop Hl) as Hx. destruct (ppptioctl cmd sc e) as [[r sc'] e']. destruct Hx as [H1 H2].
    split; [done|]. auto.
  - destruct Hl as [Hm (r & Ha) Hu]. pose proof mru_range. split; [|auto]. split; [done| |done].
    exists r. apply (agrees_fields r sc); try done. cbn. lia.
  - destruct Hl as [Hm (r & Ha) Hu]. destruct (receive_spec cs r sc e Ha) as (losts & _ & _ & Hx).
    pose proof (receive_room cs sc e (rd_sized _ (ag_ready _ _ Ha))) as Hr. destruct (receive cs sc e) as [[l sc'] e'].
    destruct (rx_run _ _ r) as [l' r']. destruct Hx as [_ Ha']. destruct Hr as [Hc Hr]. unfold conf in Hc. injection Hc as Hup _ Hmap Hmru.
    split; [split; [by rewrite Hmap|by exists r'|by rewrite Hmru]|]. intros Hx. destruct (Hr Hx); [left; auto|right; eauto].
Qed.

Lemma pppopen_inv e sc e' : pppopen e = (Some sc, e') → line_inv sc ∧ room sc ∧ if_up sc = false.
Proof.
  unfold pppopen. set (sc0 := MkSc _ _ _ _ _ _ _ _ _ _ _ _ _ _ _ _ _ _ _). pose proof mru_range.
  assert (Hr : ready sc0) by (split; [constructor|cbn; lia]).
  destruct (pppgetm_ready sc0 (sl_compress_init e) Hr) as (k & ok & e1 & -> & Hs & _ & Hok). destruct ok; [|done].
  cbn [negb]. intros [= <- _]. split; [|by split; [apply Hok|]].
  split; [by split_and!| |cbn; lia]. exists (Rx false false []). apply agrees_reset; try done. split; [done|cbn; lia].
Qed.

Lemma line_run_inv ops : ∀ sc e, Forall op_ok ops → line_inv sc → line_inv (line_run ops sc e).1.
Proof.
  induction ops as [|op ops IH]; intros sc e Hc Hl; [done|]. apply list.Forall_cons_1 in Hc as [H1 H2]. cbn [line_run].
  pose proof (line_exec_inv op sc e H1 Hl) as Hx. destruct (line_exec op sc e) as [sc1 e1]. apply IH; [done|apply Hx].
Qed.

Lemma line_run_room ops : (∀ cs, Chars cs ∈ ops → ¬ pool_fails) → ∀ sc e, Forall op_ok ops → line_inv sc → room sc →
  let sc' := (line_run ops sc e).1 in room sc' ∧ if_up sc' = existsb is_init ops || if_up sc.
Proof.
  intros Hp. induction ops as [|op ops IH]; intros sc e Hc Hl Hr.
  { by split. }
  apply list.Forall_cons_1 in Hc as [H1 H2]. cbn [line_run]. pose proof (line_exec_inv op sc e H1 Hl) as Hx.
  destruct (line_exec op sc e) as [sc1 e1]. destruct Hx as [Hl1 Hx]. destruct (Hx Hr) as [[Hr1 Hu1]|[Hpf (cs & ->)]].
  2: { exfalso. apply (Hp cs); [constructor|done]. }
  destruct (IH ltac:(intros cs Hin; apply (Hp cs); by constructor) sc1 e1 H2 Hl1 Hr1) as [Hr2 Hu2]. split; [done|].
  rewrite Hu2, Hu1. cbn [existsb]. by rewrite orb_assoc, (orb_comm (existsb is_init ops)).
Qed.

(** ** What may be received *)

Definition rx_wf (cf : rx_config) (r : rx) : Prop := rx_flush r = false → zlen (expand (rx_raw r)) <= cf_mru cf + 6.

Lemma rx_char_bounds cf lost c r : 0 <= cf_mru cf → rx_wf cf r →
  let '(p, r') := rx_char cf lost c r in rx_wf cf r' ∧ ∀ x, p = Some x → 4 <= zlen x <= cf_mru cf + 4.
Proof.
  intros Hm Hr.
  assert (Hoct : ∀ c, rx_wf cf (rx_octet cf lost c r)).
  { intros x. unfold rx_octet. destruct (accepts _ _ _ x) eqn:Ha; [|done]. destruct lost; [done|]. cbn [andb negb]. intros _. cbn.
    unfold accepts in Ha. apply andb_true_iff in Ha as [_ Ha]. destruct frame_consts as (_ & _ & _ & Hh & Hf).
    rewrite Hh, Hf in Ha. apply Z.ltb_lt in Ha. rewrite expand_snoc, zlen_app. change (zlen [x]) with 1. lia. }
  unfold rx_char. destruct (c =? 126).
  { split; [intros _; change (0 <= cf_mru cf + 6); lia|]. destruct (rx_flush r) eqn:Hf; [done|]. specialize (Hr Hf).
    destruct (rx_esc r); [done|]. cbn [orb]. unfold rx_packet. intros x.
    destruct (match rx_raw r with [] => true | _ => _ end); [|done].
    destruct (Z.leb_spec 6 (zlen (expand (rx_raw r)))); [|done]. cbn [andb]. intros [= <-]. rewrite zlen_ztake. lia. }
  destruct (rx_flush r) eqn:Hf; [by split; [intros ?; congruence|]|].
  destruct (_ && _); [by split|]. destruct (rx_esc r); [by split|]. destruct (c =? 125); [|by split].
  split; [|done]. intros _. by apply Hr.
Qed.

Lemma rx_run_bounds cf cs : 0 <= cf_mru cf → ∀ r, rx_wf cf r →
  Forall (λ x : bytes, 4 <= zlen x <= cf_mru cf + 4) (rx_run cf cs r).1.
Proof.
  intros Hm. induction cs as [|[c lost] cs IH]; intros r Hr; [constructor|]. cbn [rx_run].
  pose proof (rx_char_bounds cf lost c r Hm Hr) as Hb. destruct (rx_char cf lost c r) as [p r1]. destruct Hb as [Hr1 Hp].
  specialize (IH r1 Hr1). destruct (rx_run cf cs r1) as [l r2]. cbn in *. destruct p; [|done]. constructor; auto.
Qed.

End Requests.

(** ** Theorems *)

Section Theorems.
Context `{FrameDefsLaws} {E : Type} `{!PppEnv E, !PppEnvLaws E}.
Implicit Types (sc : ppp_softc) (e : E).

(** IP packets within the MRU are queued in the form that arrives. *)
Lemma pppoutput_packet_ok mru room m0 sc e : Bytes (concat m0) → zlen (concat m0) <= mru →
  Forall (packet_ok mru) (queued sc) →
  let '(_, sc', _) := pppoutput AF_INET room m0 sc e in
  Forall (packet_ok mru) (queued sc') ∧ sc_asyncmap sc' = sc_asyncmap sc ∧ sc_flags sc' = sc_flags sc ∧
  sc_outm sc' = sc_outm sc.
Proof.
  intros Hb Hz Hq. unfold pppoutput. destruct (_ && _); [done|].
  destruct (negb _); [done|]. destruct (if room then _ else _) as [ok e1]. destruct (negb ok); [done|].
  pose proof frame_header as Hh. injection Hh as -> -> _ _. rewrite frame_ip.
  set (m := if room then _ else _).
  assert (Hm : packet_ok mru m).
  { exists 0, 33, (if room then hd [] m0 else []), (if room then list.tail m0 else m0).
    assert (concat m = 255 :: 3 :: 0 :: 33 :: concat m0) as Hc by (unfold m; destruct room, m0; done).
    split_and!; [by unfold m; destruct room|done|done| |].
    - rewrite Hc. repeat (constructor; [unfold is_byte; lia|]). done.
    - rewrite Hc, !zlen_cons. lia. }
  destruct (output_hook _ e1) as [took e2]. destruct took; [done|]. destruct (qfull _); [done|].
  unfold queued in *. apply Forall_app in Hq as [Hq1 Hq2].
  destruct (interactive _); split_and!; try done; cbn [sc_fastq if_snd set_outq]; rewrite ?Forall_app; split_and!; try done; by constructor.
Qed.

(** C8: From one end of the line to the other: whatever the first interface has
    queued (within the MRU of the second, with an address, a control octet and
    a protocol of the usual form), what [ppp_wrt_flush] writes to a line that
    takes it is received as exactly these packets, in the same order.  Both
    interfaces may have any character maps that requests can set, as long as
    characters that the receiver drops are escaped by the sender, and any
    compression of the header that the receiver does not reject. *)
Theorem transmit_receive {E'} `{!PppEnv E', !PppEnvLaws E'} sc e rc (e' : E') :
  writes_all (E := E) → ¬ pool_fails (E := E') →
  sc_flags sc SC_COMP_TCP = false → sc_outm sc = None → line_ok sc → line_ok rc →
  rmap_ok (sc_asyncmap sc) (sc_rasyncmap rc) → (sc_flags sc SC_COMP_AC = true → sc_flags rc SC_REJ_COMP_AC = false) →
  Forall (packet_ok (sc_mru rc)) (queued sc) →
  ∃ out, line (ppp_wrt_flush sc e).2 = line e ++ out ∧ (receive out rc e').1.1 = (λ m, concat m) <$> queued sc.
Proof.
  intros Hw Hp Hv Ho Hs Hr Hmap Hac Hq.
  destruct (transmit_spec sc e rc e' Hw Hp Hv Ho (lo_map _ Hs) Hmap Hac (lo_idle _ Hr) Hq) as (out & Hl & Hx).
  exists out. split; [done|]. destruct (receive out rc e') as [[l rc'] e1]. by destruct Hx as [-> _].
Qed.

(** C37: Whatever characters arrive: the receiver, which works in place in a chain
    of mbufs, hands up the packets of the receiver that only collects the
    characters since the last flag ([rx_run]), up to packets lost where the
    pool had no mbuf; a packet is complete, its check sequence right, and it
    is no longer than the MRU allows. *)
Theorem receive_refines cs sc e : line_ok sc →
  ∃ losts, length losts = length cs ∧ (In true losts → pool_fails) ∧
    let '(l, sc', _) := receive cs sc e in
    l = (rx_run (cfg_of sc) (zip ((λ c, Z.land c 255) <$> cs) losts) (Rx false false [])).1 ∧
    Forall (λ p, 4 <= zlen p <= sc_mru sc + 4) l ∧ ∃ r, agrees r sc'.
Proof.
  intros [_ (Hr & Hi1 & Hi2 & Hi3) Hu]. pose proof mru_range.
  destruct (receive_spec cs (Rx false false []) sc e) as (losts & Hlen & Hl & Hx); [by apply agrees_reset|].
  exists losts. split; [done|]. split; [done|]. destruct (receive cs sc e) as [[l sc'] e'].
  pose proof (rx_run_bounds (cfg_of sc) (zip ((λ c, Z.land c 255) <$> cs) losts) ltac:(cbn; lia) (Rx false false [])) as Hb.
  destruct (rx_run _ _ _) as [l' r']. destruct Hx as [-> Ha]. split; [done|]. split; [|by exists r']. apply Hb.
  intros _. change (0 <= sc_mru sc + 6). lia.
Qed.


(** C39: A frame of which two adjacent octets were changed is dropped. *)
Theorem damage_detected pre c d c' d' post sc e :
  agrees (Rx false false (pre ++ c' :: d' :: post)) sc → Bytes (pre ++ c :: d :: post) → is_byte c' → is_byte d' →
  pppfcs PPP_INITFCS (pre ++ c :: d :: post) = PPP_GOODFCS → (c, d) ≠ (c', d') →
  let '(m, sc', _) := pppinput PPP_FLAG sc e in m = None ∧ if_ierrors sc' = if_ierrors sc + 1 ∧ agrees (Rx false false []) sc'.
Proof.
  intros Ha Hb Hc Hd Hg Hne. set (raw := pre ++ c' :: d' :: post) in *.
  assert (Hbad : (match raw with [] => true | _ => pppfcs PPP_INITFCS raw =? PPP_GOODFCS end) = false).
  { destruct raw eqn:Hraw; [by destruct pre|]. rewrite <- Hraw. apply Z.eqb_neq. intros Heq. apply Hne. rewrite <- Hg in Heq.
    unfold raw in Heq. destruct (pppfcs_damage PPP_INITFCS pre c d c' d' post) as [-> ->]; try done.
    pose proof frame_fcs as Hf. injection Hf as -> _. lia. }
  unfold pppinput, frame_char. destruct frame_consts as (-> & _). change (Z.land 126 255) with 126.
  pose proof (agrees_note 126 _ _ Ha) as Hn. assert (if_ierrors (note_char 126 sc) = if_ierrors sc) as <- by done.
  change (126 =? 126) with true. cbv iota. set (sc1 := note_char 126 sc) in *. clearbody sc1.
  unfold frame_end. destruct Hn as [Hr Hf He Hp]. cbn [rx_flush rx_esc rx_raw] in *.
  cbn [sc_flags set_in]. rewrite Hf, He. cbn [orb]. change (sc_fcs (set_in _ _ ?f 0 sc1)) with f.
  rewrite (fcs_check raw sc1 (Hp eq_refl)), Hbad. cbn [negb]. split; [done|]. split; [done|].
  apply agrees_reset; [split; apply Hr|done..].
Qed.

End Theorems.

(** ** A demonstration

    Clusters of 12 bytes, an MRU of 16, a line that is a list. *)

Module Demo.

#[local] Instance demo_defs : FrameDefs := {|
  PPP_FLAG := 126; PPP_ESCAPE := 125; PPP_TRANS := 32; PPP_ALLSTATIONS := 255; PPP_UI := 3;
  PPP_INITFCS := 65535; PPP_GOODFCS := 61624; PPP_HDRLEN := 4; PPP_FCSLEN := 2;
  PPP_IP := 33; PPP_LCP := 49185; PPP_VJC_COMP := 45; PPP_VJC_UNCOMP := 47;
  PPP_MTU := 16; PPP_MRU := 16; PPP_MAXMRU := 64; MAX_HDR := 2; MAX_STATES := 16; IFQ_MAXLEN := 4;
  PPP_FCS tab fcs c := Z.lxor (Z.shiftr fcs 8) (tab (Z.land (Z.lxor fcs c) 255));
  TYPE_IP := 64; TYPE_UNCOMPRESSED_TCP := 112; TYPE_COMPRESSED_TCP := 128; IPPROTO_TCP := 6;
  ENETDOWN := 50; ENOBUFS := 55; EAFNOSUPPORT := 47; EINVAL := 22 |}.

#[local] Instance demo_laws : FrameDefsLaws.
Proof. split; try reflexivity; cbn; lia. Qed.

#[local] Instance demo_env : PppEnv bytes := {|
  mHdrClGet _ e := (Some 12, e); twrite b e := (zlen b, e ++ b); fionwrite _ := 0; line e := e;
  m_prepend e := (true, e); output_hook _ e := (false, e); input_hook _ e := (false, e);
  sl_compress_tcp b _ e := (64, b, e); sl_uncompress_tcp _ _ e := (None, e); sl_error e := e;
  sl_compress_init e := e; ip_full _ := false; ip_enqueue _ e := e; kick e := e |}.

#[local] Instance demo_env_laws : PppEnvLaws bytes.
Proof.
  split; cbn.
  - intros b e. split; [done|]. unfold ztake, zlen. by rewrite Nat2Z.id, firstn_all.
  - intros n e s [= <-]. lia.
  - done.
Qed.

Definition opened : ppp_softc :=
  MkSc (λ f, if decide (f = SC_ENABLE_IP) then true else false) [0xffffffff; 0; 0; 0x60000000; 0; 0; 0; 0] 0 16 true true true 16
    [] [] [] None 0 [MkIb 12 0 []; MkIb 12 0 []] 0 0 0 0 0.

(** The sender, which compresses headers, with two packets. *)
Definition sender : ppp_softc :=
  set_outq [] [[[255; 3; 0; 33; 69; 126]; [125; 17]]; [[255; 3; 192; 33; 1; 2; 0; 4]]]
    (set_scflag SC_COMP_AC true (set_scflag SC_COMP_PROT true opened)).

Lemma line_ok_demo sc : sc_asyncmap sc = sc_asyncmap opened → sc_m sc = sc_m opened → sc_mru sc = 16 →
  sc_flags sc SC_FLUSH = false → sc_flags sc SC_ESCAPED = false → sc_ilen sc = 0 → line_ok sc.
Proof.
  intros Ha Hm Hu Hf He Hi. split; [rewrite Ha; by split_and!| |rewrite Hu; cbn; lia].
  split; [|done]. split; [rewrite Hm; repeat (constructor; [cbn; lia|]); constructor|rewrite Hu; lia].
Qed.

Example transmit_demo : (receive (ppp_wrt_flush sender []).2 opened []).1.1 =
  [[255; 3; 0; 33; 69; 126; 125; 17]; [255; 3; 192; 33; 1; 2; 0; 4]].
Proof. reflexivity. Qed.

Lemma transmit_receive_witness :
  ∃ out, line (ppp_wrt_flush sender []).2 = line [] ++ out ∧
    (receive out opened []).1.1 = (λ m, concat m) <$> queued sender.
Proof.
  apply (transmit_receive sender [] opened []).
  - intros b e. reflexivity.
  - intros (n & e & Hx). discriminate Hx.
  - reflexivity.
  - reflexivity.
  - by apply line_ok_demo.
  - by apply line_ok_demo.
  - intros c Hc Hr. exfalso. cbn in Hr. rewrite Z.testbit_0_l in Hr. discriminate.
  - intros _. reflexivity.
  - constructor.
    + exists 0, 33, [69; 126], [[125; 17]]. split_and!; try reflexivity; [|discriminate].
      repeat (constructor; [unfold is_byte; lia|]). constructor.
    + constructor; [|constructor]. exists 192, 33, [1; 2; 0; 4], []. split_and!; try reflexivity; [|discriminate].
      repeat (constructor; [unfold is_byte; lia|]). constructor.
Defined.

Lemma receive_refines_witness :
  ∃ losts, length losts = 12%nat ∧ (In true losts → pool_fails (E := bytes)) ∧
    let '(l, sc', _) := receive [255; 3; 192; 33; 9; 126; 126; 33; 1; 2; 3; 126] opened [] in
    l = (rx_run (cfg_of opened) (zip ((λ c, Z.land c 255) <$> [255; 3; 192; 33; 9; 126; 126; 33; 1; 2; 3; 126]) losts) (Rx false false [])).1 ∧
    Forall (λ p, 4 <= zlen p <= 16 + 4) l ∧ ∃ r, agrees r sc'.
Proof.
  apply (receive_refines [255; 3; 192; 33; 9; 126; 126; 33; 1; 2; 3; 126] opened []). by apply line_ok_demo.
Defined.

Definition line_demo : list line_op :=
  [Request (PPPIOCSXASYNCMAP [0; 255; 0xffffffff; 0; 0; 0; 0; 0]); Init; Chars [255; 3; 192; 33; 9; 126; 126; 33; 1];
   Request (PPPIOCSMRU 40); Chars [2; 3; 126]; Request (PPPIOCSASYNCMAP 0)].


(** The characters of a frame before its flag, one of them changed from 9. *)
Definition damaged : ppp_softc := (receive [255; 3; 192; 33; 8; 80; 178] opened ([] : bytes)).1.2.

Lemma damaged_agrees : agrees (Rx false false ([255; 3; 192; 33] ++ 8 :: 80 :: [178])) damaged.
Proof.
  destruct (receive_spec (E := bytes) [255; 3; 192; 33; 8; 80; 178] (Rx false false []) opened []) as (losts & Hlen & Hl & Hx).
  { destruct (line_ok_demo opened) as [_ (? & ? & ? & ?) _]; try reflexivity. by apply agrees_reset. }
  rewrite land_bytes in Hx by (repeat (constructor; [unfold is_byte; lia|]); constructor).
  assert (rx_all (cfg_of opened) [255; 3; 192; 33; 8; 80; 178] (Rx false false []) =
    ([], Rx false false ([255; 3; 192; 33] ++ 8 :: 80 :: [178]))) as Ha by reflexivity.
  rewrite rx_run_all, Ha in Hx; [|exact Hlen|].
  - unfold damaged. destruct (receive _ opened []) as [[l sc'] e']. exact (proj2 Hx).
  - intros Hin. destruct (Hl Hin) as (n & e & Hn). discriminate Hn.
Qed.

Lemma damage_detected_witness :
  let '(m, sc', _) := pppinput PPP_FLAG damaged ([] : bytes) in
  m = None ∧ if_ierrors sc' = if_ierrors damaged + 1 ∧ agrees (Rx false false []) sc'.
Proof.
  apply (damage_detected [255; 3; 192; 33] 9 80 8 80 [178] damaged []).
  - exact damaged_agrees.
  - repeat (constructor; [unfold is_byte; lia|]). constructor.
  - unfold is_byte. lia.
  - unfold is_byte. lia.
  - reflexivity.
  - discriminate.
Defined.

End Demo.
