(* ===== verification/InPcb.v ===== *)
(** * Protocol control blocks of the Internet protocols ([in_pcb.c])

    A protocol's control blocks are in a list, and each is also in the hash
    chain of its foreign address and its two ports.  [in_pcbbind] and
    [in_pcbconnect] give a block its addresses and ports; [in_pcblookup]
    searches the list, [in_pcblookuphash] the chains.  [pcb_step] has all
    operations on the blocks, those by the protocols included ([accept_addr]
    of [tcp_input]).

    A block is named by its address, here a [positive]; addresses and ports are
    kept in host order.  The socket's options that matter here are kept in
    the block, since each has exactly one socket.  The interfaces and
    routes are the class [PcbEnv]; the constants and the hash function of the
    headers are the class [InpDefs]. *)
From Stdlib Require Import ZArith Lia Bool.
From S2P Require Import Prelude.
From stdpp Require Import base tactics list numbers option gmap.

Local Open Scope Z_scope.

(** ** What comes from the headers *)

Class InpDefs := {
  INADDR_ANY : Z; INADDR_BROADCAST : Z;
  IN_MULTICAST : Z → bool;
  IPPORT_RESERVED : Z; IPPORT_USERRESERVED : Z;
  INP_PCBHASH : Z → Z → Z → nat → nat;     (** foreign address, local and foreign port, mask *)
  PRC_NCMDS : Z; PRC_HOSTDEAD : Z; PRC_IS_REDIRECT : Z → bool;
  ENOBUFS : Z; EADDRNOTAVAIL : Z; EINVAL : Z; EADDRINUSE : Z; EAFNOSUPPORT : Z;
  EMSGSIZE : Z; EHOSTDOWN : Z; EHOSTUNREACH : Z; ECONNREFUSED : Z; ENOPROTOOPT : Z
}.

Class InpDefsLaws `{InpDefs} := {
  any_zero : INADDR_ANY = 0;
  hash_range f l p mask : (INP_PCBHASH f l p mask <= mask)%nat;
  port_range : 0 < IPPORT_RESERVED <= IPPORT_USERRESERVED ∧ IPPORT_USERRESERVED < 65535;
  errnos_nonzero : Forall (λ x, x ≠ 0)
    [ENOBUFS; EADDRNOTAVAIL; EINVAL; EADDRINUSE; EAFNOSUPPORT]
}.

(** An interface address ([struct in_ifaddr]) with what is used of its
    interface. *)
Record ifaddr := MkIa { ia_addr : Z; ia_ifp : Z; ia_broadcast : bool; ia_broadaddr : Z }.

(** [R]: routes ([struct rtentry]). *)
Class PcbEnv (R E : Type) := {
  in_ifaddr : E → list ifaddr;
  ifa_ifwithaddr : Z → E → bool;
  ifa_ifwithdstaddr : Z → E → option ifaddr;
  ifa_ifwithnet : Z → E → option ifaddr;
  rtalloc : Z → E → option R * E;
  rtfree : R → E → E;
  rt_no_ifp : R → bool;
  rt_loopback : R → bool;
  rt_ifa : R → option ifaddr;
  rt_losing : R → E → E;                   (** the message and the deletion of a dynamic route *)
  sofree : positive → E → E                (** [sofree], and the options given back *)
}.

(** Interfaces have addresses. *)
Class PcbEnvLaws R E `{InpDefs} `{PcbEnv R E} := {
  in_ifaddr_addr (e : E) ia : ia ∈ in_ifaddr e → ia_addr ia ≠ INADDR_ANY ∧ ia_broadaddr ia ≠ INADDR_ANY;
  ifwithdst_addr a (e : E) ia : ifa_ifwithdstaddr a e = Some ia → ia_addr ia ≠ INADDR_ANY;
  ifwithnet_addr a (e : E) ia : ifa_ifwithnet a e = Some ia → ia_addr ia ≠ INADDR_ANY;
  rt_ifa_addr (r : R) ia : rt_ifa r = Some ia → ia_addr ia ≠ INADDR_ANY
}.

(** ** State *)

Inductive soopt := SO_REUSEADDR | SO_REUSEPORT | SO_ACCEPTCONN | SO_DONTROUTE | SO_BROADCAST.

#[export] Instance soopt_eq_dec : EqDecision soopt.
Proof. solve_decision. Defined.

Record inpcb (R : Type) := MkInp {
  inp_faddr : Z; inp_fport : Z; inp_laddr : Z; inp_lport : Z;
  so_options : soopt → bool;
  pr_connrequired : bool;              (** [PR_CONNREQUIRED]: a stream protocol *)
  so_nofdref : bool;
  imo_ifp : option Z;                  (** the interface of multicast options *)
  ro_rt : option R; ro_dst : Z         (** [inp_route] *)
}.
Arguments MkInp {R}.
Arguments inp_faddr {R}. Arguments inp_fport {R}. Arguments inp_laddr {R}. Arguments inp_lport {R}.
Arguments so_options {R}. Arguments pr_connrequired {R}. Arguments so_nofdref {R}. Arguments imo_ifp {R}.
Arguments ro_rt {R}. Arguments ro_dst {R}.

(** [struct inpcbinfo] and the blocks. *)
Record pcbinfo (R : Type) := MkInfo {
  pcbs : gmap positive (inpcb R);
  listhead : list positive;
  hashbase : list (list positive);
  hashmask : nat;
  lastport : Z
}.
Arguments MkInfo {R}. Arguments pcbs {R}. Arguments listhead {R}. Arguments hashbase {R}.
Arguments hashmask {R}. Arguments lastport {R}.

(** [struct sockaddr_in] in an mbuf; [sin_ok]: the mbuf has its length. *)
Record sockaddr := MkSin { sin_ok : bool; sin_inet : bool; sin_port : Z; sin_addr : Z }.

Section Pcb.
Context `{!InpDefs} {R E : Type} `{!PcbEnv R E}.
Implicit Types (st : pcbinfo R) (p : inpcb R) (e : E) (i : positive).

Definition set_foreign (a f : Z) p : inpcb R :=
  MkInp a f (inp_laddr p) (inp_lport p) (so_options p) (pr_connrequired p) (so_nofdref p) (imo_ifp p) (ro_rt p) (ro_dst p).
Definition set_laddr (a : Z) p : inpcb R :=
  MkInp (inp_faddr p) (inp_fport p) a (inp_lport p) (so_options p) (pr_connrequired p) (so_nofdref p) (imo_ifp p) (ro_rt p) (ro_dst p).
Definition set_lport (l : Z) p : inpcb R :=
  MkInp (inp_faddr p) (inp_fport p) (inp_laddr p) l (so_options p) (pr_connrequired p) (so_nofdref p) (imo_ifp p) (ro_rt p) (ro_dst p).
Definition set_route (r : option R) (d : Z) p : inpcb R :=
  MkInp (inp_faddr p) (inp_fport p) (inp_laddr p) (inp_lport p) (so_options p) (pr_connrequired p) (so_nofdref p) (imo_ifp p) r d.

Definition set_pcbs (m : gmap positive (inpcb R)) st : pcbinfo R :=
  MkInfo m (listhead st) (hashbase st) (hashmask st) (lastport st).
Definition upd i (f : inpcb R → inpcb R) st : pcbinfo R := set_pcbs (alter f i (pcbs st)) st.
Definition set_lists (l : list positive) (h : list (list positive)) st : pcbinfo R :=
  MkInfo (pcbs st) l h (hashmask st) (lastport st).
Definition set_lastport (x : Z) st : pcbinfo R :=
  MkInfo (pcbs st) (listhead st) (hashbase st) (hashmask st) x.

(** ** Hash chains *)

Definition hash_of p (mask : nat) : nat := INP_PCBHASH (inp_faddr p) (inp_lport p) (inp_fport p) mask.

(** [LIST_REMOVE] from whatever chain the block is linked into. *)
Definition unlink i (l : list positive) : list positive := filter (λ j, j ≠ i) l.
Definition hash_remove i (h : list (list positive)) : list (list positive) := unlink i <$> h.

(** [LIST_INSERT_HEAD]. *)
Definition hash_insert i (k : nat) (h : list (list positive)) : list (list positive) := alter (cons i) k h.

Definition in_pcbinshash i st : pcbinfo R :=
  match pcbs st !! i with
  | Some p => set_lists (listhead st) (hash_insert i (hash_of p (hashmask st)) (hashbase st)) st
  | None => st
  end.

Definition in_pcbrehash i st : pcbinfo R :=
  in_pcbinshash i (set_lists (listhead st) (hash_remove i (hashbase st)) st).

(** [in_pcballoc]: [i] is what [MALLOC] returned, the other arguments are those
    of the socket. *)
Definition in_pcballoc (i : option positive) (opts : soopt → bool) (connrequired : bool) st : Z * pcbinfo R :=
  match i with
  | None => (ENOBUFS, st)
  | Some i =>
      let p := MkInp 0 0 0 0 opts connrequired false None None 0 in
      (0, in_pcbinshash i (set_lists (i :: listhead st) (hashbase st) (set_pcbs (<[i := p]> (pcbs st)) st)))
  end.

(** ** Lookup *)

(** The number of wildcards with which a block matches. *)
Definition wildcards p (faddr fport laddr : Z) : option nat :=
  let foreign :=
    if negb (inp_faddr p =? INADDR_ANY) then
      if faddr =? INADDR_ANY then Some 1%nat
      else if negb (inp_faddr p =? faddr) || negb (inp_fport p =? fport) then None else Some 0%nat
    else if negb (faddr =? INADDR_ANY) then Some 1%nat else Some 0%nat in
  match foreign with
  | None => None
  | Some w =>
      if negb (inp_laddr p =? INADDR_ANY) then
        if laddr =? INADDR_ANY then Some (S w)
        else if negb (inp_laddr p =? laddr) then None else Some w
      else if negb (laddr =? INADDR_ANY) then Some (S w) else Some w
  end.

Fixpoint lookup_loop st (l : list positive) (faddr fport laddr lport : Z) (wild_okay : bool)
    (best : option positive) (matchwild : nat) : option positive :=
  match l with
  | [] => best
  | i :: l =>
      let next := lookup_loop st l faddr fport laddr lport wild_okay best matchwild in
      match pcbs st !! i with
      | None => next
      | Some p =>
          if negb (inp_lport p =? lport) then next
          else
            match wildcards p faddr fport laddr with
            | None => next
            | Some w =>
                if negb (w =? 0)%nat && negb wild_okay then next
                else if (w <? matchwild)%nat then
                  if (w =? 0)%nat then Some i
                  else lookup_loop st l faddr fport laddr lport wild_okay (Some i) w
                else next
            end
      end
  end.

Definition in_pcblookup st (faddr fport laddr lport : Z) (wild_okay : bool) : option positive :=
  lookup_loop st (listhead st) faddr (u16 fport) laddr (u16 lport) wild_okay None 3.

Definition exact_match (faddr fport laddr lport : Z) p : bool :=
  (inp_faddr p =? faddr) && (inp_fport p =? fport) && (inp_lport p =? lport) && (inp_laddr p =? laddr).

(** The first block of a chain that satisfies a condition. *)
Fixpoint find_pcb st (f : inpcb R → bool) (l : list positive) : option positive :=
  match l with
  | [] => None
  | i :: l => match pcbs st !! i with Some p => if f p then Some i else find_pcb st f l | None => find_pcb st f l end
  end.

(** The loop over the chain of the blocks without foreign address: the first
    with the local address, otherwise the last without one. *)
Fixpoint wild_loop st (laddr lport : Z) (l : list positive) (local_wild : option positive) : option positive :=
  match l with
  | [] => local_wild
  | i :: l =>
      match pcbs st !! i with
      | Some p =>
          if (inp_faddr p =? INADDR_ANY) && (inp_fport p =? 0) && (inp_lport p =? lport) then
            if inp_laddr p =? laddr then Some i
            else wild_loop st laddr lport l (if inp_laddr p =? INADDR_ANY then Some i else local_wild)
          else wild_loop st laddr lport l local_wild
      | None => wild_loop st laddr lport l local_wild
      end
  end.

(** [found:], "move PCB to head of this hash chain". *)
Definition move_front i (k : nat) st : pcbinfo R :=
  if bool_decide (hashbase st !! k ≫= head = Some i) then st
  else set_lists (listhead st) (hash_insert i k (hash_remove i (hashbase st))) st.

Definition chain_at st (k : nat) : list positive := default [] (hashbase st !! k).

Definition in_pcblookuphash st (faddr fport laddr lport : Z) (wildcard : bool) : option positive * pcbinfo R :=
  let fport := u16 fport in let lport := u16 lport in
  let k := INP_PCBHASH faddr lport fport (hashmask st) in
  match find_pcb st (exact_match faddr fport laddr lport) (chain_at st k) with
  | Some i => (Some i, move_front i k st)
  | None =>
      if wildcard then
        let k := INP_PCBHASH INADDR_ANY lport 0 (hashmask st) in
        match wild_loop st laddr lport (chain_at st k) None with
        | Some i => (Some i, move_front i k st)
        | None => (None, st)
        end
      else (None, st)
  end.

(** ** Binding *)

(** The [do] loop over ports: the port it ends with, and [None] when the fuel
    is spent. *)
Definition next_port (x : Z) : Z :=
  let x := u16 (x + 1) in
  if (x <? IPPORT_RESERVED) || (IPPORT_USERRESERVED <? x) then IPPORT_RESERVED else x.

Fixpoint port_loop (fuel : nat) (laddr : Z) (wild : bool) st : option (pcbinfo R) :=
  match fuel with
  | O => None
  | S fuel =>
      let st := set_lastport (next_port (lastport st)) st in
      match in_pcblookup st 0 0 laddr (lastport st) wild with
      | Some _ => port_loop fuel laddr wild st
      | None => Some st
      end
  end.

(** [reuseport & t->inp_socket->so_options]. *)
Definition may_share (reuseaddr reuseport : bool) st (t : positive) : bool :=
  match pcbs st !! t with
  | Some q => (reuseaddr && so_options q SO_REUSEADDR) || (reuseport && so_options q SO_REUSEPORT)
  | None => false
  end.

(** The check of the requested address and port: the error, or the port. *)
Definition bind_check p (wild : bool) (sin : sockaddr) st e : Z + Z :=
  if negb (sin_ok sin) then inl EINVAL
  else
    let multicast := IN_MULTICAST (sin_addr sin) in
    let both := multicast && so_options p SO_REUSEADDR in
    if negb multicast && negb (sin_addr sin =? INADDR_ANY) && negb (ifa_ifwithaddr (sin_addr sin) e)
    then inl EADDRNOTAVAIL
    else if negb (sin_port sin =? 0) then
      match in_pcblookup st 0 0 (sin_addr sin) (sin_port sin) wild with
      | Some t => if may_share both (both || so_options p SO_REUSEPORT) st t then inr (sin_port sin) else inl EADDRINUSE
      | None => inr (sin_port sin)
      end
    else inr 0.

Definition bind_wild p : bool :=
  negb (so_options p SO_REUSEADDR) && negb (so_options p SO_REUSEPORT) &&
  (negb (pr_connrequired p) || negb (so_options p SO_ACCEPTCONN)).

(** The part from [if (lport == 0)] on. *)
Definition bind_port (fuel : nat) i (laddr lport : Z) (wild : bool) st : option (Z * pcbinfo R) :=
  if lport =? 0 then
    st ← port_loop fuel laddr wild st;
    Some (0, in_pcbrehash i (upd i (set_lport (lastport st)) st))
  else Some (0, in_pcbrehash i (upd i (set_lport lport) st)).

Definition in_pcbbind (fuel : nat) i (nam : option sockaddr) st e : option (Z * pcbinfo R) :=
  p ← pcbs st !! i;
  if bool_decide (in_ifaddr e = []) then Some (EADDRNOTAVAIL, st)
  else if negb (inp_lport p =? 0) || negb (inp_laddr p =? INADDR_ANY) then Some (EINVAL, st)
  else
    match nam with
    | None => bind_port fuel i (inp_laddr p) 0 (bind_wild p) st
    | Some sin =>
        match bind_check p (bind_wild p) sin st e with
        | inl err => Some (err, st)
        | inr lport => bind_port fuel i (sin_addr sin) lport (bind_wild p) (upd i (set_laddr (sin_addr sin)) st)
        end
    end.

(** ** Connecting *)

(** [in_pcbladdr] changes the address it is given. *)
Definition ladr_dst (sin : sockaddr) e : Z :=
  match in_ifaddr e with
  | [] => sin_addr sin
  | ia :: _ =>
      if sin_addr sin =? INADDR_ANY then ia_addr ia
      else if (sin_addr sin =? INADDR_BROADCAST) && ia_broadcast ia then ia_broadaddr ia
      else sin_addr sin
  end.

(** The route of the block to [dst], looked up if necessary. *)
Definition ladr_route p (dst : Z) e : inpcb R * E :=
  let '(p, e) :=
    match ro_rt p with
    | Some rt =>
        if negb (ro_dst p =? dst) || so_options p SO_DONTROUTE
        then (set_route None (ro_dst p) p, rtfree rt e) else (p, e)
    | None => (p, e)
    end in
  if negb (so_options p SO_DONTROUTE) && match ro_rt p with None => true | Some rt => rt_no_ifp rt end
  then let '(rt, e) := rtalloc dst e in (set_route rt dst p, e)
  else (p, e).

(** The interface address for an unbound block. *)
Definition ladr_ia p (dst : Z) e : option ifaddr :=
  let via := match ro_rt p with Some rt => if rt_loopback rt then None else rt_ifa rt | None => None end in
  match via with
  | Some ia => Some ia
  | None =>
      match ifa_ifwithdstaddr dst e with
      | Some ia => Some ia
      | None => match ifa_ifwithnet dst e with Some ia => Some ia | None => head (in_ifaddr e) end
      end
  end.

(** The address of the interface for outgoing multicasts. *)
Definition ladr_multicast p (dst : Z) (ia : ifaddr) e : option ifaddr :=
  match imo_ifp p with
  | Some ifp => if IN_MULTICAST dst then list_find (λ ia, ia_ifp ia = ifp) (in_ifaddr e) ≫= λ x, Some x.2 else Some ia
  | None => Some ia
  end.

(** The error, the local address chosen (nothing for a bound block) and the
    foreign address. *)
Definition in_pcbladdr i (sin : sockaddr) st e : option (Z * option Z * Z * pcbinfo R * E) :=
  p ← pcbs st !! i;
  if negb (sin_ok sin) then Some (EINVAL, None, sin_addr sin, st, e)
  else if negb (sin_inet sin) then Some (EAFNOSUPPORT, None, sin_addr sin, st, e)
  else if sin_port sin =? 0 then Some (EADDRNOTAVAIL, None, sin_addr sin, st, e)
  else
    let dst := ladr_dst sin e in
    if inp_laddr p =? INADDR_ANY then
      let '(p, e) := ladr_route p dst e in
      let st := upd i (λ _, p) st in
      match ladr_ia p dst e with
      | None => Some (EADDRNOTAVAIL, None, dst, st, e)
      | Some ia =>
          match ladr_multicast p dst ia e with
          | None => Some (EADDRNOTAVAIL, None, dst, st, e)
          | Some ia => Some (0, Some (ia_addr ia), dst, st, e)
          end
      end
    else Some (0, None, dst, st, e).

Definition in_pcbconnect (fuel : nat) i (sin : sockaddr) st e : option (Z * pcbinfo R * E) :=
  '(err, ifa, dst, st, e) ← in_pcbladdr i sin st e;
  if negb (err =? 0) then Some (err, st, e)
  else
    p ← pcbs st !! i;
    let ifaddr := default 0 ifa in
    let laddr := if negb (inp_laddr p =? 0) then inp_laddr p else ifaddr in
    let '(t, st) := in_pcblookuphash st dst (sin_port sin) laddr (inp_lport p) false in
    match t with
    | Some _ => Some (EADDRINUSE, st, e)
    | None =>
        st ←
          (if inp_laddr p =? INADDR_ANY then
             st ← (if inp_lport p =? 0 then snd <$> in_pcbbind fuel i None st e else Some st);
             Some (upd i (set_laddr ifaddr) st)
           else Some st);
        Some (0, in_pcbrehash i (upd i (set_foreign dst (sin_port sin)) st), e)
    end.

(** ** Disconnecting *)

Definition in_pcbdetach i st e : option (pcbinfo R * E) :=
  p ← pcbs st !! i;
  let e := sofree i e in
  let e := match ro_rt p with Some rt => rtfree rt e | None => e end in
  Some (set_pcbs (delete i (pcbs st)) (set_lists (unlink i (listhead st)) (hash_remove i (hashbase st)) st), e).

Definition in_pcbdisconnect i st e : option (pcbinfo R * E) :=
  p ← pcbs st !! i;
  let st := in_pcbrehash i (upd i (set_foreign INADDR_ANY 0) st) in
  if so_nofdref p then in_pcbdetach i st e else Some (st, e).

Definition in_setsockaddr i st : option (Z * Z) := (λ p, (inp_laddr p, inp_lport p)) <$> pcbs st !! i.
Definition in_setpeeraddr i st : option (Z * Z) := (λ p, (inp_faddr p, inp_fport p)) <$> pcbs st !! i.

(** ** Notifications *)

(** [inetctlerrmap] ([ip_input.c]): the elements not listed are 0. *)
Definition inetctlerrmap : list Z := resize (Z.to_nat PRC_NCMDS) 0
  [0; 0; 0; 0; 0; EMSGSIZE; EHOSTDOWN; EHOSTUNREACH; EHOSTUNREACH; EHOSTUNREACH; ECONNREFUSED; ECONNREFUSED;
   EMSGSIZE; EHOSTUNREACH; 0; 0; 0; 0; 0; 0; ENOPROTOOPT].

Definition in_losing i st e : option (pcbinfo R * E) :=
  p ← pcbs st !! i;
  match ro_rt p with
  | Some rt => Some (upd i (set_route None (ro_dst p)) st, rt_losing rt e)
  | None => Some (st, e)
  end.

Definition in_rtchange i (err : Z) st e : option (pcbinfo R * E) :=
  p ← pcbs st !! i;
  match ro_rt p with
  | Some rt => Some (upd i (set_route None (ro_dst p)) st, rtfree rt e)
  | None => Some (st, e)
  end.

(** The condition under which a block is told. *)
Definition concerned (faddr fport laddr lport : Z) p : bool :=
  (inp_faddr p =? faddr) && ((lport =? 0) || (inp_lport p =? lport)) &&
  ((laddr =? 0) || (inp_laddr p =? laddr)) && ((fport =? 0) || (inp_fport p =? fport)).

(** The successor of a block is read before it is told. *)
Fixpoint notify_loop (notify : positive → pcbinfo R → E → option (pcbinfo R * E)) (l : list positive)
    (faddr fport laddr lport : Z) st e : option (pcbinfo R * E) :=
  match l with
  | [] => Some (st, e)
  | i :: l =>
      p ← pcbs st !! i;
      if concerned faddr fport laddr lport p then
        '(st, e) ← notify i st e; notify_loop notify l faddr fport laddr lport st e
      else notify_loop notify l faddr fport laddr lport st e
  end.

(** [inet]: the address is of the Internet family.  A value of
    [inetctlerrmap] behind its end is a fault. *)
Definition in_pcbnotify (inet : bool) (faddr fport laddr lport cmd : Z)
    (notify : option (positive → Z → pcbinfo R → E → option (pcbinfo R * E))) st e : option (pcbinfo R * E) :=
  if (PRC_NCMDS <? u32 cmd) || negb inet then Some (st, e)
  else if faddr =? INADDR_ANY then Some (st, e)
  else
    let all := PRC_IS_REDIRECT cmd || (cmd =? PRC_HOSTDEAD) in
    let fport := if all then 0 else u16 fport in
    let lport := if all then 0 else u16 lport in
    let laddr := if all then 0 else laddr in
    let notify := if all && negb (cmd =? PRC_HOSTDEAD) then Some in_rtchange else notify in
    errno ← inetctlerrmap !! Z.to_nat cmd;
    match notify with
    | Some notify => notify_loop (λ i, notify i errno) (listhead st) faddr fport laddr lport st e
    | None => Some (st, e)
    end.

End Pcb.

(** ** The list and the chains *)

Section Linked.
Context `{InpDefsLaws} {R E : Type} `{!PcbEnv R E}.
Implicit Types (st : pcbinfo R) (p q : inpcb R) (e : E) (i j : positive).

(** The list holds every block once, and every block is in the chain of its
    addresses and only there. *)
Record linked st : Prop := {
  lk_list : NoDup (listhead st);
  lk_dom i : i ∈ listhead st ↔ is_Some (pcbs st !! i);
  lk_size : length (hashbase st) = S (hashmask st);
  lk_nodup k l : hashbase st !! k = Some l → NoDup l;
  lk_chain k l i : hashbase st !! k = Some l → i ∈ l ↔ ∃ p, pcbs st !! i = Some p ∧ hash_of p (hashmask st) = k
}.

(** The same but for the chain of one block. *)
Record linked_but i st : Prop := {
  lb_list : NoDup (listhead st);
  lb_dom j : j ∈ listhead st ↔ is_Some (pcbs st !! j);
  lb_size : length (hashbase st) = S (hashmask st);
  lb_nodup k l : hashbase st !! k = Some l → NoDup l;
  lb_chain k l j : hashbase st !! k = Some l → j ≠ i → j ∈ l ↔ ∃ p, pcbs st !! j = Some p ∧ hash_of p (hashmask st) = k
}.

Lemma hash_lt p mask : (hash_of p mask < S mask)%nat.
Proof. unfold hash_of. pose proof (hash_range (inp_faddr p) (inp_lport p) (inp_fport p) mask). lia. Qed.

Lemma elem_of_unlink i j l : j ∈ unlink i l ↔ j ∈ l ∧ j ≠ i.
Proof. unfold unlink. rewrite list_elem_of_filter. tauto. Qed.

Lemma NoDup_unlink i l : NoDup l → NoDup (unlink i l).
Proof. apply NoDup_filter. Qed.

Lemma unlink_id i l : i ∉ l → unlink i l = l.
Proof.
  induction l as [|j l IH]; intros Hn; [done|]. apply not_elem_of_cons in Hn as [Hj Hn].
  unfold unlink in *. rewrite filter_cons_True by done. f_equal. by apply IH.
Qed.

Lemma alter_is_Some (f : inpcb R → inpcb R) i j (m : gmap positive (inpcb R)) : is_Some (alter f i m !! j) ↔ is_Some (m !! j).
Proof.
  destruct (decide (i = j)) as [->|Hne]; [|by rewrite lookup_alter_ne].
  rewrite lookup_alter_eq. by rewrite fmap_is_Some.
Qed.

Lemma linked_upd i f st : linked st → linked_but i (upd i f st).
Proof.
  intros []. split; try done.
  - intros j. rewrite lk_dom0. symmetry. apply alter_is_Some.
  - intros k l j Hk Hj. cbn in *. rewrite lookup_alter_ne by done. by apply lk_chain0.
Qed.

Lemma linked_linked_but i st : linked st → linked_but i st.
Proof. intros []. split; try done. intros k l j Hk _. by apply lk_chain0. Qed.

Lemma linked_but_upd i f st : linked_but i st → linked_but i (upd i f st).
Proof.
  intros []. split; try done.
  - intros j. rewrite lb_dom0. symmetry. apply alter_is_Some.
  - intros k l j Hk Hj. cbn in *. rewrite lookup_alter_ne by done. by apply lb_chain0.
Qed.

Lemma hash_remove_lookup i h k l : hash_remove i h !! k = Some l ↔ ∃ l0, h !! k = Some l0 ∧ l = unlink i l0.
Proof.
  unfold hash_remove. rewrite list_lookup_fmap. destruct (h !! k) as [l0|]; cbn.
  - split; [intros [= <-]; eauto|by intros (? & [= <-] & ->)].
  - split; [done|by intros (? & ? & _)].
Qed.

Lemma hash_insert_lookup i n h k l : hash_insert i n h !! k = Some l ↔
  ∃ l0, h !! k = Some l0 ∧ l = if decide (n = k) then i :: l0 else l0.
Proof.
  unfold hash_insert. destruct (decide (n = k)) as [->|Hne].
  - rewrite list_lookup_alter_eq. destruct (h !! k); cbn; split.
    + intros [= <-]. eauto.
    + by intros (? & [= <-] & ->).
    + done.
    + by intros (? & ? & _).
  - rewrite list_lookup_alter_ne by done. split; [eauto|by intros (? & ? & ->)].
Qed.

Lemma rehash_linked i st : linked_but i st → is_Some (pcbs st !! i) → linked (in_pcbrehash i st).
Proof.
  intros [] [p Hp]. unfold in_pcbrehash, in_pcbinshash. cbn. rewrite Hp. split; cbn; try done.
  - unfold hash_insert, hash_remove. by rewrite length_alter, length_fmap.
  - intros k l Hl. apply hash_insert_lookup in Hl as (l0 & Hl & ->). apply hash_remove_lookup in Hl as (l1 & Hl & ->).
    pose proof (lb_nodup0 k l1 Hl) as Hn. destruct (decide _).
    + apply NoDup_cons. split; [by rewrite elem_of_unlink; intros []|by apply NoDup_unlink].
    + by apply NoDup_unlink.
  - intros k l j Hl. apply hash_insert_lookup in Hl as (l0 & Hl & ->). apply hash_remove_lookup in Hl as (l1 & Hl & ->).
    destruct (decide (j = i)) as [->|Hj].
    + rewrite Hp. destruct (decide _) as [He|He]; [|rewrite elem_of_unlink].
      * rewrite elem_of_cons. split; [intros _; eauto|by left].
      * split; [by intros []|]. intros (q & [= <-] & Hh). done.
    + rewrite <- (lb_chain0 k l1 j Hl Hj). destruct (decide _); rewrite ?elem_of_cons, elem_of_unlink; naive_solver.
Qed.

Lemma rehash_pcbs i st : pcbs (in_pcbrehash i st) = pcbs st.
Proof. unfold in_pcbrehash, in_pcbinshash. cbn. by destruct (pcbs st !! i). Qed.

Lemma rehash_rest i st : listhead (in_pcbrehash i st) = listhead st ∧ lastport (in_pcbrehash i st) = lastport st.
Proof. unfold in_pcbrehash, in_pcbinshash. cbn. by destruct (pcbs st !! i). Qed.

Lemma move_front_linked i k st : linked st → i ∈ chain_at st k → linked (move_front i k st).
Proof.
  intros Hl Hi. unfold move_front. case_bool_decide; [done|]. unfold chain_at in Hi.
  destruct (hashbase st !! k) as [l|] eqn:Hk; [|by apply elem_of_nil in Hi]. cbn in Hi.
  pose proof Hl as []. apply (lk_chain0 k l i Hk) in Hi as (p & Hp & Hh).
  pose proof (rehash_linked i st (linked_linked_but i st Hl) ltac:(eauto)) as Hr.
  unfold in_pcbrehash, in_pcbinshash in Hr. cbn in Hr. rewrite Hp, Hh in Hr. exact Hr.
Qed.

Lemma alloc_linked i opts cr st : linked st → pcbs st !! i = None → linked (in_pcballoc (Some i) opts cr st).2.
Proof.
  intros [] Hi. cbn [snd in_pcballoc]. set (p := MkInp _ _ _ _ _ _ _ _ _ _).
  set (st1 := set_lists _ _ _). assert (Hp : pcbs st1 !! i = Some p) by apply lookup_insert_eq.
  assert (Hno : ∀ k l, hashbase st !! k = Some l → i ∉ l).
  { intros k l Hk Hin. apply (lk_chain0 k l i Hk) in Hin as (q & Hq & _). congruence. }
  assert (Hlb : linked_but i st1).
  { split; cbn; try done.
    - apply NoDup_cons. split; [|done]. rewrite lk_dom0, Hi. by intros [].
    - intros j. rewrite elem_of_cons, lk_dom0. destruct (decide (j = i)) as [->|].
      + rewrite lookup_insert_eq. naive_solver.
      + rewrite lookup_insert_ne by done. naive_solver.
    - intros k l j Hk Hj. rewrite lookup_insert_ne by done. by apply lk_chain0. }
  pose proof (rehash_linked i st1 Hlb ltac:(eauto)) as Hr. unfold in_pcbrehash in Hr.
  assert (hash_remove i (hashbase st1) = hashbase st1) as Heq.
  { cbn. apply list_eq. intros k. unfold hash_remove. rewrite list_lookup_fmap. destruct (hashbase st !! k) as [l|] eqn:Hk; [|done].
    cbn. f_equal. apply unlink_id. by apply (Hno k). }
  rewrite Heq in Hr. by destruct st1.
Qed.

Lemma detach_linked i st e st' e' : linked st → in_pcbdetach i st e = Some (st', e') → linked st'.
Proof.
  intros [] Hd. unfold in_pcbdetach in Hd. destruct (pcbs st !! i) as [p|] eqn:Hp; [|done]. cbn in Hd. simplify_eq.
  split; cbn.
  - by apply NoDup_unlink.
  - intros j. rewrite elem_of_unlink, lk_dom0. destruct (decide (j = i)) as [->|].
    + rewrite lookup_delete_eq. split; [by intros []|by intros []].
    + rewrite lookup_delete_ne by done. naive_solver.
  - unfold hash_remove. by rewrite length_fmap.
  - intros k l Hl. apply hash_remove_lookup in Hl as (l0 & Hl & ->). apply NoDup_unlink. eauto.
  - intros k l j Hl. apply hash_remove_lookup in Hl as (l0 & Hl & ->). rewrite elem_of_unlink, (lk_chain0 k l0 j Hl).
    destruct (decide (j = i)) as [->|].
    + rewrite lookup_delete_eq. split; [by intros []|by intros (? & ? & _)].
    + rewrite lookup_delete_ne by done. naive_solver.
Qed.

(** ** Lookup *)

(** Blocks that match, with their wildcards. *)
Definition matches st (faddr fport laddr lport : Z) i (w : nat) : Prop :=
  ∃ p, pcbs st !! i = Some p ∧ inp_lport p = lport ∧ wildcards p faddr fport laddr = Some w.

Lemma wildcards_le p f fp l w : wildcards p f fp l = Some w → (w <= 2)%nat.
Proof. unfold wildcards. intros. repeat case_match; simplify_eq; lia. Qed.

(** [in_pcblookup] returns a block with the fewest wildcards. *)
Lemma lookup_loop_spec st f fp l lp wild : ∀ ls best n,
  let ok i w := matches st f fp l lp i w ∧ (w = 0%nat ∨ wild = true) in
  match best with Some b => ok b n | None => n = 3%nat end →
  match lookup_loop st ls f fp l lp wild best n with
  | Some i => ∃ w, ok i w ∧ (w <= n)%nat ∧ (Some i = best ∨ i ∈ ls) ∧ ∀ j v, j ∈ ls → ok j v → (w <= v)%nat
  | None => best = None ∧ ∀ j v, j ∈ ls → ¬ ok j v
  end.
Proof.
  induction ls as [|i ls IH]; intros best n ok Hb; cbn [lookup_loop].
  { destruct best as [b|]; [|split; [done|]; by intros j v ?%elem_of_nil].
    exists n. split; [done|]. split; [done|]. split; [by left|]. by intros j v ?%elem_of_nil. }
  assert (Hskip : (∀ v, ¬ (ok i v ∧ (v < n)%nat)) →
    match lookup_loop st ls f fp l lp wild best n with
    | Some j => ∃ w, ok j w ∧ (w <= n)%nat ∧ (Some j = best ∨ j ∈ i :: ls) ∧ ∀ j v, j ∈ i :: ls → ok j v → (w <= v)%nat
    | None => best = None ∧ ∀ j v, j ∈ i :: ls → ¬ ok j v
    end).
  { intros Hno. specialize (IH best n Hb). destruct (lookup_loop st ls f fp l lp wild best n) as [j|].
    - destruct IH as (w & Ho & Hw & Hin & Hmin). exists w. split; [done|]. split; [done|]. split.
      + rewrite elem_of_cons. tauto.
      + intros k v [->|Hk]%elem_of_cons Hv; [|by eapply Hmin]. destruct (decide (v < n)%nat) as [Hlt|]; [|lia]. by destruct (Hno v).
    - destruct IH as [-> IH]. split; [done|]. intros j v [->|Hj]%elem_of_cons Hv; [|by eapply IH].
      apply (Hno v). split; [done|]. subst n. destruct Hv as [(p & _ & _ & Hv) _]. apply wildcards_le in Hv. lia. }
  destruct (pcbs st !! i) as [p|] eqn:Hp.
  2: { apply Hskip. intros v [[(p & Hq & _) _] _]. congruence. }
  destruct (Z.eqb_spec (inp_lport p) lp) as [Hlp|Hlp]; cbn [negb].
  2: { apply Hskip. intros v [[(q & Hq & ? & _) _] _]. congruence. }
  destruct (wildcards p f fp l) as [w|] eqn:Hw.
  2: { apply Hskip. intros v [[(q & Hq & ? & ?) _] _]. congruence. }
  assert (Hm : matches st f fp l lp i w) by by exists p.
  assert (Huniq : ∀ v, ok i v → v = w).
  { intros v [(q & Hq & _ & Hv) _]. congruence. }
  destruct (negb (w =? 0)%nat && negb wild) eqn:Hskp.
  { apply Hskip. intros v [Hv _]. rewrite (Huniq v Hv) in Hv. destruct Hv as [_ [->| ->]]; [done|]. by rewrite andb_false_r in Hskp. }
  assert (Hok : ok i w).
  { split; [done|]. destruct (Nat.eqb_spec w 0); [by left|]. right. by destruct wild. }
  destruct (Nat.ltb_spec w n) as [Hlt|Hge].
  2: { apply Hskip. intros v [Hv Hlt]. rewrite (Huniq v Hv) in Hlt. lia. }
  destruct (Nat.eqb_spec w 0) as [->|Hw0].
  { exists 0%nat. split; [done|]. split; [lia|]. split; [right; apply elem_of_cons; by left|]. intros; lia. }
  specialize (IH (Some i) w Hok). destruct (lookup_loop st ls f fp l lp wild (Some i) w) as [j|]; [|by destruct IH].
  destruct IH as (v & Ho & Hv & Hin & Hmin). exists v. split; [done|]. split; [lia|]. split.
  - right. destruct Hin as [[= ->]|Hin]; apply elem_of_cons; auto.
  - intros k u [->|Hk]%elem_of_cons Hu; [|by eapply Hmin]. rewrite (Huniq u Hu). done.
Qed.

Lemma in_pcblookup_spec st f fp l lp wild : linked st →
  match in_pcblookup st f fp l lp wild with
  | Some i => ∃ w, matches st f (u16 fp) l (u16 lp) i w ∧ (w = 0%nat ∨ wild = true) ∧
      ∀ j v, matches st f (u16 fp) l (u16 lp) j v → (w <= v)%nat
  | None => ∀ j v, matches st f (u16 fp) l (u16 lp) j v → v ≠ 0%nat ∧ wild = false
  end.
Proof.
  intros Hl. unfold in_pcblookup.
  pose proof (lookup_loop_spec st f (u16 fp) l (u16 lp) wild (listhead st) None 3 eq_refl) as Hs. cbv zeta in Hs.
  assert (Hin : ∀ j v, matches st f (u16 fp) l (u16 lp) j v → j ∈ listhead st).
  { intros j v (p & Hp & _). apply (lk_dom _ Hl). eauto. }
  destruct (lookup_loop _ _ _ _ _ _ _ _ _) as [i|].
  - destruct Hs as (w & [Hm Hw] & _ & _ & Hmin). exists w. split; [done|]. split; [done|]. intros j v Hj.
    destruct Hw as [->|Hw]; [lia|]. apply (Hmin j v); [by eapply Hin|]. split; [done|by right].
  - destruct Hs as [_ Hno]. intros j v Hj. split.
    + intros ->. apply (Hno j 0%nat); [by eapply Hin|]. split; [done|by left].
    + destruct wild; [|done]. exfalso. apply (Hno j v); [by eapply Hin|]. split; [done|by right].
Qed.

Lemma find_pcb_spec st f l :
  match find_pcb st f l with
  | Some i => i ∈ l ∧ ∃ p, pcbs st !! i = Some p ∧ f p = true
  | None => ∀ i p, i ∈ l → pcbs st !! i = Some p → f p = false
  end.
Proof.
  induction l as [|i l IH]; cbn [find_pcb]; [by intros i p ?%elem_of_nil|].
  assert (Hskip : (∀ p, pcbs st !! i = Some p → f p = false) →
    match find_pcb st f l with
    | Some j => j ∈ i :: l ∧ ∃ p, pcbs st !! j = Some p ∧ f p = true
    | None => ∀ j p, j ∈ i :: l → pcbs st !! j = Some p → f p = false
    end).
  { intros Hno. destruct (find_pcb st f l) as [j|].
    - destruct IH as [Hj Hp]. split; [apply elem_of_cons; by right|done].
    - intros j p [->|Hj]%elem_of_cons; [by apply Hno|by apply IH]. }
  destruct (pcbs st !! i) as [p|] eqn:Hp; [|by apply Hskip].
  destruct (f p) eqn:Hf; [|apply Hskip; by intros q [= <-]].
  split; [apply elem_of_cons; by left|]. by exists p.
Qed.

(** The blocks the wildcard loop looks at. *)
Definition unconnected lp p : bool := (inp_faddr p =? INADDR_ANY) && (inp_fport p =? 0) && (inp_lport p =? lp).

Lemma wild_loop_spec st la lp l : ∀ lw,
  match lw with Some i => ∃ p, pcbs st !! i = Some p ∧ unconnected lp p = true ∧ inp_laddr p = INADDR_ANY | None => True end →
  match wild_loop st la lp l lw with
  | Some i => (Some i = lw ∨ i ∈ l) ∧ ∃ p, pcbs st !! i = Some p ∧ unconnected lp p = true ∧
      (inp_laddr p = la ∨ inp_laddr p = INADDR_ANY ∧
         ∀ j q, j ∈ l → pcbs st !! j = Some q → unconnected lp q = true → inp_laddr q ≠ la)
  | None => lw = None ∧ ∀ j q, j ∈ l → pcbs st !! j = Some q → unconnected lp q = true → inp_laddr q ≠ la ∧ inp_laddr q ≠ INADDR_ANY
  end.
Proof.
  induction l as [|i l IH]; intros lw Hlw; cbn [wild_loop].
  { destruct lw as [i|]; [|split; [done|]; by intros j q ?%elem_of_nil].
    destruct Hlw as (p & Hp & Hu & Ha). split; [by left|]. exists p. split_and!; try done. right. split; [done|].
    by intros j q ?%elem_of_nil. }
  assert (Hstep : ∀ lw', match lw' with Some i => ∃ p, pcbs st !! i = Some p ∧ unconnected lp p = true ∧ inp_laddr p = INADDR_ANY | None => True end →
    (lw' = lw ∨ lw' = Some i) →
    (∀ q, pcbs st !! i = Some q → unconnected lp q = true → inp_laddr q ≠ la ∧ (inp_laddr q = INADDR_ANY → lw' = Some i)) →
    match wild_loop st la lp l lw' with
    | Some j => (Some j = lw ∨ j ∈ i :: l) ∧ ∃ p, pcbs st !! j = Some p ∧ unconnected lp p = true ∧
        (inp_laddr p = la ∨ inp_laddr p = INADDR_ANY ∧
           ∀ k q, k ∈ i :: l → pcbs st !! k = Some q → unconnected lp q = true → inp_laddr q ≠ la)
    | None => lw = None ∧ ∀ j q, j ∈ i :: l → pcbs st !! j = Some q → unconnected lp q = true → inp_laddr q ≠ la ∧ inp_laddr q ≠ INADDR_ANY
    end).
  { intros lw' H1 H2 H3. specialize (IH lw' H1). destruct (wild_loop st la lp l lw') as [j|].
    - destruct IH as (Hin & p & Hp & Hu & Ha). split.
      + rewrite elem_of_cons. destruct Hin as [Hin|]; [|by auto]. destruct H2 as [->|H2]; [by left|]. right; left. congruence.
      + exists p. split_and!; try done. destruct Ha as [|[Ha Hno]]; [by left|]. right. split; [done|].
        intros k q [->|Hk]%elem_of_cons Hq Huq; [by apply H3|by eapply Hno].
    - destruct IH as [-> IH]. destruct H2 as [<-|]; [|done]. split; [done|].
      intros j q [->|Hj]%elem_of_cons Hq Huq; [|by eapply IH]. destruct (H3 q Hq Huq) as [Hx Hy]. split; [done|].
      intros Hz. by specialize (Hy Hz). }
  destruct (pcbs st !! i) as [p|] eqn:Hp; [|apply Hstep; [done|by left|done]].
  fold (unconnected lp p). destruct (unconnected lp p) eqn:Hu; [|apply Hstep; [done|by left|by intros q [= <-]; congruence]].
  destruct (Z.eqb_spec (inp_laddr p) la) as [Ha|Ha].
  { split; [right; apply elem_of_cons; by left|]. exists p. split_and!; try done. by left. }
  destruct (Z.eqb_spec (inp_laddr p) INADDR_ANY) as [Hy|Hy].
  - apply Hstep; [by exists p|by right|]. by intros q [= <-].
  - apply Hstep; [done|by left|]. by intros q [= <-].
Qed.


Lemma chain_at_spec st k i : linked st → (k < S (hashmask st))%nat →
  i ∈ chain_at st k ↔ ∃ p, pcbs st !! i = Some p ∧ hash_of p (hashmask st) = k.
Proof.
  intros [] Hk. unfold chain_at. rewrite <- lk_size0 in Hk. apply lookup_lt_is_Some_2 in Hk as [l Hl].
  rewrite Hl. cbn. by apply lk_chain0.
Qed.

Lemma move_front_rest i k st : pcbs (move_front i k st) = pcbs st ∧ listhead (move_front i k st) = listhead st ∧
  lastport (move_front i k st) = lastport st ∧ hashmask (move_front i k st) = hashmask st.
Proof. unfold move_front. by case_bool_decide. Qed.

(** What the lookup by hash finds, in terms of the blocks alone. *)
Definition hash_result st (f fp l lp : Z) (wildcard : bool) (r : option positive) : Prop :=
  match r with
  | Some i => ∃ p, pcbs st !! i = Some p ∧
      (exact_match f fp l lp p = true ∨
       wildcard = true ∧ (∀ j q, pcbs st !! j = Some q → exact_match f fp l lp q = false) ∧ unconnected lp p = true ∧
       (inp_laddr p = l ∨ inp_laddr p = INADDR_ANY ∧
          ∀ j q, pcbs st !! j = Some q → unconnected lp q = true → inp_laddr q ≠ l))
  | None => (∀ j q, pcbs st !! j = Some q → exact_match f fp l lp q = false) ∧
      (wildcard = true → ∀ j q, pcbs st !! j = Some q → unconnected lp q = true → inp_laddr q ≠ l ∧ inp_laddr q ≠ INADDR_ANY)
  end.

Lemma exact_match_eq f fp l lp p : exact_match f fp l lp p = true ↔
  inp_faddr p = f ∧ inp_fport p = fp ∧ inp_lport p = lp ∧ inp_laddr p = l.
Proof. unfold exact_match. rewrite !andb_true_iff, !Z.eqb_eq. tauto. Qed.

Lemma unconnected_eq lp p : unconnected lp p = true ↔ inp_faddr p = INADDR_ANY ∧ inp_fport p = 0 ∧ inp_lport p = lp.
Proof. unfold unconnected. rewrite !andb_true_iff, !Z.eqb_eq. tauto. Qed.

Lemma lookuphash_spec st f fp l lp wildcard : linked st →
  let '(r, st') := in_pcblookuphash st f fp l lp wildcard in
  linked st' ∧ pcbs st' = pcbs st ∧ listhead st' = listhead st ∧ lastport st' = lastport st ∧
  hash_result st f (u16 fp) l (u16 lp) wildcard r.
Proof.
  intros Hl. unfold in_pcblookuphash. set (fp' := u16 fp). set (lp' := u16 lp).
  set (k := INP_PCBHASH f lp' fp' (hashmask st)). set (k' := INP_PCBHASH INADDR_ANY lp' 0 (hashmask st)).
  assert (Hk : (k < S (hashmask st))%nat) by (unfold k; pose proof (hash_range f lp' fp' (hashmask st)); lia).
  assert (Hk' : (k' < S (hashmask st))%nat) by (unfold k'; pose proof (hash_range INADDR_ANY lp' 0 (hashmask st)); lia).
  assert (Hexact : ∀ j q, pcbs st !! j = Some q → exact_match f fp' l lp' q = true → j ∈ chain_at st k).
  { intros j q Hq (H1 & H2 & H3 & H4)%exact_match_eq. apply (chain_at_spec st k j Hl Hk). exists q. split; [done|].
    unfold hash_of. by rewrite H1, H2, H3. }
  assert (Hwild : ∀ j q, pcbs st !! j = Some q → unconnected lp' q = true → j ∈ chain_at st k').
  { intros j q Hq (H1 & H2 & H3)%unconnected_eq. apply (chain_at_spec st k' j Hl Hk'). exists q. split; [done|].
    unfold hash_of. by rewrite H1, H2, H3. }
  pose proof (find_pcb_spec st (exact_match f fp' l lp') (chain_at st k)) as Hf.
  destruct (find_pcb _ _ _) as [i|].
  { destruct Hf as (Hi & p & Hp & Hm). destruct (move_front_rest i k st) as (-> & -> & -> & _).
    split; [by apply move_front_linked|]. split_and!; try done. exists p. split; [done|by left]. }
  assert (Hno : ∀ j q, pcbs st !! j = Some q → exact_match f fp' l lp' q = false).
  { intros j q Hq. destruct (exact_match f fp' l lp' q) eqn:Hm; [|done]. rewrite <- Hm. eapply Hf; [|done]. by eapply Hexact. }
  destruct wildcard; [|by split_and!].
  pose proof (wild_loop_spec st l lp' (chain_at st k') None I) as Hw.
  destruct (wild_loop _ _ _ _ _) as [i|].
  - destruct Hw as ([|Hi] & p & Hp & Hu & Ha); [done|]. destruct (move_front_rest i k' st) as (-> & -> & -> & _).
    split; [by apply move_front_linked|]. split_and!; try done. exists p. split; [done|]. right. split_and!; try done.
    destruct Ha as [|[Ha Hnone]]; [by left|]. right. split; [done|]. intros j q Hq Huq. eapply Hnone; [by eapply Hwild|done|done].
  - destruct Hw as [_ Hw]. do 4 (split; [done|]). split; [done|]. intros _ j q Hq Huq. eapply Hw; [by eapply Hwild|done|done].
Qed.

(** *** Both searches agree *)

(** Connected blocks have a local address, the others no foreign port. *)
Definition addrs_ok st : Prop := ∀ i p, pcbs st !! i = Some p →
  (inp_faddr p = INADDR_ANY → inp_fport p = 0) ∧ (inp_faddr p ≠ INADDR_ANY → inp_laddr p ≠ INADDR_ANY).

Lemma wildcards_exact f fp l lp p : f ≠ INADDR_ANY → l ≠ INADDR_ANY → inp_lport p = lp →
  wildcards p f fp l = Some 0%nat ↔ exact_match f fp l lp p = true.
Proof.
  intros Hf Hl Hlp. rewrite exact_match_eq. unfold wildcards.
  rewrite (proj2 (Z.eqb_neq f _)), (proj2 (Z.eqb_neq l _)) by done. cbn [negb].
  destruct (Z.eqb_spec (inp_faddr p) INADDR_ANY), (Z.eqb_spec (inp_laddr p) INADDR_ANY); cbn [negb];
    destruct (Z.eqb_spec (inp_faddr p) f), (Z.eqb_spec (inp_fport p) fp), (Z.eqb_spec (inp_laddr p) l); cbn [negb orb];
    (split; [intros; by split_and!|intros (?&?&?&?); congruence]).
Qed.

Lemma wildcards_unconnected f fp l lp p : f ≠ INADDR_ANY → l ≠ INADDR_ANY → unconnected lp p = true →
  wildcards p f fp l = (if inp_laddr p =? l then Some 1%nat else if inp_laddr p =? INADDR_ANY then Some 2%nat else None).
Proof.
  intros Hf Hl (He & _ & _)%unconnected_eq. unfold wildcards. rewrite He, Z.eqb_refl.
  rewrite (proj2 (Z.eqb_neq f _)), (proj2 (Z.eqb_neq l _)) by done. cbn [negb].
  destruct (Z.eqb_spec (inp_laddr p) INADDR_ANY) as [->|]; cbn [negb]; [by rewrite (proj2 (Z.eqb_neq _ l))|].
  by destruct (inp_laddr p =? l).
Qed.

Lemma matches_cases st f fp l lp i w : addrs_ok st → f ≠ INADDR_ANY → l ≠ INADDR_ANY → matches st f fp l lp i w →
  ∃ p, pcbs st !! i = Some p ∧
    (w = 0%nat ∧ exact_match f fp l lp p = true ∨
     unconnected lp p = true ∧ (w = 1%nat ∧ inp_laddr p = l ∨ w = 2%nat ∧ inp_laddr p = INADDR_ANY)).
Proof.
  intros Ha Hf Hl (p & Hp & Hlp & Hw). exists p. split; [done|]. destruct (Ha i p Hp) as [Ha1 Ha2].
  destruct (Z.eq_dec (inp_faddr p) INADDR_ANY) as [He|He].
  - assert (unconnected lp p = true) as Hu by (apply unconnected_eq; auto). right. split; [done|].
    rewrite (wildcards_unconnected f fp l lp p) in Hw by done.
    destruct (Z.eqb_spec (inp_laddr p) l); [left; split; congruence|].
    destruct (Z.eqb_spec (inp_laddr p) INADDR_ANY); [right; split; congruence|done].
  - left. specialize (Ha2 He). assert (w = 0%nat) as ->; [|split; [done|by apply wildcards_exact]].
    unfold wildcards in Hw. rewrite (proj2 (Z.eqb_neq _ _) He), (proj2 (Z.eqb_neq _ _) Hf), (proj2 (Z.eqb_neq _ _) Ha2),
      (proj2 (Z.eqb_neq _ _) Hl) in Hw. cbn [negb] in Hw. by repeat case_match; simplify_eq.
Qed.

Lemma lookups_agree st f fp l lp : linked st → addrs_ok st → f ≠ INADDR_ANY → l ≠ INADDR_ANY →
  match (in_pcblookuphash st f fp l lp true).1, in_pcblookup st f fp l lp true with
  | Some i, Some j => ∃ w, matches st f (u16 fp) l (u16 lp) i w ∧ matches st f (u16 fp) l (u16 lp) j w
  | None, None => True
  | _, _ => False
  end.
Proof.
  intros Hl Ha Hf Hla. pose proof (in_pcblookup_spec st f fp l lp true Hl) as Hs.
  pose proof (lookuphash_spec st f fp l lp true Hl) as Hh. destruct (in_pcblookuphash _ _ _ _ _ _) as [r st'].
  destruct Hh as (_ & _ & _ & _ & Hh). cbn [fst]. set (fp' := u16 fp) in *. set (lp' := u16 lp) in *.
  destruct r as [i|].
  - destruct Hh as (p & Hp & Hcase).
    assert (∃ w, matches st f fp' l lp' i w ∧ ∀ j v, matches st f fp' l lp' j v → (w <= v)%nat) as (w & Hm & Hmin).
    { destruct Hcase as [Hx|(_ & Hno & Hu & Hla')].
      - exists 0%nat. split; [|lia]. pose proof Hx as (_ & _ & Hlp & _)%exact_match_eq. exists p. split_and!; try done.
        by apply (wildcards_exact f fp' l lp' p).
      - pose proof Hu as (_ & _ & Hlp)%unconnected_eq. pose proof (wildcards_unconnected f fp' l lp' p Hf Hla Hu) as Hw.
        destruct Hla' as [He|[He Hnone]]; rewrite He in Hw.
        + rewrite Z.eqb_refl in Hw. exists 1%nat. split; [by exists p|]. intros j v Hj.
          destruct (matches_cases _ _ _ _ _ _ _ Ha Hf Hla Hj) as (q & Hq & [[-> Hx]|[_ [[-> _]|[-> _]]]]); try lia.
          by rewrite (Hno j q Hq) in Hx.
        + rewrite (proj2 (Z.eqb_neq _ l)), Z.eqb_refl in Hw by done. exists 2%nat. split; [by exists p|]. intros j v Hj.
          destruct (matches_cases _ _ _ _ _ _ _ Ha Hf Hla Hj) as (q & Hq & [[-> Hx]|[Huq [[-> Hlq]|[-> _]]]]); try lia.
          * by rewrite (Hno j q Hq) in Hx.
          * by destruct (Hnone j q Hq Huq). }
    destruct (in_pcblookup _ _ _ _ _ _) as [j|].
    + destruct Hs as (v & Hj & _ & Hminj). exists w. split; [done|].
      assert (w = v) as -> by (specialize (Hmin _ _ Hj); specialize (Hminj _ _ Hm); lia). done.
    + by destruct (Hs _ _ Hm) as [_ ?].
  - destruct Hh as [Hno Hwild]. destruct (in_pcblookup _ _ _ _ _ _) as [j|]; [|done].
    destruct Hs as (v & Hj & _). destruct (matches_cases _ _ _ _ _ _ _ Ha Hf Hla Hj) as (q & Hq & [[_ Hx]|[Huq Hc]]).
    + by rewrite (Hno j q Hq) in Hx.
    + destruct (Hwild eq_refl j q Hq Huq). by destruct Hc as [[_ ?]|[_ ?]].
Qed.


(** ** Binding *)

Lemma lookup_loop_pcbs st st' f fp l lp wild : pcbs st' = pcbs st → ∀ ls best n,
  lookup_loop st' ls f fp l lp wild best n = lookup_loop st ls f fp l lp wild best n.
Proof.
  intros Hp. induction ls as [|i ls IH]; intros best n; [done|]. cbn [lookup_loop]. rewrite Hp.
  destruct (pcbs st !! i) as [p|]; [|apply IH]. by rewrite !IH; repeat case_match; rewrite ?IH.
Qed.

Lemma lookup_lastport x st f fp l lp wild : in_pcblookup (set_lastport x st) f fp l lp wild = in_pcblookup st f fp l lp wild.
Proof. by apply lookup_loop_pcbs. Qed.

(** A port that [in_pcbbind] may give. *)
Definition port_free st (laddr : Z) (wild : bool) (x : Z) : Prop :=
  IPPORT_RESERVED <= x <= IPPORT_USERRESERVED ∧ in_pcblookup st 0 0 laddr x wild = None.

Lemma next_port_range x : IPPORT_RESERVED <= next_port x <= IPPORT_USERRESERVED.
Proof.
  pose proof port_range. unfold next_port. destruct (Z.ltb_spec (u16 (x + 1)) IPPORT_RESERVED); cbn [orb]; [lia|].
  destruct (Z.ltb_spec IPPORT_USERRESERVED (u16 (x + 1))); lia.
Qed.

Lemma port_loop_sound fuel la wild : ∀ st st', port_loop fuel la wild st = Some st' →
  ∃ x, st' = set_lastport x st ∧ port_free st la wild x.
Proof.
  induction fuel as [|fuel IH]; intros st st' Hp; [done|]. cbn [port_loop] in Hp.
  rewrite lookup_lastport in Hp. cbn [lastport set_lastport] in Hp. pose proof (next_port_range (lastport st)) as Hr.
  destruct (in_pcblookup st 0 0 la (next_port (lastport st)) wild) eqn:Hl.
  - apply IH in Hp as (x & -> & Hx & Hfree). rewrite lookup_lastport in Hfree. exists x. split; [done|]. by split.
  - simplify_eq. exists (next_port (lastport st)). done.
Qed.

(** The number of rounds from one port of the range to another. *)
Definition distance (x y : Z) : Z :=
  if x <? y then y - x else IPPORT_USERRESERVED + 1 - x + (y - IPPORT_RESERVED).

Lemma next_port_distance x y : IPPORT_RESERVED <= x <= IPPORT_USERRESERVED → IPPORT_RESERVED <= y <= IPPORT_USERRESERVED →
  next_port x = y ∨ distance (next_port x) y = distance x y - 1.
Proof.
  pose proof port_range. intros Hx Hy. unfold next_port. rewrite u16_id by lia.
  destruct (Z.ltb_spec (x + 1) IPPORT_RESERVED); [lia|]. cbn [orb]. unfold distance.
  destruct (Z.ltb_spec IPPORT_USERRESERVED (x + 1)).
  - destruct (Z.ltb_spec IPPORT_RESERVED y), (Z.ltb_spec x y); lia.
  - destruct (Z.ltb_spec (x + 1) y), (Z.ltb_spec x y); lia.
Qed.

Lemma port_loop_ends fuel la wild y : ∀ st, IPPORT_RESERVED <= lastport st <= IPPORT_USERRESERVED →
  port_free st la wild y → distance (lastport st) y <= Z.of_nat fuel → is_Some (port_loop fuel la wild st).
Proof.
  pose proof port_range as Hpr.
  induction fuel as [|fuel IH]; intros st Hx [Hy Hfree] Hd.
  { exfalso. unfold distance in Hd. destruct (Z.ltb_spec (lastport st) y); lia. }
  cbn [port_loop]. rewrite lookup_lastport. cbn [lastport set_lastport].
  destruct (in_pcblookup st 0 0 la (next_port (lastport st)) wild) eqn:Hl; [|eauto].
  destruct (next_port_distance (lastport st) y Hx Hy) as [He|He]; [congruence|].
  apply IH; cbn [lastport set_lastport]; [apply next_port_range| |lia]. split; [done|]. by rewrite lookup_lastport.
Qed.

Definition port_fuel : nat := Z.to_nat (IPPORT_USERRESERVED - IPPORT_RESERVED + 2).

(** The loop over the ports ends exactly when there is a free one, and then
    after a round over the range. *)
Lemma port_loop_total fuel la wild st : (port_fuel <= fuel)%nat →
  (∃ y, port_free st la wild y) ↔ is_Some (port_loop fuel la wild st).
Proof.
  pose proof port_range as Hpr. intros Hf. split.
  - intros (y & Hy & Hfree). unfold port_fuel in Hf. destruct fuel as [|fuel]; [lia|]. cbn [port_loop]. rewrite lookup_lastport.
    cbn [lastport set_lastport]. destruct (in_pcblookup st 0 0 la (next_port (lastport st)) wild); [|eauto].
    apply (port_loop_ends fuel la wild y); cbn [lastport set_lastport]; [apply next_port_range| |].
    + split; [done|]. by rewrite lookup_lastport.
    + pose proof (next_port_range (lastport st)). unfold distance. destruct (Z.ltb_spec (next_port (lastport st)) y); lia.
  - intros [st' Hp]. apply port_loop_sound in Hp as (x & _ & Hx). eauto.
Qed.

Lemma errno_ne x : In x [ENOBUFS; EADDRNOTAVAIL; EINVAL; EADDRINUSE; EAFNOSUPPORT] → x ≠ 0.
Proof. pose proof errnos_nonzero as Hn. rewrite List.Forall_forall in Hn. apply Hn. Qed.

Lemma upd_insert i f st p : pcbs st !! i = Some p → pcbs (upd i f st) = <[i := f p]> (pcbs st).
Proof.
  intros Hp. cbn. apply map_eq. intros j. destruct (decide (i = j)) as [->|Hj].
  - by rewrite lookup_alter_eq, lookup_insert_eq, Hp.
  - by rewrite lookup_alter_ne, lookup_insert_ne.
Qed.

Lemma bind_port_spec fuel i la lp wild st p st' err : linked_but i st → pcbs st !! i = Some p → 
  bind_port fuel i la lp wild st = Some (err, st') →
  err = 0 ∧ linked st' ∧ ∃ x, pcbs st' = <[i := set_lport x p]> (pcbs st) ∧
    (lastport st' = lastport st ∧ x = lp ∧ lp ≠ 0 ∨ lastport st' = x ∧ lp = 0 ∧ port_free st la wild x).
Proof.
  intros Hl Hp Hb. unfold bind_port in Hb. destruct (Z.eqb_spec lp 0) as [->|Hne].
  - destruct (port_loop fuel la wild st) as [st1|] eqn:Hpl; [|done]. cbn in Hb. simplify_eq.
    apply port_loop_sound in Hpl as (x & -> & Hx). cbn [lastport set_lastport].
    set (st2 := upd i (set_lport x) (set_lastport x st)).
    assert (Hp2 : pcbs st2 = <[i := set_lport x p]> (pcbs st)) by exact (upd_insert i _ _ p Hp).
    split; [done|]. split.
    + apply rehash_linked; [|rewrite Hp2, lookup_insert_eq; eauto]. apply linked_but_upd.
      destruct Hl. by split.
    + exists x. rewrite rehash_pcbs. destruct (rehash_rest i st2) as [_ ->]. split; [done|]. by right.
  - simplify_eq. split; [done|]. set (st2 := upd i (set_lport lp) st).
    assert (Hp2 : pcbs st2 = <[i := set_lport lp p]> (pcbs st)) by exact (upd_insert i _ _ p Hp).
    split.
    + apply rehash_linked; [|rewrite Hp2, lookup_insert_eq; eauto]. by apply linked_but_upd.
    + exists lp. rewrite rehash_pcbs. destruct (rehash_rest i st2) as [_ ->]. split; [done|]. by left.
Qed.

Lemma bind_check_error p wild sin st e err : bind_check p wild sin st e = inl err → err ≠ 0.
Proof.
  unfold bind_check. intros Hb. repeat case_match; simplify_eq; apply errno_ne; cbn; tauto.
Qed.

Lemma bind_check_port p wild sin st e lp : bind_check p wild sin st e = inr lp → lp = sin_port sin ∧ sin_ok sin = true.
Proof.
  unfold bind_check. intros Hb. destruct (sin_ok sin); [|done]. cbn in Hb.
  repeat case_match; simplify_eq; split; try done;
    repeat match goal with H : negb _ = false |- _ => apply negb_false_iff, Z.eqb_eq in H end; congruence.
Qed.

(** What a binding does to the blocks. *)
Definition bound_to (nam : option sockaddr) st p (x la : Z) st' : Prop :=
  inp_lport p = 0 ∧ inp_laddr p = INADDR_ANY ∧
  match nam with
  | None => la = INADDR_ANY ∧ lastport st' = x ∧ port_free st la (bind_wild p) x
  | Some sin => la = sin_addr sin ∧ (x = sin_port sin ∨ IPPORT_RESERVED <= x <= IPPORT_USERRESERVED)
  end.

Lemma in_pcbbind_spec fuel i nam st e p err st' : linked st → pcbs st !! i = Some p →
  in_pcbbind fuel i nam st e = Some (err, st') →
  linked st' ∧ (err ≠ 0 ∧ st' = st ∨
    err = 0 ∧ ∃ x la, pcbs st' = <[i := set_lport x (set_laddr la p)]> (pcbs st) ∧ bound_to nam st p x la st').
Proof.
  intros Hl Hp Hb. unfold in_pcbbind in Hb. rewrite Hp in Hb. cbn -[bind_port] in Hb.
  case_bool_decide; [simplify_eq; split; [done|]; left; split; [apply errno_ne; cbn; tauto|done]|].
  destruct (negb (inp_lport p =? 0) || negb (inp_laddr p =? INADDR_ANY)) eqn:Hc.
  { simplify_eq. split; [done|]. left. split; [apply errno_ne; cbn; tauto|done]. }
  apply orb_false_iff in Hc as [Hc1 Hc2]. apply negb_false_iff, Z.eqb_eq in Hc1, Hc2.
  destruct nam as [sin|].
  - destruct (bind_check p (bind_wild p) sin st e) as [err0|lp] eqn:Hbc.
    { simplify_eq. split; [done|]. left. split; [by eapply bind_check_error|done]. }
    apply bind_check_port in Hbc as [-> _].
    assert (Hp1 : pcbs (upd i (set_laddr (sin_addr sin)) st) !! i = Some (set_laddr (sin_addr sin) p)).
    { by rewrite (upd_insert i _ _ p), lookup_insert_eq. }
    apply (bind_port_spec _ _ _ _ _ _ _ _ _ (linked_upd i _ st Hl) Hp1) in Hb as (-> & Hl' & x & Hx & Hcase).
    split; [done|]. right. split; [done|]. exists x, (sin_addr sin). split.
    + rewrite Hx, (upd_insert i _ _ p), insert_insert_eq by done. done.
    + split_and!; try done. destruct Hcase as [(_ & -> & _)|(_ & _ & Hfr & _)]; auto.
  - apply (bind_port_spec _ _ _ _ _ _ _ _ _ (linked_linked_but i st Hl) Hp) in Hb as (-> & Hl' & x & Hx & Hcase).
    split; [done|]. right. split; [done|]. exists x, (inp_laddr p). split.
    + rewrite Hx. done.
    + destruct Hcase as [(? & ? & ?)|(Hx2 & _ & Hfr)]; [done|]. split_and!; try done; apply Hfr.
Qed.


(** ** Connecting *)

Lemma linked_same_hash i f st : linked st → (∀ p m, pcbs st !! i = Some p → hash_of (f p) m = hash_of p m) → linked (upd i f st).
Proof.
  intros [] Hf. split; cbn; try done.
  - intros j. rewrite lk_dom0. symmetry. apply alter_is_Some.
  - intros k l j Hk. rewrite (lk_chain0 k l j Hk). destruct (decide (i = j)) as [->|]; [|by rewrite lookup_alter_ne].
    rewrite lookup_alter_eq. destruct (pcbs st !! j) as [p|]; cbn.
    + split; intros (q & [= <-] & Hh); eexists; (split; [done|]); [by rewrite Hf|by rewrite Hf in Hh].
    + split; by intros (? & ? & _).
Qed.

Lemma ladr_route_spec p dst e : let '(q, e') := ladr_route p dst e in ∃ r d, q = set_route r d p.
Proof.
  unfold ladr_route. destruct (ro_rt p) as [rt|] eqn:Hrt; [destruct (_ || _)|]; cbn [ro_rt set_route].
  - destruct (_ && _); [destruct (rtalloc dst (rtfree rt e))|]; by eexists _, _.
  - destruct (_ && _); [destruct (rtalloc dst e); by eexists _, _|]. exists (ro_rt p), (ro_dst p). by destruct p.
  - destruct (_ && _); [destruct (rtalloc dst e); by eexists _, _|]. exists (ro_rt p), (ro_dst p). by destruct p.
Qed.

Lemma route_same p : p = set_route (ro_rt p) (ro_dst p) p.
Proof. by destruct p. Qed.

Context `{!PcbEnvLaws R E}.

Lemma ladr_dst_any sin e : in_ifaddr e ≠ [] → ladr_dst sin e ≠ INADDR_ANY.
Proof.
  intros Hne. unfold ladr_dst. destruct (in_ifaddr e) as [|ia r] eqn:Hi; [done|].
  destruct (in_ifaddr_addr e ia) as [H1 H2]; [rewrite Hi; apply elem_of_cons; by left|].
  destruct (Z.eqb_spec (sin_addr sin) INADDR_ANY); [done|]. by destruct (_ && _).
Qed.

Lemma ladr_ia_addr p dst e ia : ladr_ia p dst e = Some ia → ia_addr ia ≠ INADDR_ANY.
Proof.
  unfold ladr_ia. set (via := match ro_rt p with Some rt => _ | None => None end). destruct via as [x|] eqn:Hv.
  { intros [= <-]. unfold via in Hv. destruct (ro_rt p) as [rt|]; [|done]. destruct (rt_loopback rt); [done|]. by apply (rt_ifa_addr rt). }
  destruct (ifa_ifwithdstaddr dst e) eqn:Hd; [intros [= <-]; by eapply ifwithdst_addr|].
  destruct (ifa_ifwithnet dst e) eqn:Hn; [intros [= <-]; by eapply ifwithnet_addr|].
  intros Hh. apply (in_ifaddr_addr e ia). destruct (in_ifaddr e); [done|]. cbn in Hh. simplify_eq. apply elem_of_cons. by left.
Qed.

Lemma ladr_multicast_addr p dst ia e ia' : ia_addr ia ≠ INADDR_ANY → ladr_multicast p dst ia e = Some ia' → ia_addr ia' ≠ INADDR_ANY.
Proof.
  intros Ha. unfold ladr_multicast. destruct (imo_ifp p) as [ifp|]; [|by intros [= <-]].
  destruct (IN_MULTICAST dst); [|by intros [= <-]]. destruct (list_find _ _) as [[n x]|] eqn:Hf; [|done]. cbn. intros [= <-].
  apply list_find_Some in Hf as (Hl & _ & _). apply list_elem_of_lookup_2 in Hl. by apply (in_ifaddr_addr e x).
Qed.

Lemma in_pcbladdr_spec i sin st e p err ifa dst st1 e1 : linked st → pcbs st !! i = Some p →
  in_pcbladdr i sin st e = Some (err, ifa, dst, st1, e1) →
  linked st1 ∧ lastport st1 = lastport st ∧ (∃ r d, pcbs st1 = <[i := set_route r d p]> (pcbs st)) ∧
  (err = 0 → dst = ladr_dst sin e ∧ sin_port sin ≠ 0 ∧
    (inp_laddr p ≠ INADDR_ANY ∨ inp_laddr p = INADDR_ANY ∧ ∃ a, ifa = Some a ∧ a ≠ INADDR_ANY)).
Proof.
  intros Hl Hp Ha. unfold in_pcbladdr in Ha. rewrite Hp in Ha. cbn in Ha.
  assert (Hsame : ∃ r d, pcbs st = <[i := set_route r d p]> (pcbs st)).
  { exists (ro_rt p), (ro_dst p). by rewrite <- route_same, insert_id. }
  destruct (negb (sin_ok sin)); [simplify_eq; split_and!; try done; intros ?; exfalso; by eapply errno_ne with (x := EINVAL); cbn; tauto|].
  destruct (negb (sin_inet sin)); [simplify_eq; split_and!; try done; intros ?; exfalso; by eapply errno_ne with (x := EAFNOSUPPORT); cbn; tauto|].
  destruct (Z.eqb_spec (sin_port sin) 0) as [|Hport]; [simplify_eq; split_and!; try done; intros ?; exfalso; by eapply errno_ne with (x := EADDRNOTAVAIL); cbn; tauto|].
  destruct (Z.eqb_spec (inp_laddr p) INADDR_ANY) as [Hla|Hla]; [|simplify_eq; split_and!; try done; auto].
  pose proof (ladr_route_spec p (ladr_dst sin e) e) as Hr. destruct (ladr_route p _ e) as [q e2]. destruct Hr as (r & d & ->).
  assert (Hl2 : linked (upd i (λ _, set_route r d p) st)).
  { apply linked_same_hash; [done|]. intros p' m Hp'. simplify_eq. done. }
  assert (Hp2 : ∃ r d, pcbs (upd i (λ _, set_route r d p) st) = <[i := set_route r d p]> (pcbs st)).
  { exists r, d. by rewrite (upd_insert i _ _ p). }
  assert (Hp3 : ∃ r' d', pcbs (upd i (λ _, set_route r d p) st) = <[i := set_route r' d' p]> (pcbs st)).
  { exists r, d. by rewrite (upd_insert i _ _ p). }
  destruct (ladr_ia _ _ _) as [ia|] eqn:Hia.
  2: { simplify_eq. split_and!; try done. intros ?; exfalso; by eapply errno_ne with (x := EADDRNOTAVAIL); cbn; tauto. }
  apply ladr_ia_addr in Hia. destruct (ladr_multicast _ _ _ _) as [ia'|] eqn:Hm.
  2: { simplify_eq. split_and!; try done. intros ?; exfalso; by eapply errno_ne with (x := EADDRNOTAVAIL); cbn; tauto. }
  apply ladr_multicast_addr in Hm; [|done]. simplify_eq. split_and!; try done. intros _. split_and!; try done. right. split; [done|]. eauto.
Qed.

(** A port that is free for a block that does not share is no other block's. *)
Lemma port_free_unused st x : linked st → 0 <= x < 65536 → port_free st INADDR_ANY true x →
  ∀ j q, pcbs st !! j = Some q → inp_lport q ≠ x.
Proof.
  intros Hl Hx [_ Hf] j q Hq He. pose proof (in_pcblookup_spec st 0 0 INADDR_ANY x true Hl) as Hs. rewrite Hf in Hs.
  rewrite (u16_id x) in Hs by done. rewrite any_zero in Hs.
  assert (∃ w, wildcards q 0 (u16 0) 0 = Some w) as [w Hw].
  { unfold wildcards. rewrite any_zero. change (0 =? 0) with true. cbn [negb]. destruct (inp_faddr q =? 0), (inp_laddr q =? 0); cbn; eauto. }
  destruct (Hs j w) as [_ ?]; [by exists q|done].
Qed.

(** What a connection does to the blocks: the four addresses are no other
    block's. *)
Definition connected_to sin st p (la lp dst : Z) : Prop :=
  dst ≠ INADDR_ANY ∧ la ≠ INADDR_ANY ∧
  (lp = inp_lport p ∧ (∀ j q, pcbs st !! j = Some q → exact_match dst (sin_port sin) la lp q = false) ∨
   inp_lport p = 0 ∧ IPPORT_RESERVED <= lp <= IPPORT_USERRESERVED ∧
     (bind_wild p = true → ∀ j q, pcbs st !! j = Some q → inp_lport q ≠ lp)).

Lemma in_pcbconnect_spec fuel i sin st e p err st' e' : linked st → pcbs st !! i = Some p →
  0 <= sin_port sin < 65536 → 0 <= inp_lport p < 65536 → in_ifaddr e ≠ [] →
  in_pcbconnect fuel i sin st e = Some (err, st', e') →
  linked st' ∧ ∃ r d,
    (err ≠ 0 ∧ pcbs st' = <[i := set_route r d p]> (pcbs st) ∨
     err = 0 ∧ ∃ la lp dst, connected_to sin st p la lp dst ∧
       pcbs st' = <[i := set_foreign dst (sin_port sin) (set_lport lp (set_laddr la (set_route r d p)))]> (pcbs st)).
Proof.
  intros Hl Hp Hsp Hlp Hif Hc. unfold in_pcbconnect in Hc.
  destruct (in_pcbladdr i sin st e) as [[[[[err0 ifa] dst] st1] e1]|] eqn:Ha; [|done]. cbn -[in_pcblookuphash in_pcbbind] in Hc.
  destruct (in_pcbladdr_spec _ _ _ _ _ _ _ _ _ _ Hl Hp Ha) as (Hl1 & Hlast1 & (r & d & Hp1) & Hz).
  destruct (Z.eqb_spec err0 0) as [->|Hne]; cbn -[in_pcblookuphash in_pcbbind] in Hc.
  2: { simplify_eq. split; [done|]. exists r, d. by left. }
  destruct (Hz eq_refl) as (-> & Hport & Hla). clear Hz. pose proof (ladr_dst_any sin e Hif) as Hdst. set (dst := ladr_dst sin e) in *.
  assert (Hp1i : pcbs st1 !! i = Some (set_route r d p)) by by rewrite Hp1, lookup_insert_eq.
  rewrite Hp1i in Hc. cbn -[in_pcblookuphash in_pcbbind] in Hc.
  set (la := if negb (inp_laddr p =? 0) then inp_laddr p else default 0 ifa) in *.
  pose proof (lookuphash_spec st1 dst (sin_port sin) la (inp_lport p) false Hl1) as Hh.
  destruct (in_pcblookuphash st1 _ _ _ _ _) as [t st2]. destruct Hh as (Hl2 & Hp2 & _ & Hlast2 & Hh).
  destruct t as [t|].
  { simplify_eq. split; [done|]. exists r, d. left. split; [apply errno_ne; cbn; tauto|congruence]. }
  destruct Hh as [Hno _]. rewrite !u16_id in Hno by done.
  assert (Hno' : ∀ j q, pcbs st !! j = Some q → exact_match dst (sin_port sin) la (inp_lport p) q = false).
  { intros j q Hq. destruct (decide (j = i)) as [->|Hj].
    - simplify_eq. specialize (Hno i _ Hp1i). exact Hno.
    - apply (Hno j q). by rewrite Hp1, lookup_insert_ne. }
  rewrite any_zero in Hla, Hc. unfold la in *.
  assert (Hp2i : pcbs st2 !! i = Some (set_route r d p)) by by rewrite Hp2.
  destruct (Z.eqb_spec (inp_laddr p) 0) as [Hl0|Hl0]; cbn [negb] in *.
  - destruct Hla as [|[_ (a & -> & Hane)]]; [done|]. cbn [default] in *.
    assert (Hfin : ∀ st3 lp, linked st3 → pcbs st3 = <[i := set_lport lp (set_route r d p)]> (pcbs st) →
      let st4 := in_pcbrehash i (upd i (set_foreign dst (sin_port sin)) (upd i (set_laddr a) st3)) in
      linked st4 ∧ pcbs st4 = <[i := set_foreign dst (sin_port sin) (set_lport lp (set_laddr a (set_route r d p)))]> (pcbs st)).
    { intros st3 lp Hl3 Hp3 st4.
      assert (Hi3 : pcbs st3 !! i = Some (set_lport lp (set_route r d p))) by by rewrite Hp3, lookup_insert_eq.
      pose proof (upd_insert i (set_laddr a) st3 _ Hi3) as Hu1.
      assert (Hi4 : pcbs (upd i (set_laddr a) st3) !! i = Some (set_laddr a (set_lport lp (set_route r d p)))) by by rewrite Hu1, lookup_insert_eq.
      pose proof (upd_insert i (set_foreign dst (sin_port sin)) _ _ Hi4) as Hu2. split.
      - apply rehash_linked; [|rewrite Hu2, lookup_insert_eq; eauto]. apply linked_but_upd, linked_upd, Hl3.
      - unfold st4. rewrite rehash_pcbs, Hu2, Hu1, Hp3, !insert_insert_eq. done. }
    destruct (Z.eqb_spec (inp_lport p) 0) as [Hlp0|Hlp0].
    + destruct (in_pcbbind fuel i None st2 e1) as [[err1 st3]|] eqn:Hb; [|done]. cbn in Hc. simplify_eq.
      destruct (in_pcbbind_spec _ _ _ _ _ _ _ _ Hl2 Hp2i Hb) as [Hl3 [[_ ->]|(_ & x & la' & Hp3 & _ & _ & -> & _ & Hfree)]].
      * destruct (Hfin st2 (inp_lport p) Hl3) as [Hl4 Hp4].
        { by rewrite Hp2, Hp1. }
        split; [done|]. exists r, d. right. split; [done|]. exists a, (inp_lport p), dst. split; [|done].
        split_and!; [done|by rewrite any_zero|]. by left.
      * destruct (Hfin st3 x Hl3) as [Hl4 Hp4].
        { rewrite Hp3, Hp2, Hp1, insert_insert_eq. f_equal. destruct p; cbn in *. unfold set_laddr, set_route, set_lport. cbn. by rewrite any_zero, Hl0. }
        split; [done|]. exists r, d. right. split; [done|]. exists a, x, dst. split; [|done].
        split_and!; [done|by rewrite any_zero|]. right. split; [done|]. split; [apply Hfree|]. intros Hw j q Hq.
        assert (Hw' : bind_wild (set_route r d p) = true) by done. rewrite Hw' in Hfree. pose proof port_range as Hpr.
        pose proof (port_free_unused st2 x Hl2 ltac:(destruct Hfree; lia) Hfree) as Hun.
        destruct (decide (j = i)) as [->|Hj].
        -- simplify_eq. apply (Hun i _ Hp2i).
        -- apply (Hun j q). by rewrite Hp2, Hp1, lookup_insert_ne.
    + cbn in Hc. simplify_eq.
      destruct (Hfin st2 (inp_lport p) Hl2) as [Hl4 Hp4].
      { by rewrite Hp2, Hp1. }
      split; [done|]. exists r, d. right. split; [done|]. exists a, (inp_lport p), dst. split; [|done].
      split_and!; [done|by rewrite any_zero|]. by left.
  - cbn in Hc. simplify_eq. pose proof (upd_insert i (set_foreign dst (sin_port sin)) st2 _ Hp2i) as Hu. split.
    + apply rehash_linked; [|rewrite Hu, lookup_insert_eq; eauto]. by apply linked_upd.
    + exists r, d. right. split; [done|]. exists (inp_laddr p), (inp_lport p), dst. split.
      * split_and!; [done|by rewrite any_zero|]. by left.
      * rewrite rehash_pcbs, Hu, Hp2, Hp1, insert_insert_eq. done.
Qed.


(** ** Runs *)

Lemma disconnect_spec i st e p st' e' : linked st → pcbs st !! i = Some p → in_pcbdisconnect i st e = Some (st', e') →
  linked st' ∧ (pcbs st' = <[i := set_foreign INADDR_ANY 0 p]> (pcbs st) ∨ pcbs st' = delete i (pcbs st)).
Proof.
  intros Hl Hp Hd. unfold in_pcbdisconnect in Hd. rewrite Hp in Hd. cbn -[in_pcbdetach] in Hd.
  set (st1 := in_pcbrehash i (upd i (set_foreign INADDR_ANY 0) st)) in *.
  assert (Hp1 : pcbs st1 = <[i := set_foreign INADDR_ANY 0 p]> (pcbs st)).
  { unfold st1. rewrite rehash_pcbs. by apply upd_insert. }
  assert (Hl1 : linked st1).
  { apply rehash_linked; [by apply linked_upd|]. rewrite (upd_insert i _ _ p), lookup_insert_eq by done. eauto. }
  destruct (so_nofdref p); [|simplify_eq; split; [done|by left]].
  split; [by eapply detach_linked|]. right. unfold in_pcbdetach in Hd. rewrite Hp1, lookup_insert_eq in Hd. cbn in Hd. simplify_eq.
  change (delete i (<[i := set_foreign INADDR_ANY 0 p]> (pcbs st)) = delete i (pcbs st)). by rewrite delete_insert_eq.
Qed.

(** The addresses that [tcp_input] gives the block of an accepted connection
    before it is connected. *)
Definition accept_addr i (a l : Z) st : pcbinfo R := in_pcbrehash i (upd i (set_lport l) (upd i (set_laddr a) st)).

Lemma accept_spec i a l st p : linked st → pcbs st !! i = Some p →
  linked (accept_addr i a l st) ∧ pcbs (accept_addr i a l st) = <[i := set_lport l (set_laddr a p)]> (pcbs st).
Proof.
  intros Hl Hp. pose proof (upd_insert i (set_laddr a) st p Hp) as Hu1.
  assert (Hi1 : pcbs (upd i (set_laddr a) st) !! i = Some (set_laddr a p)) by by rewrite Hu1, lookup_insert_eq.
  pose proof (upd_insert i (set_lport l) _ _ Hi1) as Hu2. split.
  - apply rehash_linked; [by apply linked_but_upd, linked_upd|rewrite Hu2, lookup_insert_eq; eauto].
  - unfold accept_addr. rewrite rehash_pcbs, Hu2, Hu1. apply insert_insert_eq.
Qed.

Definition set_options (o : soopt → bool) (nofd : bool) (imo : option Z) p : inpcb R :=
  MkInp (inp_faddr p) (inp_fport p) (inp_laddr p) (inp_lport p) o (pr_connrequired p) nofd imo (ro_rt p) (ro_dst p).

Definition port_ok (x : Z) : Prop := 0 <= x < 65536.

(** The operations, with whatever interfaces and routes there are at the time.
    [step_local] is the protocols' own assignment to the local address of a
    block without foreign address, [step_accept] the assignment of [tcp_input]
    to the block of an accepted connection, [step_options] that of socket
    options. *)
Inductive pcb_step : pcbinfo R → pcbinfo R → Prop :=
  | step_alloc i opts cr st : pcbs st !! i = None → pcb_step st (in_pcballoc (Some i) opts cr st).2
  | step_bind fuel i nam st e err st' :
      match nam with Some sin => port_ok (sin_port sin) | None => True end →
      in_pcbbind fuel i nam st e = Some (err, st') → pcb_step st st'
  | step_connect fuel i sin st e err st' e' : port_ok (sin_port sin) → in_ifaddr e ≠ [] →
      in_pcbconnect fuel i sin st e = Some (err, st', e') → pcb_step st st'
  | step_disconnect i st e st' e' : in_pcbdisconnect i st e = Some (st', e') → pcb_step st st'
  | step_detach i st e st' e' : in_pcbdetach i st e = Some (st', e') → pcb_step st st'
  | step_lookup f fp l lp w st : pcb_step st (in_pcblookuphash st f fp l lp w).2
  | step_losing i st e st' e' : in_losing i st e = Some (st', e') → pcb_step st st'
  | step_rtchange i err st e st' e' : in_rtchange i err st e = Some (st', e') → pcb_step st st'
  | step_local i a p st : pcbs st !! i = Some p → inp_faddr p = INADDR_ANY → pcb_step st (upd i (set_laddr a) st)
  | step_accept i a l p st : pcbs st !! i = Some p → inp_faddr p = INADDR_ANY → port_ok l → pcb_step st (accept_addr i a l st)
  | step_options i o nofd imo st : pcb_step st (upd i (set_options o nofd imo) st).

Definition pcb_init (mask : nat) (port : Z) : pcbinfo R := MkInfo ∅ [] (replicate (S mask) []) mask port.

(** States reached, all of whose blocks satisfy [ok]. *)
Inductive reachable (ok : inpcb R → Prop) : pcbinfo R → Prop :=
  | reach_init mask port : reachable ok (pcb_init mask port)
  | reach_step st st' : reachable ok st → pcb_step st st' → (∀ i p, pcbs st' !! i = Some p → ok p) → reachable ok st'.

Record pcb_inv st : Prop := {
  pi_linked : linked st;
  pi_addrs : addrs_ok st;
  pi_ports i p : pcbs st !! i = Some p → port_ok (inp_lport p) ∧ port_ok (inp_fport p)
}.

(** No two connected blocks have the same four addresses. *)
Definition connections_unique st : Prop := ∀ i j p q, pcbs st !! i = Some p → pcbs st !! j = Some q →
  inp_faddr p ≠ INADDR_ANY → exact_match (inp_faddr p) (inp_fport p) (inp_laddr p) (inp_lport p) q = true → i = j.

Lemma init_inv mask port : pcb_inv (pcb_init mask port) ∧ connections_unique (pcb_init mask port).
Proof.
  split; [split|]; try done.
  - split; cbn; try done.
    + apply NoDup_nil_2.
    + intros i. rewrite lookup_empty. split; [by intros ?%elem_of_nil|by intros []].
    + by rewrite length_replicate.
    + intros k l Hk. change ([] :: replicate mask []) with (replicate (S mask) (@nil positive)) in Hk.
      apply lookup_replicate in Hk as [-> _]. apply NoDup_nil_2.
    + intros k l i Hk. change ([] :: replicate mask []) with (replicate (S mask) (@nil positive)) in Hk.
      apply lookup_replicate in Hk as [-> _]. rewrite lookup_empty. split; [by intros ?%elem_of_nil|by intros (? & ? & _)].
Qed.

(** A change of one block. *)
Lemma inv_insert i p' st st' : pcb_inv st → linked st' → pcbs st' = <[i := p']> (pcbs st) →
  (inp_faddr p' = INADDR_ANY → inp_fport p' = 0) → (inp_faddr p' ≠ INADDR_ANY → inp_laddr p' ≠ INADDR_ANY) →
  port_ok (inp_lport p') → port_ok (inp_fport p') → pcb_inv st'.
Proof.
  intros [_ Ha Hpt] Hl Hp H1 H2 H3 H4. split; [done| |].
  - intros j q Hq. rewrite Hp in Hq. apply lookup_insert_Some in Hq as [[<- <-]|[_ Hq]]; [done|by apply Ha in Hq].
  - intros j q Hq. rewrite Hp in Hq. apply lookup_insert_Some in Hq as [[<- <-]|[_ Hq]]; [done|by eapply Hpt].
Qed.

Lemma unique_insert i p' st st' : connections_unique st → pcbs st' = <[i := p']> (pcbs st) →
  (inp_faddr p' ≠ INADDR_ANY → ∀ j q, j ≠ i → pcbs st !! j = Some q →
    exact_match (inp_faddr p') (inp_fport p') (inp_laddr p') (inp_lport p') q = false) →
  connections_unique st'.
Proof.
  intros Hu Hp Hnew j k q r Hq Hr Hf Hm. rewrite Hp in Hq, Hr.
  apply lookup_insert_Some in Hq as [[<- <-]|[Hj Hq]]; apply lookup_insert_Some in Hr as [[<- <-]|[Hk Hr]].
  - done.
  - rewrite (Hnew Hf k r) in Hm by done. done.
  - exfalso. apply exact_match_eq in Hm as (H1 & H2 & H3 & H4).
    assert (exact_match (inp_faddr p') (inp_fport p') (inp_laddr p') (inp_lport p') q = true) as He by (apply exact_match_eq; by split_and!).
    rewrite (Hnew ltac:(congruence) j q) in He by done. done.
  - by eapply Hu.
Qed.

Lemma inv_same st st' : pcb_inv st → linked st' → pcbs st' = pcbs st → pcb_inv st'.
Proof. intros [_ Ha Hpt] Hl Hp. split; [done| |]; unfold addrs_ok; by rewrite Hp. Qed.

Lemma unique_same st st' : connections_unique st → pcbs st' = pcbs st → connections_unique st'.
Proof. intros Hu Hp. unfold connections_unique. by rewrite Hp. Qed.

(** A change that leaves the addresses of a block alone. *)
Definition same_addrs p p' : Prop :=
  inp_faddr p' = inp_faddr p ∧ inp_fport p' = inp_fport p ∧ inp_laddr p' = inp_laddr p ∧ inp_lport p' = inp_lport p.

Lemma same_addrs_ok i p p' st st' : pcb_inv st → pcbs st !! i = Some p → same_addrs p p' → linked st' →
  pcbs st' = <[i := p']> (pcbs st) → pcb_inv st' ∧ (connections_unique st → connections_unique st').
Proof.
  intros Hinv Hp (H1 & H2 & H3 & H4) Hl Hp'. pose proof Hinv as [_ Ha Hpt]. destruct (Ha i p Hp) as [Ha1 Ha2].
  destruct (Hpt i p Hp) as [Hp1 Hp2]. split.
  - apply (inv_insert i p' st); try done; rewrite ?H1, ?H2, ?H3, ?H4; done.
  - intros Hu. apply (unique_insert i p' st st' Hu Hp'). rewrite H1, H2, H3, H4. intros Hf j q Hj Hq.
    destruct (exact_match _ _ _ _ q) eqn:Hm; [|done]. by destruct Hj; rewrite (Hu i j p q Hp Hq Hf Hm).
Qed.

Lemma linked_hash_upd i f st p : linked st → pcbs st !! i = Some p → same_addrs p (f p) → linked (upd i f st).
Proof.
  intros Hl Hp (H1 & H2 & H3 & H4). apply linked_same_hash; [done|]. intros q m Hq. simplify_eq. unfold hash_of. by rewrite H1, H2, H4.
Qed.

Lemma pcb_step_inv st st' : pcb_inv st → pcb_step st st' → pcb_inv st'.
Proof.
  intros Hinv Hs. pose proof Hinv as [Hl Ha Hpt]. destruct Hs as [i opts cr st Hi|fuel i nam st e err st' Hn Hb|fuel i sin st e err st' e' Hsp Hif Hc|i st e st' e' Hd|i st e st' e' Hd|f fp l lp w st|i st e st' e' Hd|i err st e st' e' Hd|i a p st Hp Hf|i a l p st Hp Hf Hlo|i o nofd imo st].
  - pose proof (alloc_linked i opts cr st Hl Hi) as Hl'. cbn [snd in_pcballoc] in *.
    eapply (inv_insert i); [exact Hinv|exact Hl'| | | | |].
    + unfold in_pcbinshash. cbn. rewrite lookup_insert_eq. reflexivity.
    + done.
    + cbn. by rewrite any_zero.
    + done.
    + done.
  - destruct (pcbs st !! i) as [p|] eqn:Hp; [|by unfold in_pcbbind in Hb; rewrite Hp in Hb].
    destruct (in_pcbbind_spec _ _ _ _ _ _ _ _ Hl Hp Hb) as [Hl' [[_ ->]|(_ & x & la & Hp' & _ & Hla & Hbt)]]; [done|].
    destruct (Ha i p Hp) as [Ha1 Ha2]. destruct (Hpt i p Hp) as [_ Hfp]. pose proof port_range as Hpr.
    apply (inv_insert i _ st st' Hinv Hl' Hp'); cbn; try done.
    + intros Hne. by apply Ha2 in Hne.
    + unfold port_ok in *. destruct nam as [sin|]; [destruct Hbt as [_ [->|?]]; [done|lia]|]. destruct Hbt as (_ & _ & Hr & _). lia.
  - destruct (pcbs st !! i) as [p|] eqn:Hp.
    2: { unfold in_pcbconnect, in_pcbladdr in Hc. by rewrite Hp in Hc. }
    destruct (Hpt i p Hp) as [Hlp Hfp]. pose proof port_range as Hpr.
    destruct (in_pcbconnect_spec _ _ _ _ _ _ _ _ _ Hl Hp Hsp Hlp Hif Hc) as (Hl' & r & d & [[_ Hp']|(_ & la & lp & dst & (Hd & Hla & Hcase) & Hp')]).
    + by apply (same_addrs_ok i p (set_route r d p) st st').
    + apply (inv_insert i _ st st' Hinv Hl' Hp'); cbn; try done. unfold port_ok in *. destruct Hcase as [[-> _]|(_ & ? & _)]; [done|lia].
  - destruct (pcbs st !! i) as [p|] eqn:Hp; [|by unfold in_pcbdisconnect in Hd; rewrite Hp in Hd].
    destruct (Hpt i p Hp) as [Hlp _].
    destruct (disconnect_spec _ _ _ _ _ _ Hl Hp Hd) as [Hl' [Hp'|Hp']].
    + by apply (inv_insert i _ st st' Hinv Hl' Hp').
    + split; [done| |]; intros j q; rewrite Hp', lookup_delete_Some; intros [_ Hq]; [by apply Ha in Hq|by apply Hpt in Hq].
  - pose proof (detach_linked i st e st' e' Hl Hd) as Hl'. unfold in_pcbdetach in Hd.
    destruct (pcbs st !! i); [|done]. cbn in Hd. simplify_eq. cbn in Hl'.
    split; [exact Hl'| |]; intros j q; cbn; rewrite lookup_delete_Some; intros [_ Hq]; [by apply Ha in Hq|by apply Hpt in Hq].
  - pose proof (lookuphash_spec st f fp l lp w Hl) as Hh. destruct (in_pcblookuphash _ _ _ _ _ _) as [r st'].
    destruct Hh as (Hl' & Hp' & _). by apply (inv_same st).
  - unfold in_losing in Hd. destruct (pcbs st !! i) as [p|] eqn:Hp; [|done]. cbn in Hd. destruct (ro_rt p); simplify_eq; [|done].
    apply (same_addrs_ok i p (set_route None (ro_dst p) p) st); [done|done|done|by eapply linked_hash_upd|by apply upd_insert].
  - unfold in_rtchange in Hd. destruct (pcbs st !! i) as [p|] eqn:Hp; [|done]. cbn in Hd. destruct (ro_rt p); simplify_eq; [|done].
    apply (same_addrs_ok i p (set_route None (ro_dst p) p) st); [done|done|done|by eapply linked_hash_upd|by apply upd_insert].
  - destruct (Ha i p Hp) as [Ha1 _]. destruct (Hpt i p Hp) as [Hlp Hfp].
    apply (inv_insert i (set_laddr a p) st); cbn; try done; [|by apply upd_insert].
    apply linked_same_hash; [done|]. intros q m Hq. by simplify_eq.
  - destruct (Ha i p Hp) as [Ha1 _]. destruct (Hpt i p Hp) as [_ Hfp]. destruct (accept_spec i a l st p Hl Hp) as [Hl' Hp'].
    by apply (inv_insert i (set_lport l (set_laddr a p)) st); cbn.
  - destruct (pcbs st !! i) as [p|] eqn:Hp.
    + apply (same_addrs_ok i p (set_options o nofd imo p) st); [done|done|done|by eapply linked_hash_upd|by apply upd_insert].
    + apply (inv_same st); [done| |].
      * apply linked_same_hash; [done|]. intros q m Hq. congruence.
      * cbn. apply map_eq. intros j. destruct (decide (i = j)) as [<-|]; [by rewrite lookup_alter_eq, Hp|by rewrite lookup_alter_ne].
Qed.


Lemma unique_delete i st st' : connections_unique st → pcbs st' = delete i (pcbs st) → connections_unique st'.
Proof.
  intros Hu Hp j k q r Hq Hr. rewrite Hp in Hq, Hr. apply lookup_delete_Some in Hq as [_ Hq], Hr as [_ Hr]. by eapply Hu.
Qed.

(** The socket does not ask to share its port.  One that listens has a port:
    [solisten] sets [SO_ACCEPTCONN] after [PRU_LISTEN] has bound one. *)
Definition no_share p : Prop :=
  so_options p SO_REUSEADDR = false ∧ so_options p SO_REUSEPORT = false ∧
  (so_options p SO_ACCEPTCONN = true → inp_lport p ≠ 0).

Lemma no_share_wild p : no_share p → inp_lport p = 0 → bind_wild p = true.
Proof.
  intros (Ha & Hb & Hc) Hlp. unfold bind_wild. rewrite Ha, Hb. destruct (so_options p SO_ACCEPTCONN); [by destruct Hc|].
  by rewrite orb_true_r.
Qed.

Lemma pcb_step_unique st st' : pcb_inv st → (∀ i p, pcbs st !! i = Some p → no_share p) →
  connections_unique st → pcb_step st st' → connections_unique st'.
Proof.
  intros Hinv Hw Hu Hs. pose proof (pcb_step_inv st st' Hinv Hs) as Hinv'. pose proof Hinv as [Hl Ha Hpt].
  destruct Hs as [i opts cr st Hi|fuel i nam st e err st' Hn Hb|fuel i sin st e err st' e' Hsp Hif Hc|i st e st' e' Hd|i st e st' e' Hd|f fp l lp w st|i st e st' e' Hd|i err st e st' e' Hd|i a p st Hp Hf|i a l p st Hp Hf Hlo|i o nofd imo st].
  - eapply (unique_insert i); [exact Hu| |].
    + cbn [snd in_pcballoc]. unfold in_pcbinshash. cbn. rewrite lookup_insert_eq. reflexivity.
    + cbn. rewrite any_zero. done.
  - destruct (pcbs st !! i) as [p|] eqn:Hp; [|by unfold in_pcbbind in Hb; rewrite Hp in Hb].
    destruct (in_pcbbind_spec _ _ _ _ _ _ _ _ Hl Hp Hb) as [Hl' [[_ ->]|(_ & x & la & Hp' & _ & Hla & _)]]; [done|].
    destruct (Ha i p Hp) as [_ Ha2]. apply (unique_insert i _ st st' Hu Hp'). cbn. intros Hne. by apply Ha2 in Hne.
  - destruct (pcbs st !! i) as [p|] eqn:Hp.
    2: { unfold in_pcbconnect, in_pcbladdr in Hc. by rewrite Hp in Hc. }
    destruct (Hpt i p Hp) as [Hlp Hfp].
    destruct (in_pcbconnect_spec _ _ _ _ _ _ _ _ _ Hl Hp Hsp Hlp Hif Hc) as (Hl' & r & d & [[_ Hp']|(_ & la & lp & dst & (Hd & Hla & Hcase) & Hp')]).
    + by apply (same_addrs_ok i p (set_route r d p) st st').
    + apply (unique_insert i _ st st' Hu Hp'). cbn. intros _ j q Hj Hq. destruct Hcase as [[_ Hno]|(Hl0 & _ & Hno)]; [by eapply Hno|].
      destruct (exact_match dst (sin_port sin) la lp q) eqn:Hm; [|done]. apply exact_match_eq in Hm as (_ & _ & Hm & _).
      by destruct (Hno (no_share_wild p (Hw i p Hp) Hl0) j q Hq).
  - destruct (pcbs st !! i) as [p|] eqn:Hp; [|by unfold in_pcbdisconnect in Hd; rewrite Hp in Hd].
    destruct (disconnect_spec _ _ _ _ _ _ Hl Hp Hd) as [_ [Hp'|Hp']]; [|by eapply unique_delete].
    apply (unique_insert i _ st st' Hu Hp'). by cbn.
  - unfold in_pcbdetach in Hd. destruct (pcbs st !! i); [|done]. cbn in Hd. simplify_eq. by apply (unique_delete i st).
  - pose proof (lookuphash_spec st f fp l lp w Hl) as Hh. destruct (in_pcblookuphash _ _ _ _ _ _) as [r st'].
    destruct Hh as (_ & Hp' & _). by apply (unique_same st).
  - unfold in_losing in Hd. destruct (pcbs st !! i) as [p|] eqn:Hp; [|done]. cbn in Hd. destruct (ro_rt p); simplify_eq; [|done].
    apply (same_addrs_ok i p (set_route None (ro_dst p) p) st); [done|done|done|by apply Hinv'|by apply upd_insert|done].
  - unfold in_rtchange in Hd. destruct (pcbs st !! i) as [p|] eqn:Hp; [|done]. cbn in Hd. destruct (ro_rt p); simplify_eq; [|done].
    apply (same_addrs_ok i p (set_route None (ro_dst p) p) st); [done|done|done|by apply Hinv'|by apply upd_insert|done].
  - apply (unique_insert i (set_laddr a p) st _ Hu (upd_insert i _ st p Hp)). by cbn.
  - apply (unique_insert i (set_lport l (set_laddr a p)) st _ Hu); [apply accept_spec; done|]. by cbn.
  - destruct (pcbs st !! i) as [p|] eqn:Hp.
    + apply (same_addrs_ok i p (set_options o nofd imo p) st); [done|done|done|by apply Hinv'|by apply upd_insert|done].
    + apply (unique_same st); [done|]. cbn. apply map_eq. intros j.
      destruct (decide (i = j)) as [<-|]; [by rewrite lookup_alter_eq, Hp|by rewrite lookup_alter_ne].
Qed.

Lemma reachable_inv ok st : reachable ok st → pcb_inv st ∧ ∀ i p, pcbs st !! i = Some p → ok p.
Proof.
  induction 1 as [mask port|st st' _ [IH _] Hs Hok]; [|split; [by eapply pcb_step_inv|done]].
  split; [apply init_inv|]. intros i p. cbn. by rewrite lookup_empty.
Qed.

Lemma reachable_unique st : reachable no_share st → connections_unique st.
Proof.
  induction 1 as [mask port|st st' Hr IH Hs Hok]; [apply init_inv|].
  destruct (reachable_inv _ st Hr) as [Hinv Hw]. by eapply pcb_step_unique.
Qed.

(** ** Theorems *)

(** C10: The search by hash chains implements the search of the list: in every
    reachable state, for a packet with a foreign and a local address, both find
    a block or neither does, and both find one that matches with the fewest
    wildcards. *)
Theorem pcb_lookup_refines st f fp l lp : reachable (λ _, True) st → f ≠ INADDR_ANY → l ≠ INADDR_ANY →
  match (in_pcblookuphash st f fp l lp true).1, in_pcblookup st f fp l lp true with
  | Some i, Some j => ∃ w, matches st f (u16 fp) l (u16 lp) i w ∧ matches st f (u16 fp) l (u16 lp) j w ∧
      ∀ k v, matches st f (u16 fp) l (u16 lp) k v → (w <= v)%nat
  | None, None => ∀ k v, ¬ matches st f (u16 fp) l (u16 lp) k v
  | _, _ => False
  end.
Proof.
  intros Hr Hf Hl. destruct (reachable_inv _ st Hr) as [[Hlk Ha _] _].
  pose proof (lookups_agree st f fp l lp Hlk Ha Hf Hl) as Hag. pose proof (in_pcblookup_spec st f fp l lp true Hlk) as Hs.
  destruct (in_pcblookuphash st f fp l lp true).1 as [i|], (in_pcblookup st f fp l lp true) as [j|]; try done.
  - destruct Hag as (w & Hi & Hj). exists w. split; [done|]. split; [done|]. destruct Hs as (v & Hj' & _ & Hmin).
    assert (w = v) as ->; [|done]. destruct Hj as (p & Hp & _ & Hw), Hj' as (q & Hq & _ & Hv). congruence.
  - intros k v Hk. by destruct (Hs k v Hk).
Qed.

(** C9: While no socket has [SO_REUSEADDR] or [SO_REUSEPORT], and those that
    listen have a port, no two connected blocks ever have the same addresses
    and ports, so that a packet of a connection belongs to one block: the exact
    search finds it, after any binding, listening, connecting, accepting,
    disconnecting, loss of route and search. *)
Theorem connections_distinct st i p : reachable no_share st → pcbs st !! i = Some p → inp_faddr p ≠ INADDR_ANY →
  (∀ j q, pcbs st !! j = Some q → exact_match (inp_faddr p) (inp_fport p) (inp_laddr p) (inp_lport p) q = true → j = i) ∧
  (in_pcblookuphash st (inp_faddr p) (inp_fport p) (inp_laddr p) (inp_lport p) true).1 = Some i.
Proof.
  intros Hr Hp Hf. destruct (reachable_inv _ st Hr) as [[Hl _ Hpt] _]. pose proof (reachable_unique st Hr) as Hu.
  destruct (Hpt i p Hp) as [Hlp Hfp]. split; [intros j q Hq Hm; symmetry; by eapply Hu|].
  pose proof (lookuphash_spec st (inp_faddr p) (inp_fport p) (inp_laddr p) (inp_lport p) true Hl) as Hh.
  rewrite !u16_id in Hh by done. destruct (in_pcblookuphash _ _ _ _ _ _) as [r st']. destruct Hh as (_ & _ & _ & _ & Hh). cbn.
  assert (Hself : exact_match (inp_faddr p) (inp_fport p) (inp_laddr p) (inp_lport p) p = true) by by apply exact_match_eq.
  destruct r as [j|]; [|destruct Hh as [Hno _]; by rewrite (Hno i p Hp) in Hself].
  destruct Hh as (q & Hq & [Hm|(_ & Hno & _)]); [|by rewrite (Hno i p Hp) in Hself]. f_equal. symmetry. by eapply Hu.
Qed.

(** C40: [in_pcbbind] without a port returns exactly when some port of the range is
    free for the address, after at most a round over the range; it then gives
    such a port. *)
Theorem bind_any_port fuel i st e p : linked st → pcbs st !! i = Some p → in_ifaddr e ≠ [] → inp_lport p = 0 →
  inp_laddr p = INADDR_ANY → (port_fuel <= fuel)%nat →
  (is_Some (in_pcbbind fuel i None st e) ↔ ∃ y, port_free st INADDR_ANY (bind_wild p) y) ∧
  ∀ err st', in_pcbbind fuel i None st e = Some (err, st') →
    err = 0 ∧ ∃ x, port_free st INADDR_ANY (bind_wild p) x ∧ pcbs st' = <[i := set_lport x p]> (pcbs st).
Proof.
  intros Hl Hp Hif Hlp Hla Hfu. split.
  - unfold in_pcbbind. rewrite Hp. cbn -[bind_port]. rewrite bool_decide_eq_false_2 by done. rewrite Hlp, Hla, !Z.eqb_refl. cbn -[bind_port].
    unfold bind_port. change (0 =? 0) with true. cbv iota. rewrite (port_loop_total fuel INADDR_ANY (bind_wild p) st Hfu).
    destruct (port_loop fuel INADDR_ANY (bind_wild p) st); cbn; split; intros []; eauto; done.
  - intros err st' Hb. destruct (in_pcbbind_spec _ _ _ _ _ _ _ _ Hl Hp Hb) as [_ [[Hne ->]|(-> & x & la & Hp' & _ & _ & -> & _ & Hfr)]].
    + exfalso. unfold in_pcbbind in Hb. rewrite Hp in Hb. cbn -[bind_port] in Hb. rewrite bool_decide_eq_false_2 in Hb by done.
      rewrite Hlp, Hla, !Z.eqb_refl in Hb. cbn -[bind_port] in Hb.
      by apply (bind_port_spec _ _ _ _ _ _ _ _ _ (linked_linked_but i st Hl) Hp) in Hb as [-> _].
    + split; [done|]. exists x. split; [done|]. rewrite Hp'. f_equal. destruct p; cbn in *. unfold set_lport, set_laddr. cbn. by rewrite Hla.
Qed.

End Linked.

(** ** A demonstration

    Two ports to give, four chains, one interface with the address 10. *)

Module Demo.

#[local] Instance demo_defs : InpDefs := {|
  INADDR_ANY := 0; INADDR_BROADCAST := 4294967295; IN_MULTICAST _ := false;
  IPPORT_RESERVED := 1024; IPPORT_USERRESERVED := 1025;
  INP_PCBHASH f l p m := (Z.to_nat (f + l + p) mod S m)%nat;
  PRC_NCMDS := 21; PRC_HOSTDEAD := 6; PRC_IS_REDIRECT x := (14 <=? x) && (x <=? 17);
  ENOBUFS := 55; EADDRNOTAVAIL := 49; EINVAL := 22; EADDRINUSE := 48; EAFNOSUPPORT := 47;
  EMSGSIZE := 40; EHOSTDOWN := 64; EHOSTUNREACH := 65; ECONNREFUSED := 61; ENOPROTOOPT := 42 |}.

#[local] Instance demo_laws : InpDefsLaws.
Proof.
  split; cbn.
  - done.
  - intros f l p m. pose proof (Nat.mod_upper_bound (Z.to_nat (f + l + p)) (S m)). lia.
  - lia.
  - repeat constructor; lia.
Qed.

Definition net0 : ifaddr := MkIa 10 1 true 255.

#[local] Instance demo_env : PcbEnv unit unit := {|
  in_ifaddr _ := [net0]; ifa_ifwithaddr a _ := a =? 10; ifa_ifwithdstaddr _ _ := None;
  ifa_ifwithnet _ _ := Some net0; rtalloc _ e := (None, e); rtfree _ e := e; rt_no_ifp _ := false;
  rt_loopback _ := false; rt_ifa _ := None; rt_losing _ e := e; sofree _ e := e |}.

#[local] Instance demo_env_laws : PcbEnvLaws unit unit.
Proof.
  split; cbn.
  - intros _ ia [->|?%elem_of_nil]%elem_of_cons; [|done]. done.
  - done.
  - by intros _ _ ia [= <-].
  - done.
Qed.

Definition opts (reuse : bool) (o : soopt) : bool := match o with SO_REUSEADDR => reuse | _ => false end.

Definition alloc (i : positive) (reuse : bool) (st : pcbinfo unit) : pcbinfo unit := (in_pcballoc (Some i) (opts reuse) false st).2.
Definition bind (i : positive) (a port : Z) (st : pcbinfo unit) : pcbinfo unit :=
  default st (snd <$> in_pcbbind 3 i (Some (MkSin true true port a)) st tt).
Definition connect (i : positive) (a port : Z) (st : pcbinfo unit) : pcbinfo unit :=
  default st ((λ x : Z * pcbinfo unit * unit, x.1.2) <$> in_pcbconnect 3 i (MkSin true true port a) st tt).

(** A server on port 53 and a client of port 80 of host 77. *)
Definition st1 : pcbinfo unit := alloc 1 false (pcb_init 3 0).
Definition st2 : pcbinfo unit := bind 1 0 53 st1.
Definition st3 : pcbinfo unit := alloc 2 false st2.
Definition st4 : pcbinfo unit := connect 2 77 80 st3.

Definition addresses (st : pcbinfo unit) (i : positive) : option (Z * Z * Z * Z) :=
  (λ p, (inp_faddr p, inp_fport p, inp_laddr p, inp_lport p)) <$> pcbs st !! i.

Example st4_addresses : (addresses st4 1, addresses st4 2) = (Some (0, 0, 0, 53), Some (77, 80, 10, 1024)).
Proof. reflexivity. Qed.

(** With [SO_REUSEADDR] the port that an unbound block is given may be the one
    of a connected block: the third connection to the same place has the
    addresses and ports of the first. *)
Example reuse_duplicates :
  let st := connect 3 77 80 (alloc 3 true (connect 2 77 80 (alloc 2 true (connect 1 77 80 (alloc 1 true (pcb_init 3 0)))))) in
  addresses st 1 = Some (77, 80, 10, 1024) ∧ addresses st 3 = Some (77, 80, 10, 1024).
Proof. vm_compute. split; reflexivity. Qed.

(** The check of the command lets one value too many through. *)
Example notify_behind_map (st : pcbinfo unit) :
  in_pcbnotify true 77 0 0 0 21 (Some in_rtchange) st tt = None.
Proof. reflexivity. Qed.

(** A server that listens on port 80, and two connections that it accepts from
    port 99 of hosts 77 and 78. *)
Definition listening (st : pcbinfo unit) : pcbinfo unit :=
  upd 1 (set_options (λ o, match o with SO_ACCEPTCONN => true | _ => false end) false None)
    (bind 1 0 80 (in_pcballoc (Some 1%positive) (opts false) true st).2).
Definition accept (i : positive) (host : Z) (st : pcbinfo unit) : pcbinfo unit :=
  connect i host 99 (accept_addr i 10 80 (in_pcballoc (Some i) (opts false) true st).2).
Definition st5 : pcbinfo unit := listening (pcb_init 3 0).
Definition st6 : pcbinfo unit := accept 2 77 st5.
Definition st7 : pcbinfo unit := accept 3 78 st6.

Example st7_addresses : (addresses st7 1, addresses st7 2, addresses st7 3) =
  (Some (0, 0, 0, 80), Some (77, 99, 10, 80), Some (78, 99, 10, 80)).
Proof. reflexivity. Qed.

Definition plain (x : positive * inpcb unit) : Prop := so_options x.2 = opts false ∧ pr_connrequired x.2 = false.

Lemma plain_all (ok : inpcb unit → Prop) st : (∀ p : inpcb unit, so_options p = opts false → pr_connrequired p = false → ok p) →
  Forall plain (map_to_list (pcbs st)) → ∀ i p, pcbs st !! i = Some p → ok p.
Proof.
  intros Hok Hf i p Hp. rewrite list.Forall_forall in Hf. destruct (Hf (i, p)) as [? ?]; [by apply elem_of_map_to_list|]. by apply Hok.
Qed.

Ltac plain_list := match goal with |- Forall _ ?l => let l' := eval vm_compute in l in change l with l' end;
  repeat (constructor; [split; reflexivity|]); constructor.

Lemma connect_step i a port st : (λ x : Z * pcbinfo unit * unit, x.1.1) <$> in_pcbconnect 3 i (MkSin true true port a) st tt = Some 0 →
  in_pcbconnect 3 i (MkSin true true port a) st tt = Some (0, connect i a port st, tt).
Proof. unfold connect. destruct (in_pcbconnect _ _ _ _ _) as [[[err st'] []]|]; [|done]. by intros [= ->]. Qed.

Lemma reach4 ok : (∀ p : inpcb unit, so_options p = opts false → pr_connrequired p = false → ok p) → reachable ok st4.
Proof.
  intros Hok.
  apply (reach_step ok st3); [|apply (step_connect 3 2 (MkSin true true 80 77) _ tt 0 _ tt); [split; done|done|by apply connect_step]|
    apply (plain_all ok st4 Hok); plain_list].
  apply (reach_step ok st2); [|by apply step_alloc|apply (plain_all ok st3 Hok); plain_list].
  apply (reach_step ok st1); [|apply (step_bind 3 1 (Some (MkSin true true 53 0)) _ tt 0); [split; done|reflexivity]|
    apply (plain_all ok st2 Hok); plain_list].
  apply (reach_step ok (pcb_init 3 0)); [apply reach_init|by apply step_alloc|apply (plain_all ok st1 Hok); plain_list].
Qed.

Lemma pcb_lookup_refines_witness :
  match (in_pcblookuphash st4 99 1234 10 53 true).1, in_pcblookup st4 99 1234 10 53 true with
  | Some i, Some j => ∃ w, matches st4 99 (u16 1234) 10 (u16 53) i w ∧ matches st4 99 (u16 1234) 10 (u16 53) j w ∧
      ∀ k v, matches st4 99 (u16 1234) 10 (u16 53) k v → (w <= v)%nat
  | None, None => ∀ k v, ¬ matches st4 99 (u16 1234) 10 (u16 53) k v
  | _, _ => False
  end.
Proof.
  apply (pcb_lookup_refines st4 99 1234 10 53).
  - by apply reach4.
  - discriminate.
  - discriminate.
Defined.

Lemma all_no_share (st : pcbinfo unit) : Forall (λ x, no_share x.2) (map_to_list (pcbs st)) →
  ∀ i p, pcbs st !! i = Some p → no_share p.
Proof. intros Hf i p Hp. rewrite list.Forall_forall in Hf. apply (Hf (i, p)). by apply elem_of_map_to_list. Qed.

Ltac no_share_list := apply all_no_share;
  match goal with |- Forall _ ?l => let l' := eval vm_compute in l in change l with l' end;
  repeat (constructor; [split; [reflexivity|split; [reflexivity|discriminate]]|]); constructor.

Lemma reach_listening : reachable no_share st5.
Proof.
  set (sa := (in_pcballoc (Some 1%positive) (opts false) true (pcb_init 3 0)).2 : pcbinfo unit).
  apply (reach_step _ (bind 1 0 80 sa)); [|apply step_options|no_share_list].
  apply (reach_step _ sa); [|apply (step_bind 3 1 (Some (MkSin true true 80 0)) _ tt 0); [split; done|reflexivity]|no_share_list].
  apply (reach_step _ (pcb_init 3 0)); [apply reach_init|by apply step_alloc|no_share_list].
Qed.

Lemma reach_accept i host (st : pcbinfo unit) : reachable no_share st → pcbs st !! i = None →
  (λ x : Z * pcbinfo unit * unit, x.1.1) <$> in_pcbconnect 3 i (MkSin true true 99 host)
    (accept_addr i 10 80 (in_pcballoc (Some i) (opts false) true st).2) tt = Some 0 →
  (∀ j p, pcbs (accept i host st) !! j = Some p → no_share p) → reachable no_share (accept i host st).
Proof.
  intros Hr Hi Hc Hall. destruct (reachable_inv _ st Hr) as [_ Hok].
  set (st' := (in_pcballoc (Some i) (opts false) true st).2) in *. set (p := MkInp 0 0 0 0 (opts false) true false None None 0 : inpcb unit).
  assert (Hp' : pcbs st' = <[i := p]> (pcbs st)).
  { unfold st', in_pcballoc, in_pcbinshash. cbn. by rewrite lookup_insert_eq. }
  assert (Hr' : reachable no_share st').
  { eapply reach_step; [exact Hr|by apply step_alloc|]. intros j q Hq. fold st' in Hq. rewrite Hp' in Hq.
    apply lookup_insert_Some in Hq as [[<- <-]|[_ Hq]]; [by split_and!|by apply Hok in Hq]. }
  assert (Hpi : pcbs st' !! i = Some p) by by rewrite Hp', lookup_insert_eq.
  eapply reach_step; [|apply (step_connect 3 i (MkSin true true 99 host) _ tt 0 _ tt); [split; done|done|by apply connect_step]|exact Hall].
  eapply reach_step; [exact Hr'|by apply (step_accept i 10 80 p)|]. intros j q Hq.
  destruct (reachable_inv _ st' Hr') as [[Hl _ _] Hok']. fold st' in Hq. rewrite (proj2 (accept_spec i 10 80 st' p Hl Hpi)) in Hq.
  apply lookup_insert_Some in Hq as [[<- <-]|[_ Hq]]; [by split_and!|by apply Hok' in Hq].
Qed.

Lemma reach7 : reachable no_share st7.
Proof.
  apply reach_accept; [apply reach_accept; [exact reach_listening|reflexivity|reflexivity|no_share_list]|reflexivity|reflexivity|no_share_list].
Qed.

Lemma connections_distinct_witness :
  ∃ p, pcbs st7 !! 3%positive = Some p ∧
  (∀ j q, pcbs st7 !! j = Some q → exact_match (inp_faddr p) (inp_fport p) (inp_laddr p) (inp_lport p) q = true → j = 3%positive) ∧
  (in_pcblookuphash st7 (inp_faddr p) (inp_fport p) (inp_laddr p) (inp_lport p) true).1 = Some 3%positive.
Proof.
  assert (Hp : pcbs st7 !! 3%positive = Some (MkInp 78 99 10 80 (opts false) true false None None 0)) by (vm_compute; reflexivity).
  exists (MkInp 78 99 10 80 (opts false) true false None None 0). split; [exact Hp|]. apply (connections_distinct st7 3).
  - exact reach7.
  - exact Hp.
  - discriminate.
Defined.

Lemma bind_any_port_witness :
  (is_Some (in_pcbbind 3 2 None st3 tt) ↔ ∃ y, port_free st3 INADDR_ANY true y) ∧
  ∀ err st', in_pcbbind 3 2 None st3 tt = Some (err, st') →
    err = 0 ∧ ∃ x, port_free st3 INADDR_ANY true x ∧ pcbs st' = <[2%positive := set_lport x (MkInp 0 0 0 0 (opts false) false false None None 0)]> (pcbs st3).
Proof.
  apply (bind_any_port 3 2 st3 tt (MkInp 0 0 0 0 (opts false) false false None None 0)).
  - destruct (reachable_inv (λ _, True) st3) as [[Hl _ _] _]; [|exact Hl].
    apply (reach_step _ st2); [|by apply step_alloc|done].
    apply (reach_step _ st1); [|apply (step_bind 3 1 (Some (MkSin true true 53 0)) _ tt 0); [split; done|reflexivity]|done].
    apply (reach_step _ (pcb_init 3 0)); [apply reach_init|by apply step_alloc|done].
  - reflexivity.
  - discriminate.
  - reflexivity.
  - reflexivity.
  - unfold port_fuel. cbn. lia.
Defined.

End Demo.
