(* ===== verification/TcpDefs.v ===== *)
(** * TCP: control blocks, sockets and what the sources take from headers

    The TCP sources ([tcp_input.c], [tcp_output.c], [tcp_timer.c],
    [tcp_subr.c], [tcp_usrreq.c]) share one control block, [tcpcb].  Its
    integer members are kept in a map from names to values, its flags in a map
    to booleans; [store] is the conversion to the declared type of a member,
    since the declarations ([tcp_var.h]) are not part of the sources.  The
    comparisons of sequence numbers ([tcp_seq.h]), the states and constants
    ([tcp_fsm.h], [tcp_timer.h], [tcp.h]) are the class [TcpDefs], socket
    buffers the class [SoBuf].

    A connection is a control block, its socket, the environment (mbufs and
    IP) and the log of what was sent and signalled, the newest first.  A
    segment's sequence number, acknowledgment and window are in host order. *)
From Stdlib Require Import ZArith Lia Bool.
From stdpp Require Import base tactics list numbers option.
From S2P Require Import Prelude.

Local Open Scope Z_scope.

(** ** Names *)

Inductive tcp_state := TCPS_CLOSED | TCPS_LISTEN | TCPS_SYN_SENT | TCPS_SYN_RECEIVED
  | TCPS_ESTABLISHED | TCPS_CLOSE_WAIT | TCPS_FIN_WAIT_1 | TCPS_CLOSING | TCPS_LAST_ACK
  | TCPS_FIN_WAIT_2 | TCPS_TIME_WAIT.

#[export] Instance tcp_state_eq_dec : EqDecision tcp_state.
Proof. solve_decision. Defined.

(** The integer members of [tcpcb]; the timers are its array [t_timer]. *)
Inductive field :=
  | TCPT_REXMT | TCPT_PERSIST | TCPT_KEEP | TCPT_2MSL
  | t_rxtshift | t_rxtcur | t_dupacks | t_maxseg | t_force
  | snd_una | snd_nxt | snd_up | snd_wl1 | snd_wl2 | iss | snd_wnd
  | rcv_wnd | rcv_nxt | rcv_up | irs | rcv_adv | snd_max | snd_cwnd | snd_ssthresh
  | t_idle | t_rtt | t_rtseq | t_srtt | t_rttvar | t_rttmin | max_sndwnd
  | t_iobc | t_softerror | snd_scale | rcv_scale | request_r_scale | requested_s_scale
  | ts_recent | ts_recent_age | last_ack_sent.

Inductive tflag := TF_ACKNOW | TF_DELACK | TF_NODELAY | TF_NOOPT | TF_SENTFIN | TF_REQ_SCALE
  | TF_RCVD_SCALE | TF_REQ_TSTMP | TF_RCVD_TSTMP | TCPOOB_HAVEDATA | TCPOOB_HADDATA
  | T_TEMPLATE.    (** a template is attached *)

Inductive soflag := SS_ISCONNECTING | SS_ISCONNECTED | SS_ISDISCONNECTING | SS_ISCONFIRMING
  | SS_CANTRCVMORE | SS_CANTSENDMORE | SS_RCVATMARK | SS_NOFDREF
  | SO_KEEPALIVE | SO_OOBINLINE | SO_LINGER | SO_DONTROUTE.

Definition field_no (f : field) : nat :=
  match f with
  | TCPT_REXMT => 0 | TCPT_PERSIST => 1 | TCPT_KEEP => 2 | TCPT_2MSL => 3
  | t_rxtshift => 4 | t_rxtcur => 5 | t_dupacks => 6 | t_maxseg => 7 | t_force => 8
  | snd_una => 9 | snd_nxt => 10 | snd_up => 11 | snd_wl1 => 12 | snd_wl2 => 13 | iss => 14
  | snd_wnd => 15 | rcv_wnd => 16 | rcv_nxt => 17 | rcv_up => 18 | irs => 19 | rcv_adv => 20
  | snd_max => 21 | snd_cwnd => 22 | snd_ssthresh => 23 | t_idle => 24 | t_rtt => 25
  | t_rtseq => 26 | t_srtt => 27 | t_rttvar => 28 | t_rttmin => 29 | max_sndwnd => 30
  | t_iobc => 31 | t_softerror => 32 | snd_scale => 33 | rcv_scale => 34
  | request_r_scale => 35 | requested_s_scale => 36 | ts_recent => 37 | ts_recent_age => 38
  | last_ack_sent => 39
  end.

Definition tflag_no (f : tflag) : nat :=
  match f with
  | TF_ACKNOW => 0 | TF_DELACK => 1 | TF_NODELAY => 2 | TF_NOOPT => 3 | TF_SENTFIN => 4
  | TF_REQ_SCALE => 5 | TF_RCVD_SCALE => 6 | TF_REQ_TSTMP => 7 | TF_RCVD_TSTMP => 8
  | TCPOOB_HAVEDATA => 9 | TCPOOB_HADDATA => 10 | T_TEMPLATE => 11
  end.

Definition soflag_no (f : soflag) : nat :=
  match f with
  | SS_ISCONNECTING => 0 | SS_ISCONNECTED => 1 | SS_ISDISCONNECTING => 2 | SS_ISCONFIRMING => 3
  | SS_CANTRCVMORE => 4 | SS_CANTSENDMORE => 5 | SS_RCVATMARK => 6 | SS_NOFDREF => 7
  | SO_KEEPALIVE => 8 | SO_OOBINLINE => 9 | SO_LINGER => 10 | SO_DONTROUTE => 11
  end.

(** The control bits of a segment. *)
Record thflags := MkFl {
  TH_FIN : bool; TH_SYN : bool; TH_RST : bool; TH_PUSH : bool; TH_ACK : bool; TH_URG : bool
}.

Definition no_flags : thflags := MkFl false false false false false false.
Definition set_fin (b : bool) (f : thflags) : thflags :=
  MkFl b (TH_SYN f) (TH_RST f) (TH_PUSH f) (TH_ACK f) (TH_URG f).
Definition set_syn (b : bool) (f : thflags) : thflags :=
  MkFl (TH_FIN f) b (TH_RST f) (TH_PUSH f) (TH_ACK f) (TH_URG f).
Definition set_push (b : bool) (f : thflags) : thflags :=
  MkFl (TH_FIN f) (TH_SYN f) (TH_RST f) b (TH_ACK f) (TH_URG f).
Definition set_urg (b : bool) (f : thflags) : thflags :=
  MkFl (TH_FIN f) (TH_SYN f) (TH_RST f) (TH_PUSH f) (TH_ACK f) b.

(** A segment on the reassembly queue, or to be put there. *)
Record tseg := MkSeg { ti_seq : Z; ti_len : Z; ti_fin : bool; ti_data : bytes }.

Record tcpcb := MkTcpcb {
  t_state : tcp_state;
  fld : field → Z;
  tfl : tflag → bool;
  seg_queue : list tseg
}.

(** ** What comes from the headers *)

Class TcpDefs := {
  store : field → Z → Z;
  SEQ_LT : Z → Z → bool; SEQ_LEQ : Z → Z → bool; SEQ_GT : Z → Z → bool; SEQ_GEQ : Z → Z → bool;
  tcps : tcp_state → Z;                        (** the numbers of the states *)
  TCPS_HAVERCVDSYN : tcp_state → bool;
  TCPS_HAVERCVDFIN : tcp_state → bool;
  tcp_outflags : tcp_state → thflags;
  TCPT_RANGESET : Z → Z → Z → Z;               (** value, minimum, maximum *)
  TCP_REXMTVAL : Z → Z → Z;                    (** [t_srtt], [t_rttvar] *)
  TCP_RTT_SHIFT : Z; TCP_RTTVAR_SHIFT : Z;
  TCP_MAXRXTSHIFT : Z; TCP_MAXWIN : Z; TCP_MAX_WINSHIFT : Z; TCP_ISSINCR : Z;
  TCPTV_MSL : Z; TCPTV_MIN : Z; TCPTV_REXMTMAX : Z; TCPTV_PERSMIN : Z; TCPTV_PERSMAX : Z;
  PR_SLOWHZ : Z; RTM_RTTUNIT : Z; TCP_RTT_SCALE : Z; TCP_RTTVAR_SCALE : Z;
  tcp_keepidle : Z; tcp_keepintvl : Z; tcp_keepcnt : Z; tcp_keepinit : Z; tcp_maxpersistidle : Z;
  tcp_mssdflt : Z; tcp_rttdflt : Z; tcp_do_rfc1323 : bool; TCPTV_SRTTBASE : Z; TCPTV_SRTTDFLT : Z;
  TCPOPT_EOL : Z; TCPOPT_NOP : Z; TCPOPT_MAXSEG : Z; TCPOPT_WINDOW : Z; TCPOPT_TIMESTAMP : Z;
  TCPOLEN_MAXSEG : Z; TCPOLEN_WINDOW : Z; TCPOLEN_TIMESTAMP : Z; TCPOLEN_TSTAMP_APPA : Z;
  TCPOPT_TSTAMP_HDR : bytes;                   (** four bytes *)
  sizeof_tcphdr : Z; sizeof_tcpiphdr : Z; sb_max : Z;
  tcp_sendseqinit : tcpcb → tcpcb; tcp_rcvseqinit : tcpcb → tcpcb;   (** [tcp_seq.h] *)
  ETIMEDOUT : Z; ENOBUFS : Z; EHOSTUNREACH : Z; ENETDOWN : Z; ENETUNREACH : Z; EHOSTDOWN : Z;
  ECONNREFUSED : Z; ECONNRESET : Z; ECONNABORTED : Z
}.

(** Sequence numbers, windows and times of stamps are 32-bit unsigned
    integers. *)
Definition is_u32 (f : field) : bool :=
  match f with
  | snd_una | snd_nxt | snd_up | snd_wl1 | snd_wl2 | iss | snd_wnd | rcv_wnd | rcv_nxt | rcv_up
  | irs | rcv_adv | snd_max | snd_cwnd | snd_ssthresh | t_rtseq | max_sndwnd | ts_recent
  | ts_recent_age | last_ack_sent => true
  | _ => false
  end.

Class TcpDefsLaws `{TcpDefs} := {
  store_u32 f v : is_u32 f = true → store f v = u32 v;
  (** the other members hold at least the values up to [16383], but for the
      shift count, the scales and the flag *)
  store_small f v : 0 <= v < 16384 → is_u32 f = false →
    (f = t_iobc → v < 256) → (f = snd_scale ∨ f = rcv_scale ∨ f = request_r_scale ∨
      f = requested_s_scale ∨ f = t_force → v < 128) → store f v = v;
  SEQ_LT_eq a b : SEQ_LT a b = (s32 (a - b) <? 0);
  SEQ_LEQ_eq a b : SEQ_LEQ a b = (s32 (a - b) <=? 0);
  SEQ_GT_eq a b : SEQ_GT a b = (0 <? s32 (a - b));
  SEQ_GEQ_eq a b : SEQ_GEQ a b = (0 <=? s32 (a - b));
  tcps_eq : map tcps [TCPS_CLOSED; TCPS_LISTEN; TCPS_SYN_SENT; TCPS_SYN_RECEIVED; TCPS_ESTABLISHED;
    TCPS_CLOSE_WAIT; TCPS_FIN_WAIT_1; TCPS_CLOSING; TCPS_LAST_ACK; TCPS_FIN_WAIT_2; TCPS_TIME_WAIT]
    = [0; 1; 2; 3; 4; 5; 6; 7; 8; 9; 10];
  HAVERCVDSYN_eq s : TCPS_HAVERCVDSYN s = (3 <=? tcps s);
  HAVERCVDFIN_eq s : TCPS_HAVERCVDFIN s = (10 <=? tcps s);
  outflags_eq s : tcp_outflags s =
    match s with
    | TCPS_CLOSED => MkFl false false true false true false
    | TCPS_LISTEN => no_flags
    | TCPS_SYN_SENT => MkFl false true false false false false
    | TCPS_SYN_RECEIVED => MkFl false true false false true false
    | TCPS_ESTABLISHED | TCPS_CLOSE_WAIT | TCPS_FIN_WAIT_2 | TCPS_TIME_WAIT =>
        MkFl false false false false true false
    | TCPS_FIN_WAIT_1 | TCPS_CLOSING | TCPS_LAST_ACK => MkFl true false false false true false
    end;
  RANGESET_range v lo hi : 0 <= lo <= hi → lo <= TCPT_RANGESET v lo hi <= hi;
  RANGESET_id v lo hi : 0 <= lo <= v → v <= hi → v < 16384 → TCPT_RANGESET v lo hi = v;
  REXMTVAL_eq a b : TCP_REXMTVAL a b = Z.shiftr a TCP_RTT_SHIFT + b;
  rtt_shifts : TCP_RTT_SHIFT = 3 ∧ TCP_RTTVAR_SHIFT = 2;
  MAXRXTSHIFT_eq : TCP_MAXRXTSHIFT = 12;
  timer_range : 0 < TCPTV_MIN <= TCPTV_REXMTMAX ∧ TCPTV_REXMTMAX < 16384 ∧
    0 < TCPTV_PERSMIN <= TCPTV_PERSMAX ∧ TCPTV_PERSMAX < 16384 ∧ 0 < 2 * TCPTV_MSL < 16384;
  maxwin_range : TCP_MAXWIN = 65535 ∧ TCP_MAX_WINSHIFT = 14;
  options_eq : (TCPOPT_EOL, TCPOPT_NOP, TCPOPT_MAXSEG, TCPOPT_WINDOW, TCPOPT_TIMESTAMP) = (0, 1, 2, 3, 8)
    ∧ (TCPOLEN_MAXSEG, TCPOLEN_WINDOW, TCPOLEN_TIMESTAMP, TCPOLEN_TSTAMP_APPA) = (4, 3, 10, 12)
    ∧ zlen TCPOPT_TSTAMP_HDR = 4;
  sendseqinit_eq t : t_state (tcp_sendseqinit t) = t_state t ∧ tfl (tcp_sendseqinit t) = tfl t ∧
    seg_queue (tcp_sendseqinit t) = seg_queue t ∧
    ∀ f, fld (tcp_sendseqinit t) f =
      match f with snd_una | snd_nxt | snd_max | snd_up => store f (fld t iss) | _ => fld t f end;
  rcvseqinit_eq t : t_state (tcp_rcvseqinit t) = t_state t ∧ tfl (tcp_rcvseqinit t) = tfl t ∧
    seg_queue (tcp_rcvseqinit t) = seg_queue t ∧
    ∀ f, fld (tcp_rcvseqinit t) f =
      match f with rcv_adv | rcv_nxt => store f (fld t irs + 1) | _ => fld t f end;
  sizeof_eq : sizeof_tcphdr = 20 ∧ sizeof_tcpiphdr = 40;
  keep_range : 0 < tcp_keepidle < 16384 ∧ 0 < tcp_keepintvl < 16384 ∧ 0 < tcp_keepinit < 16384 ∧
    0 < tcp_keepcnt * tcp_keepintvl < 16384;
  mss_range : 0 < tcp_mssdflt < 16384;
  srtt_dflt : 0 <= TCPTV_SRTTBASE < 16384 ∧ 0 <= TCPTV_SRTTDFLT < 4096 ∧ 0 <= Z.shiftl (tcp_rttdflt * PR_SLOWHZ) 2 < 16384;
  errors_nz : Forall (λ e, 0 < e < 16384) [ETIMEDOUT; ENOBUFS; EHOSTUNREACH; ENETDOWN; ENETUNREACH;
    EHOSTDOWN; ECONNREFUSED; ECONNRESET; ECONNABORTED];
  errors_distinct : NoDup [ETIMEDOUT; ENOBUFS; EHOSTUNREACH; ENETDOWN; ENETUNREACH; EHOSTDOWN;
    ECONNREFUSED; ECONNRESET; ECONNABORTED]
}.

(** What TCP asks of a socket buffer. *)
Class SoBuf (B : Type) := {
  sb_bytes : B → bytes;
  so_hiwat : B → Z;
  so_space : B → Z;                            (** [sbspace] *)
  so_append : bytes → B → B;                   (** [sbappend] *)
  so_drop : Z → B → B;                         (** [sbdrop] *)
  so_flush : B → B;                            (** [sbflush] *)
  so_waiting : B → bool                        (** someone waits for space *)
}.

Class SoBufLaws B `{SoBuf B} := {
  so_append_bytes d b : sb_bytes (so_append d b) = sb_bytes b ++ d;
  so_drop_bytes n b : 0 <= n <= zlen (sb_bytes b) → sb_bytes (so_drop n b) = zdrop n (sb_bytes b);
  so_flush_bytes b : sb_bytes (so_flush b) = [];
  so_append_hiwat d b : so_hiwat (so_append d b) = so_hiwat b;
  so_drop_hiwat n b : so_hiwat (so_drop n b) = so_hiwat b;
  so_flush_hiwat b : so_hiwat (so_flush b) = so_hiwat b
}.

(** ** Data *)

(** A segment handed to IP. *)
Record outseg := MkOut {
  o_seq : Z; o_ack : Z; o_flags : thflags; o_win : Z; o_urp : Z; o_opts : bytes; o_data : bytes
}.

Inductive upcall := Soisconnecting | Soisconnected | Soisdisconnecting | Soisdisconnected
  | Socantrcvmore | Socantsendmore | Sorwakeup | Sowwakeup | Sohasoutofband.

Inductive tevent := Sent (s : outseg) | Called (u : upcall) | Losing | Detached | Panic.

Section Conn.
Context {E B : Type} `{!TcpDefs} `{!SoBuf B}.

Record socket := MkSo {
  so_snd : B;
  so_rcv : B;
  sfl : soflag → bool;
  so_error : Z;
  so_oobmark : Z;
  so_linger : Z
}.

Record conn := MkConn {
  tp : tcpcb;
  freed : bool;               (** [tcp_close] has returned *)
  so : socket;
  env : E;
  tlog : list tevent
}.

(** *** Access and assignment *)

Definition get (f : field) (c : conn) : Z := fld (tp c) f.
Definition flag (f : tflag) (c : conn) : bool := tfl (tp c) f.
Definition sflag (f : soflag) (c : conn) : bool := sfl (so c) f.
Definition state (c : conn) : tcp_state := t_state (tp c).

Definition with_tp (t : tcpcb) (c : conn) : conn := MkConn t (freed c) (so c) (env c) (tlog c).
Definition with_so (s : socket) (c : conn) : conn := MkConn (tp c) (freed c) s (env c) (tlog c).
Definition with_env (e : E) (c : conn) : conn := MkConn (tp c) (freed c) (so c) e (tlog c).
Definition emit (e : tevent) (c : conn) : conn := MkConn (tp c) (freed c) (so c) (env c) (e :: tlog c).

Definition set (f : field) (v : Z) (c : conn) : conn :=
  with_tp (MkTcpcb (t_state (tp c))
             (λ g, if Nat.eqb (field_no f) (field_no g) then store f v else fld (tp c) g)
             (tfl (tp c)) (seg_queue (tp c))) c.
Definition set_flag (f : tflag) (b : bool) (c : conn) : conn :=
  with_tp (MkTcpcb (t_state (tp c)) (fld (tp c))
             (λ g, if Nat.eqb (tflag_no f) (tflag_no g) then b else tfl (tp c) g)
             (seg_queue (tp c))) c.
Definition set_state (s : tcp_state) (c : conn) : conn :=
  with_tp (MkTcpcb s (fld (tp c)) (tfl (tp c)) (seg_queue (tp c))) c.
Definition set_queue (q : list tseg) (c : conn) : conn :=
  with_tp (MkTcpcb (t_state (tp c)) (fld (tp c)) (tfl (tp c)) q) c.
Definition set_sflag (f : soflag) (b : bool) (c : conn) : conn :=
  with_so (MkSo (so_snd (so c)) (so_rcv (so c))
             (λ g, if Nat.eqb (soflag_no f) (soflag_no g) then b else sfl (so c) g)
             (so_error (so c)) (so_oobmark (so c)) (so_linger (so c))) c.
Definition set_snd (b : B) (c : conn) : conn :=
  with_so (MkSo b (so_rcv (so c)) (sfl (so c)) (so_error (so c)) (so_oobmark (so c))
             (so_linger (so c))) c.
Definition set_rcv (b : B) (c : conn) : conn :=
  with_so (MkSo (so_snd (so c)) b (sfl (so c)) (so_error (so c)) (so_oobmark (so c))
             (so_linger (so c))) c.
Definition set_error (e : Z) (c : conn) : conn :=
  with_so (MkSo (so_snd (so c)) (so_rcv (so c)) (sfl (so c)) e (so_oobmark (so c))
             (so_linger (so c))) c.
Definition set_oobmark (v : Z) (c : conn) : conn :=
  with_so (MkSo (so_snd (so c)) (so_rcv (so c)) (sfl (so c)) (so_error (so c)) v
             (so_linger (so c))) c.

(** [so_snd.sb_cc], [so_rcv.sb_cc]. *)
Definition snd_cc (c : conn) : Z := zlen (sb_bytes (so_snd (so c))).
Definition rcv_cc (c : conn) : Z := zlen (sb_bytes (so_rcv (so c))).

(** *** The socket's state ([uipc_sock2.c]) *)

Definition sorwakeup (c : conn) : conn := emit (Called Sorwakeup) c.
Definition sowwakeup (c : conn) : conn := emit (Called Sowwakeup) c.
Definition sohasoutofband (c : conn) : conn := emit (Called Sohasoutofband) c.

Definition soisconnecting (c : conn) : conn :=
  let c := set_sflag SS_ISCONNECTED false (set_sflag SS_ISDISCONNECTING false c) in
  emit (Called Soisconnecting) (set_sflag SS_ISCONNECTING true c).

Definition soisconnected (c : conn) : conn :=
  let c := set_sflag SS_ISCONNECTING false (set_sflag SS_ISDISCONNECTING false
             (set_sflag SS_ISCONFIRMING false c)) in
  emit (Called Soisconnected) (set_sflag SS_ISCONNECTED true c).

Definition soisdisconnecting (c : conn) : conn :=
  let c := set_sflag SS_ISCONNECTING false c in
  let c := set_sflag SS_ISDISCONNECTING true (set_sflag SS_CANTRCVMORE true
             (set_sflag SS_CANTSENDMORE true c)) in
  sorwakeup (sowwakeup (emit (Called Soisdisconnecting) c)).

Definition soisdisconnected (c : conn) : conn :=
  let c := set_sflag SS_ISCONNECTING false (set_sflag SS_ISCONNECTED false
             (set_sflag SS_ISDISCONNECTING false c)) in
  let c := set_sflag SS_CANTRCVMORE true (set_sflag SS_CANTSENDMORE true c) in
  sorwakeup (sowwakeup (emit (Called Soisdisconnected) c)).

Definition socantsendmore (c : conn) : conn :=
  sowwakeup (emit (Called Socantsendmore) (set_sflag SS_CANTSENDMORE true c)).

Definition socantrcvmore (c : conn) : conn :=
  sorwakeup (emit (Called Socantrcvmore) (set_sflag SS_CANTRCVMORE true c)).

(** [m_adj] on the bytes of a chain (file Mbuf): from the head, or from the
    tail for a negative count. *)
Definition adj_bytes (d : bytes) (n : Z) : bytes :=
  if 0 <=? n then zdrop n d else ztake (zlen d + n) d.

End Conn.
Arguments socket : clear implicits.
Arguments conn : clear implicits.

(** ** Sequence arithmetic *)

Section Seq.

(** The distance between sequence numbers that are close. *)
Lemma s32_seq base x y : -2147483648 <= x - y < 2147483648 →
  s32 (u32 (base + x) - u32 (base + y)) = x - y.
Proof.
  intros Hxy. rewrite <- (s32_id (x - y)) at 1 by done. unfold s32, u32.
  f_equal. rewrite Zplus_mod, Zminus_mod, !Z.mod_mod, <- Zminus_mod, <- Zplus_mod by done.
  f_equal. lia.
Qed.

Lemma u32_add x y : u32 (u32 x + y) = u32 (x + y).
Proof. unfold u32. by rewrite Zplus_mod_idemp_l. Qed.
Lemma u32_sub x y : u32 (u32 x - y) = u32 (x - y).
Proof. unfold u32. by rewrite Zminus_mod_idemp_l. Qed.
Lemma u32_u32 x : u32 (u32 x) = u32 x.
Proof. unfold u32. by rewrite Z.mod_mod. Qed.
Lemma s32_u32 x : s32 (u32 x) = s32 x.
Proof. unfold s32, u32. by rewrite Zplus_mod_idemp_l. Qed.

(** The same with a length added to the first number without reduction. *)
Lemma s32_seq_len base x n y : -2147483648 <= x + n - y < 2147483648 →
  s32 (u32 (base + x) + n - u32 (base + y)) = x + n - y.
Proof.
  intros Hxy. rewrite <- s32_u32, <- (u32_sub (_ + n)), u32_add, s32_u32.
  replace (base + x + n) with (base + (x + n)) by lia. apply s32_seq. lia.
Qed.

(** A number is determined by its residue and its range. *)
Lemma s32_is d k x : -2147483648 <= d < 2147483648 → x = d + k * 4294967296 → s32 x = d.
Proof.
  intros Hd ->. rewrite <- (s32_id d) at 2 by done. unfold s32. f_equal.
  rewrite <- (Z.mod_add (d + 2147483648) k) by done. f_equal. lia.
Qed.
Lemma u32_is d k x : 0 <= d < 4294967296 → x = d + k * 4294967296 → u32 x = d.
Proof. intros Hd ->. unfold u32. rewrite Z.mod_add, Z.mod_small; lia. Qed.
Lemma u32_ex x : ∃ k, u32 x = x + k * 4294967296.
Proof. exists (- (x / 4294967296)). unfold u32. rewrite Z.mod_eq; lia. Qed.

Lemma u32_seq base x y : 0 <= x - y < 4294967296 → u32 (u32 (base + x) - u32 (base + y)) = x - y.
Proof.
  intros Hxy. unfold u32. rewrite Zminus_mod, !Z.mod_mod, <- Zminus_mod by done.
  rewrite Z.mod_small; lia.
Qed.
End Seq.

(** ** Reading after writing *)

(** The numbers of the members are distinct. *)
Definition fields : list field :=
  [TCPT_REXMT; TCPT_PERSIST; TCPT_KEEP; TCPT_2MSL; t_rxtshift; t_rxtcur; t_dupacks; t_maxseg; t_force;
   snd_una; snd_nxt; snd_up; snd_wl1; snd_wl2; iss; snd_wnd; rcv_wnd; rcv_nxt; rcv_up; irs; rcv_adv;
   snd_max; snd_cwnd; snd_ssthresh; t_idle; t_rtt; t_rtseq; t_srtt; t_rttvar; t_rttmin; max_sndwnd;
   t_iobc; t_softerror; snd_scale; rcv_scale; request_r_scale; requested_s_scale; ts_recent;
   ts_recent_age; last_ack_sent].

Lemma field_no_inj f g : field_no f = field_no g → f = g.
Proof.
  intros He. assert (∀ f, nth (field_no f) fields TCPT_REXMT = f) as Hn by (by intros []).
  by rewrite <- (Hn f), <- (Hn g), He.
Qed.

Lemma tflag_no_inj f g : tflag_no f = tflag_no g → f = g.
Proof. by destruct f, g. Qed.

Section Ne.
Context {E B : Type} `{!TcpDefs}.

Lemma get_set_ne (f g : field) v (c : conn E B) : f ≠ g → get g (set f v c) = get g c.
Proof.
  intros Hne. change (get g (set f v c)) with (if Nat.eqb (field_no f) (field_no g) then store f v else get g c).
  destruct (Nat.eqb_spec (field_no f) (field_no g)) as [He|]; [|done]. by apply field_no_inj in He.
Qed.

Lemma flag_set_ne (f g : tflag) b (c : conn E B) : f ≠ g → flag g (set_flag f b c) = flag g c.
Proof.
  intros Hne. change (flag g (set_flag f b c)) with (if Nat.eqb (tflag_no f) (tflag_no g) then b else flag g c).
  destruct (Nat.eqb_spec (tflag_no f) (tflag_no g)) as [He|]; [|done]. by apply tflag_no_inj in He.
Qed.
End Ne.

(** [conn_simpl] computes what the members of a connection are after
    assignments: an assignment to another member is skipped (by conversion),
    one to the same member gives the stored value. *)
Ltac conn_step :=
  match goal with
  | |- context [get ?g (set ?f ?v ?c)] =>
      change (get g (set f v c)) with (if Nat.eqb (field_no f) (field_no g) then store f v else get g c);
      cbn [Nat.eqb field_no]
  | |- context [flag ?g (set_flag ?f ?v ?c)] =>
      change (flag g (set_flag f v c)) with (if Nat.eqb (tflag_no f) (tflag_no g) then v else flag g c);
      cbn [Nat.eqb tflag_no]
  | |- context [sflag ?g (set_sflag ?f ?v ?c)] =>
      change (sflag g (set_sflag f v c)) with (if Nat.eqb (soflag_no f) (soflag_no g) then v else sflag g c);
      cbn [Nat.eqb soflag_no]
  | |- context [state (set_state ?s ?c)] => change (state (set_state s c)) with s
  | |- context [seg_queue (tp (set_queue ?q ?c))] => change (seg_queue (tp (set_queue q c))) with q
  | |- context [so_snd (so (set_snd ?b ?c))] => change (so_snd (so (set_snd b c))) with b
  | |- context [so_rcv (so (set_rcv ?b ?c))] => change (so_rcv (so (set_rcv b c))) with b
  | |- context [so_error (so (set_error ?e ?c))] => change (so_error (so (set_error e c))) with e
  | |- context [so_oobmark (so (set_oobmark ?v ?c))] => change (so_oobmark (so (set_oobmark v c))) with v
  | |- context [env (with_env ?e ?c)] => change (env (with_env e c)) with e
  | |- context [tlog (emit ?e ?c)] => change (tlog (emit e c)) with (e :: tlog c)
  | |- context [get ?g (?h ?c)] => change (get g (h c)) with (get g c)
  | |- context [flag ?g (?h ?c)] => change (flag g (h c)) with (flag g c)
  | |- context [sflag ?g (?h ?c)] => change (sflag g (h c)) with (sflag g c)
  | |- context [state (?h ?c)] => change (state (h c)) with (state c)
  | |- context [seg_queue (tp (?h ?c))] => change (seg_queue (tp (h c))) with (seg_queue (tp c))
  | |- context [so_snd (so (?h ?c))] => change (so_snd (so (h c))) with (so_snd (so c))
  | |- context [so_rcv (so (?h ?c))] => change (so_rcv (so (h c))) with (so_rcv (so c))
  | |- context [so_error (so (?h ?c))] => change (so_error (so (h c))) with (so_error (so c))
  | |- context [so_oobmark (so (?h ?c))] => change (so_oobmark (so (h c))) with (so_oobmark (so c))
  | |- context [so_linger (so (?h ?c))] => change (so_linger (so (h c))) with (so_linger (so c))
  | |- context [snd_cc (?h ?c)] => change (snd_cc (h c)) with (snd_cc c)
  | |- context [rcv_cc (?h ?c)] => change (rcv_cc (h c)) with (rcv_cc c)
  | |- context [freed (?h ?c)] => change (freed (h c)) with (freed c)
  | |- context [env (?h ?c)] => change (env (h c)) with (env c)
  | |- context [tlog (?h ?c)] => change (tlog (h c)) with (tlog c)
  end.
Ltac conn_simpl := repeat conn_step.

(** ** An instance *)

Module Demo.

Definition demo_store (f : field) (v : Z) : Z :=
  if is_u32 f then u32 v else
  match f with
    | t_iobc | snd_scale | rcv_scale | request_r_scale | requested_s_scale => v mod 256
    | t_force => (v + 128) mod 256 - 128
    | _ => (v + 32768) mod 65536 - 32768
  end.

#[export] Instance demo_defs : TcpDefs := {|
  store := demo_store;
  SEQ_LT a b := s32 (a - b) <? 0;
  SEQ_LEQ a b := s32 (a - b) <=? 0;
  SEQ_GT a b := 0 <? s32 (a - b);
  SEQ_GEQ a b := 0 <=? s32 (a - b);
  tcps s :=
    match s with
    | TCPS_CLOSED => 0 | TCPS_LISTEN => 1 | TCPS_SYN_SENT => 2 | TCPS_SYN_RECEIVED => 3
    | TCPS_ESTABLISHED => 4 | TCPS_CLOSE_WAIT => 5 | TCPS_FIN_WAIT_1 => 6 | TCPS_CLOSING => 7
    | TCPS_LAST_ACK => 8 | TCPS_FIN_WAIT_2 => 9 | TCPS_TIME_WAIT => 10
    end;
  TCPS_HAVERCVDSYN s :=
    match s with TCPS_CLOSED | TCPS_LISTEN | TCPS_SYN_SENT => false | _ => true end;
  TCPS_HAVERCVDFIN s := bool_decide (s = TCPS_TIME_WAIT);
  tcp_outflags s :=
    match s with
    | TCPS_CLOSED => MkFl false false true false true false
    | TCPS_LISTEN => no_flags
    | TCPS_SYN_SENT => MkFl false true false false false false
    | TCPS_SYN_RECEIVED => MkFl false true false false true false
    | TCPS_ESTABLISHED | TCPS_CLOSE_WAIT | TCPS_FIN_WAIT_2 | TCPS_TIME_WAIT =>
        MkFl false false false false true false
    | TCPS_FIN_WAIT_1 | TCPS_CLOSING | TCPS_LAST_ACK => MkFl true false false false true false
    end;
  TCPT_RANGESET v lo hi := if v <? lo then lo else if hi <? v then hi else v;
  TCP_REXMTVAL a b := Z.shiftr a 3 + b;
  TCP_RTT_SHIFT := 3; TCP_RTTVAR_SHIFT := 2;
  TCP_MAXRXTSHIFT := 12; TCP_MAXWIN := 65535; TCP_MAX_WINSHIFT := 14; TCP_ISSINCR := 128000;
  TCPTV_MSL := 60; TCPTV_MIN := 2; TCPTV_REXMTMAX := 128; TCPTV_PERSMIN := 10; TCPTV_PERSMAX := 120;
  PR_SLOWHZ := 2; RTM_RTTUNIT := 1000000; TCP_RTT_SCALE := 8; TCP_RTTVAR_SCALE := 4;
  tcp_keepidle := 14400; tcp_keepintvl := 150; tcp_keepcnt := 8; tcp_keepinit := 150; tcp_maxpersistidle := 14400;
  tcp_mssdflt := 512; tcp_rttdflt := 3; tcp_do_rfc1323 := true; TCPTV_SRTTBASE := 0; TCPTV_SRTTDFLT := 6;
  TCPOPT_EOL := 0; TCPOPT_NOP := 1; TCPOPT_MAXSEG := 2; TCPOPT_WINDOW := 3; TCPOPT_TIMESTAMP := 8;
  TCPOLEN_MAXSEG := 4; TCPOLEN_WINDOW := 3; TCPOLEN_TIMESTAMP := 10; TCPOLEN_TSTAMP_APPA := 12;
  TCPOPT_TSTAMP_HDR := [1; 1; 8; 10];
  sizeof_tcphdr := 20; sizeof_tcpiphdr := 40; sb_max := 262144;
  tcp_sendseqinit t := MkTcpcb (t_state t)
    (λ f, match f with snd_una | snd_nxt | snd_max | snd_up => demo_store f (fld t iss) | _ => fld t f end)
    (tfl t) (seg_queue t);
  tcp_rcvseqinit t := MkTcpcb (t_state t)
    (λ f, match f with rcv_adv | rcv_nxt => demo_store f (fld t irs + 1) | _ => fld t f end)
    (tfl t) (seg_queue t);
  ETIMEDOUT := 60; ENOBUFS := 55; EHOSTUNREACH := 65; ENETDOWN := 50; ENETUNREACH := 51;
  EHOSTDOWN := 64; ECONNREFUSED := 61; ECONNRESET := 54; ECONNABORTED := 53
|}.

#[export] Instance demo_laws : TcpDefsLaws.
Proof.
  split; cbn; try done.
  - intros f v Hf. unfold demo_store. by rewrite Hf.
  - intros f v Hv Hf Hi Hs. unfold demo_store. rewrite Hf.
    destruct f; try (rewrite !Z.mod_small by lia; lia);
      try (specialize (Hi eq_refl); rewrite Z.mod_small by lia; lia);
      (rewrite Z.mod_small by (assert (v < 128) by (apply Hs; tauto); lia); lia).
  - by intros [].
  - by intros [].
  - intros v lo hi ?. destruct (Z.ltb_spec v lo), (Z.ltb_spec hi v); lia.
  - intros v lo hi ? ?. destruct (Z.ltb_spec v lo), (Z.ltb_spec hi v); lia.
  - by apply (bool_decide_unpack _).
  - by apply (bool_decide_unpack _).
Qed.

(** Socket buffers as their bytes. *)
#[export] Instance demo_buf : SoBuf bytes := {|
  sb_bytes b := b; so_hiwat _ := 8192; so_space b := 8192 - zlen b;
  so_append d b := b ++ d; so_drop n b := zdrop n b; so_flush _ := []; so_waiting _ := false
|}.

#[export] Instance demo_buf_laws : SoBufLaws bytes.
Proof. by split. Qed.

(** A connection with the given state and members, and empty buffers. *)
Definition demo_conn {E} (s : tcp_state) (f : field → Z) (e : E) : conn E bytes :=
  MkConn (MkTcpcb s f (λ _, false) []) false (MkSo [] [] (λ _, false) 0 0 0) e [].

End Demo.
