(* ===== verification/TcpReass.v ===== *)
(** * Reassembly of TCP segments ([tcp_input.c])

    [tcp_reass] keeps the segments that arrived out of order in a queue sorted
    by sequence number, without overlaps, and moves to the socket what has
    become consecutive; the macro [TCP_REASS] handles the segment that is
    next without the queue.  The queue is compared with a list of intervals
    of the peer's byte stream, whose offsets do not wrap. *)
From Stdlib Require Import ZArith Lia Bool.
From stdpp Require Import base tactics list sets numbers option.
From S2P Require Import Prelude TcpDefs.

Local Open Scope Z_scope.

Section Reass.
Context {E B : Type} `{!TcpDefs} `{!SoBuf B}.
Implicit Types (c : conn E B) (q : list tseg) (ti s : tseg).

(** ** The routines *)

(** The segments before the first one that begins after sequence number
    [seq], and the rest. *)
Fixpoint find_after (seq : Z) q : list tseg * list tseg :=
  match q with
  | [] => ([], [])
  | s :: r =>
      if SEQ_GT (ti_seq s) seq then ([], q)
      else let '(a, b) := find_after seq r in (s :: a, b)
  end.

(** [m_adj(m, i); ti->ti_len -= i; ti->ti_seq += i]. *)
Definition trim_front (i : Z) ti : tseg :=
  MkSeg (u32 (ti_seq ti + i)) (ti_len ti - i) (ti_fin ti) (adj_bytes (ti_data ti) i).

(** The segment without what the preceding segment [p] provides; none if it
    provides everything. *)
Definition trim_by_prev (p : option tseg) ti : option tseg :=
  match p with
  | None => Some ti
  | Some p =>
      let i := s32 (ti_seq p + ti_len p - ti_seq ti) in
      if 0 <? i then if ti_len ti <=? i then None else Some (trim_front i ti) else Some ti
  end.

(** The succeeding segments without what [ti] provides. *)
Fixpoint trim_next ti q : list tseg :=
  match q with
  | [] => []
  | s :: r =>
      let i := s32 (ti_seq ti + ti_len ti - ti_seq s) in
      if i <=? 0 then q
      else if i <? ti_len s then trim_front i s :: r
      else trim_next ti r
  end.

Definition seg_insert ti q : option (list tseg) :=
  let '(a, b) := find_after (ti_seq ti) q in
  match trim_by_prev (list.last a) ti with
  | None => None
  | Some ti => Some (a ++ ti :: trim_next ti b)
  end.

(** The [do] loop of [present:]; the result is whether the last segment
    presented has FIN. *)
Fixpoint present_loop q (fin : bool) c : bool * conn E B :=
  match q with
  | s :: r =>
      if ti_seq s =? get rcv_nxt c then
        let c := set rcv_nxt (get rcv_nxt c + ti_len s) c in
        let c := set_queue r c in
        let c := if sflag SS_CANTRCVMORE c then c
                 else set_rcv (so_append (ti_data s) (so_rcv (so c))) c in
        present_loop r (ti_fin s) c
      else (fin, c)
  | [] => (fin, c)
  end.

Definition present c : bool * conn E B :=
  if negb (TCPS_HAVERCVDSYN (state c)) then (false, c)
  else
    match seg_queue (tp c) with
    | [] => (false, c)
    | s :: _ =>
        if negb (ti_seq s =? get rcv_nxt c) then (false, c)
        else if bool_decide (state c = TCPS_SYN_RECEIVED) && negb (ti_len s =? 0) then (false, c)
        else let '(fin, c) := present_loop (seg_queue (tp c)) false c in (fin, sorwakeup c)
    end.

(** [None] is the call with [ti == 0], which only presents. *)
Definition tcp_reass (ti : option tseg) c : bool * conn E B :=
  match ti with
  | None => present c
  | Some ti =>
      match seg_insert ti (seg_queue (tp c)) with
      | None => (false, c)
      | Some q => present (set_queue q c)
      end
  end.

Definition TCP_REASS ti c : bool * conn E B :=
  if (ti_seq ti =? get rcv_nxt c) && bool_decide (seg_queue (tp c) = []) &&
     bool_decide (state c = TCPS_ESTABLISHED)
  then
    let c := set_flag TF_DELACK true c in
    let c := set rcv_nxt (get rcv_nxt c + ti_len ti) c in
    let c := set_rcv (so_append (ti_data ti) (so_rcv (so c))) c in
    (ti_fin ti, sorwakeup c)
  else
    let '(fin, c) := tcp_reass (Some ti) c in (fin, set_flag TF_ACKNOW true c).

End Reass.

(** ** Intervals of the stream *)

Section Spec.
Context {E B : Type} `{!TcpDefs} `{!TcpDefsLaws} `{!SoBuf B} `{!SoBufLaws B}.
Implicit Types (c : conn E B).

(** The peer's data; its first byte has sequence number [base]. *)
Variables (base : Z) (stream : bytes).

(** A segment of the stream: offset, length, whether it carries the FIN. *)
Record ival := MkIval { i_off : Z; i_len : Z; i_fin : bool }.

Definition slice (o l : Z) : bytes := ztake l (zdrop o stream).

Definition mk (p : ival) : tseg :=
  MkSeg (u32 (base + i_off p)) (i_len p) (i_fin p) (slice (i_off p) (i_len p)).

(** A piece of the stream; FIN comes after its last byte. *)
Definition piece (p : ival) : Prop :=
  0 <= i_off p ∧ 0 <= i_len p ∧ i_off p + i_len p <= zlen stream ∧
  (i_fin p = true → i_off p + i_len p = zlen stream).

Definition i_end (p : ival) : Z := i_off p + i_len p.
Definition covers (p : ival) (x : Z) : Prop := i_off p <= x < i_end p.
Definition covered (l : list ival) (x : Z) : Prop := Exists (λ p, covers p x) l.

(** How far the window reaches beyond the next byte expected. *)
Definition reach : Z := 1073741824.

(** Sorted, disjoint pieces between [lo] and [hi]. *)
Fixpoint sorted (lo hi : Z) (l : list ival) : Prop :=
  match l with
  | [] => True
  | p :: r => piece p ∧ lo <= i_off p ∧ i_end p <= hi ∧ sorted (i_end p) hi r
  end.

Definition trim_i (i : Z) (p : ival) : ival := MkIval (i_off p + i) (i_len p - i) (i_fin p).

(** *** The operations on intervals *)

Fixpoint i_find (o : Z) (l : list ival) : list ival * list ival :=
  match l with
  | [] => ([], [])
  | p :: r => if o <? i_off p then ([], l) else let '(a, b) := i_find o r in (p :: a, b)
  end.

Definition i_prev (p : option ival) (t : ival) : option ival :=
  match p with
  | None => Some t
  | Some p =>
      let i := i_end p - i_off t in
      if 0 <? i then if i_len t <=? i then None else Some (trim_i i t) else Some t
  end.

Fixpoint i_next (e : Z) (l : list ival) : list ival :=
  match l with
  | [] => []
  | p :: r =>
      if e <=? i_off p then l
      else if e <? i_end p then trim_i (e - i_off p) p :: r
      else i_next e r
  end.

Definition i_insert (t : ival) (l : list ival) : option (list ival) :=
  let '(a, b) := i_find (i_off t) l in
  match i_prev (list.last a) t with
  | None => None
  | Some t => Some (a ++ t :: i_next (i_end t) b)
  end.

(** The byte reached from [n], the pieces left and the last FIN. *)
Fixpoint i_present (l : list ival) (n : Z) (fin : bool) : Z * list ival * bool :=
  match l with
  | p :: r => if i_off p =? n then i_present r (i_end p) (i_fin p) else (n, l, fin)
  | [] => (n, [], fin)
  end.

(** *** Slices *)

Lemma zlen_slice o l : 0 <= o → 0 <= l → o + l <= zlen stream → zlen (slice o l) = l.
Proof. intros. unfold slice. rewrite zlen_ztake, zlen_zdrop. lia. Qed.

Lemma ztake_nil {A} n : ztake n (@nil A) = [].
Proof. apply take_nil. Qed.

Lemma slice_app o l k : 0 <= o → 0 <= l → 0 <= k → slice o (l + k) = slice o l ++ slice (o + l) k.
Proof.
  intros. unfold slice. replace (o + l) with (l + o) by lia. rewrite <- zdrop_zdrop by lia.
  set (x := zdrop o stream). destruct (Z.le_gt_cases l (zlen x)).
  - rewrite <- (ztake_zdrop l x) at 1. rewrite ztake_app_ge by (rewrite zlen_ztake; lia).
    do 2 f_equal. rewrite zlen_ztake. lia.
  - by rewrite (zdrop_all l), ztake_nil, app_nil_r, !ztake_all by lia.
Qed.

Lemma slice_adj o l i : 0 <= o → 0 <= i <= l → adj_bytes (slice o l) i = slice (o + i) (l - i).
Proof.
  intros Ho Hi. unfold adj_bytes. destruct (Z.leb_spec 0 i); [|lia].
  replace l with (i + (l - i)) at 1 by lia. rewrite slice_app by lia.
  destruct (Z.le_gt_cases i (zlen (zdrop o stream))) as [Hx|Hx].
  - unfold slice at 1. rewrite zdrop_app_ge by (rewrite zlen_ztake; lia).
    rewrite zlen_ztake, Z.max_r, Z.min_l, Z.sub_diag by lia. by rewrite zdrop_neg by lia.
  - rewrite zlen_zdrop in Hx. pose proof (zlen_nonneg stream).
    assert (slice (o + i) (l - i) = []) as ->.
    { unfold slice. by rewrite zdrop_all, ztake_nil by lia. }
    rewrite app_nil_r. apply zdrop_all. unfold slice. rewrite zlen_ztake, zlen_zdrop. lia.
Qed.

Lemma trim_mk p i : piece p → 0 <= i <= i_len p → trim_front i (mk p) = mk (trim_i i p).
Proof.
  intros (? & ? & _) Hi. unfold trim_front, mk, trim_i. cbn.
  rewrite u32_add, slice_adj by lia. by rewrite Z.add_assoc.
Qed.

(** *** The queue and the intervals *)

Lemma seq_gt_mk p t lo hi : hi - lo <= reach → lo <= i_off p <= hi → lo <= i_off t <= hi →
  SEQ_GT (ti_seq (mk p)) (ti_seq (mk t)) = (i_off t <? i_off p).
Proof.
  intros ? ? ?. rewrite SEQ_GT_eq. cbn. unfold reach in *. rewrite s32_seq by lia.
  destruct (Z.ltb_spec 0 (i_off p - i_off t)), (Z.ltb_spec (i_off t) (i_off p)); lia || done.
Qed.

Lemma find_after_mk t : ∀ l lo hi, hi - lo <= reach → sorted lo hi l → lo <= i_off t <= hi →
  find_after (ti_seq (mk t)) (mk <$> l) =
    (mk <$> (i_find (i_off t) l).1, mk <$> (i_find (i_off t) l).2).
Proof.
  induction l as [|p l IH]; intros lo hi Hr Hs Ht; [done|].
  destruct Hs as (Hp & Hlo & Hhi & Hs). pose proof Hp as (_ & Hl & _). unfold i_end in *.
  cbn [fmap list_fmap find_after i_find]. rewrite (seq_gt_mk p t lo hi) by lia.
  destruct (Z.ltb_spec (i_off t) (i_off p)); [done|].
  change (list_fmap _ _ mk l) with (mk <$> l).
  rewrite (IH lo hi); [|lia|..|lia].
  - by destruct (i_find (i_off t) l).
  - clear -Hs Hlo Hl. destruct l as [|p' l]; [done|]. destruct Hs as (? & ? & ? & ?).
    split_and!; try done. lia.
Qed.

Lemma last_mk (l : list ival) : list.last (mk <$> l) = mk <$> list.last l.
Proof. apply list.fmap_last. Qed.

Lemma sorted_weaken lo lo' hi l : lo' <= lo → sorted lo hi l → sorted lo' hi l.
Proof. destruct l as [|p l]; [done|]. intros ? (? & ? & ? & ?). split_and!; try done. lia. Qed.

Lemma sorted_app lo hi a b : sorted lo hi (a ++ b) ↔
  sorted lo hi a ∧ sorted (match list.last a with Some p => i_end p | None => lo end) hi b.
Proof.
  revert lo. induction a as [|p a IH]; intros lo; [by cbn; tauto|].
  cbn [app sorted]. rewrite IH. destruct a as [|p' a]; [cbn; tauto|].
  change (list.last (p :: p' :: a)) with (list.last (p' :: a)).
  destruct (list.last (p' :: a)) as [y|] eqn:Hy; [tauto|].
  by apply list.last_None in Hy.
Qed.

Lemma sorted_last lo hi a p : sorted lo hi a → list.last a = Some p →
  piece p ∧ lo <= i_off p ∧ i_end p <= hi.
Proof.
  revert lo. induction a as [|p' a IH]; intros lo Hs Hl; [done|].
  destruct Hs as (Hp & Hlo & Hhi & Hs). destruct a as [|p'' a]; [by injection Hl as <-|].
  destruct (IH _ Hs Hl) as (? & ? & ?). split_and!; try done.
  destruct Hp as (_ & ? & _). unfold i_end in *. lia.
Qed.

Lemma i_find_spec o l : ∀ lo hi, sorted lo hi l →
  let '(a, b) := i_find o l in
  l = a ++ b ∧ (∀ p, list.last a = Some p → i_off p <= o) ∧
  match b with [] => True | p :: _ => o < i_off p end.
Proof.
  induction l as [|p l IH]; intros lo hi Hs; [done|]. cbn [i_find].
  destruct (Z.ltb_spec o (i_off p)); [by split_and!|].
  destruct Hs as (_ & _ & _ & Hs). specialize (IH _ _ Hs). destruct (i_find o l) as [a b].
  destruct IH as (-> & Hl & Hb). split_and!; [done| |done].
  intros p' Hp'. destruct a as [|p'' a]; [by injection Hp' as <-|]. by apply Hl.
Qed.

Lemma trim_by_prev_mk p t lo hi : hi - lo <= reach → piece t →
  (∀ p', p = Some p' → piece p' ∧ lo <= i_off p' ∧ i_end p' <= hi ∧ i_off p' <= i_off t) →
  lo <= i_off t → i_end t <= hi →
  trim_by_prev (mk <$> p) (mk t) = mk <$> i_prev p t.
Proof.
  intros Hr Ht Hp Hlo Hhi. destruct p as [p|]; [|done]. cbn.
  destruct (Hp p eq_refl) as ((? & ? & _) & ? & ? & ?). pose proof Ht as (? & ? & _).
  unfold i_end, reach in *. rewrite s32_seq_len by lia.
  destruct (Z.ltb_spec 0 (i_off p + i_len p - i_off t)); [|done].
  destruct (Z.leb_spec (i_len t) (i_off p + i_len p - i_off t)); [done|].
  cbn. f_equal. apply trim_mk; [done|lia].
Qed.

Lemma trim_next_mk t : ∀ l lo hi, hi - lo <= reach → piece t → lo <= i_off t → i_end t <= hi →
  sorted lo hi l → trim_next (mk t) (mk <$> l) = mk <$> i_next (i_end t) l.
Proof.
  induction l as [|p l IH]; intros lo hi Hr Ht Hlo Hhi Hs; [done|].
  pose proof Hs as (Hp & Hlp & Hhp & Hs'). pose proof Ht as (? & ? & _). pose proof Hp as (? & ? & _).
  cbn [fmap list_fmap trim_next i_next]. cbn [mk ti_seq ti_len].
  unfold i_end, reach in *. rewrite s32_seq_len by lia.
  destruct (Z.leb_spec (i_off t + i_len t - i_off p) 0), (Z.leb_spec (i_off t + i_len t) (i_off p)); try lia; [done|].
  destruct (Z.ltb_spec (i_off t + i_len t - i_off p) (i_len p)),
    (Z.ltb_spec (i_off t + i_len t) (i_off p + i_len p)); try lia.
  - cbn [fmap list_fmap]. f_equal. apply (trim_mk p); [done|lia].
  - apply (IH lo hi); try done. eapply sorted_weaken; [|done]. lia.
Qed.

(** [seg_insert] is [i_insert]. *)
Lemma seg_insert_mk t l lo hi : hi - lo <= reach → piece t → lo <= i_off t → i_end t <= hi →
  sorted lo hi l → seg_insert (mk t) (mk <$> l) = (fmap mk : list ival → list tseg) <$> i_insert t l.
Proof.
  intros Hr Ht Hlo Hhi Hs. unfold seg_insert, i_insert.
  pose proof Ht as (? & ? & _). unfold i_end in *.
  rewrite (find_after_mk t l lo hi) by (done || lia).
  pose proof (i_find_spec (i_off t) l lo hi Hs) as Hf.
  destruct (i_find (i_off t) l) as [a b]. destruct Hf as (-> & Hla & Hb). cbn [fst snd].
  apply sorted_app in Hs as [Hsa Hsb]. rewrite last_mk.
  rewrite (trim_by_prev_mk _ t lo hi); try done.
  2:{ intros p Hp. destruct (sorted_last _ _ _ _ Hsa Hp) as (? & ? & ?). split_and!; try done. by apply Hla. }
  assert (Hprev : ∀ t', i_prev (list.last a) t = Some t' → piece t' ∧ i_off t <= i_off t' ∧ i_end t' = i_end t).
  { intros t' Ht'. unfold i_prev in Ht'. destruct (list.last a) as [p|]; [|by injection Ht' as <-].
    destruct Ht as (? & ? & ? & Hfin).
    destruct (Z.ltb_spec 0 (i_end p - i_off t)); [|by injection Ht' as <-].
    destruct (Z.leb_spec (i_len t) (i_end p - i_off t)); [done|].
    injection Ht' as <-. unfold trim_i, i_end, piece in *. cbn.
    split_and!; try lia. intros Hfi. specialize (Hfin Hfi). lia. }
  destruct (i_prev (list.last a) t) as [t'|]; [|done]. cbn [fmap option_fmap option_map].
  destruct (Hprev t' eq_refl) as (Ht' & Ho' & He'). unfold i_end in He'.
  rewrite fmap_app. cbn [fmap list_fmap]. do 3 f_equal.
  apply (trim_next_mk t' b lo hi); try done; unfold i_end; try lia.
  eapply sorted_weaken; [|done]. destruct (list.last a) as [p|] eqn:Hp; [|lia].
  destruct (sorted_last _ _ _ _ Hsa Hp) as ((_ & ? & _) & ? & _). unfold i_end. lia.
Qed.

(** *** What insertion keeps *)

Lemma covered_app a b x : covered (a ++ b) x ↔ covered a x ∨ covered b x.
Proof. apply Exists_app. Qed.

Lemma covered_cons p l x : covered (p :: l) x ↔ covers p x ∨ covered l x.
Proof. apply Exists_cons. Qed.

Lemma sorted_covered lo hi l x : sorted lo hi l → covered l x → lo <= x < hi.
Proof.
  revert lo. induction l as [|p l IH]; intros lo Hs Hc; [by apply Exists_nil in Hc|].
  destruct Hs as ((_ & ? & _) & ? & ? & Hs). apply covered_cons in Hc as [Hc|Hc].
  - unfold covers, i_end in *. lia.
  - specialize (IH _ Hs Hc). unfold i_end in *. lia.
Qed.

(** Trimming the following intervals up to [e] keeps them sorted after [e],
    and loses only bytes before [e]. *)
Lemma i_next_spec e hi : ∀ l lo, lo <= e <= hi → sorted lo hi l →
  sorted e hi (i_next e l) ∧ ∀ x, e <= x → covered (i_next e l) x ↔ covered l x.
Proof.
  induction l as [|p l IH]; intros lo He Hs; [done|].
  pose proof Hs as ((Ho & Hl & Hst & Hfin) & Hlo & Hhi & Hs'). cbn [i_next].
  destruct (Z.leb_spec e (i_off p)).
  { split; [|done]. by split_and!. }
  unfold i_end in *. destruct (Z.ltb_spec e (i_off p + i_len p)).
  - split.
    + cbn [sorted]. unfold trim_i, piece, i_end. cbn.
      replace (i_off p + (e - i_off p) + (i_len p - (e - i_off p))) with (i_off p + i_len p) by lia.
      split_and!; try done; lia.
    + intros x Hx. rewrite !covered_cons. unfold covers, trim_i, i_end. cbn. split; (intros [?|?]; [left; lia|by right]).
  - destruct (IH (i_off p + i_len p)) as [IH1 IH2]; [lia|done|]. split; [done|].
    intros x Hx. rewrite (IH2 x Hx), covered_cons. unfold covers, i_end. split; [by right|intros [?|?]; [lia|done]].
Qed.

Lemma i_insert_spec t l lo hi : piece t → lo <= i_off t → i_end t <= hi → sorted lo hi l →
  match i_insert t l with
  | None => ∀ x, covers t x → covered l x
  | Some l' => sorted lo hi l' ∧ ∀ x, covered l' x ↔ covers t x ∨ covered l x
  end.
Proof.
  intros (Ho & Hl & Hst & Hfin) Hlo Hhi Hs. unfold i_insert.
  pose proof (i_find_spec (i_off t) l lo hi Hs) as Hf.
  destruct (i_find (i_off t) l) as [a b]. destruct Hf as (-> & Hla & Hb).
  apply sorted_app in Hs as [Hsa Hsb].
  set (e := match list.last a with Some p => i_end p | None => lo end) in *.
  assert (Hb' : sorted (Z.max e (i_off t)) hi b).
  { destruct b as [|p b]; [done|]. destruct Hsb as (? & ? & ? & ?). split_and!; try done. lia. }
  assert (Hins : ∀ t', piece t' → e <= i_off t' → i_end t' = i_end t → i_off t <= i_off t' →
    (∀ x, covers t x ↔ covers t' x ∨ covers t x ∧ x < i_off t') →
    (∀ x, covers t x → x < i_off t' → covered a x) →
    sorted lo hi (a ++ t' :: i_next (i_end t') b) ∧
    ∀ x, covered (a ++ t' :: i_next (i_end t') b) x ↔ covers t x ∨ covered (a ++ b) x).
  { intros t' Ht' Het' He' Hot' Hc Hca. pose proof Ht' as (_ & Hl' & _). unfold i_end in *.
    destruct (i_next_spec (i_off t' + i_len t') hi b (Z.max e (i_off t))) as [Hn1 Hn2];
      [destruct b; unfold i_end in *; lia|done|].
    split.
    - apply sorted_app. split; [done|]. fold e. cbn [sorted]. unfold i_end. split_and!; try done; lia.
    - intros x. rewrite !covered_app, covered_cons. rewrite (Hc x). unfold covers, i_end in *.
      destruct (Z.lt_ge_cases x (i_off t' + i_len t')) as [Hx|Hx].
      + assert (¬ covered (i_next (i_off t' + i_len t') b) x).
        { intros Hn. pose proof (sorted_covered _ _ _ _ Hn1 Hn). lia. }
        split; [tauto|]. intros [[?|[? ?]]|[?|Hbx]]; [tauto|left; by apply Hca|by left|].
        pose proof (sorted_covered _ _ _ _ Hb' Hbx) as Hxb.
        destruct (Z.lt_ge_cases x (i_off t')); [|right; left; lia].
        left. apply Hca; lia.
      + rewrite (Hn2 x Hx). split; [tauto|]. intros [[?|[? ?]]|?]; [tauto|lia|tauto]. }
  unfold i_prev. destruct (list.last a) as [p|] eqn:Hp.
  - pose proof (Hla p eq_refl) as Hpo.
    assert (Hcov : ∀ x, i_off p <= x < i_end p → covered a x).
    { intros x Hx. apply list.Exists_exists. exists p. split; [by apply last_Some_elem_of|exact Hx]. }
    destruct (Z.ltb_spec 0 (i_end p - i_off t)).
    + destruct (Z.leb_spec (i_len t) (i_end p - i_off t)).
      * intros x Hx. apply covered_app. left. apply Hcov. unfold covers, i_end in *. lia.
      * apply Hins; unfold piece, trim_i, covers, i_end in *; cbn; try lia.
        -- split_and!; try lia. intros Hfi. specialize (Hfin Hfi). lia.
        -- intros x ? ?. apply Hcov. lia.
    + apply Hins; try done; [lia|unfold covers; tauto|unfold covers; lia].
  - apply Hins; try done; [unfold covers; tauto|unfold covers; lia].
Qed.

(** *** Presentation *)

Lemma i_present_spec hi : ∀ l n fin, n <= hi → sorted n hi l →
  let '(n', l', fin') := i_present l n fin in
  n <= n' <= hi ∧ sorted n' hi l' ∧ ¬ covered l' n' ∧
  (n' <= zlen stream ∨ n' = n) ∧
  (∀ x, n <= x < n' → covered l x) ∧
  (∀ x, n' <= x → covered l' x ↔ covered l x) ∧
  (fin' = true → n' = zlen stream ∨ n' = n ∧ fin = true).
Proof.
  induction l as [|p l IH]; intros n fin Hhi Hs; cbn [i_present].
  { split_and!; try done; try lia; [by intros ?%Exists_nil|by right]. }
  pose proof Hs as ((Ho & Hl & Hst & Hfin) & Hlo & Hhp & Hs'). fold (i_end p) in *.
  destruct (Z.eqb_spec (i_off p) n) as [Hn|Hn].
  - specialize (IH (i_end p) (i_fin p) Hhp Hs').
    destruct (i_present l (i_end p) (i_fin p)) as [[n' l'] fin'].
    destruct IH as (H1 & H2 & H3 & H4 & H5 & H6 & H7).
    unfold i_end in *. split_and!; try done; try lia.
    + intros x Hx. apply covered_cons. unfold covers, i_end.
      destruct (Z.lt_ge_cases x (i_off p + i_len p)); [left; lia|right; apply H5; lia].
    + intros x Hx. rewrite (H6 x Hx), covered_cons. unfold covers, i_end. split; [by right|].
      intros [?|?]; [lia|done].
    + intros [?|[? ?]]%H7; [by left|left]. specialize (Hfin ltac:(done)). lia.
  - split_and!; try done; try lia; [|by right].
    intros [Hc|Hc]%covered_cons.
    + unfold covers in Hc. lia.
    + pose proof (sorted_covered _ _ _ _ Hs' Hc). unfold i_end in *. lia.
Qed.

(** The connection holds the first [n] bytes of the stream after [initial],
    and the intervals [l] are queued. *)
Record rep (initial : bytes) (n : Z) (l : list ival) (c : conn E B) : Prop := {
  rep_queue : seg_queue (tp c) = mk <$> l;
  rep_nxt : get rcv_nxt c = u32 (base + n);
  rep_rcv : sb_bytes (so_rcv (so c)) = initial ++ slice 0 n;
  rep_open : sflag SS_CANTRCVMORE c = false;
  rep_state : state c = TCPS_ESTABLISHED
}.

Lemma seq_eq_mk p n : -reach <= i_off p - n <= reach →
  (ti_seq (mk p) =? u32 (base + n)) = (i_off p =? n).
Proof.
  intros Hr. unfold reach in Hr. cbn. pose proof (s32_seq base (i_off p) n) as Hs.
  destruct (Z.eqb_spec (u32 (base + i_off p)) (u32 (base + n))) as [He|He], (Z.eqb_spec (i_off p) n) as [Hn|Hn]; try done.
  - rewrite He, Z.sub_diag in Hs. change (s32 0) with 0 in Hs. lia.
  - by rewrite Hn in He.
Qed.

(** One more piece accepted. *)
Lemma rep_accept initial n l p c : 0 <= n → piece p → i_off p = n → rep initial n (p :: l) c →
  rep initial (i_end p) l
    (set_rcv (so_append (ti_data (mk p)) (so_rcv (so c)))
       (set_queue (mk <$> l) (set rcv_nxt (get rcv_nxt c + ti_len (mk p)) c))).
Proof.
  intros Hn (_ & Hl & _) Ho [Hq Hx Hr Hop Hst]. unfold i_end. split; conn_simpl; try done.
  - rewrite store_u32, Hx, u32_add by done. cbn. f_equal. lia.
  - rewrite so_append_bytes, Hr. cbn [mk ti_data]. rewrite Ho, <- app_assoc, slice_app by lia. done.
Qed.

Lemma present_loop_mk initial hi : ∀ l n fin c, 0 <= n <= hi → hi - n <= reach → sorted n hi l →
  rep initial n l c →
  let '(n', l', fin') := i_present l n fin in
  ∃ c', present_loop (mk <$> l) fin c = (fin', c') ∧ rep initial n' l' c'.
Proof.
  induction l as [|p l IH]; intros n fin c Hn Hr Hs Hc; [by exists c|].
  pose proof Hs as (Hp & Hlo & Hhp & Hs'). pose proof Hp as (Ho & Hl & _). unfold i_end in Hhp.
  cbn [i_present fmap list_fmap present_loop].
  rewrite (rep_nxt _ _ _ _ Hc), seq_eq_mk by (unfold reach in *; lia).
  destruct (Z.eqb_spec (i_off p) n) as [He|He]; [|by exists c].
  change (list_fmap _ _ mk l) with (mk <$> l).
  conn_simpl. rewrite (rep_open _ _ _ _ Hc), <- (rep_nxt _ _ _ _ Hc).
  apply (IH (i_end p)); unfold i_end; [lia|lia|done|].
  apply (rep_accept initial n); [lia|done|done|done].
Qed.

Lemma est_syn : TCPS_HAVERCVDSYN TCPS_ESTABLISHED = true.
Proof.
  rewrite HAVERCVDSYN_eq. pose proof tcps_eq as He. cbn in He.
  injection He as _ _ _ _ -> _. done.
Qed.

Lemma rep_wake initial n l c : rep initial n l c → rep initial n l (sorwakeup c).
Proof. by intros [? ? ? ? ?]. Qed.
Lemma rep_ack initial n l f b c : rep initial n l c → rep initial n l (set_flag f b c).
Proof. by intros [? ? ? ? ?]. Qed.

Lemma present_mk initial hi n l c : 0 <= n <= hi → hi - n <= reach → sorted n hi l →
  rep initial n l c →
  let '(n', l', fin') := i_present l n false in
  ∃ c', present c = (fin', c') ∧ rep initial n' l' c'.
Proof.
  intros Hn Hr Hs Hc. pose proof (present_loop_mk initial hi l n false c Hn Hr Hs Hc) as Hl.
  unfold present. rewrite (rep_state _ _ _ _ Hc), est_syn, (rep_queue _ _ _ _ Hc). cbn [negb].
  destruct l as [|p l]; [by exists c|].
  destruct Hs as ((Ho & Hlp & _) & Hlo & Hhp & _). unfold i_end in Hhp.
  cbn [fmap list_fmap] in *.
  rewrite (rep_nxt _ _ _ _ Hc), seq_eq_mk by (unfold reach in *; lia).
  destruct (Z.eqb_spec (i_off p) n) as [He|He]; cbn [negb].
  - rewrite bool_decide_false by done. cbn [andb].
    destruct (i_present (p :: l) n false) as [[n' l'] fin']. destruct Hl as (c' & -> & Hc').
    exists (sorwakeup c'). split; [done|]. by apply rep_wake.
  - cbn [i_present]. apply Z.eqb_neq in He. rewrite He. by exists c.
Qed.

(** The state reached by a segment within the window. *)
Record accepted (t : ival) (n : Z) (l : list ival) (n' : Z) (l' : list ival) (fin : bool) : Prop := {
  acc_n : n <= n' <= zlen stream;
  acc_sorted : sorted n' (n' + reach) l';
  acc_gap : ¬ covered l' n';
  acc_taken x : n <= x < n' → covered (t :: l) x;
  acc_left x : n' <= x → covered l' x ↔ covered (t :: l) x;
  acc_fin : fin = true → n' = zlen stream
}.

Lemma sorted_hi hi hi' : hi <= hi' → ∀ l lo, sorted lo hi l → sorted lo hi' l.
Proof.
  intros Hh. induction l as [|p l IH]; [done|]. intros lo (? & ? & ? & ?).
  split_and!; try done; [lia|]. by apply IH.
Qed.

Lemma present_accepted t n l l' : 0 <= n <= zlen stream → sorted n (n + reach) l' →
  (∀ x, n <= x → covered l' x ↔ covered (t :: l) x) →
  let '(n', l2, fin) := i_present l' n false in accepted t n l n' l2 fin.
Proof.
  intros Hn Hs Hc. pose proof (i_present_spec (n + reach) l' n false ltac:(unfold reach; lia) Hs) as Hp.
  destruct (i_present l' n false) as [[n' l2] fin].
  destruct Hp as (H1 & H2 & H3 & H4 & H5 & H6 & H7). split; try done.
  - lia.
  - eapply sorted_hi; [|done]. lia.
  - intros x Hx. apply Hc; [lia|]. by apply H5.
  - intros x Hx. rewrite (H6 x Hx). apply Hc. lia.
  - intros [?|[_ ?]]%H7; done.
Qed.

Lemma TCP_REASS_mk initial t n l c : piece t → 0 <= n <= zlen stream → n <= i_off t →
  i_end t <= n + reach → sorted n (n + reach) l → ¬ covered l n → rep initial n l c →
  ∃ n' l' fin c', TCP_REASS (mk t) c = (fin, c') ∧ rep initial n' l' c' ∧ accepted t n l n' l' fin.
Proof.
  intros Ht Hn Hlo Hhi Hs Hgap Hc. unfold TCP_REASS.
  pose proof Ht as (_ & Hlt & Het & Hft). fold (i_end t) in *.
  destruct (_ && _ && _) eqn:Hfast.
  - rewrite !andb_true_iff, !bool_decide_eq_true, (rep_nxt _ _ _ _ Hc), (rep_queue _ _ _ _ Hc) in Hfast.
    destruct Hfast as [[Hseq Hq] _].
    rewrite seq_eq_mk in Hseq by (unfold i_end, reach in *; lia). apply Z.eqb_eq in Hseq.
    destruct l; [|done]. unfold i_end in *.
    exists (i_end t), [], (i_fin t). eexists. split; [reflexivity|]. split; [apply rep_wake|].
    + destruct Hc as [Hq' Hx Hrc Hop Hst]. unfold i_end. split; conn_simpl; try done.
      * rewrite store_u32, Hx, u32_add by done. cbn. f_equal. lia.
      * rewrite so_append_bytes, Hrc. cbn [mk ti_data]. rewrite Hseq, <- app_assoc, slice_app by lia. done.
    + split; unfold i_end; try done.
      * lia.
      * by intros ?%Exists_nil.
      * intros x Hx. apply covered_cons. left. unfold covers, i_end. lia.
      * intros x Hx. rewrite covered_cons. unfold covers, i_end. split; [by right|intros [?|?]; [lia|done]].
  - unfold tcp_reass. rewrite (rep_queue _ _ _ _ Hc).
    rewrite (seg_insert_mk t l n (n + reach)) by (done || lia).
    pose proof (i_insert_spec t l n (n + reach) Ht Hlo Hhi Hs) as Hi.
    destruct (i_insert t l) as [l2|]; cbn [fmap option_fmap option_map].
    + destruct Hi as [Hs2 Hc2].
      pose proof (present_mk initial (n + reach) n l2 (set_queue (mk <$> l2) c)
        ltac:(unfold reach; lia) ltac:(lia) Hs2) as Hp.
      pose proof (present_accepted t n l l2 Hn Hs2 (λ x _, iff_trans (Hc2 x) (iff_sym (covered_cons _ _ _)))) as Ha.
      destruct (i_present l2 n false) as [[n' l'] fin].
      destruct Hp as (c' & -> & Hc'); [by destruct Hc as [? ? ? ? ?]|].
      exists n', l', fin. eexists. split; [reflexivity|]. split; [by apply rep_ack|done].
    + exists n, l, false. eexists. split; [reflexivity|]. split; [by apply rep_ack|].
      split; try done; [lia|intros; lia|]. intros x _. rewrite covered_cons.
      split; [by right|intros [?|?]; [by apply Hi|done]].
Qed.

(** *** Arrivals *)

(** The segments arriving one after the other; the last FIN reported. *)
Fixpoint arrive (ts : list ival) (fin : bool) c : bool * conn E B :=
  match ts with
  | [] => (fin, c)
  | t :: r => let '(f, c) := TCP_REASS (mk t) c in arrive r (fin || f) c
  end.

(** Every segment lies within the window when it arrives: between the bytes
    already delivered and [reach] bytes further. *)
Fixpoint windowed (initial : bytes) (ts : list ival) c : Prop :=
  match ts with
  | [] => True
  | t :: r =>
      let n := rcv_cc c - zlen initial in
      piece t ∧ n <= i_off t ∧ i_end t <= n + reach ∧ windowed initial r (TCP_REASS (mk t) c).2
  end.

Lemma arrive_inv initial : ∀ ts l n fin c, 0 <= n <= zlen stream → sorted n (n + reach) l →
  ¬ covered l n → rep initial n l c → windowed initial ts c →
  ∃ n' l', rep initial n' l' (arrive ts fin c).2 ∧ n <= n' <= zlen stream ∧
    (∀ x, n <= x < n' → covered (ts ++ l) x) ∧ ¬ covered (ts ++ l) n' ∧
    ((arrive ts fin c).1 = true → fin = true ∨ n' = zlen stream).
Proof.
  induction ts as [|t ts IH]; intros l n fin c Hn Hs Hgap Hc Hw; cbn [arrive app].
  { exists n, l. split_and!; try done; try lia. by left. }
  destruct Hw as (Ht & Hlo & Hhi & Hw).
  assert (rcv_cc c - zlen initial = n) as He.
  { unfold rcv_cc. rewrite (rep_rcv _ _ _ _ Hc), zlen_app, zlen_slice by lia. lia. }
  rewrite He in *.
  destruct (TCP_REASS_mk initial t n l c Ht Hn Hlo Hhi Hs Hgap Hc) as (n' & l' & f & c' & Heq & Hc' & Ha).
  rewrite Heq in *. cbn [snd] in Hw.
  destruct Ha as [Hn' Hs' Hg' Htk Hlf Hfi].
  destruct (IH l' n' (fin || f) c') as (n2 & l2 & H1 & H2 & H3 & H4 & H5); [lia|done|done|done|done|].
  exists n2, l2. split_and!; try done; try lia.
  - intros x Hx. rewrite covered_cons, covered_app.
    destruct (Z.lt_ge_cases x n') as [Hlt|Hge].
    + specialize (Htk x ltac:(lia)). apply covered_cons in Htk. tauto.
    + specialize (H3 x ltac:(lia)). rewrite covered_app, (Hlf x Hge), covered_cons in H3. tauto.
  - rewrite covered_cons, covered_app. rewrite covered_app, (Hlf n2), covered_cons in H4 by lia. tauto.
  - intros Hf. destruct (H5 Hf) as [Ho|?]; [|by right].
    destruct fin; [by left|]. right. specialize (Hfi Ho). lia.
Qed.

End Spec.

(** ** Reassembly is in order *)

(** C5: Segments of the peer's stream that arrive in any order, overlapping
    or repeated, on an established connection, each within the window when it
    arrives: the socket receives, after what it had, exactly the longest
    prefix of the stream that the arrived segments cover without a gap, and
    [rcv_nxt] is the sequence number after it; FIN is reported only when the
    whole stream has been delivered. *)
Theorem reass_stream {E B} `{!TcpDefs, !TcpDefsLaws, !SoBuf B, !SoBufLaws B}
  (base : Z) (stream initial : bytes) (ts : list ival) (c : conn E B) :
  state c = TCPS_ESTABLISHED → sflag SS_CANTRCVMORE c = false → seg_queue (tp c) = [] →
  get rcv_nxt c = u32 base → sb_bytes (so_rcv (so c)) = initial →
  windowed base stream initial ts c →
  let '(fin, c') := arrive base stream ts false c in
  ∃ n, 0 <= n <= zlen stream ∧
    sb_bytes (so_rcv (so c')) = initial ++ ztake n stream ∧ get rcv_nxt c' = u32 (base + n) ∧
    (∀ x, 0 <= x < n → covered ts x) ∧ ¬ covered ts n ∧ (fin = true → n = zlen stream).
Proof.
  intros Hst Hop Hq Hx Hr Hw. pose proof (zlen_nonneg stream).
  destruct (arrive_inv base stream initial ts [] 0 false c) as (n & l & Hc & Hn & Hcov & Hgap & Hfin).
  - lia.
  - done.
  - by intros ?%Exists_nil.
  - split; [done|by rewrite Z.add_0_r| |done|done]. by rewrite Hr, app_nil_r.
  - done.
  - destruct (arrive base stream ts false c) as [fin c']. destruct Hc as [_ Hx' Hr' _ _].
    rewrite app_nil_r in Hcov, Hgap. exists n. split_and!; try done; try lia.
    intros Hf. by destruct (Hfin Hf).
Qed.

Import Demo.

(** Twelve bytes whose sequence numbers wrap, in six segments: two out of
    order that overlap, a repeated one and the FIN before the gap is filled. *)
Definition reass_demo : conn unit bytes :=
  demo_conn TCPS_ESTABLISHED (λ f, match f with rcv_nxt => 4294967290 | _ => 0 end) tt.
Definition reass_demo_stream : bytes := [10; 11; 12; 13; 14; 15; 16; 17; 18; 19; 20; 21].
Definition reass_demo_segs : list ival :=
  [MkIval 0 2 false; MkIval 6 4 false; MkIval 4 4 false; MkIval 9 3 true; MkIval 4 2 false;
   MkIval 2 3 false].

Lemma reass_stream_witness :
  (arrive 4294967290 reass_demo_stream reass_demo_segs false reass_demo).1 = true ∧
  let '(fin, c') := arrive 4294967290 reass_demo_stream reass_demo_segs false reass_demo in
  ∃ n, 0 <= n <= zlen reass_demo_stream ∧
    sb_bytes (so_rcv (so c')) = [] ++ ztake n reass_demo_stream ∧
    get rcv_nxt c' = u32 (4294967290 + n) ∧
    (∀ x, 0 <= x < n → covered reass_demo_segs x) ∧ ¬ covered reass_demo_segs n ∧
    (fin = true → n = zlen reass_demo_stream).
Proof.
  split; [vm_compute; reflexivity|].
  apply (reass_stream 4294967290 reass_demo_stream [] reass_demo_segs reass_demo);
    [reflexivity|reflexivity|reflexivity|reflexivity|reflexivity|].
  unfold reass_demo_segs, windowed, piece, i_end, reach.
  repeat match goal with
  | |- context [rcv_cc ?c] => let n := eval vm_compute in (rcv_cc c) in
      replace (rcv_cc c) with n by (vm_compute; reflexivity)
  end.
  change (zlen reass_demo_stream) with 12. change (zlen (@nil Z)) with 0. cbn [i_off i_len i_fin].
  repeat split; done || lia.
Defined.
