(* ===== verification/TcpSubr.v ===== *)
(** * Control blocks of TCP: creation, estimates and notifications

    Parts of [tcp_subr.c], and the routines of [tcp_input.c] and
    [tcp_output.c] that keep the estimates of a connection: [tcp_xmit_timer]
    (round trip time), [tcp_mss] (segment size, from the route) and
    [tcp_setpersist].  Buffers, IP and the route of a connection are the class
    [TcpEnv]. *)
From Stdlib Require Import ZArith Lia Bool.
From stdpp Require Import base tactics list numbers option.
From S2P Require Import Prelude TcpDefs.

Local Open Scope Z_scope.

(** The route of a connection: what TCP reads and writes of it. *)
Record rtentry := MkRt {
  rt_dst_any : bool;               (** the default route *)
  if_mtu : Z;
  lock_rtt : bool; lock_rttvar : bool; lock_ssthresh : bool;
  rmx_mtu : Z; rmx_rtt : Z; rmx_rttvar : Z; rmx_ssthresh : Z; rmx_sendpipe : Z
}.

Class TcpEnv (E : Type) := {
  mHdrClGet : Z → E → bool * E;                         (** header space *)
  m_copy : bytes → Z → Z → E → option bytes * E;        (** data, offset, length *)
  ip_output : outseg → bool → E → Z * E;                (** [SO_DONTROUTE] *)
  tcp_now : E → Z;
  tcp_tick : E → E;                                     (** [tcp_now++], [tcp_iss] advances *)
  max_linkhdr : Z;
  ro_rt : E → option rtentry;                           (** the cached route *)
  set_rt : rtentry → E → E;
  rtalloc : E → E;
  faddr_any : E → bool;
  in_localaddr : E → bool
}.

(** A copy is the requested part. *)
Class TcpEnvLaws E `{TcpEnv E} := {
  m_copy_slice d off len e x : 0 <= off → 0 < len → off + len <= zlen d →
    (m_copy d off len e).1 = Some x → x = ztake len (zdrop off d)
}.

(** Big endian words of a header. *)
Definition net16 (v : Z) : bytes := [u8 (v / 256); u8 v].
Definition net32 (v : Z) : bytes := net16 (v / 65536) ++ net16 v.

Section Subr.
Context {E B : Type} `{!TcpDefs} `{!SoBuf B} `{!TcpEnv E}.
Implicit Types c : conn E B.

Definition tcp_backoff : list Z := [1; 2; 4; 8; 16; 32; 64; 64; 64; 64; 64; 64; 64].
Definition backoff c : Z := nth (Z.to_nat (get t_rxtshift c)) tcp_backoff 0.

Definition REXMTVAL c : Z := TCP_REXMTVAL (get t_srtt c) (get t_rttvar c).

Definition panic c : conn E B := emit Panic c.

(** After the allocation, which [tcp_attach] does; [s] is the socket it is for. *)
Definition tcp_newtcpcb (s : socket B) (e : E) : conn E B :=
  let c := MkConn (MkTcpcb TCPS_CLOSED (λ _, 0) (λ _, false) []) false s e [] in
  let c := set t_maxseg tcp_mssdflt c in
  let c := if tcp_do_rfc1323 then set_flag TF_REQ_SCALE true (set_flag TF_REQ_TSTMP true c) else c in
  let c := set t_srtt TCPTV_SRTTBASE c in
  let c := set t_rttvar (Z.shiftl (tcp_rttdflt * PR_SLOWHZ) 2) c in
  let c := set t_rttmin TCPTV_MIN c in
  let c := set t_rxtcur (TCPT_RANGESET (Z.shiftr (Z.shiftr TCPTV_SRTTBASE 2 + Z.shiftl TCPTV_SRTTDFLT 2) 1)
                           TCPTV_MIN TCPTV_REXMTMAX) c in
  let c := set snd_cwnd (Z.shiftl TCP_MAXWIN TCP_MAX_WINSHIFT) c in
  set snd_ssthresh (Z.shiftl TCP_MAXWIN TCP_MAX_WINSHIFT) c.

Definition tcp_quench c : conn E B := set snd_cwnd (get t_maxseg c) c.

Definition tcp_notify (error : Z) c : conn E B :=
  if bool_decide (state c = TCPS_ESTABLISHED) &&
     ((error =? EHOSTUNREACH) || (error =? ENETUNREACH) || (error =? EHOSTDOWN))
  then c
  else
    let c := if (tcps (state c) <? tcps TCPS_ESTABLISHED) && (3 <? get t_rxtshift c) &&
                negb (get t_softerror c =? 0)
             then set_error error c else set t_softerror error c in
    sowwakeup (sorwakeup c).

Definition tcp_canceltimers c : conn E B :=
  set TCPT_2MSL 0 (set TCPT_KEEP 0 (set TCPT_PERSIST 0 (set TCPT_REXMT 0 c))).

Definition tcp_setpersist c : conn E B :=
  let t := Z.shiftr (Z.shiftr (get t_srtt c) 2 + get t_rttvar c) 1 in
  let c := if get TCPT_REXMT c =? 0 then c else panic c in
  let c := set TCPT_PERSIST (TCPT_RANGESET (t * backoff c) TCPTV_PERSMIN TCPTV_PERSMAX) c in
  if get t_rxtshift c <? TCP_MAXRXTSHIFT then set t_rxtshift (get t_rxtshift c + 1) c else c.

(** The smoothed round trip time and its variance, moved by [delta]. *)
Definition xmit_srtt (delta : Z) c : conn E B :=
  let c := set t_srtt (get t_srtt c + delta) c in
  if get t_srtt c <=? 0 then set t_srtt 1 c else c.

Definition xmit_rttvar (delta : Z) c : conn E B :=
  let delta := if delta <? 0 then s16 (- delta) else delta in
  let delta := s16 (delta - Z.shiftr (get t_rttvar c) TCP_RTTVAR_SHIFT) in
  let c := set t_rttvar (get t_rttvar c + delta) c in
  if get t_rttvar c <=? 0 then set t_rttvar 1 c else c.

Definition xmit_smooth (rtt : Z) c : conn E B :=
  if negb (get t_srtt c =? 0) then
    let delta := s16 (rtt - 1 - Z.shiftr (get t_srtt c) TCP_RTT_SHIFT) in
    xmit_rttvar delta (xmit_srtt delta c)
  else
    set t_rttvar (Z.shiftl rtt (TCP_RTTVAR_SHIFT - 1)) (set t_srtt (Z.shiftl rtt TCP_RTT_SHIFT) c).

(** [rtt] is a measurement in ticks. *)
Definition tcp_xmit_timer (rtt : Z) c : conn E B :=
  let c := xmit_smooth rtt c in
  let c := set t_rxtshift 0 (set t_rtt 0 c) in
  let c := set t_rxtcur (TCPT_RANGESET (REXMTVAL c) (get t_rttmin c) TCPTV_REXMTMAX) c in
  set t_softerror 0 c.

(** *** The maximum segment size *)

(** The route's estimates, when there is no measurement yet. *)
Definition mss_rtt (rt : rtentry) c : conn E B :=
  if (get t_srtt c =? 0) && negb (rmx_rtt rt =? 0) then
    let rtt := rmx_rtt rt in
    let c := if lock_rtt rt then set t_rttmin (Z.quot rtt (Z.quot RTM_RTTUNIT PR_SLOWHZ)) c else c in
    let c := set t_srtt (Z.quot rtt (Z.quot RTM_RTTUNIT (PR_SLOWHZ * TCP_RTT_SCALE))) c in
    let c := if negb (rmx_rttvar rt =? 0)
             then set t_rttvar (rmx_rttvar rt / Z.quot RTM_RTTUNIT (PR_SLOWHZ * TCP_RTTVAR_SCALE)) c
             else set t_rttvar (Z.quot (get t_srtt c * TCP_RTTVAR_SCALE) TCP_RTT_SCALE) c in
    set t_rxtcur (TCPT_RANGESET (Z.shiftr (Z.shiftr (get t_srtt c) 2 + get t_rttvar c) 1)
                    (get t_rttmin c) TCPTV_REXMTMAX) c
  else c.

Definition route_mss (rt : rtentry) c : Z :=
  if negb (rmx_mtu rt =? 0) then rmx_mtu rt - sizeof_tcpiphdr
  else
    let mss := if_mtu rt - sizeof_tcpiphdr in
    if in_localaddr (env c) then mss else Z.min mss tcp_mssdflt.

Definition tcp_mss (offer : Z) c : Z * conn E B :=
  let c :=
    match ro_rt (env c) with
    | None => if faddr_any (env c) then c else with_env (rtalloc (env c)) c
    | Some _ => c
    end in
  match ro_rt (env c) with
  | None => (tcp_mssdflt, c)
  | Some rt =>
      let c := mss_rtt rt c in
      let mss := route_mss rt c in
      let mss := if negb (offer =? 0) then Z.min mss offer else mss in
      let mss := Z.max mss 32 in
      let '(mss, c) :=
        if (mss <? get t_maxseg c) || negb (offer =? 0) then
          let bufsize := if rmx_sendpipe rt =? 0 then so_hiwat (so_snd (so c)) else rmx_sendpipe rt in
          let mss := if bufsize <? mss then bufsize else mss in
          (mss, set t_maxseg mss c)
        else (mss, c) in
      let c := set snd_cwnd mss c in
      let c := if negb (rmx_ssthresh rt =? 0)
               then set snd_ssthresh (Z.max (2 * mss) (rmx_ssthresh rt)) c else c in
      (mss, c)
  end.

End Subr.

(** ** The estimates stay in range *)

Section Estimates.
Context {E B : Type} `{!TcpDefs, !TcpDefsLaws, !SoBuf B, !TcpEnv E}.
Implicit Types c : conn E B.

(** Round trips of at most [R] ticks: a smoothed time of at most [R], scaled by
    8, and a variance of at most [R], scaled by 4. *)
Record est_ok (R : Z) c : Prop := {
  eo_srtt : 0 <= get t_srtt c <= 8 * R;
  eo_rttvar : 0 <= get t_rttvar c <= 4 * R;
  eo_rttmin : 0 <= get t_rttmin c <= TCPTV_REXMTMAX
}.

Lemma store_pos f v : 0 <= v < 16384 → is_u32 f = false → f ≠ t_iobc → f ≠ snd_scale → f ≠ rcv_scale →
  f ≠ request_r_scale → f ≠ requested_s_scale → f ≠ t_force → store f v = v.
Proof. intros. apply store_small; try done; naive_solver. Qed.

Lemma shift3 x : Z.shiftr x 3 = x / 8.
Proof. by rewrite Z.shiftr_div_pow2. Qed.
Lemma shift2 x : Z.shiftr x 2 = x / 4.
Proof. by rewrite Z.shiftr_div_pow2. Qed.

(** The new mean and variance after a measurement. *)
Definition smooth_srtt (rtt srtt : Z) : Z :=
  if srtt =? 0 then 8 * rtt else Z.max 1 (srtt + (rtt - 1 - srtt / 8)).
Definition smooth_rttvar (rtt srtt rttvar : Z) : Z :=
  if srtt =? 0 then 2 * rtt else Z.max 1 (rttvar + (Z.abs (rtt - 1 - srtt / 8) - rttvar / 4)).

Lemma smooth_range R rtt srtt rttvar : 1 <= rtt <= R → 0 <= srtt <= 8 * R → 0 <= rttvar <= 4 * R →
  0 < smooth_srtt rtt srtt <= 8 * R ∧ 0 < smooth_rttvar rtt srtt rttvar <= 4 * R.
Proof.
  intros. unfold smooth_srtt, smooth_rttvar. destruct (Z.eqb_spec srtt 0); [lia|].
  pose proof (Z.div_mod srtt 8 ltac:(done)). pose proof (Z.mod_pos_bound srtt 8 ltac:(done)).
  pose proof (Z.div_mod rttvar 4 ltac:(done)). pose proof (Z.mod_pos_bound rttvar 4 ltac:(done)).
  split; lia.
Qed.

Lemma xmit_srtt_spec d c : 0 <= get t_srtt c + d < 16384 →
  get t_srtt (xmit_srtt d c) = Z.max 1 (get t_srtt c + d) ∧
  ∀ f, f ≠ t_srtt → get f (xmit_srtt d c) = get f c.
Proof.
  intros Hr. unfold xmit_srtt. cbv zeta.
  assert (get t_srtt (set t_srtt (get t_srtt c + d) c) = get t_srtt c + d) as -> by (conn_simpl; by apply store_pos).
  destruct (Z.leb_spec (get t_srtt c + d) 0); split; try (intros f Hf; by rewrite !get_set_ne by done); conn_simpl.
  - rewrite store_pos by done. lia.
  - rewrite store_pos by done. lia.
Qed.

Lemma xmit_rttvar_spec d c : -4000 <= d <= 4000 → 0 <= get t_rttvar c <= 8000 →
  get t_rttvar (xmit_rttvar d c) = Z.max 1 (get t_rttvar c + (Z.abs d - get t_rttvar c / 4)) ∧
  ∀ f, f ≠ t_rttvar → get f (xmit_rttvar d c) = get f c.
Proof.
  intros Hd Hv. unfold xmit_rttvar. cbv zeta. destruct rtt_shifts as [_ ->]. rewrite shift2.
  pose proof (Z.div_mod (get t_rttvar c) 4 ltac:(done)). pose proof (Z.mod_pos_bound (get t_rttvar c) 4 ltac:(done)).
  assert ((if d <? 0 then s16 (- d) else d) = Z.abs d) as ->.
  { destruct (Z.ltb_spec d 0); [rewrite s16_id by lia|]; lia. }
  rewrite s16_id by lia. set (v := get t_rttvar c + _).
  assert (get t_rttvar (set t_rttvar v c) = v) as ->
    by (conn_simpl; apply store_pos; try done; unfold v; lia).
  destruct (Z.leb_spec v 0); split; try (intros f Hf; by rewrite !get_set_ne by done); conn_simpl.
  - rewrite store_pos by done. lia.
  - rewrite store_pos; try done; unfold v in *; lia.
Qed.

Lemma xmit_smooth_spec R rtt c : 1 <= rtt <= R → R <= 2000 → est_ok R c →
  get t_srtt (xmit_smooth rtt c) = smooth_srtt rtt (get t_srtt c) ∧
  get t_rttvar (xmit_smooth rtt c) = smooth_rttvar rtt (get t_srtt c) (get t_rttvar c) ∧
  get t_rttmin (xmit_smooth rtt c) = get t_rttmin c.
Proof.
  intros Hr HR []. pose proof (smooth_range R rtt _ _ Hr eo_srtt0 eo_rttvar0) as [Hs Hv].
  unfold xmit_smooth, smooth_srtt, smooth_rttvar in *. destruct rtt_shifts as [-> ->].
  change (2 - 1) with 1. rewrite shift3, !Z.shiftl_mul_pow2 by done.
  destruct (Z.eqb_spec (get t_srtt c) 0) as [Hz|Hz]; cbn [negb]; cbv zeta.
  { conn_simpl. change (2 ^ 3) with 8. change (2 ^ 1) with 2. rewrite !store_pos by (done || lia). lia. }
  pose proof (Z.div_mod (get t_srtt c) 8 ltac:(done)). pose proof (Z.mod_pos_bound (get t_srtt c) 8 ltac:(done)).
  rewrite s16_id by lia. set (d := rtt - 1 - get t_srtt c / 8) in *.
  destruct (xmit_srtt_spec d c) as [A1 A2]; [unfold d; lia|].
  destruct (xmit_rttvar_spec d (xmit_srtt d c)) as [B1 B2]; [unfold d; lia|rewrite A2 by done; lia|].
  by rewrite B1, !B2, A1, !A2 by done.
Qed.

End Estimates.

(** C36: A measured round trip of at most [R] ticks keeps the smoothed time and
    its variance positive and within the width of their members, they are the
    averages of RFC 793 and Jacobson (with gains 1/8 and 1/4, at least 1), the
    retransmission timeout lies between the route's minimum and the maximum,
    and the backoff, the running measurement and the soft error are cleared. *)
Theorem tcp_xmit_timer_bounds {E B} `{!TcpDefs, !TcpDefsLaws, !SoBuf B, !TcpEnv E}
  (R rtt : Z) (c : conn E B) : 1 <= rtt <= R → R <= 2000 → est_ok R c →
  let c' := tcp_xmit_timer rtt c in
  est_ok R c' ∧ 0 < get t_srtt c' ∧ 0 < get t_rttvar c' ∧
  get t_srtt c' = smooth_srtt rtt (get t_srtt c) ∧
  get t_rttvar c' = smooth_rttvar rtt (get t_srtt c) (get t_rttvar c) ∧
  get t_rttmin c <= get t_rxtcur c' <= TCPTV_REXMTMAX ∧
  get t_rxtshift c' = 0 ∧ get t_rtt c' = 0 ∧ get t_softerror c' = 0.
Proof.
  intros Hr HR Hok c'. destruct (xmit_smooth_spec R rtt c Hr HR Hok) as (Hs & Hv & Hm).
  pose proof Hok as []. pose proof (smooth_range R rtt _ _ Hr eo_srtt0 eo_rttvar0) as [Hs' Hv'].
  destruct timer_range as ((_ & _) & Hmax & _).
  unfold c', tcp_xmit_timer. cbv zeta. set (c1 := xmit_smooth rtt c) in *.
  match goal with |- context [TCPT_RANGESET ?v ?lo ?hi] => set (rv := TCPT_RANGESET v lo hi) end.
  assert (get t_rttmin c <= rv <= TCPTV_REXMTMAX) as Hrv.
  { unfold rv. conn_simpl. rewrite Hm. by apply RANGESET_range. }
  split; [split; conn_simpl; lia|]. conn_simpl. rewrite Hs, Hv, !store_pos by (done || lia).
  split_and!; done || lia.
Qed.

(** ** An environment *)

Module SubrDemo.

(** Buffers are there according to the state, IP accepts everything, and
    there is no route. *)
#[export] Instance demo_env : TcpEnv bool := {|
  mHdrClGet _ e := (e, e);
  m_copy d off len e := (if e then Some (ztake len (zdrop off d)) else None, e);
  ip_output _ _ e := (0, e);
  tcp_now _ := 1000; tcp_tick e := e;
  max_linkhdr := 16;
  ro_rt _ := None; set_rt _ e := e; rtalloc e := e; faddr_any _ := false; in_localaddr _ := true
|}.

#[export] Instance demo_env_laws : TcpEnvLaws bool.
Proof. split. intros d off len [] x ? ? ?; cbn; [|done]. by intros [= <-]. Qed.

(** The same, where buffers never run out. *)
#[export] Instance demo_env_unit : TcpEnv unit := {|
  mHdrClGet _ e := (true, e);
  m_copy d off len e := (Some (ztake len (zdrop off d)), e);
  ip_output _ _ e := (0, e);
  tcp_now _ := 1000; tcp_tick e := e;
  max_linkhdr := 16;
  ro_rt _ := None; set_rt _ e := e; rtalloc e := e; faddr_any _ := false; in_localaddr _ := true
|}.

#[export] Instance demo_env_unit_laws : TcpEnvLaws unit.
Proof. split. intros d off len [] x ? ? ?; cbn. by intros [= <-]. Qed.

End SubrDemo.

Import Demo SubrDemo.

Definition rtt_demo : conn unit bytes :=
  demo_conn TCPS_ESTABLISHED (λ f, match f with
    | t_srtt => 40 | t_rttvar => 8 | t_rttmin => 2 | t_rxtshift => 3 | _ => 0 end) tt.

Lemma tcp_xmit_timer_bounds_witness :
  get t_srtt (tcp_xmit_timer 10 rtt_demo) = 44 ∧
  let c' := tcp_xmit_timer 10 rtt_demo in
  est_ok 100 c' ∧ 0 < get t_srtt c' ∧ 0 < get t_rttvar c' ∧
  get t_srtt c' = smooth_srtt 10 (get t_srtt rtt_demo) ∧
  get t_rttvar c' = smooth_rttvar 10 (get t_srtt rtt_demo) (get t_rttvar rtt_demo) ∧
  get t_rttmin rtt_demo <= get t_rxtcur c' <= TCPTV_REXMTMAX ∧
  get t_rxtshift c' = 0 ∧ get t_rtt c' = 0 ∧ get t_softerror c' = 0.
Proof.
  split; [reflexivity|]. apply (tcp_xmit_timer_bounds 100 10 rtt_demo); [lia|lia|].
  split; vm_compute; split; discriminate.
Defined.
