(* ===== verification/TcpOutput.v ===== *)
(** * The output of TCP ([tcp_output.c])

    [tcp_output] decides whether a segment has to be sent, builds it from the
    socket buffer and the control block, and repeats while there is more than
    a segment to send.  The jumps of the source are the functions below: the
    length to send, the reasons to send, the options, the header, the state
    kept after a transmission (the source has it twice, for segments handed to
    IP and for segments for which there was no buffer), errors. *)
From Stdlib Require Import ZArith Lia Bool.
From stdpp Require Import base tactics list numbers option.
From S2P Require Import Prelude TcpDefs TcpSubr.

Local Open Scope Z_scope.

Section Output.
Context {E B : Type} `{!TcpDefs} `{!SoBuf B} `{!TcpEnv E}.
Implicit Types c : conn E B.

(** ** What to send *)

(** With [t_force]: the window to use and the flags. *)
Definition out_force (off win : Z) (flags : thflags) c : Z * thflags * conn E B :=
  if get t_force c =? 0 then (win, flags, c)
  else if win =? 0 then (1, if u32 off <? snd_cc c then set_fin false flags else flags, c)
  else (win, flags, set t_rxtshift 0 (set TCPT_PERSIST 0 c)).

Definition out_length (off win : Z) c : Z * conn E B :=
  let len := s32 (Z.min (snd_cc c) (u32 win) - off) in
  if len <? 0 then
    (0, if win =? 0 then set snd_nxt (get snd_una c) (set TCPT_REXMT 0 c) else c)
  else (len, c).

(** From [again:] to the receive window: offset, length, whether more is left
    to send, flags. *)
Definition out_plan c : Z * Z * bool * thflags * conn E B :=
  let off := s32 (get snd_nxt c - get snd_una c) in
  let win := s32 (Z.min (get snd_wnd c) (get snd_cwnd c)) in
  let flags := tcp_outflags (state c) in
  let '(win, flags, c) := out_force off win flags c in
  let '(len, c) := out_length off win c in
  let sendalot := get t_maxseg c <? len in
  let len := if sendalot then get t_maxseg c else len in
  let flags :=
    if SEQ_LT (get snd_nxt c + len) (get snd_una c + snd_cc c) then set_fin false flags else flags in
  (off, len, sendalot, flags, c).

(** The reasons to send data. *)
Definition send_data (idle : bool) (off len : Z) c : bool :=
  negb (len =? 0) &&
  ((len =? get t_maxseg c) ||
   ((idle || flag TF_NODELAY c) && (snd_cc c <=? u32 (len + off))) ||
   negb (get t_force c =? 0) ||
   (get max_sndwnd c / 2 <=? len) ||
   SEQ_LT (get snd_nxt c) (get snd_max c)).

Definition max_window c : Z := Z.shiftl TCP_MAXWIN (get rcv_scale c).

(** The reasons to send a window update. *)
Definition send_window (win : Z) c : bool :=
  (0 <? win) &&
  let adv := s32 (Z.min win (max_window c) - u32 (get rcv_adv c - get rcv_nxt c)) in
  (2 * get t_maxseg c <=? adv) || (so_hiwat (so_rcv (so c)) <=? s32 (2 * adv)).

(** The other reasons. *)
Definition send_control (flags : thflags) c : bool :=
  flag TF_ACKNOW c || (TH_SYN flags || TH_RST flags) || SEQ_GT (get snd_up c) (get snd_una c) ||
  (TH_FIN flags && (negb (flag TF_SENTFIN c) || (get snd_nxt c =? get snd_una c))).

(** No segment to send: perhaps into persist state. *)
Definition out_nothing c : conn E B :=
  if negb (snd_cc c =? 0) && (get TCPT_REXMT c =? 0) && (get TCPT_PERSIST c =? 0)
  then tcp_setpersist (set t_rxtshift 0 c)
  else c.

(** ** The segment *)

Definition syn_opts (flags : thflags) c : bytes * conn E B :=
  if TH_SYN flags then
    let c := set snd_nxt (get iss c) c in
    if flag TF_NOOPT c then ([], c)
    else
      let '(mss, c) := tcp_mss 0 c in
      let opt := [TCPOPT_MAXSEG; 4] ++ net16 (u16 mss) in
      if flag TF_REQ_SCALE c && (negb (TH_ACK flags) || flag TF_RCVD_SCALE c)
      then (opt ++ net32 (Z.lor (Z.lor (Z.shiftl TCPOPT_NOP 24) (Z.shiftl TCPOPT_WINDOW 16))
                            (Z.lor (Z.shiftl TCPOLEN_WINDOW 8) (get request_r_scale c))), c)
      else (opt, c)
  else ([], c).

Definition tstamp_opt (flags : thflags) c : bytes :=
  if flag TF_REQ_TSTMP c && negb (flag TF_NOOPT c) && negb (TH_RST flags) &&
     ((TH_SYN flags && negb (TH_ACK flags)) || flag TF_RCVD_TSTMP c)
  then TCPOPT_TSTAMP_HDR ++ net32 (tcp_now (env c)) ++ net32 (get ts_recent c)
  else [].

(** The options, and the data cut to leave room for them. *)
Definition out_opts (len : Z) (sendalot : bool) (flags : thflags) c
    : Z * bool * thflags * bytes * conn E B :=
  let '(opt, c) := syn_opts flags c in
  let opt := opt ++ tstamp_opt flags c in
  if u32 (get t_maxseg c - zlen opt) <? len
  then (u32 (get t_maxseg c - zlen opt), true, set_fin false flags, opt, c)
  else (len, sendalot, flags, opt, c).

(** The header mbuf and the copy of the data; no data is [Some []]. *)
Definition out_alloc (off len hdrlen : Z) c : option bytes * conn E B :=
  let '(ok, e) := mHdrClGet (max_linkhdr + hdrlen) (env c) in
  let c := with_env e c in
  if negb ok then (None, c)
  else if len =? 0 then (Some [], c)
  else let '(d, e) := m_copy (sb_bytes (so_snd (so c))) off len (env c) in (d, with_env e c).

(** The window to advertise. *)
Definition out_window (win : Z) c : Z :=
  let win := if (win <? so_hiwat (so_rcv (so c)) / 4) && (win <? get t_maxseg c) then 0 else win in
  let win := if max_window c <? win then max_window c else win in
  let adv := s32 (get rcv_adv c - get rcv_nxt c) in
  if win <? adv then adv else win.

(** The header fields; [win] is the window to advertise. *)
Definition out_seg (len win : Z) (flags : thflags) (opt data : bytes) c : outseg :=
  let urg := SEQ_GT (get snd_up c) (get snd_nxt c) in
  MkOut
    (if negb (len =? 0) || TH_SYN flags || TH_FIN flags || negb (get TCPT_PERSIST c =? 0)
     then get snd_nxt c else get snd_max c)
    (get rcv_nxt c)
    (if urg then set_urg true flags else flags)
    (u16 (Z.shiftr win (get rcv_scale c)))
    (if urg then u16 (get snd_up c - get snd_nxt c) else 0)
    opt data.

(** "If resending a FIN, be sure not to use a new sequence number." *)
Definition resend_fin (flags : thflags) c : conn E B :=
  if TH_FIN flags && flag TF_SENTFIN c && (get snd_nxt c =? get snd_max c)
  then set snd_nxt (get snd_nxt c - 1) c else c.

(** The urgent pointer is dragged along. *)
Definition drag_up c : conn E B :=
  if SEQ_GT (get snd_up c) (get snd_nxt c) then c else set snd_up (get snd_una c) c.

(** After a transmission, or instead of one for want of a buffer. *)
Definition time_it (startseq : Z) c : conn E B :=
  if SEQ_GT (get snd_nxt c) (get snd_max c) then
    let c := set snd_max (get snd_nxt c) c in
    if get t_rtt c =? 0 then set t_rtseq startseq (set t_rtt 1 c) else c
  else c.

Definition arm_rexmt c : conn E B :=
  if (get TCPT_REXMT c =? 0) && negb (get snd_nxt c =? get snd_una c) then
    let c := set TCPT_REXMT (get t_rxtcur c) c in
    if negb (get TCPT_PERSIST c =? 0) then set t_rxtshift 0 (set TCPT_PERSIST 0 c) else c
  else c.

Definition out_advance (len : Z) (flags : thflags) c : conn E B :=
  if (get t_force c =? 0) || (get TCPT_PERSIST c =? 0) then
    let startseq := get snd_nxt c in
    let c := if TH_SYN flags then set snd_nxt (get snd_nxt c + 1) c else c in
    let c := if TH_FIN flags
             then set_flag TF_SENTFIN true (set snd_nxt (get snd_nxt c + 1) c) else c in
    let c := set snd_nxt (get snd_nxt c + len) c in
    arm_rexmt (time_it startseq c)
  else if SEQ_GT (get snd_nxt c + len) (get snd_max c)
  then set snd_max (get snd_nxt c + len) c
  else c.

Definition out_error (error : Z) c : Z * conn E B :=
  if error =? ENOBUFS then (0, tcp_quench c)
  else if ((error =? EHOSTUNREACH) || (error =? ENETDOWN)) && TCPS_HAVERCVDSYN (state c)
  then (0, set t_softerror error c)
  else (error, c).

(** The segment has been sent. *)
Definition out_sent (win : Z) c : conn E B :=
  let c := if (0 <? win) && SEQ_GT (get rcv_nxt c + win) (get rcv_adv c)
           then set rcv_adv (get rcv_nxt c + win) c else c in
  let c := set last_ack_sent (get rcv_nxt c) c in
  set_flag TF_DELACK false (set_flag TF_ACKNOW false c).

(** [out:], for want of a buffer.  Unless an earlier segment of this call
    was handed to IP ([pktSent]) the segment counts as sent. *)
Definition out_unsent (pktSent : bool) (len : Z) (flags : thflags) c : conn E B :=
  if pktSent then c else out_advance len flags (drag_up c).

Inductive oresult := Return (error : Z) (c : conn E B) | Again (c : conn E B).

(** From [send:]. *)
Definition out_send (pktSent : bool) (off len : Z) (sendalot : bool) (flags : thflags) (win : Z) c : oresult :=
  let '(len, sendalot, flags, opt, c) := out_opts len sendalot flags c in
  let '(data, c) := out_alloc off len (sizeof_tcpiphdr + zlen opt) c in
  match data with
  | None =>
      let '(r, c) := out_error ENOBUFS (out_unsent pktSent len flags c) in Return r c
  | Some data =>
      let flags := if negb (len =? 0) && (u32 (off + len) =? snd_cc c) then set_push true flags else flags in
      let c := if flag T_TEMPLATE c then c else panic c in
      let c := resend_fin flags c in
      let win := out_window win c in
      let s := out_seg len win flags opt data c in
      let c := out_advance len flags (drag_up c) in
      let '(error, e) := ip_output s (sflag SO_DONTROUTE c) (env c) in
      let c := emit (Sent s) (with_env e c) in
      if negb (error =? 0) then let '(r, c) := out_error error c in Return r c
      else
        let c := out_sent win c in
        if sendalot then Again c else Return 0 c
  end.

Definition out_once (idle pktSent : bool) c : oresult :=
  let '(off, len, sendalot, flags, c) := out_plan c in
  let win := so_space (so_rcv (so c)) in
  if send_data idle off len c || send_window win c || send_control flags c
  then out_send pktSent off len sendalot flags win c
  else Return 0 (out_nothing c).

(** [again] is reached with a segment sent. *)
Fixpoint out_loop (fuel : nat) (idle pktSent : bool) c : option (Z * conn E B) :=
  match fuel with
  | O => None
  | S fuel =>
      match out_once idle pktSent c with
      | Return r c => Some (r, c)
      | Again c => out_loop fuel idle true c
      end
  end.

(** "We have been idle for a while": slow start. *)
Definition slow_start c : conn E B :=
  if (get snd_max c =? get snd_una c) && (get t_rxtcur c <=? get t_idle c)
  then set snd_cwnd (get t_maxseg c) c else c.

(** One round per segment; [fuel] bounds their number. *)
Definition tcp_output (fuel : nat) c : option (Z * conn E B) :=
  let idle := get snd_max c =? get snd_una c in
  out_loop fuel idle false (slow_start c).

End Output.
Arguments oresult : clear implicits.

(** ** What is sent *)

Section Spec.
Context {E B : Type} `{!TcpDefs, !TcpDefsLaws, !SoBuf B, !SoBufLaws B, !TcpEnv E, !TcpEnvLaws E}.
Implicit Types c : conn E B.

(** States whose segments have no SYN and an acknowledgment. *)
Definition synced (s : tcp_state) : Prop :=
  TH_SYN (tcp_outflags s) = false ∧ TH_ACK (tcp_outflags s) = true.

(** The connection is synchronised; [n] and [m] are the distances of [snd_nxt]
    and [snd_max] from [snd_una], and nothing was sent beyond the buffer but
    the FIN. *)
Record send_inv (n m : Z) c : Prop := {
  si_sync : synced (state c);
  si_nxt : get snd_nxt c = u32 (get snd_una c + n);
  si_max : get snd_max c = u32 (get snd_una c + m);
  si_una : get snd_una c = u32 (get snd_una c);
  si_nm : 0 <= n <= m;
  si_m : m <= snd_cc c + Z.b2z (flag TF_SENTFIN c);
  si_fin : flag TF_SENTFIN c = true → TH_FIN (tcp_outflags (state c)) = true → m = snd_cc c + 1;
  si_cc : snd_cc c < 1073741824
}.

(** The length of the options of a segment without SYN. *)
Definition opt_len c : Z :=
  if flag TF_REQ_TSTMP c && negb (flag TF_NOOPT c) && flag TF_RCVD_TSTMP c then 12 else 0.

(** Windows in their range, and segments with room for data. *)
Record send_ok c : Prop := {
  so_wnd : 0 <= get snd_wnd c < 4294967296;
  so_cwnd : 0 <= get snd_cwnd c < 4294967296;
  so_maxseg : opt_len c < get t_maxseg c < 65536;
  so_template : flag T_TEMPLATE c = true
}.

(** How far data may be sent. *)
Definition usable c : Z :=
  Z.max (Z.min (get snd_wnd c) (get snd_cwnd c)) (if get t_force c =? 0 then 0 else 1).

(** A segment that says nothing but the truth: its data are those of the
    socket buffer at its sequence number and lie in the window, its FIN is at
    the end of the buffer. *)
Definition seg_ok c (s : outseg) : Prop :=
  TH_SYN (o_flags s) = false ∧ TH_RST (o_flags s) = TH_RST (tcp_outflags (state c)) ∧
  TH_ACK (o_flags s) = true ∧ o_ack s = get rcv_nxt c ∧
  let k := u32 (o_seq s - get snd_una c) in
  (o_data s ≠ [] →
     o_data s = ztake (zlen (o_data s)) (zdrop k (sb_bytes (so_snd (so c)))) ∧
     k + zlen (o_data s) <= Z.min (snd_cc c) (usable c)) ∧
  (TH_FIN (o_flags s) = true → k + zlen (o_data s) = snd_cc c).

Lemma sync_flags s : 4 <= tcps s → synced s ∧ TH_RST (tcp_outflags s) = false.
Proof.
  unfold synced. rewrite outflags_eq. pose proof tcps_eq as He. injection He as H0' H1 H2 H3 _.
  destruct s; cbn; intros; try done; lia.
Qed.

(** Offsets from [snd_una]. *)
Lemma seq_diff c n x : get snd_nxt c = u32 (get snd_una c + n) → -1073741825 <= n - x <= 2147483647 →
  s32 (get snd_nxt c - (get snd_una c + x)) = n - x.
Proof.
  intros Hn Hr. destruct (u32_ex (get snd_una c + n)) as [k Hk]. apply (s32_is _ k); lia.
Qed.

Lemma u32_eqb u x y : 0 <= x < 2147483648 → 0 <= y < 2147483648 →
  (u32 (u + x) =? u32 (u + y)) = (x =? y).
Proof.
  intros Hx Hy. destruct (Z.eqb_spec x y) as [->|Hne]; [apply Z.eqb_refl|].
  apply Z.eqb_neq. intros He. pose proof (s32_seq u x y) as Hs. rewrite He, Z.sub_diag in Hs.
  change (s32 0) with 0 in Hs. lia.
Qed.

(** *** The plan *)

(** The members that the plan may change. *)
Definition plan_frame c c1 : Prop :=
  so c1 = so c ∧ env c1 = env c ∧ tlog c1 = tlog c ∧ state c1 = state c ∧
  tfl (tp c1) = tfl (tp c) ∧
  ∀ f, f ≠ snd_nxt → f ≠ TCPT_REXMT → f ≠ TCPT_PERSIST → f ≠ t_rxtshift → get f c1 = get f c.

Lemma plan_frame_refl c : plan_frame c c.
Proof. by split_and!. Qed.

Lemma plan_frame_set f v c c1 : (f = snd_nxt ∨ f = TCPT_REXMT ∨ f = TCPT_PERSIST ∨ f = t_rxtshift) →
  plan_frame c c1 → plan_frame c (set f v c1).
Proof.
  intros Hf (H1 & H2 & H3 & H4 & H5 & H6). split_and!; try done.
  intros g ? ? ? ?. rewrite <- (H6 g) by done. apply get_set_ne. naive_solver.
Qed.


Lemma plan_frame_inv n n1 m c c1 : plan_frame c c1 → send_inv n m c → 0 <= n1 <= m →
  get snd_nxt c1 = u32 (get snd_una c + n1) → send_inv n1 m c1.
Proof.
  intros (H1 & _ & _ & H4 & H5 & H6) [] Hn Hx.
  assert (get snd_una c1 = get snd_una c) as Hu by (by apply H6).
  assert (snd_cc c1 = snd_cc c) as Hc by (unfold snd_cc; by rewrite H1).
  assert (flag TF_SENTFIN c1 = flag TF_SENTFIN c) as Hf by (unfold flag; by rewrite H5).
  split; rewrite ?H4, ?Hu, ?Hc, ?Hf; try done.
  by rewrite H6.
Qed.

Lemma s32_u32_id x : 0 <= x < 4294967296 → u32 (s32 x) = x ∧ -2147483648 <= s32 x < 2147483648.
Proof.
  intros Hx. split; [|apply s32_range]. unfold u32, s32. rewrite Zminus_mod_idemp_l.
  rewrite Z.add_simpl_r. by apply Z.mod_small.
Qed.

Lemma out_force_spec off win flags c : -2147483648 <= win < 2147483648 →
  let '(win', flags', c1) := out_force off win flags c in
  plan_frame c c1 ∧ get snd_nxt c1 = get snd_nxt c ∧
  u32 win' = Z.max (u32 win) (if get t_force c =? 0 then 0 else 1) ∧
  -2147483648 <= win' < 2147483648 ∧
  (flags' = flags ∨ flags' = set_fin false flags) ∧
  (2 <= u32 win' → get t_force c = 0 ∨ get TCPT_PERSIST c1 = 0).
Proof.
  intros Hw. unfold out_force. pose proof (u32_range win).
  destruct (Z.eqb_spec (get t_force c) 0) as [Hf|Hf].
  { split_and!; try done; try lia; by left. }
  destruct (Z.eqb_spec win 0) as [->|Hw0].
  { change (u32 1) with 1. change (u32 0) with 0. split_and!; try done; try lia. destruct (_ <? _); [by right|by left]. }
  split_and!; try (conn_simpl; done); try (clear Hf; lia).
  - apply plan_frame_set; [tauto|]. apply plan_frame_set; [tauto|]. apply plan_frame_refl.
  - destruct (Z.eq_dec (u32 win) 0) as [Hz|]; [|lia]. unfold u32 in Hz.
    apply Z.mod_divide in Hz as [k Hk]; lia.
  - by left.
  - right. conn_simpl. apply store_small; try done; try lia; intros; naive_solver.
Qed.

Lemma out_length_spec n m win c c0 : send_inv n m c → plan_frame c0 c →
  let '(len, c1) := out_length n win c in
  ∃ n1, plan_frame c0 c1 ∧ get snd_nxt c1 = u32 (get snd_una c + n1) ∧ 0 <= n1 <= m ∧
    get TCPT_PERSIST c1 = get TCPT_PERSIST c ∧
    0 <= len ∧ (len ≠ 0 → n1 = n ∧ n + len = Z.min (snd_cc c) (u32 win)) ∧
    (len = 0 → n1 = n ∨ n1 = 0 ∧ win = 0).
Proof.
  intros [] Hp. unfold out_length. pose proof (u32_range win).
  assert (0 <= snd_cc c) by (unfold snd_cc; apply zlen_nonneg).
  assert (m <= snd_cc c + 1) by (destruct (flag TF_SENTFIN c); cbn in *; lia).
  rewrite s32_id by lia.
  destruct (Z.ltb_spec (Z.min (snd_cc c) (u32 win) - n) 0).
  - destruct (Z.eqb_spec win 0) as [->|].
    + exists 0. rewrite Z.add_0_r.
      split_and!; try done; try lia; try (by right).
      * apply plan_frame_set; [tauto|]. apply plan_frame_set; [tauto|done].
      * conn_simpl. by rewrite store_u32.
    + exists n. split_and!; try done; lia.
  - exists n. split_and!; try done; lia.
Qed.

Lemma out_plan_spec n m c : send_inv n m c → send_ok c →
  let '(off, len, sendalot, flags, c1) := out_plan c in
  ∃ n1, plan_frame c c1 ∧ send_inv n1 m c1 ∧ 0 <= len <= get t_maxseg c ∧
    (len ≠ 0 → n1 = n ∧ off = n ∧ n + len <= Z.min (snd_cc c) (usable c)) ∧
    (sendalot = true → len = get t_maxseg c ∧ n1 + len < snd_cc c) ∧
    (2 <= len ∨ sendalot = true → get t_force c = 0 ∨ get TCPT_PERSIST c1 = 0) ∧
    (TH_SYN flags = false ∧ TH_RST flags = TH_RST (tcp_outflags (state c)) ∧ TH_ACK flags = true) ∧
    (TH_FIN flags = true → TH_FIN (tcp_outflags (state c)) = true ∧ snd_cc c <= n1 + len).
Proof.
  intros Hi Hk. pose proof Hi as []. pose proof Hk as []. unfold out_plan, usable.
  assert (0 <= snd_cc c) by (unfold snd_cc; apply zlen_nonneg).
  assert (m <= snd_cc c + 1) by (destruct (flag TF_SENTFIN c); cbn in *; lia).
  destruct si_sync0 as [Hsyn Hack].
  assert (s32 (get snd_nxt c - get snd_una c) = n) as ->.
  { rewrite <- (Z.add_0_r (get snd_una c)) at 1. rewrite (seq_diff c n 0); lia || done. }
  destruct (s32_u32_id (Z.min (get snd_wnd c) (get snd_cwnd c)) ltac:(lia)) as [Hmin Hminr].
  pose proof (out_force_spec n _ (tcp_outflags (state c)) c Hminr) as Hf. rewrite Hmin in Hf.
  destruct (out_force _ _ _ c) as [[win flags] c1].
  destruct Hf as (Hf1 & Hnx & Hwin & Hwr & Hfl & Hper). fold (usable c) in Hwin.
  assert (Hi1 : send_inv n m c1).
  { apply (plan_frame_inv n n m c); [done|done|lia|by rewrite Hnx]. }
  pose proof (out_length_spec n m win c1 c Hi1 Hf1) as Hl.
  destruct (out_length n win c1) as [len c2].
  destruct Hl as (n1 & Hp2 & Hx2 & Hn1 & Hpe & Hlen & Hl1 & Hl0).
  assert (snd_cc c1 = snd_cc c) as Hcc by (unfold snd_cc; destruct Hf1 as [-> _]; done).
  assert (snd_cc c2 = snd_cc c) as Hcc2 by (unfold snd_cc; destruct Hp2 as [-> _]; done).
  assert (get snd_una c1 = get snd_una c) as Hu1 by (by apply Hf1).
  assert (get snd_una c2 = get snd_una c) as Hu2 by (by apply Hp2).
  assert (get t_maxseg c2 = get t_maxseg c) as Hms by (by apply Hp2).
  rewrite Hcc2, Hu2, Hms, Hcc, Hu1 in *.
  assert (Hi2 : send_inv n1 m c2) by (by apply (plan_frame_inv n n1 m c)).
  exists n1. set (len2 := if get t_maxseg c <? len then get t_maxseg c else len).
  assert (opt_len c >= 0) by (unfold opt_len; destruct (_ && _); lia).
  assert (0 <= len2 <= get t_maxseg c ∧ len2 <= len ∧ (len2 ≠ 0 → len ≠ 0)) as (Hl2 & Hl2' & Hl20).
  { unfold len2. destruct (Z.ltb_spec (get t_maxseg c) len); lia. }
  change (Z.max (Z.min (get snd_wnd c) (get snd_cwnd c)) (if get t_force c =? 0 then 0 else 1)) with (usable c).
  rewrite <- Hwin. clear Hwin.
  split_and!; try done; try lia.
  - intros Hlt. unfold len2. rewrite Hlt. split; [done|].
    apply Z.ltb_lt in Hlt. destruct Hl1; lia.
  - destruct Hfl as [-> | ->], (SEQ_LT _ _); done.
  - destruct Hfl as [-> | ->], (SEQ_LT _ _); done.
  - destruct Hfl as [-> | ->], (SEQ_LT _ _); done.
  - destruct (SEQ_LT _ _) eqn:Hlt; [done|]. intros Hfin. split; [destruct Hfl as [-> | ->]; done|].
    rewrite SEQ_LT_eq in Hlt. destruct (u32_ex (get snd_una c + n1)) as [k Hkk].
    rewrite Hx2, (s32_is (n1 + len2 - snd_cc c) k) in Hlt by lia. lia.
Qed.

(** *** Sending *)

(** What one round keeps. *)
Definition changes (f : field) : bool :=
  match f with
  | snd_nxt | snd_max | snd_up | TCPT_REXMT | TCPT_PERSIST | t_rxtshift | t_rtt | t_rtseq
  | rcv_adv | last_ack_sent => true
  | _ => false
  end.

Definition fchanges (f : tflag) : bool :=
  match f with TF_SENTFIN | TF_ACKNOW | TF_DELACK => true | _ => false end.

Definition stable c c1 : Prop :=
  so c1 = so c ∧ state c1 = state c ∧
  (∀ f, changes f = false → get f c1 = get f c) ∧
  (∀ f, fchanges f = false → flag f c1 = flag f c).

Lemma stable_refl c : stable c c.
Proof. by split_and!. Qed.

Lemma stable_trans c1 c2 c3 : stable c1 c2 → stable c2 c3 → stable c1 c3.
Proof.
  intros (A1 & A2 & A3 & A4) (B1 & B2 & B3 & B4). split_and!; [congruence|congruence|..].
  - intros f Hf. by rewrite B3, A3.
  - intros f Hf. by rewrite B4, A4.
Qed.

Lemma stable_set f v c c1 : changes f = true → stable c c1 → stable c (set f v c1).
Proof.
  intros Hf (A1 & A2 & A3 & A4). split_and!; try done.
  intros g Hg. rewrite <- (A3 g Hg). apply get_set_ne. congruence.
Qed.

Lemma stable_set_flag f b c c1 : fchanges f = true → stable c c1 → stable c (set_flag f b c1).
Proof.
  intros Hf (A1 & A2 & A3 & A4). split_and!; try done.
  intros g Hg. rewrite <- (A4 g Hg). apply flag_set_ne. congruence.
Qed.

Lemma stable_env e c c1 : stable c c1 → stable c (with_env e c1).
Proof. done. Qed.
Lemma stable_emit e c c1 : stable c c1 → stable c (emit e c1).
Proof. done. Qed.

Lemma stable_plan c c1 : plan_frame c c1 → stable c c1.
Proof.
  intros (H1 & _ & _ & H4 & H5 & H6). split_and!; try done.
  - intros f Hf. apply H6; by intros ->.
  - intros f _. unfold flag. by rewrite H5.
Qed.

Lemma stable_ok c c1 : stable c c1 → send_ok c → send_ok c1.
Proof.
  intros (A1 & A2 & A3 & A4) []. split; unfold opt_len; rewrite ?A3, ?A4 by done; done.
Qed.

Lemma stable_usable c c1 : stable c c1 → usable c1 = usable c.
Proof. intros (A1 & A2 & A3 & A4). unfold usable. by rewrite !A3 by done. Qed.

Lemma stable_seg c c1 s : stable c c1 → seg_ok c1 s → seg_ok c s.
Proof.
  intros Hst. pose proof (stable_usable _ _ Hst) as Hu. destruct Hst as (A1 & A2 & A3 & A4).
  unfold seg_ok, snd_cc. rewrite !A3, A1, A2, Hu by done. done.
Qed.

Ltac stable :=
  repeat first
    [ done
    | apply stable_set; [reflexivity|]
    | apply stable_set_flag; [reflexivity|]
    | apply stable_env
    | apply stable_emit
    | match goal with |- stable _ (if ?b then _ else _) => destruct b end
    | apply stable_refl ].

Lemma advance_stable len flags c : stable c (out_advance len flags c).
Proof. unfold out_advance, arm_rexmt, time_it. cbv zeta. stable. Qed.

(** A change that the invariant does not see. *)
Lemma send_inv_stable n m c c1 : stable c c1 → get snd_nxt c1 = get snd_nxt c →
  get snd_max c1 = get snd_max c → flag TF_SENTFIN c1 = flag TF_SENTFIN c →
  send_inv n m c → send_inv n m c1.
Proof.
  intros (A1 & A2 & A3 & A4) Hx Hm Hf [].
  split; unfold snd_cc in *; rewrite ?A1, ?A2, ?Hx, ?Hm, ?Hf, ?A3 by done; done.
Qed.

Lemma tstamp_len flags c : TH_SYN flags = false →
  zlen (tstamp_opt flags c) = if TH_RST flags then 0 else opt_len c.
Proof.
  intros Hsyn. unfold tstamp_opt, opt_len. rewrite Hsyn. cbn [negb andb orb].
  destruct (TH_RST flags); cbn [negb]; [by rewrite andb_false_r|]. rewrite andb_true_r.
  destruct (_ && _); [|done]. rewrite !zlen_app. destruct options_eq as (_ & _ & ->). done.
Qed.

Lemma opts_spec len sendalot flags c : send_ok c → TH_SYN flags = false →
  0 <= len <= get t_maxseg c →
  let '(len', sendalot', flags', opt, c1) := out_opts len sendalot flags c in
  c1 = c ∧ 0 <= len' <= len ∧ (len ≠ 0 → len' ≠ 0) ∧
  (flags' = flags ∨ flags' = set_fin false flags) ∧ (TH_FIN flags' = true → len' = len) ∧
  (sendalot' = true → sendalot = true ∧ len' = len ∨ 2 <= len ∧ len' ≠ 0 ∧ TH_FIN flags' = false).
Proof.
  intros [] Hsyn Hlen. unfold out_opts, syn_opts. rewrite Hsyn. cbn [app].
  pose proof (tstamp_len flags c Hsyn) as Hol.
  assert (0 <= zlen (tstamp_opt flags c) <= opt_len c).
  { rewrite Hol. unfold opt_len. destruct (TH_RST flags), (_ && _); lia. }
  clear Hol. rewrite u32_id by lia. destruct (Z.ltb_spec (get t_maxseg c - zlen (tstamp_opt flags c)) len).
  - split_and!; try done; try lia; [by right|]. intros _. right. split_and!; try done; lia.
  - split_and!; try done; try lia; [by left|]. intros ->. by left.
Qed.

Lemma time_it_max u n m startseq c : get snd_nxt c = u32 (u + n) → get snd_max c = u32 (u + m) →
  0 <= n <= 1073741826 → 0 <= m <= 1073741826 →
  get snd_max (time_it startseq c) = u32 (u + Z.max m n).
Proof.
  intros Hn Hm ? ?. unfold time_it. rewrite SEQ_GT_eq, Hn, Hm, s32_seq by lia.
  destruct (Z.ltb_spec 0 (n - m)).
  - cbv zeta. destruct (_ =? _); conn_simpl; rewrite store_u32, u32_u32 by done; f_equal; lia.
  - rewrite Hm. f_equal. lia.
Qed.

Lemma time_it_same startseq c : stable c (time_it startseq c) ∧
  get snd_nxt (time_it startseq c) = get snd_nxt c ∧
  flag TF_SENTFIN (time_it startseq c) = flag TF_SENTFIN c.
Proof.
  unfold time_it. cbv zeta. split; [stable|].
  destruct (SEQ_GT _ _); [|done]. destruct (_ =? _); conn_simpl; done.
Qed.

Lemma arm_rexmt_same c : stable c (arm_rexmt c) ∧
  get snd_nxt (arm_rexmt c) = get snd_nxt c ∧ get snd_max (arm_rexmt c) = get snd_max c ∧
  flag TF_SENTFIN (arm_rexmt c) = flag TF_SENTFIN c.
Proof.
  unfold arm_rexmt. cbv zeta. split; [stable|].
  destruct (_ && _); [|done]. destruct (negb _); conn_simpl; done.
Qed.

Lemma advance_inv n m len flags c : send_inv n m c → 0 <= len → TH_SYN flags = false →
  (len ≠ 0 → n + len <= snd_cc c) →
  (TH_FIN flags = true → TH_FIN (tcp_outflags (state c)) = true ∧ n + len = snd_cc c) →
  ∃ n' m', send_inv n' m' (out_advance len flags c) ∧ n' <= n + len + 1 ∧
    (get t_force c = 0 ∨ get TCPT_PERSIST c = 0 → n + len <= n') ∧
    (TH_FIN flags = false → flag TF_SENTFIN (out_advance len flags c) = flag TF_SENTFIN c ∧ n' <= n + len ∧
      m' <= Z.max m (snd_cc c)).
Proof.
  intros Hi Hlen Hsyn Hdata Hfin. pose proof Hi as []. pose proof (advance_stable len flags c) as Hst.
  assert (0 <= snd_cc c) by (unfold snd_cc; apply zlen_nonneg).
  assert (m <= snd_cc c + 1) by (destruct (flag TF_SENTFIN c); cbn in *; lia).
  set (fin := Z.b2z (TH_FIN flags)). assert (0 <= fin <= 1) by (unfold fin; destruct (TH_FIN flags); cbn; lia).
  unfold out_advance in *. rewrite Hsyn in *. cbv zeta in *.
  destruct ((get t_force c =? 0) || (get TCPT_PERSIST c =? 0)) eqn:Hper.
  - set (c1 := if TH_FIN flags then set_flag TF_SENTFIN true (set snd_nxt (get snd_nxt c + 1) c) else c) in *.
    set (c2 := set snd_nxt (get snd_nxt c1 + len) c1) in *.
    assert (get snd_nxt c1 = u32 (get snd_una c + (n + fin))) as Hn1.
    { unfold c1, fin. destruct (TH_FIN flags); cbn [Z.b2z]; conn_simpl; [|by rewrite Z.add_0_r].
      rewrite store_u32, si_nxt0, u32_add by done. f_equal. lia. }
    assert (get snd_nxt c2 = u32 (get snd_una c + (n + fin + len))) as Hn2.
    { unfold c2. conn_simpl. rewrite store_u32, Hn1, u32_add by done. f_equal. lia. }
    assert (get snd_max c2 = u32 (get snd_una c + m)) as Hm2.
    { unfold c2, c1. destruct (TH_FIN flags); conn_simpl; done. }
    assert (flag TF_SENTFIN c2 = TH_FIN flags || flag TF_SENTFIN c) as Hf2.
    { unfold c2, c1. destruct (TH_FIN flags); conn_simpl; done. }
    assert (n + fin + len <= snd_cc c + 1).
    { unfold fin. destruct (TH_FIN flags) eqn:HF; cbn; [destruct Hfin; [done|lia]|].
      destruct (Z.eq_dec len 0); [lia|]. specialize (Hdata ltac:(done)). lia. }
    pose proof (time_it_same (get snd_nxt c) c2) as (_ & Htn & Htf).
    pose proof (arm_rexmt_same (time_it (get snd_nxt c) c2)) as (_ & Han & Ham & Haf).
    pose proof (time_it_max _ _ _ (get snd_nxt c) c2 Hn2 Hm2 ltac:(lia) ltac:(lia)) as Htm.
    exists (n + fin + len), (Z.max m (n + fin + len)). split_and!.
    + destruct Hst as (A1 & A2 & A3 & A4).
      split; unfold snd_cc in *; rewrite ?A1, ?A2, ?Han, ?Ham, ?Haf, ?Htn, ?Htm, ?Htf, ?Hf2, ?(A3 snd_una) by done;
        try done; try lia.
      * destruct (TH_FIN flags) eqn:HF; cbn [orb Z.b2z] in *.
        -- destruct Hfin; [done|]. unfold fin in *. lia.
        -- unfold fin in *. cbn in *. destruct (Z.eq_dec len 0); [lia|].
           specialize (Hdata ltac:(done)). destruct (flag TF_SENTFIN c); cbn in *; lia.
      * destruct (TH_FIN flags) eqn:HF; cbn [orb] in *; unfold fin in *; cbn in *.
        -- intros _ _. destruct Hfin as [? ?]; [done|]. lia.
        -- intros Hs Hs2. specialize (si_fin0 Hs Hs2). lia.
    + lia.
    + lia.
    + intros HF. rewrite Haf, Htf, Hf2, HF. split; [done|]. unfold fin. rewrite HF. cbn.
      destruct (Z.eq_dec len 0); [lia|]. specialize (Hdata ltac:(done)). lia.
  - apply orb_false_iff in Hper as [Hp1 Hp2]. apply Z.eqb_neq in Hp1, Hp2.
    destruct (u32_ex (get snd_una c + n)) as [k Hk].
    assert (SEQ_GT (get snd_nxt c + len) (get snd_max c) = (m <? n + len)) as ->.
    { rewrite SEQ_GT_eq. destruct (u32_ex (get snd_una c + m)) as [k' Hk'].
      assert (n + len <= 1073741826).
      { destruct (Z.eq_dec len 0); [lia|]. specialize (Hdata ltac:(done)). lia. }
      rewrite si_nxt0, si_max0, (s32_is (n + len - m) (k - k')) by lia.
      destruct (Z.ltb_spec 0 (n + len - m)), (Z.ltb_spec m (n + len)); lia || done. }
    destruct (Z.ltb_spec m (n + len)).
    + assert (len ≠ 0) as Hne by lia. specialize (Hdata Hne).
      exists n, (n + len). split_and!; [|lia|lia|intros _; split; [by conn_simpl|lia]].
      split; try (conn_simpl; done); conn_simpl; try lia.
      * rewrite store_u32, si_nxt0, u32_add by done. f_equal. lia.
      * destruct (flag TF_SENTFIN c); cbn in *; unfold snd_cc in *; lia.
      * intros Hs Hs2. specialize (si_fin0 Hs Hs2). unfold snd_cc in *. lia.
    + exists n, m. split_and!; [done|lia|lia|intros _; split; [done|lia]].
Qed.

(** "Resending a FIN": the FIN keeps its sequence number. *)
Lemma resend_inv n m len flags c : send_inv n m c → 0 <= len → (len ≠ 0 → n + len <= snd_cc c) →
  (TH_FIN flags = true → TH_FIN (tcp_outflags (state c)) = true ∧ snd_cc c <= n + len) →
  ∃ n1, send_inv n1 m (resend_fin flags c) ∧ stable c (resend_fin flags c) ∧
    (len ≠ 0 → n1 = n) ∧ (TH_FIN flags = false → n1 = n) ∧
    flag TF_SENTFIN (resend_fin flags c) = flag TF_SENTFIN c ∧
    (TH_FIN flags = true → n1 + len = snd_cc c).
Proof.
  intros Hi Hlen Hdata Hfin. pose proof Hi as []. unfold resend_fin.
  assert (0 <= snd_cc c) by (unfold snd_cc; apply zlen_nonneg).
  assert (m <= snd_cc c + 1) by (destruct (flag TF_SENTFIN c); cbn in *; lia).
  assert ((get snd_nxt c =? get snd_max c) = (n =? m)) as Heq.
  { rewrite si_nxt0, si_max0. apply u32_eqb; lia. }
  destruct (TH_FIN flags) eqn:HF; [|by exists n; split_and!; try done; apply stable_refl].
  destruct Hfin as [Hs1 Hs2]; [done|]. cbn [andb]. rewrite Heq.
  destruct (flag TF_SENTFIN c) eqn:Hsf; cbn [andb Z.b2z] in *.
  - specialize (si_fin0 eq_refl Hs1). destruct (Z.eqb_spec n m) as [->|Hne].
    + assert (len = 0) as -> by (destruct (Z.eq_dec len 0); [done|specialize (Hdata ltac:(done)); lia]).
      exists (m - 1). split_and!; try done; try lia; [|stable].
      split; try (conn_simpl; done); conn_simpl; try lia.
      * rewrite store_u32, si_nxt0, u32_sub by done. f_equal. lia.
      * rewrite Hsf. cbn. unfold snd_cc in *. lia.
    + exists n. split_and!; try done; try apply stable_refl. intros _.
      destruct (Z.eq_dec len 0); [lia|]. specialize (Hdata ltac:(done)). lia.
  - exists n. split_and!; try done; try apply stable_refl. intros _.
    destruct (Z.eq_dec len 0); [lia|]. specialize (Hdata ltac:(done)). lia.
Qed.

Lemma alloc_spec off len hdrlen c : let '(d, c1) := out_alloc off len hdrlen c in
  (∃ e, c1 = with_env e c) ∧
  match d with
  | None => True
  | Some d => len = 0 ∧ d = [] ∨
      len ≠ 0 ∧ (0 <= off → 0 < len → off + len <= snd_cc c →
                 d = ztake len (zdrop off (sb_bytes (so_snd (so c)))))
  end.
Proof.
  unfold out_alloc. destruct (mHdrClGet _ _) as [ok e]. destruct ok; cbn [negb]; [|split; [by exists e|done]].
  destruct (Z.eqb_spec len 0) as [->|Hl]; [split; [by exists e|by left]|].
  change (sb_bytes (so_snd (so (with_env e c)))) with (sb_bytes (so_snd (so c))).
  destruct (m_copy _ off len _) as [d e'] eqn:Hm. split; [by exists e'|].
  destruct d as [d|]; [|done]. right. split; [done|]. intros. eapply m_copy_slice; [done..|]. by rewrite Hm.
Qed.

(** The buffers never run out. *)
Definition never_fails : Prop :=
  (∀ n e, (mHdrClGet n e).1 = true) ∧ (∀ d off len e, (m_copy d off len e).1 ≠ None).

Lemma alloc_never off len hdrlen c : never_fails → (out_alloc off len hdrlen c).1 ≠ None.
Proof.
  intros [Hh Hc]. unfold out_alloc. specialize (Hh (max_linkhdr + hdrlen) (env c)).
  destruct (mHdrClGet _ _) as [ok e]. cbn in Hh. subst ok. cbn [negb].
  destruct (_ =? _); [done|].
  match goal with |- context [m_copy ?a ?b ?d ?e] => specialize (Hc a b d e); destruct (m_copy a b d e) end.
  done.
Qed.

(** The segment built tells the truth. *)
Lemma seg_built n m len win flags opt data c : send_inv n m c → 0 <= len →
  TH_SYN flags = false → TH_RST flags = TH_RST (tcp_outflags (state c)) → TH_ACK flags = true →
  (len ≠ 0 → n + len <= Z.min (snd_cc c) (usable c) ∧
    data = ztake len (zdrop n (sb_bytes (so_snd (so c))))) → (len = 0 → data = []) →
  (TH_FIN flags = true → n + len = snd_cc c) →
  seg_ok c (out_seg len win flags opt data c).
Proof.
  intros [] Hlen Hsyn Hrst Hack Hdata Hnil Hfin. unfold seg_ok, out_seg. cbn [o_seq o_ack o_flags o_data].
  assert (zlen data = len) as Hzl.
  { destruct (Z.eq_dec len 0) as [->|Hne]; [by rewrite Hnil|]. destruct (Hdata Hne) as [? ->].
    rewrite zlen_ztake, zlen_zdrop. unfold snd_cc in *. lia. }
  rewrite Hsyn.
  assert (u32 (get snd_nxt c - get snd_una c) = n) as Hk.
  { destruct (u32_ex (get snd_una c + n)) as [k Hk]. rewrite si_nxt0.
    assert (0 <= snd_cc c) by (unfold snd_cc; apply zlen_nonneg).
    assert (m <= snd_cc c + 1) by (destruct (flag TF_SENTFIN c); cbn in *; lia).
    apply (u32_is _ k); lia. }
  destruct (SEQ_GT _ _); cbn [set_urg TH_SYN TH_RST TH_ACK TH_FIN].
  all: split_and!; try done.
  all: try (intros Hd; assert (len ≠ 0) as Hne by (intros Hl; by apply Hd, Hnil);
    destruct (Hdata Hne) as [? Hda]; apply Z.eqb_neq in Hne as ->; cbn [negb orb];
    rewrite Hk, Hzl; split; [exact Hda|lia]).
  all: intros HF; rewrite HF, orb_true_r; cbn [orb]; rewrite Hk, Hzl; by apply Hfin.
Qed.

(** What counts as sent lies in the segment. *)
Definition in_segment (s : outseg) (x : Z) : Prop :=
  u32 (x - o_seq s) <= zlen (o_data s) + Z.b2z (TH_FIN (o_flags s)).

(** [snd_max] is left alone, or goes on to the segment. *)
Definition counted c c' (s : outseg) : Prop := get snd_max c' = get snd_max c ∨ in_segment s (get snd_max c').

Lemma advance_max n m len flags c : send_inv n m c → 0 <= len → TH_SYN flags = false →
  get snd_max (out_advance len flags c) = get snd_max c ∨
  (len ≠ 0 ∨ TH_FIN flags = true) ∧ ∃ f, 0 <= f <= Z.b2z (TH_FIN flags) ∧
    get snd_max (out_advance len flags c) = u32 (get snd_nxt c + (len + f)).
Proof.
  intros Hi Hlen Hsyn. pose proof Hi as []. assert (0 <= snd_cc c) by (unfold snd_cc; apply zlen_nonneg).
  assert (m <= snd_cc c + 1) by (destruct (flag TF_SENTFIN c); cbn in *; lia).
  assert (Hgt : SEQ_GT (get snd_nxt c) (get snd_max c) = false).
  { rewrite SEQ_GT_eq, si_nxt0, si_max0, s32_seq by lia. apply Z.ltb_ge. lia. }
  unfold out_advance. rewrite Hsyn. cbv zeta. destruct (_ || _).
  - set (c1 := if TH_FIN flags then set_flag TF_SENTFIN true (set snd_nxt (get snd_nxt c + 1) c) else c).
    set (c2 := set snd_nxt (get snd_nxt c1 + len) c1).
    assert (get snd_nxt c2 = u32 (get snd_nxt c + (len + Z.b2z (TH_FIN flags))) ∧ get snd_max c2 = get snd_max c) as [Hn Hm].
    { unfold c2, c1. destruct (TH_FIN flags); conn_simpl; rewrite ?store_u32, ?u32_add by done; split; try done; f_equal; cbn; lia. }
    rewrite (proj1 (proj2 (proj2 (arm_rexmt_same _)))). unfold time_it. cbv zeta. destruct (SEQ_GT (get snd_nxt c2) _) eqn:Hg; [|by left].
    right. split.
    + destruct (Z.eq_dec len 0) as [->|]; [right|by left]. destruct (TH_FIN flags); [done|]. exfalso. change (Z.b2z false) with 0 in Hn.
      assert (u32 (get snd_nxt c + (0 + 0)) = get snd_nxt c) as Hid by (rewrite Z.add_0_r, si_nxt0; apply u32_u32).
      rewrite Hn, Hm, Hid in Hg. congruence.
    + exists (Z.b2z (TH_FIN flags)). split; [destruct (TH_FIN flags); cbn; lia|].
      destruct (_ =? _); conn_simpl; by rewrite store_u32, Hn, u32_u32 by done.
  - destruct (SEQ_GT (get snd_nxt c + len) (get snd_max c)) eqn:Hg; [|by left]. right. split.
    + left. intros ->. rewrite Z.add_0_r in Hg. congruence.
    + exists 0. split; [destruct (TH_FIN flags); cbn; lia|]. conn_simpl. rewrite store_u32 by done. f_equal. lia.
Qed.

(** The outcome of one round. *)
Definition round_ok (pktSent : bool) (n m : Z) c (r : oresult E B) : Prop :=
  let fits m' := TH_FIN (tcp_outflags (state c)) = false → m' <= Z.max m (snd_cc c) in
  match r with
  | Return _ c' =>
      so c' = so c ∧ (∃ n' m', send_inv n' m' c' ∧ fits m') ∧
      (tlog c' = tlog c ∧ (pktSent = true → get snd_max c' = get snd_max c) ∨
       ∃ s, seg_ok c s ∧ counted c c' s ∧ tlog c' = Sent s :: tlog c)
  | Again c' =>
      stable c c' ∧ flag TF_SENTFIN c' = flag TF_SENTFIN c ∧
      ∃ n' m' s, send_inv n' m' c' ∧ fits m' ∧ n < n' ∧ seg_ok c s ∧ counted c c' s ∧
        tlog c' = Sent s :: tlog c
  end.

Lemma error_max error c : get snd_max (out_error error c).2 = get snd_max c.
Proof. unfold out_error, tcp_quench. destruct (_ =? _); [|destruct (_ && _)]; cbn [snd]; by conn_simpl. Qed.

Lemma error_inv n m error c : send_inv n m c →
  so (out_error error c).2 = so c ∧ tlog (out_error error c).2 = tlog c ∧
  send_inv n m (out_error error c).2.
Proof.
  intros []. unfold out_error, tcp_quench.
  destruct (_ =? _); [|destruct (_ && _)]; cbn [snd]; split_and!; try done.
  all: split; conn_simpl; done.
Qed.

Lemma drag_same c : stable c (drag_up c) ∧ get snd_nxt (drag_up c) = get snd_nxt c ∧
  get snd_max (drag_up c) = get snd_max c ∧ flag TF_SENTFIN (drag_up c) = flag TF_SENTFIN c ∧
  get TCPT_PERSIST (drag_up c) = get TCPT_PERSIST c ∧ get t_force (drag_up c) = get t_force c.
Proof. unfold drag_up. split; [stable|]. destruct (SEQ_GT _ _); [done|]. conn_simpl. done. Qed.

Lemma drag_inv n m c : send_inv n m c → send_inv n m (drag_up c).
Proof. destruct (drag_same c) as (A1 & A2 & A3 & A4 & _). by apply send_inv_stable. Qed.

(** The segment of an advance. *)
Lemma advance_counted n m len win flags opt data c : send_inv n m c → 0 <= len < 4294967295 → TH_SYN flags = false →
  zlen data = len → counted c (out_advance len flags (drag_up c)) (out_seg len win flags opt data c).
Proof.
  intros Hi Hlen Hsyn Hd. destruct (drag_same c) as (_ & Hn & Hm & _).
  destruct (advance_max n m len flags (drag_up c) (drag_inv _ _ _ Hi) ltac:(lia) Hsyn) as [He|(Hne & f & Hf & He)]; unfold counted.
  { left. by rewrite He. }
  right. unfold in_segment, out_seg. cbn [o_seq o_data o_flags]. rewrite He, Hn.
  assert (negb (len =? 0) || TH_SYN flags || TH_FIN flags || negb (get TCPT_PERSIST c =? 0) = true) as ->.
  { destruct Hne as [Hne|Hfin]; [apply Z.eqb_neq in Hne; by rewrite Hne|by rewrite Hfin, !orb_true_r]. }
  assert (TH_FIN (if SEQ_GT (get snd_up c) (get snd_nxt c) then set_urg true flags else flags) = TH_FIN flags) as -> by by destruct (SEQ_GT _ _).
  rewrite Hd. destruct (u32_ex (get snd_nxt c + (len + f))) as [k Hk].
  rewrite (u32_is (len + f) k); [lia| |]; destruct (TH_FIN flags); cbn in *; lia.
Qed.

Lemma sent_same win c : stable c (out_sent win c) ∧ get snd_nxt (out_sent win c) = get snd_nxt c ∧
  get snd_max (out_sent win c) = get snd_max c ∧ flag TF_SENTFIN (out_sent win c) = flag TF_SENTFIN c ∧
  tlog (out_sent win c) = tlog c.
Proof.
  unfold out_sent. cbv zeta. split; [stable|]. destruct (_ && _); conn_simpl; done.
Qed.

Lemma tlog_advance len flags c : tlog (out_advance len flags c) = tlog c.
Proof.
  unfold out_advance, arm_rexmt, time_it. cbv zeta.
  repeat match goal with |- context [if ?b then _ else _] => destruct b end; reflexivity.
Qed.

Lemma stable_cc c c1 : stable c c1 → snd_cc c1 = snd_cc c.
Proof. intros (A1 & _). unfold snd_cc. by rewrite A1. Qed.

Lemma tlog_drag c : tlog (drag_up c) = tlog c.
Proof. unfold drag_up. by destruct (SEQ_GT _ _). Qed.

Lemma tlog_resend flags c : tlog (resend_fin flags c) = tlog c.
Proof. unfold resend_fin. by destruct (_ && _ && _). Qed.

Lemma fits_state flags c0 c : stable c0 c →
  (TH_FIN flags = true → TH_FIN (tcp_outflags (state c)) = true) →
  TH_FIN (tcp_outflags (state c0)) = false → TH_FIN flags = false.
Proof.
  intros (_ & A2 & _) Hf H0'. rewrite A2 in Hf. destruct (TH_FIN flags); [|done]. by rewrite Hf in H0'.
Qed.

(** There was no buffer, and no FIN has been sent. *)
Lemma round_no_buffer k n m pktSent len flags c0 c : send_inv n m c → stable c0 c → tlog c = tlog c0 →
  get snd_max c = get snd_max c0 → 0 <= len →
  TH_SYN flags = false → (len ≠ 0 → n + len <= snd_cc c) →
  (TH_FIN flags = true → TH_FIN (tcp_outflags (state c)) = true ∧ snd_cc c <= n + len) →
  flag TF_SENTFIN c = false →
  round_ok pktSent k m c0
    (let '(r, c) := out_error ENOBUFS (out_unsent pktSent len flags c) in Return r c).
Proof.
  intros Hi Hst Hlog Hmax Hlen Hsyn Hd Hf Hsf.
  pose proof (drag_same c) as (Hds & _). pose proof (stable_cc _ _ Hds) as Hcc.
  pose proof (fits_state flags c0 c Hst (λ HF, proj1 (Hf HF))) as Hfits.
  unfold out_unsent. destruct pktSent.
  { destruct (error_inv n m ENOBUFS c Hi) as (A1 & A2 & A3). pose proof (error_max ENOBUFS c) as A4. destruct (out_error ENOBUFS c) as [r c']. cbn [snd] in *.
    split_and!; [rewrite A1; by destruct Hst as (-> & _)|exists n, m; split; [done|lia]|left; split; [by rewrite A2|by rewrite A4]]. }
  destruct (advance_inv n m len flags (drag_up c)) as (n' & m' & Hi' & _ & _ & Hnofin).
  - by apply drag_inv.
  - done.
  - done.
  - by rewrite Hcc.
  - intros HF. rewrite Hcc. destruct Hds as (_ & -> & _). destruct (Hf HF) as [? ?]. split; [done|].
    destruct Hi. rewrite Hsf in *. cbn in *.
    destruct (Z.eq_dec len 0); [lia|]. specialize (Hd ltac:(done)). lia.
  - destruct (error_inv n' m' ENOBUFS _ Hi') as (A1 & A2 & A3).
    destruct (out_error ENOBUFS _) as [r c']. cbn [snd] in *. split_and!.
    + rewrite A1. destruct (advance_stable len flags (drag_up c)) as (-> & _).
      destruct Hds as (-> & _). by destruct Hst as (-> & _).
    + exists n', m'. split; [done|]. intros HF. rewrite <- (stable_cc _ _ Hst), <- Hcc. apply Hnofin. auto.
    + left. split; [by rewrite A2, tlog_advance, tlog_drag|done].
Qed.

(** The segment is handed to IP. *)
Lemma round_sent pktSent n n1 m len sendalot flags win s c0 c : send_inv n1 m c → stable c0 c →
  tlog c = tlog c0 → flag TF_SENTFIN c = flag TF_SENTFIN c0 → get snd_max c = get snd_max c0 →
  counted c (out_advance len flags (drag_up c)) s → 0 <= len →
  TH_SYN flags = false → (len ≠ 0 → n1 = n ∧ n + len <= snd_cc c) →
  (TH_FIN flags = true → TH_FIN (tcp_outflags (state c)) = true ∧ n1 + len = snd_cc c) →
  seg_ok c0 s →
  (sendalot = true → TH_FIN flags = false ∧ len ≠ 0 ∧ (get t_force c = 0 ∨ get TCPT_PERSIST c = 0)) →
  round_ok pktSent n m c0
    (let c := out_advance len flags (drag_up c) in
     let '(error, e) := ip_output s (sflag SO_DONTROUTE c) (env c) in
     let c := emit (Sent s) (with_env e c) in
     if negb (error =? 0) then let '(r, c) := out_error error c in Return r c
     else let c := out_sent win c in if sendalot then Again c else Return 0 c).
Proof.
  intros Hi Hst Hlog Hsf Hmax Hcnt Hlen Hsyn Hd Hf Hseg Hsa. cbv zeta.
  pose proof (drag_same c) as (Hds & _ & _ & Hdf & Hdp & Hdo). pose proof (stable_cc _ _ Hds) as Hcc.
  destruct (advance_inv n1 m len flags (drag_up c)) as (n' & m' & Hi3 & _ & Hadv & Hnofin); try done.
  { by apply drag_inv. }
  { rewrite Hcc. intros Hne. destruct (Hd Hne) as [-> ?]. done. }
  { rewrite Hcc. by destruct Hds as (_ & -> & _). }
  rewrite Hdp, Hdo in Hadv.
  set (c3 := out_advance len flags (drag_up c)) in *.
  assert (TH_FIN (tcp_outflags (state c0)) = false → m' <= Z.max m (snd_cc c0)) as Hfits.
  { intros HF. pose proof (fits_state flags c0 c Hst (λ HF, proj1 (Hf HF)) HF) as HF'.
    rewrite <- (stable_cc _ _ Hst), <- Hcc. by apply Hnofin. }
  assert (stable c0 c3) as Hst3.
  { eapply stable_trans; [exact Hst|]. eapply stable_trans; [exact Hds|]. apply advance_stable. }
  assert (tlog c3 = tlog c0) as Hlog3 by (unfold c3; by rewrite tlog_advance, tlog_drag).
  destruct (ip_output s _ (env c3)) as [error e'].
  set (c4 := emit (Sent s) (with_env e' c3)).
  assert (send_inv n' m' c4) as Hi4 by (by apply (send_inv_stable n' m' c3)).
  assert (tlog c4 = Sent s :: tlog c0) as Hlog4 by (unfold c4; conn_simpl; by rewrite Hlog3).
  assert (so c4 = so c0) as Hso4 by apply Hst3.
  assert (∀ c', get snd_max c' = get snd_max c3 → counted c0 c' s) as Hc.
  { intros c' Hc'. unfold counted in *. rewrite Hc', <- Hmax. exact Hcnt. }
  destruct (Z.eqb_spec error 0) as [->|Herr]; cbn [negb].
  - destruct (sent_same win c4) as (B1 & B2 & B3 & B4 & B5).
    assert (send_inv n' m' (out_sent win c4)) as Hi5 by (by apply (send_inv_stable n' m' c4)).
    destruct sendalot.
    + destruct Hsa as (HF & Hne & Hp); [done|]. split; [|split].
      * eapply stable_trans; [|exact B1]. exact Hst3.
      * rewrite B4. change (flag TF_SENTFIN c4) with (flag TF_SENTFIN c3).
        destruct Hnofin as [-> _]; [done|]. by rewrite Hdf.
      * exists n', m', s. split_and!; try done; [|by apply Hc|by rewrite B5].
        destruct (Hd Hne) as [-> ?]. specialize (Hadv Hp). lia.
    + split_and!.
      * destruct B1 as [-> _]. done.
      * by exists n', m'.
      * right. exists s. split; [done|]. split; [by apply Hc|by rewrite B5].
  - destruct (error_inv n' m' error _ Hi4) as (A1 & A2 & A3). pose proof (error_max error c4) as A4.
    destruct (out_error error c4) as [r c5]. cbn [snd] in *. split_and!.
    + by rewrite A1.
    + by exists n', m'.
    + right. exists s. split; [done|]. split; [by apply Hc; rewrite A4|by rewrite A2].
Qed.

Lemma send_round pktSent k n m off len sendalot flags win c : send_inv n m c → send_ok c → (len ≠ 0 → n = k) →
  (TH_SYN flags = false ∧ TH_RST flags = TH_RST (tcp_outflags (state c)) ∧ TH_ACK flags = true) →
  0 <= len <= get t_maxseg c → (len ≠ 0 → off = n ∧ n + len <= Z.min (snd_cc c) (usable c)) →
  (TH_FIN flags = true → TH_FIN (tcp_outflags (state c)) = true ∧ snd_cc c <= n + len) →
  (2 <= len ∨ sendalot = true → get t_force c = 0 ∨ get TCPT_PERSIST c = 0) →
  (sendalot = true → len ≠ 0 ∧ n + len < snd_cc c) →
  (flag TF_SENTFIN c = false ∨ never_fails) →
  round_ok pktSent k m c (out_send pktSent off len sendalot flags win c).
Proof.
  intros Hi Hk Hkn (Hsyn & Hrst & Hack) Hlen Hdata Hfin Hper Hall Hnf. unfold out_send.
  pose proof (opts_spec len sendalot flags c Hk Hsyn Hlen) as Ho.
  destruct (out_opts len sendalot flags c) as [[[[len1 sendalot1] flags1] opt] c1].
  destruct Ho as (-> & Hl1 & Hl0 & Hfl & Hfl1 & Hsa).
  assert (TH_SYN flags1 = false ∧ TH_RST flags1 = TH_RST (tcp_outflags (state c)) ∧ TH_ACK flags1 = true) as (Hs1 & Hr1 & Ha1)
    by (by destruct Hfl as [-> | ->]).
  assert (TH_FIN flags1 = true → TH_FIN (tcp_outflags (state c)) = true ∧ snd_cc c <= n + len1) as Hfin1.
  { intros HF. rewrite (Hfl1 HF). apply Hfin. by destruct Hfl as [-> | ->]. }
  assert (len1 ≠ 0 → off = n ∧ n + len1 <= Z.min (snd_cc c) (usable c)) as Hdata1.
  { intros Hne. destruct Hdata; [lia|]. split; [done|lia]. }
  assert (0 <= len1 ∧ (len1 ≠ 0 → n = k)) as [Hlen1 Hkn1] by (split; [lia|intros; apply Hkn; lia]).
  assert (len1 ≠ 0 → n + len1 <= snd_cc c) as Hd1 by (intros; destruct Hdata1; [done|lia]).
  assert (sendalot1 = true → TH_FIN flags1 = false ∧ len1 ≠ 0 ∧ (get t_force c = 0 ∨ get TCPT_PERSIST c = 0)) as Hsa1.
  { intros Hs. destruct (Hsa Hs) as [[Hs' ->]|(H2 & H3 & H4)].
    - destruct (Hall Hs') as [? ?]. split_and!; [|done|apply Hper; by right].
      destruct (TH_FIN flags1); [|done]. destruct Hfin1; [done|lia].
    - split_and!; [done|done|]. apply Hper. by left. }
  clear Hfl Hfl1 Hfin Hdata Hl0 Hsa Hall Hper.
  pose proof (alloc_spec off len1 (sizeof_tcpiphdr + zlen opt) c) as Hal.
  pose proof (alloc_never off len1 (sizeof_tcpiphdr + zlen opt) c) as Han.
  destruct (out_alloc off len1 _ c) as [data c1]. destruct Hal as [[e ->] Hal]. cbn [fst] in Han.
  assert (send_inv n m (with_env e c)) as Hi1 by (by apply (send_inv_stable n m c)).
  destruct data as [data|].
  2:{ destruct Hnf as [Hnf|Hnf]; [|by destruct (Han Hnf)]. by apply (round_no_buffer k n m). }
  cbv zeta.
  assert (flag T_TEMPLATE (with_env e c) = true) as -> by apply Hk.
  set (flags2 := if negb (len1 =? 0) && (u32 (off + len1) =? snd_cc (with_env e c)) then set_push true flags1 else flags1).
  assert (TH_SYN flags2 = false ∧ TH_RST flags2 = TH_RST (tcp_outflags (state c)) ∧ TH_ACK flags2 = true ∧ TH_FIN flags2 = TH_FIN flags1)
    as (Hs2 & Hr2 & Ha2 & Hf2) by (unfold flags2; by destruct (_ && _)).
  destruct (resend_inv n m len1 flags2 (with_env e c) Hi1 Hlen1 Hd1) as (n1 & Hi2 & Hst2 & Hn1 & Hn1' & Hsf & Hfe);
    [by rewrite Hf2|].
  pose proof (tlog_resend flags2 (with_env e c)) as Hlog.
  assert (TH_FIN flags2 = false → resend_fin flags2 (with_env e c) = with_env e c) as Hno
    by (unfold resend_fin; by intros ->).
  set (c2 := resend_fin flags2 (with_env e c)) in *.
  assert (stable c c2) as Hst by exact Hst2.
  pose proof (stable_cc _ _ Hst) as Hcc.
  apply (round_sent pktSent k n1 m); try done.
  - unfold c2, resend_fin. destruct (_ && _ && _); by conn_simpl.
  - apply (advance_counted n1 m); [done|destruct Hi; lia|done|].
    destruct Hal as [[-> ->]|[Hne Hal]]; [done|]. destruct (Hdata1 Hne) as [-> ?].
    rewrite Hal, zlen_ztake, zlen_zdrop by (destruct Hi; lia). destruct Hi. unfold snd_cc in *. lia.
  - intros Hne. rewrite Hcc, <- (Hkn1 Hne). split; [by apply Hn1|by apply Hd1].
  - intros HF. rewrite Hcc. destruct Hst as (_ & -> & _). split; [apply Hfin1; by rewrite <- Hf2|by apply Hfe].
  - apply (stable_seg c c2); [done|]. apply (seg_built n1 m); try done.
    + by destruct Hst as (_ & -> & _).
    + intros Hne. rewrite Hcc, (stable_usable _ _ Hst), (Hn1 Hne).
      destruct (Hdata1 Hne) as [-> ?]. split; [done|].
      destruct Hal as [[? _]|[_ Hal]]; [done|]. destruct Hst as [-> _]. apply Hal; destruct Hi; lia.
    + intros ->. by destruct Hal as [[_ ?]|[? _]].
    + by rewrite Hcc.
  - intros Hs. destruct (Hsa1 Hs) as (HF & Hne & Hp). rewrite <- Hf2 in HF.
    split_and!; [done|done|]. by rewrite (Hno HF).
Qed.

Lemma nothing_spec n m c : send_inv n m c →
  so (out_nothing c) = so c ∧ tlog (out_nothing c) = tlog c ∧ send_inv n m (out_nothing c).
Proof.
  intros Hi. unfold out_nothing, tcp_setpersist. cbv zeta.
  destruct (negb (snd_cc c =? 0) && (get TCPT_REXMT c =? 0) && (get TCPT_PERSIST c =? 0)) eqn:Hb; [|done].
  rewrite !andb_true_iff in Hb. destruct Hb as [[_ Hr] _]. conn_simpl. rewrite Hr.
  assert (send_inv n m (set TCPT_PERSIST 1 c)).
  { destruct Hi. by split; conn_simpl. }
  destruct Hi. destruct (_ <? _); split_and!; try done; by split; conn_simpl.
Qed.

Lemma nothing_max c : get snd_max (out_nothing c) = get snd_max c.
Proof. unfold out_nothing, tcp_setpersist, panic. cbv zeta. repeat case_match; by conn_simpl. Qed.

Lemma round_ok_frame pktSent n m c0 c r : stable c0 c → tlog c = tlog c0 → flag TF_SENTFIN c = flag TF_SENTFIN c0 →
  get snd_max c = get snd_max c0 → round_ok pktSent n m c r → round_ok pktSent n m c0 r.
Proof.
  intros Hst Hlog Hsf Hmax. unfold round_ok, counted. rewrite Hmax. rewrite (stable_cc _ _ Hst).
  assert (state c = state c0) as -> by apply Hst. destruct r as [e c'|c']; cbv zeta.
  - rewrite Hlog. destruct Hst as (A1 & ?). rewrite A1. intros (B1 & B2 & B3). split_and!; try done.
    destruct B3 as [?|(s & ? & ? & ?)]; [by left|right]. exists s. split; [|done]. by apply (stable_seg c0 c).
  - rewrite Hlog, Hsf. intros (B1 & B2 & n' & m' & s & ? & ? & ? & ? & ? & ?). split_and!; try done.
    + by eapply stable_trans.
    + exists n', m', s. split_and!; try done. by apply (stable_seg c0 c).
Qed.

Lemma once_spec idle pktSent n m c : send_inv n m c → send_ok c → (flag TF_SENTFIN c = false ∨ never_fails) →
  round_ok pktSent n m c (out_once idle pktSent c).
Proof.
  intros Hi Hk Hnf. unfold out_once. pose proof (out_plan_spec n m c Hi Hk) as Hp.
  destruct (out_plan c) as [[[[off len] sendalot] flags] c1].
  destruct Hp as (n1 & Hf & Hi1 & Hlen & Hdata & Hsa & Hper & Hfl & Hfin).
  pose proof (stable_plan _ _ Hf) as Hst. destruct Hf as (_ & _ & Hlog & _ & Hfg & _).
  assert (flag TF_SENTFIN c1 = flag TF_SENTFIN c) as Hsf by (unfold flag; by rewrite Hfg).
  pose proof (stable_cc _ _ Hst) as Hcc. pose proof (stable_usable _ _ Hst) as Hu.
  apply (round_ok_frame pktSent n m c c1); [done|done|done| |].
  { destruct Hi, Hi1. rewrite si_max0, si_max1. destruct Hst as (_ & _ & Hfld & _). by rewrite (Hfld snd_una). }
  pose proof Hst as (A1 & A2 & A3 & A4). cbv zeta.
  destruct (_ || _ || _).
  - apply (send_round pktSent n n1 m); rewrite ?Hcc, ?Hu, ?Hsf, ?A2, ?A3 by done; try done.
    + by apply (stable_ok c c1).
    + intros Hne. by apply Hdata.
    + intros Hne. destruct (Hdata Hne) as (-> & -> & ?). done.
    + intros Hs. destruct (Hsa Hs) as [-> ?]. destruct Hk as [_ _ Hm _]. split; [|done].
      unfold opt_len in Hm. destruct (_ && _); lia.
  - destruct (nothing_spec n1 m c1 Hi1) as (B1 & B2 & B3). split_and!; [done|exists n1, m; split; [done|lia]|left; split; [done|by rewrite nothing_max]].
Qed.

(** *** [snd_max] does not go back *)

Definition ahead c c1 : Prop :=
  get snd_una c1 = get snd_una c ∧
  (get snd_max c1 = get snd_max c ∨ 0 < s32 (get snd_max c1 - get snd_max c)).

Lemma ahead_refl c : ahead c c.
Proof. split; [done|by left]. Qed.

Lemma ahead_set f v c c1 : f ≠ snd_una → f ≠ snd_max → ahead c c1 → ahead c (set f v c1).
Proof. unfold ahead. intros ? ?. by rewrite !get_set_ne. Qed.

(** Steps with nothing but such assignments. *)
Ltac ahead :=
  repeat first
    [ done
    | apply ahead_set; [discriminate|discriminate|]
    | match goal with
      | |- ahead ?c (set_flag ?f ?b ?c1) => change (ahead c c1)
      | |- ahead ?c (with_env ?e ?c1) => change (ahead c c1)
      | |- ahead ?c (emit ?e ?c1) => change (ahead c c1)
      | |- ahead _ (if ?b then _ else _) => destruct b eqn:?
      end ].

Lemma ahead_max v c c1 : get snd_una c1 = get snd_una c → get snd_max c1 = get snd_max c →
  SEQ_GT v (get snd_max c1) = true → ahead c (set snd_max v c1).
Proof.
  intros Hu Hm Hv. unfold ahead. conn_simpl. split; [done|right]. rewrite Hm, SEQ_GT_eq in Hv.
  rewrite store_u32 by done. destruct (u32_ex v) as [k Hk]. rewrite Hk.
  replace (v + k * 4294967296 - get snd_max c) with (v - get snd_max c + k * 4294967296) by lia.
  unfold s32 in *. replace (v - get snd_max c + k * 4294967296 + 2147483648)
    with (v - get snd_max c + 2147483648 + k * 4294967296) by lia. rewrite Z.mod_add by done. lia.
Qed.

Lemma advance_ahead len flags c : ahead c (out_advance len flags c).
Proof.
  unfold out_advance, arm_rexmt, time_it. cbv zeta.
  destruct (TH_SYN flags), (TH_FIN flags); ahead; try apply ahead_refl.
  all: apply ahead_max; done.
Qed.

Lemma error_ahead error c c1 : ahead c c1 → ahead c (out_error error c1).2.
Proof. intros Hq. unfold out_error, tcp_quench. destruct (_ =? _); [|destruct (_ && _)]; cbn [snd]; ahead. Qed.

(** Before the sequence numbers advance neither of the two changes. *)
Definition calm c c1 : Prop := get snd_una c1 = get snd_una c ∧ get snd_max c1 = get snd_max c.

Lemma calm_ahead c c1 c2 : calm c c1 → ahead c1 c2 → ahead c c2.
Proof. unfold ahead. intros [Hu Hm]. by rewrite Hu, Hm. Qed.

Lemma drag_calm c c1 : calm c c1 → calm c (drag_up c1).
Proof. unfold calm, drag_up. destruct (SEQ_GT _ _); [done|]. by conn_simpl. Qed.

Lemma send_ahead pktSent off len sendalot flags win c : TH_SYN flags = false →
  ahead c (match out_send pktSent off len sendalot flags win c with Return _ c1 | Again c1 => c1 end).
Proof.
  intros Hsyn. unfold out_send, out_opts, syn_opts. rewrite Hsyn. cbv beta iota zeta.
  match goal with |- context [if ?b then (?l, true, ?f, ?o, c) else ?r] =>
    assert (∃ len1 sa1 flags1 opt, (if b then (l, true, f, o, c) else r) = (len1, sa1, flags1, opt, c))
      as (len1 & sa1 & flags1 & opt & ->) by (destruct b; by repeat eexists) end.
  pose proof (alloc_spec off len1 (sizeof_tcpiphdr + zlen opt) c) as Hal.
  destruct (out_alloc off len1 _ c) as [data c1]. destruct Hal as [[e ->] _].
  assert (Hadv : ∀ fl c0, calm c c0 → ahead c (out_advance len1 fl (drag_up c0))).
  { intros fl c0 Hq. apply drag_calm in Hq. apply (calm_ahead _ _ _ Hq), advance_ahead. }
  destruct data as [data|].
  2:{ assert (Hun : ahead c (out_unsent pktSent len1 flags1 (with_env e c))).
      { unfold out_unsent. destruct pktSent; [exact (ahead_refl c)|by apply Hadv]. }
      pose proof (error_ahead ENOBUFS _ _ Hun) as Hq.
      destruct (out_error ENOBUFS _). exact Hq. }
  match goal with |- context [out_seg len1 _ ?f _ _ _] => set (fl := f) end.
  set (c1 := resend_fin fl _).
  assert (calm c c1) as Hq1 by (unfold calm, c1, resend_fin, panic; repeat case_match; done).
  specialize (Hadv fl c1 Hq1). set (c2 := out_advance _ _ _) in *.
  destruct (ip_output _ _ _) as [error e']. destruct (negb (error =? 0)).
  - pose proof (error_ahead error c (emit (Sent (out_seg len1 (out_window win c1) fl opt data c1)) (with_env e' c2)) Hadv) as Hq.
    destruct (out_error error _). exact Hq.
  - assert (ahead c (out_sent (out_window win c1) (emit (Sent (out_seg len1 (out_window win c1) fl opt data c1)) (with_env e' c2)))) as Hq.
    { unfold out_sent. cbv zeta. ahead. }
    by destruct sa1.
Qed.

Lemma plan_calm c : calm c (out_plan c).2.
Proof.
  unfold calm, out_plan, out_force, out_length.
  destruct (get t_force c =? 0); [|destruct (s32 (Z.min (get snd_wnd c) (get snd_cwnd c)) =? 0)].
  all: destruct (_ <? 0); cbv zeta; cbn [fst snd]; repeat case_match; done.
Qed.

Lemma once_ahead idle pktSent n m c : send_inv n m c → send_ok c →
  ahead c (match out_once idle pktSent c with Return _ c1 | Again c1 => c1 end).
Proof.
  intros Hi Hk. pose proof (out_plan_spec n m c Hi Hk) as Hp. pose proof (plan_calm c) as Hcalm. unfold out_once.
  destruct (out_plan c) as [[[[off len] sendalot] flags] c1]. cbn [snd] in Hcalm.
  destruct Hp as (n1 & Hf & Hi1 & Hlen & Hdata & Hsa & Hper & Hfl & Hfin). cbv zeta.
  apply (calm_ahead _ _ _ Hcalm). destruct (_ || _ || _).
  - apply send_ahead. apply Hfl.
  - unfold out_nothing, tcp_setpersist, panic. cbv zeta. ahead; apply ahead_refl.
Qed.

(** In terms of the offsets. *)
Lemma ahead_offset n m n' m' c c1 : ahead c c1 → send_inv n m c → send_inv n' m' c1 → m <= m'.
Proof.
  intros [Hu Hd] [] [].
  assert (0 <= s32 (get snd_max c1 - get snd_max c)) as Hs.
  { destruct Hd as [->|?]; [|lia]. by rewrite Z.sub_diag. }
  unfold snd_cc in *. rewrite si_max0, si_max1, Hu, s32_seq in Hs; [lia|].
  destruct (flag TF_SENTFIN c), (flag TF_SENTFIN c1); cbn in *; lia.
Qed.

(** *** The loop *)

Lemma loop_spec idle : ∀ fuel pktSent n m c, send_inv n m c → send_ok c →
  (flag TF_SENTFIN c = false ∨ never_fails) → snd_cc c + 1 - n < Z.of_nat fuel →
  ∃ r c' ss, out_loop fuel idle pktSent c = Some (r, c') ∧ so c' = so c ∧
    (∃ n' m', send_inv n' m' c' ∧ m <= m' ∧
      (TH_FIN (tcp_outflags (state c)) = false → m' <= Z.max m (snd_cc c))) ∧
    tlog c' = map Sent ss ++ tlog c ∧ Forall (seg_ok c) ss ∧
    (pktSent = true ∨ ss ≠ [] → get snd_max c' = get snd_max c ∨ Exists (λ s, in_segment s (get snd_max c')) ss).
Proof.
  induction fuel as [|fuel IH]; intros pktSent n m c Hi Hk Hnf Hfuel.
  { destruct Hi. assert (m <= snd_cc c + 1) by (destruct (flag TF_SENTFIN c); cbn in *; lia). lia. }
  cbn [out_loop]. pose proof (once_spec idle pktSent n m c Hi Hk Hnf) as Hr.
  pose proof (once_ahead idle pktSent n m c Hi Hk) as Ha.
  destruct (out_once idle pktSent c) as [r c'|c'].
  - destruct Hr as (A1 & (n' & m' & A2 & A2') & A3).
    pose proof (ahead_offset _ _ _ _ _ _ Ha Hi A2).
    destruct A3 as [[A3 A4]|(s & A3 & A4 & A5)].
    + exists r, c', []. split_and!; try done; [by exists n', m'|]. intros [Hp|?]; [left; by apply A4|done].
    + exists r, c', [s]. split_and!; try done; [by exists n', m'|by constructor|]. intros _.
      destruct A4; [by left|right; by constructor].
  - destruct Hr as (Hst & Hsf & n' & m' & s & Hi' & Hm & Hn & Hs & Hcnt & Hlog).
    destruct (IH true n' m' c') as (r & c2 & ss & B1 & B2 & B3 & B4 & B5 & B6).
    + done.
    + by apply (stable_ok c c').
    + by rewrite Hsf.
    + rewrite (stable_cc _ _ Hst). lia.
    + exists r, c2, (ss ++ [s]). split_and!; try done.
      * rewrite B2. apply Hst.
      * destruct B3 as (n2 & m2 & B3 & Bm & B3'). exists n2, m2. split; [done|].
        pose proof (ahead_offset _ _ _ _ _ _ Ha Hi Hi'). split; [lia|]. intros HF. specialize (Hm HF).
        assert (state c' = state c) as Hsc by apply Hst. rewrite Hsc, (stable_cc _ _ Hst) in B3'.
        specialize (B3' HF). lia.
      * rewrite B4, Hlog, map_app, <- app_assoc. done.
      * apply Forall_app. split; [|by constructor].
        exact (List.Forall_impl _ (λ x, stable_seg _ _ x Hst) B5).
      * intros _. destruct (B6 ltac:(by left)) as [Hx|Hx]; [|right; apply Exists_app; by left].
        unfold counted in Hcnt. rewrite <- Hx in Hcnt. destruct Hcnt; [by left|right]. apply Exists_app. right. by constructor.
Qed.

(** The whole of [tcp_output]. *)
Lemma output_full fuel n m c : send_inv n m c → send_ok c → (flag TF_SENTFIN c = false ∨ never_fails) →
  snd_cc c + 1 < Z.of_nat fuel →
  ∃ r c' ss n' m', tcp_output fuel c = Some (r, c') ∧ so c' = so c ∧ send_inv n' m' c' ∧ m <= m' ∧
    (TH_FIN (tcp_outflags (state c)) = false → m' <= Z.max m (snd_cc c)) ∧
    tlog c' = map Sent ss ++ tlog c ∧ Forall (seg_ok (slow_start c)) ss ∧
    (ss ≠ [] → get snd_max c' = get snd_max c ∨ Exists (λ s, in_segment s (get snd_max c')) ss).
Proof.
  intros Hi Hk Hnf Hfuel. unfold tcp_output.
  assert (send_inv n m (slow_start c) ∧ send_ok (slow_start c) ∧
    flag TF_SENTFIN (slow_start c) = flag TF_SENTFIN c ∧ snd_cc (slow_start c) = snd_cc c ∧
    so (slow_start c) = so c ∧ tlog (slow_start c) = tlog c ∧ state (slow_start c) = state c ∧
    get snd_max (slow_start c) = get snd_max c)
    as (Hi' & Hk' & Hf & Hcc & Hso & Hlog & Hst & Hmax).
  { unfold slow_start. destruct (_ && _); [|by destruct Hi].
    pose proof Hi as []. pose proof Hk as []. split_and!; try done; split; conn_simpl; try done.
    rewrite store_u32 by done. unfold opt_len in *. rewrite u32_id; destruct (_ && _); lia. }
  destruct (loop_spec (get snd_max c =? get snd_una c) fuel false n m (slow_start c)) as
    (r & c' & ss & A1 & A2 & (n' & m' & A3 & Am & A3') & A4 & A5 & A6); rewrite ?Hf, ?Hcc; try done.
  { destruct Hi. lia. }
  rewrite Hst, Hcc in A3'. exists r, c', ss, n', m'. rewrite Hmax in A6.
  split_and!; try done; try congruence. intros Hne. apply A6. by right.
Qed.

Lemma output_spec fuel n m c : send_inv n m c → send_ok c → (flag TF_SENTFIN c = false ∨ never_fails) →
  snd_cc c + 1 < Z.of_nat fuel →
  ∃ r c' ss n' m', tcp_output fuel c = Some (r, c') ∧ so c' = so c ∧ send_inv n' m' c' ∧ m <= m' ∧
    (TH_FIN (tcp_outflags (state c)) = false → m' <= Z.max m (snd_cc c)) ∧
    tlog c' = map Sent ss ++ tlog c ∧ Forall (seg_ok (slow_start c)) ss.
Proof.
  intros Hi Hk Hnf Hfuel. destruct (output_full fuel n m c Hi Hk Hnf Hfuel) as
    (r & c' & ss & n' & m' & ? & ? & ? & ? & ? & ? & ? & _). by exists r, c', ss, n', m'.
Qed.

(** *** No room for data *)

(** Timestamps fill the segments: each round sends an empty one. *)
Record stuck (n m : Z) c : Prop := {
  st_inv : send_inv n m c;
  st_opts : opt_len c = get t_maxseg c;
  st_pos : 0 < get t_maxseg c;
  st_wnd : 0 <= get snd_wnd c < 4294967296;
  st_cwnd : 0 <= get snd_cwnd c < 4294967296;
  st_room : n + get t_maxseg c <= Z.min (snd_cc c) (Z.min (get snd_wnd c) (get snd_cwnd c));
  st_force : get t_force c = 0;
  st_rst : TH_RST (tcp_outflags (state c)) = false
}.

Lemma stuck_stable n m c c1 : stuck n m c → stable c c1 → send_inv n m c1 → stuck n m c1.
Proof.
  intros [] Hst Hi. pose proof (stable_cc _ _ Hst) as Hcc. destruct Hst as (A1 & A2 & A3 & A4).
  split; unfold opt_len in *; rewrite ?Hcc, ?A2, ?A3, ?A4 by done; done.
Qed.

Lemma stuck_plan n m c : stuck n m c → out_plan c =
  (n, get t_maxseg c, get t_maxseg c <? Z.min (snd_cc c) (Z.min (get snd_wnd c) (get snd_cwnd c)) - n,
   if SEQ_LT (get snd_nxt c + get t_maxseg c) (get snd_una c + snd_cc c)
   then set_fin false (tcp_outflags (state c)) else tcp_outflags (state c), c).
Proof.
  intros []. pose proof st_inv0 as []. unfold out_plan, out_force, out_length.
  assert (s32 (get snd_nxt c - get snd_una c) = n) as ->.
  { rewrite <- (Z.add_0_r (get snd_una c)) at 1. rewrite (seq_diff c n 0); lia || done. }
  rewrite st_force0. cbn [Z.eqb].
  destruct (s32_u32_id (Z.min (get snd_wnd c) (get snd_cwnd c)) ltac:(lia)) as [-> _].
  rewrite s32_id by lia. destruct (Z.ltb_spec (Z.min (snd_cc c) (Z.min (get snd_wnd c) (get snd_cwnd c)) - n) 0); [lia|].
  cbv zeta. destruct (Z.ltb_spec (get t_maxseg c) (Z.min (snd_cc c) (Z.min (get snd_wnd c) (get snd_cwnd c)) - n)) as [?|?]; [done|].
  by replace (Z.min (snd_cc c) _ - n) with (get t_maxseg c) by lia.
Qed.

(** IP accepts every segment. *)
Definition ip_accepts : Prop := ∀ s d e, (ip_output s d e).1 = 0.

Lemma advance_nothing n m flags c : send_inv n m c → TH_SYN flags = false → TH_FIN flags = false →
  send_inv n m (out_advance 0 flags c).
Proof.
  intros Hi Hs HF. pose proof Hi as []. pose proof (advance_stable 0 flags c) as Hst.
  assert (Hnx : get snd_nxt (out_advance 0 flags c) = get snd_nxt c ∧
    get snd_max (out_advance 0 flags c) = get snd_max c ∧
    flag TF_SENTFIN (out_advance 0 flags c) = flag TF_SENTFIN c).
  { assert (0 <= snd_cc c) by (unfold snd_cc; apply zlen_nonneg).
    assert (m <= snd_cc c + 1) by (destruct (flag TF_SENTFIN c); cbn in *; lia).
    assert (SEQ_GT (get snd_nxt c) (get snd_max c) = false) as Hgt.
    { rewrite SEQ_GT_eq, si_nxt0, si_max0, s32_seq by lia. destruct (Z.ltb_spec 0 (n - m)); [lia|done]. }
    assert (store snd_nxt (get snd_nxt c + 0) = get snd_nxt c) as Hst0
      by (rewrite store_u32, Z.add_0_r, si_nxt0, u32_u32 by done; done).
    unfold out_advance. rewrite Hs, HF. cbv zeta. destruct (_ || _).
    - set (c1 := set snd_nxt (get snd_nxt c + 0) c).
      assert (time_it (get snd_nxt c) c1 = c1) as ->.
      { unfold time_it. assert (SEQ_GT (get snd_nxt c1) (get snd_max c1) = false) as ->; [|done].
        unfold c1. conn_simpl. by rewrite Hst0. }
      destruct (arm_rexmt_same c1) as (_ & -> & -> & ->). unfold c1. conn_simpl. by rewrite Hst0.
    - rewrite Z.add_0_r, Hgt. done. }
  destruct Hnx as (H1 & H2 & H3). by apply (send_inv_stable n m c).
Qed.

Lemma stuck_once idle pktSent n m c : stuck n m c → never_fails → ip_accepts →
  ∃ c', out_once idle pktSent c = Again c' ∧ stuck n m c'.
Proof.
  intros Hs Hnf Hip. pose proof Hs as []. pose proof st_inv0 as []. unfold out_once.
  rewrite (stuck_plan n m c Hs). cbv zeta.
  assert (send_data idle n (get t_maxseg c) c = true) as ->.
  { unfold send_data. rewrite Z.eqb_refl, orb_true_l. destruct (Z.eqb_spec (get t_maxseg c) 0); [lia|done]. }
  cbn [orb]. destruct si_sync0 as [Hsyn _].
  set (flags := if SEQ_LT _ _ then _ else _).
  assert (TH_SYN flags = false ∧ TH_RST flags = false) as [Hs1 Hr1] by (unfold flags; by destruct (SEQ_LT _ _)).
  unfold out_send, out_opts, syn_opts. rewrite Hs1. cbv beta iota zeta. cbn [app].
  pose proof (tstamp_len flags c Hs1) as Hol. rewrite Hr1 in Hol.
  rewrite Hol, st_opts0, Z.sub_diag. change (u32 0) with 0.
  destruct (Z.ltb_spec 0 (get t_maxseg c)); [|lia]. cbv beta iota zeta. rewrite Hol, st_opts0.
  pose proof (alloc_spec n 0 (sizeof_tcpiphdr + get t_maxseg c) c) as Hal.
  pose proof (alloc_never n 0 (sizeof_tcpiphdr + get t_maxseg c) c Hnf) as Han.
  destruct (out_alloc n 0 _ c) as [data c1]. destruct Hal as [[e ->] _]. cbn [fst] in Han.
  destruct data as [data|]; [|done]. change (negb (0 =? 0)) with false. cbn [andb]. cbv zeta.
  set (c1 := if flag T_TEMPLATE (with_env e c) then with_env e c else panic (with_env e c)).
  assert (stable c c1 ∧ get snd_nxt c1 = get snd_nxt c ∧ get snd_max c1 = get snd_max c ∧
    flag TF_SENTFIN c1 = flag TF_SENTFIN c) as (Hst1 & Hn1 & Hm1 & Hf1)
    by (unfold c1; destruct (flag T_TEMPLATE (with_env e c)); split_and!; done).
  assert (resend_fin (set_fin false flags) c1 = c1) as -> by done.
  set (s := out_seg _ _ _ _ _ _). set (c2 := out_advance _ _ _).
  assert (send_inv n m c2) as Hi2.
  { apply advance_nothing; [|exact Hs1|reflexivity]. apply drag_inv. by apply (send_inv_stable n m c). }
  assert (stable c c2) as Hst2.
  { eapply stable_trans; [|apply advance_stable]. eapply stable_trans; [exact Hst1|]. apply drag_same. }
  specialize (Hip s (sflag SO_DONTROUTE c2) (env c2)).
  destruct (ip_output s _ (env c2)) as [error e']. cbn in Hip. subst error. cbn [Z.eqb negb].
  eexists. split; [reflexivity|].
  destruct (sent_same (out_window (so_space (so_rcv (so c))) c1) (emit (Sent s) (with_env e' c2))) as (B1 & B2 & B3 & B4 & B5).
  apply (stuck_stable n m c); [done| |].
  - eapply stable_trans; [|exact B1]. exact Hst2.
  - apply (send_inv_stable n m (emit (Sent s) (with_env e' c2))); try done.
    by apply (send_inv_stable n m c2).
Qed.

Lemma stuck_loop idle n m : never_fails → ip_accepts → ∀ fuel pktSent c, stuck n m c → out_loop fuel idle pktSent c = None.
Proof.
  intros Hnf Hip. induction fuel as [|fuel IH]; intros pktSent c Hs; [done|].
  cbn [out_loop]. destruct (stuck_once idle pktSent n m c Hs Hnf Hip) as (c' & -> & Hs'). by apply IH.
Qed.

(** *** What output keeps *)

(** While the retransmit timer runs and the window is open, output touches no
    timer. *)
Definition loud (f : field) : bool :=
  match f with
  | snd_nxt | snd_max | snd_up | t_rtt | t_rtseq | rcv_adv | last_ack_sent | t_softerror | snd_cwnd => true
  | _ => false
  end.

Definition quiet c c1 : Prop :=
  so c1 = so c ∧ state c1 = state c ∧ freed c1 = freed c ∧
  (∀ f, loud f = false → get f c1 = get f c) ∧
  (∀ f, fchanges f = false → flag f c1 = flag f c) ∧
  (get snd_cwnd c1 = get snd_cwnd c ∨ get snd_cwnd c1 = u32 (get t_maxseg c)).

Lemma quiet_refl c : quiet c c.
Proof. split_and!; try done. by left. Qed.

Lemma quiet_trans c1 c2 c3 : quiet c1 c2 → quiet c2 c3 → quiet c1 c3.
Proof.
  intros (A1 & A2 & A3 & A4 & A5 & A6) (B1 & B2 & B3 & B4 & B5 & B6).
  split_and!; try congruence.
  - intros f Hf. by rewrite B4, A4.
  - intros f Hf. by rewrite B5, A5.
  - destruct B6 as [->| ->]; [done|right]. by rewrite A4.
Qed.

Lemma quiet_set f v c c1 : loud f = true → f ≠ snd_cwnd → quiet c c1 → quiet c (set f v c1).
Proof.
  intros Hf Hw (A1 & A2 & A3 & A4 & A5 & A6). split_and!; try done.
  - intros g Hg. rewrite <- (A4 g Hg). apply get_set_ne. congruence.
  - by rewrite get_set_ne.
Qed.

Lemma quiet_set_flag f b c c1 : fchanges f = true → quiet c c1 → quiet c (set_flag f b c1).
Proof.
  intros Hf (A1 & A2 & A3 & A4 & A5 & A6). split_and!; try done.
  intros g Hg. rewrite <- (A5 g Hg). apply flag_set_ne. congruence.
Qed.

Lemma quiet_quench c c1 : quiet c c1 → quiet c (tcp_quench c1).
Proof.
  intros (A1 & A2 & A3 & A4 & A5 & A6). split_and!; try done.
  - intros g Hg. rewrite <- (A4 g Hg). apply get_set_ne. by intros <-.
  - right. unfold tcp_quench. conn_simpl. rewrite store_u32 by done. by rewrite A4.
Qed.

Lemma quiet_env e c c1 : quiet c c1 → quiet c (with_env e c1).
Proof. done. Qed.
Lemma quiet_emit e c c1 : quiet c c1 → quiet c (emit e c1).
Proof. done. Qed.

Ltac quiet :=
  repeat first
    [ done
    | apply quiet_quench
    | apply quiet_set; [reflexivity|discriminate|]
    | apply quiet_set_flag; [reflexivity|]
    | apply quiet_env
    | apply quiet_emit
    | match goal with |- quiet _ (if ?b then _ else _) => destruct b end
    | apply quiet_refl ].

Lemma time_it_quiet startseq c : quiet c (time_it startseq c).
Proof. unfold time_it. cbv zeta. quiet. Qed.

Lemma advance_quiet len flags c : TH_SYN flags = false → get t_force c = 0 → get TCPT_REXMT c ≠ 0 →
  quiet c (out_advance len flags c).
Proof.
  intros Hsyn Hf Hr. unfold out_advance. rewrite Hf, Hsyn. cbn [Z.eqb orb]. cbv zeta.
  set (c1 := time_it _ _). assert (quiet c c1) as Hq.
  { eapply quiet_trans; [|apply time_it_quiet]. quiet. }
  unfold arm_rexmt. assert (get TCPT_REXMT c1 = get TCPT_REXMT c) as -> by (by apply Hq).
  by apply Z.eqb_neq in Hr as ->.
Qed.

Lemma error_quiet error c c1 : quiet c c1 → quiet c (out_error error c1).2.
Proof. intros Hq. unfold out_error. destruct (_ =? _); [|destruct (_ && _)]; cbn [snd]; quiet. Qed.

Definition result (r : oresult E B) : conn E B := match r with Return _ c => c | Again c => c end.

Lemma send_quiet pktSent off len sendalot flags win c : TH_SYN flags = false → get t_force c = 0 →
  get TCPT_REXMT c ≠ 0 → quiet c (result (out_send pktSent off len sendalot flags win c)).
Proof.
  intros Hsyn Hf Hr. unfold out_send, out_opts, syn_opts. rewrite Hsyn. cbv beta iota zeta.
  match goal with |- context [if ?b then (?l, true, ?f, ?o, c) else ?r] =>
    assert (∃ len1 sa1 flags1 opt, (if b then (l, true, f, o, c) else r) = (len1, sa1, flags1, opt, c) ∧
      TH_SYN flags1 = false) as (len1 & sa1 & flags1 & opt & -> & Hs1) end.
  { destruct (_ <? _); repeat eexists; done. }
  pose proof (alloc_spec off len1 (sizeof_tcpiphdr + zlen opt) c) as Hal.
  destruct (out_alloc off len1 _ c) as [data c1]. destruct Hal as [[e ->] _].
  assert (Hadv : ∀ fl c0, TH_SYN fl = false → quiet c c0 → quiet c (out_advance len1 fl (drag_up c0))).
  { intros fl c0 Hfl Hq. assert (quiet c (drag_up c0)) as Hq2 by (unfold drag_up; quiet).
    pose proof Hq2 as (_ & _ & _ & A4 & _).
    eapply quiet_trans; [exact Hq2|]. apply advance_quiet; rewrite ?A4; done. }
  destruct data as [data|].
  2:{ assert (Hun : quiet c (out_unsent pktSent len1 flags1 (with_env e c))).
      { unfold out_unsent. destruct pktSent; [exact (quiet_refl c)|exact (Hadv _ (with_env e c) Hs1 (quiet_refl c))]. }
      pose proof (error_quiet ENOBUFS _ _ Hun) as Hq.
      destruct (out_error ENOBUFS _). exact Hq. }
  match goal with |- context [out_seg len1 _ ?f _ _ _] => set (fl := f) end.
  assert (TH_SYN fl = false) as Hs2 by (unfold fl; by destruct (_ && _)).
  set (c1 := resend_fin fl _).
  assert (quiet c c1) as Hq1.
  { unfold c1, resend_fin. destruct (flag T_TEMPLATE (with_env e c)), (_ && _ && _); quiet. }
  specialize (Hadv fl c1 Hs2 Hq1). set (c2 := out_advance _ _ _) in *.
  destruct (ip_output _ _ _) as [error e']. destruct (negb (error =? 0)).
  - pose proof (error_quiet error c (emit (Sent (out_seg len1 (out_window win c1) fl opt data c1)) (with_env e' c2)) Hadv) as Hq.
    destruct (out_error error _). exact Hq.
  - assert (quiet c (out_sent (out_window win c1) (emit (Sent (out_seg len1 (out_window win c1) fl opt data c1)) (with_env e' c2)))) as Hq.
    { unfold out_sent. cbv zeta. quiet. }
    by destruct sa1.
Qed.

(** With the window open, and not in persist state, the plan changes nothing. *)
Lemma plan_quiet c : get t_force c = 0 → 0 < get snd_wnd c < 4294967296 → 0 < get snd_cwnd c < 4294967296 →
  (out_plan c).2 = c ∧ ((out_plan c).1.2 = tcp_outflags (state c) ∨ (out_plan c).1.2 = set_fin false (tcp_outflags (state c))).
Proof.
  intros Hf Hw Hc. unfold out_plan, out_force, out_length. rewrite Hf. cbn [Z.eqb].
  destruct (s32_u32_id (Z.min (get snd_wnd c) (get snd_cwnd c)) ltac:(lia)) as [Hmin _].
  destruct (Z.eqb_spec (s32 (Z.min (get snd_wnd c) (get snd_cwnd c))) 0) as [Hz|]; [rewrite Hz in Hmin; change (u32 0) with 0 in Hmin; lia|].
  destruct (_ <? 0); cbv zeta; cbn [fst snd]; (split; [done|]); (destruct (SEQ_LT _ _); [by right|by left]).
Qed.

Lemma once_quiet idle pktSent c : synced (state c) → get t_force c = 0 → get TCPT_REXMT c ≠ 0 →
  0 < get snd_wnd c < 4294967296 → 0 < get snd_cwnd c < 4294967296 →
  quiet c (result (out_once idle pktSent c)).
Proof.
  intros [Hs _] Hf Hr Hw Hc. destruct (plan_quiet c Hf Hw Hc) as [Hp1 Hp2]. unfold out_once.
  destruct (out_plan c) as [[[[off len] sendalot] flags] c1]. cbn [fst snd] in Hp1, Hp2. subst c1.
  cbv zeta. destruct (_ || _ || _).
  - apply send_quiet; [|done|done]. destruct Hp2 as [-> | ->]; done.
  - unfold out_nothing. apply Z.eqb_neq in Hr. rewrite Hr, andb_false_r. apply quiet_refl.
Qed.

Lemma output_quiet fuel r c c' : tcp_output fuel c = Some (r, c') → synced (state c) → get t_force c = 0 →
  get TCPT_REXMT c ≠ 0 → 0 < get snd_wnd c < 4294967296 → 0 < get snd_cwnd c < 4294967296 →
  0 < get t_maxseg c < 65536 → quiet c c'.
Proof.
  unfold tcp_output. intros Hout Hs Hf Hr Hw Hc Hm. set (idle := _ =? _) in *. clearbody idle.
  assert (quiet c (slow_start c)) as Hq by (unfold slow_start; destruct (_ && _); [by apply (quiet_quench c c), quiet_refl|apply quiet_refl]).
  revert Hout Hq. generalize (slow_start c), false. revert r c'. induction fuel as [|fuel IH]; intros r c' c1 pktSent Hout Hq; [done|].
  cbn [out_loop] in Hout. pose proof Hq as (_ & A2 & _ & A4 & _ & A6).
  assert (u32 (get t_maxseg c) = get t_maxseg c) as Hu by (apply u32_id; lia). rewrite Hu in A6.
  pose proof (once_quiet idle pktSent c1) as Ho. rewrite !A2, !A4 in Ho by done.
  specialize (Ho Hs Hf Hr Hw ltac:(lia)).
  destruct (out_once idle pktSent c1) as [r1 c2|c2]; cbn [result] in Ho.
  - injection Hout as _ <-. by eapply quiet_trans.
  - eapply IH; [exact Hout|]. by eapply quiet_trans.
Qed.

End Spec.

(** ** Output is truthful and ends *)

(** C7: On a synchronised or closed connection whose sequence numbers are consistent
    with the send buffer, [tcp_output] returns after at most as many rounds as
    there are bytes in the buffer (provided a segment has room for data beside
    the options); every segment it hands to IP carries exactly the bytes of
    the buffer that its sequence number stands for, within the usable window,
    carries FIN only at the end of the buffer, and acknowledges [rcv_nxt]; and
    the sequence numbers stay consistent: nothing beyond the buffer and the FIN
    counts as sent and, once a segment was handed to IP, nothing beyond the
    segments handed to IP does: [snd_max] stays or ends in one of them.  (When
    already the first segment finds no buffer, the code counts it as sent.)
    Mbufs may run out at any segment, and IP may refuse any,
    when no FIN is outstanding; with a FIN outstanding mbufs are assumed not to
    run out: [fin_resent_without_buffer] shows why. *)
Theorem tcp_output_truthful {E B} `{!TcpDefs, !TcpDefsLaws, !SoBuf B, !SoBufLaws B, !TcpEnv E, !TcpEnvLaws E}
  (n m : Z) (fuel : nat) (c : conn E B) :
  send_inv n m c → send_ok c → (flag TF_SENTFIN c = false ∨ never_fails (E := E)) →
  snd_cc c + 1 < Z.of_nat fuel →
  ∃ r c' ss n' m', tcp_output fuel c = Some (r, c') ∧ so c' = so c ∧ send_inv n' m' c' ∧
    tlog c' = map Sent ss ++ tlog c ∧ Forall (seg_ok (slow_start c)) ss ∧
    (ss ≠ [] → get snd_max c' = get snd_max c ∨ Exists (λ s, in_segment s (get snd_max c')) ss).
Proof.
  intros Hi Hk Hnf Hfuel. destruct (output_full fuel n m c Hi Hk Hnf Hfuel) as
    (r & c' & ss & n' & m' & ? & ? & ? & _ & _ & ? & ? & ?). by exists r, c', ss, n', m'.
Qed.

(** C35: When the timestamp option takes the whole segment (a send
    buffer or a route's send pipe of its length), and at least a segment of data
    lies in the window, [tcp_output] never returns: it sends segments
    without data for ever, as long as there are mbufs and IP takes them. *)
Theorem tcp_output_livelock {E B} `{!TcpDefs, !TcpDefsLaws, !SoBuf B, !SoBufLaws B, !TcpEnv E, !TcpEnvLaws E}
  (n m : Z) (fuel : nat) (c : conn E B) :
  stuck n m (slow_start c) → never_fails (E := E) → ip_accepts (E := E) → tcp_output fuel c = None.
Proof. intros Hs Hnf Hip. by apply (stuck_loop _ n m). Qed.

Import Demo SubrDemo.

Definition out_fields (f : field) : Z :=
  match f with
  | snd_una => 4294967290 | snd_nxt => 4294967290 | snd_max => 4294967290 | snd_up => 4294967290
  | snd_wnd => 4096 | snd_cwnd => 4096 | max_sndwnd => 4096 | t_maxseg => 8
  | rcv_nxt => 77 | rcv_adv => 8269 | t_rxtcur => 6 | t_srtt => 8 | t_rttvar => 4
  | _ => 0
  end.

(** Twenty bytes to send, in segments of eight, from close to the wrap of the
    sequence numbers; the application has closed. *)
Definition out_demo : conn unit bytes :=
  MkConn (MkTcpcb TCPS_FIN_WAIT_1 out_fields (λ f, match f with T_TEMPLATE => true | _ => false end) [])
    false (MkSo (map Z.of_nat (seq 0 20)) [] (λ _, false) 0 0 0) tt [].

Example out_demo_run :
  match tcp_output 30 out_demo with
  | Some (r, c) => Some (r, map (λ e, match e with
      | Sent s => (o_seq s, zlen (o_data s), TH_FIN (o_flags s)) | _ => (0, 0, false) end) (rev (tlog c)), get snd_nxt c)
  | None => None
  end = Some (0, [(4294967290, 8, false); (2, 8, false); (10, 4, true)], 15).
Proof. vm_compute. reflexivity. Qed.

Lemma tcp_output_truthful_witness :
  ∃ r c' ss n' m', tcp_output 30 out_demo = Some (r, c') ∧ so c' = so out_demo ∧ send_inv n' m' c' ∧
    tlog c' = map Sent ss ++ tlog out_demo ∧ Forall (seg_ok (slow_start out_demo)) ss ∧
    (ss ≠ [] → get snd_max c' = get snd_max out_demo ∨ Exists (λ s, in_segment s (get snd_max c')) ss).
Proof.
  apply (tcp_output_truthful 0 0 30 out_demo).
  - split; try reflexivity; try (vm_compute; discriminate); try (vm_compute; reflexivity); try (split; reflexivity).
  - split; try reflexivity; vm_compute; split; try discriminate; reflexivity.
  - left. reflexivity.
  - vm_compute. reflexivity.
Defined.

(** Segments of twelve bytes, and timestamps. *)
Definition livelock_demo : conn unit bytes :=
  MkConn (MkTcpcb TCPS_ESTABLISHED (λ f, match f with t_maxseg => 12 | _ => out_fields f end)
            (λ f, match f with T_TEMPLATE | TF_REQ_TSTMP | TF_RCVD_TSTMP => true | _ => false end) [])
    false (MkSo (map Z.of_nat (seq 0 20)) [] (λ _, false) 0 0 0) tt [].

Lemma tcp_output_livelock_witness : opt_len livelock_demo = 12 ∧ ∀ fuel, tcp_output fuel livelock_demo = None.
Proof.
  split; [reflexivity|]. intros fuel. apply (tcp_output_livelock 0 0).
  - change (slow_start livelock_demo) with livelock_demo. split.
    + split; try reflexivity; try (vm_compute; discriminate); try (split; reflexivity).
    + reflexivity.
    + reflexivity.
    + vm_compute. split; [discriminate|reflexivity].
    + vm_compute. split; [discriminate|reflexivity].
    + vm_compute. discriminate.
    + reflexivity.
    + reflexivity.
  - split; [reflexivity|discriminate].
  - intros s d e. reflexivity.
Defined.

(** A FIN is outstanding, an acknowledgment is owed, and there is no buffer:
    [snd_max] moves past the FIN. *)
Definition fin_demo (buffers : bool) : conn bool bytes :=
  MkConn (MkTcpcb TCPS_LAST_ACK
            (λ f, match f with snd_nxt | snd_max => 4294967291 | TCPT_REXMT => 6 | _ => out_fields f end)
            (λ f, match f with T_TEMPLATE | TF_SENTFIN | TF_ACKNOW => true | _ => false end) [])
    false (MkSo [] [] (λ _, false) 0 0 0) buffers [].

Example fin_resent_without_buffer :
  (option_map (λ r, get snd_max r.2 - get snd_una r.2) (tcp_output 5 (fin_demo true)),
   option_map (λ r, get snd_max r.2 - get snd_una r.2) (tcp_output 5 (fin_demo false))) = (Some 1, Some 2).
Proof. vm_compute. reflexivity. Qed.

(** The window closes on outstanding data while an acknowledgment is owed: the
    segment sent is empty, and no timer runs that would send the data again. *)
Definition stall_demo : conn unit bytes :=
  MkConn (MkTcpcb TCPS_ESTABLISHED
            (λ f, match f with
                  | snd_nxt | snd_max => 4294967294 | TCPT_REXMT => 6 | snd_wnd => 0 | _ => out_fields f end)
            (λ f, match f with T_TEMPLATE | TF_ACKNOW => true | _ => false end) [])
    false (MkSo [1; 2; 3; 4] [] (λ _, false) 0 0 0) tt [].

Example zero_window_stall :
  option_map (λ r, (get TCPT_REXMT r.2, get TCPT_PERSIST r.2, snd_cc r.2, get snd_nxt r.2 =? get snd_una r.2))
    (tcp_output 5 stall_demo) = Some (0, 0, 4, true).
Proof. vm_compute. reflexivity. Qed.

(** One buffer for three segments: the first is sent, the second is not and
    does not count as sent.  Without any buffer the first counts as sent. *)
#[export] Instance few_buffers : TcpEnv nat := {|
  mHdrClGet _ e := (negb (e =? 0)%nat, pred e);
  m_copy d off len e := (Some (ztake len (zdrop off d)), e);
  ip_output _ _ e := (0, e);
  tcp_now _ := 1000; tcp_tick e := e;
  max_linkhdr := 16;
  ro_rt _ := None; set_rt _ e := e; rtalloc e := e; faddr_any _ := false; in_localaddr _ := true
|}.

Definition burst_demo (buffers : nat) : conn nat bytes :=
  MkConn (tp out_demo) false (so out_demo) buffers [].

Example burst_without_buffer :
  map (λ n, option_map (λ r, (length (tlog r.2), get snd_nxt r.2, get snd_max r.2)) (tcp_output 30 (burst_demo n))) [0%nat; 1%nat; 2%nat] =
  [Some (0%nat, 2, 2); Some (1%nat, 2, 2); Some (2%nat, 10, 10)].
Proof. vm_compute. reflexivity. Qed.
