(* ===== verification/TcpTimer.v ===== *)
(** * The timers of TCP and the end of a connection

    [tcp_timer.c], and from [tcp_subr.c] the routines that end a connection
    ([tcp_close], [tcp_drop]) or answer without one ([tcp_respond]).  A
    connection whose control block was given up has [freed] set; the route of
    the connection, whose metrics [tcp_close] updates, belongs to the
    environment.  [tcp_slowtimo] and [tcp_fasttimo] are the bodies of the loops
    over all connections. *)
From Stdlib Require Import ZArith Lia Bool.
From stdpp Require Import base tactics list numbers option.
From S2P Require Import Prelude TcpDefs TcpSubr TcpOutput.

Local Open Scope Z_scope.

Section Timer.
Context {E B : Type} `{!TcpDefs} `{!SoBuf B} `{!TcpEnv E}.
(** Rounds allowed to [tcp_output]; the uninitialised variable of [tcp_close]. *)
Variables (fuel : nat) (garbage : Z).
Implicit Types c : conn E B.

(** The call, whose result the callers ignore. *)
Definition output c : option (conn E B) := snd <$> tcp_output fuel c.

(** ** Ending a connection *)

(** Half the old and half the new value. *)
Definition filter_metric (old i : Z) : Z :=
  if negb (old =? 0) && negb (i =? 0) then u32 (old + i) / 2 else i.

Definition close_rtt c (rt : rtentry) (i : Z) : rtentry * Z :=
  if lock_rtt rt then (rt, i)
  else
    let i := u32 (get t_srtt c * Z.quot RTM_RTTUNIT (PR_SLOWHZ * TCP_RTT_SCALE)) in
    (MkRt (rt_dst_any rt) (if_mtu rt) (lock_rtt rt) (lock_rttvar rt) (lock_ssthresh rt) (rmx_mtu rt)
       (filter_metric (rmx_rtt rt) i) (rmx_rttvar rt) (rmx_ssthresh rt) (rmx_sendpipe rt), i).

Definition close_rttvar c (rt : rtentry) (i : Z) : rtentry * Z :=
  if lock_rttvar rt then (rt, i)
  else
    let i := u32 (get t_rttvar c * Z.quot RTM_RTTUNIT (PR_SLOWHZ * TCP_RTTVAR_SCALE)) in
    (MkRt (rt_dst_any rt) (if_mtu rt) (lock_rtt rt) (lock_rttvar rt) (lock_ssthresh rt) (rmx_mtu rt)
       (rmx_rtt rt) (filter_metric (rmx_rttvar rt) i) (rmx_ssthresh rt) (rmx_sendpipe rt), i).

(** "locks == 0 && (i = ssthresh) && rmx_ssthresh || i < sendpipe / 2". *)
Definition close_ssthresh c (rt : rtentry) (i : Z) : rtentry :=
  let i := if lock_ssthresh rt then i else get snd_ssthresh c in
  if (negb (lock_ssthresh rt) && negb (i =? 0) && negb (rmx_ssthresh rt =? 0)) ||
     (i <? rmx_sendpipe rt / 2)
  then
    let i := u32 (i + Z.quot (get t_maxseg c) 2) / get t_maxseg c in
    let i := if i <? 2 then 2 else i in
    let i := u32 (i * (get t_maxseg c + sizeof_tcpiphdr)) in
    MkRt (rt_dst_any rt) (if_mtu rt) (lock_rtt rt) (lock_rttvar rt) (lock_ssthresh rt) (rmx_mtu rt)
      (rmx_rtt rt) (rmx_rttvar rt)
      (if negb (rmx_ssthresh rt =? 0) then u32 (rmx_ssthresh rt + i) / 2 else i) (rmx_sendpipe rt)
  else rt.

(** "If we sent enough data to get some meaningful characteristics, save them
    in the routing entry." *)
Definition close_route c : conn E B :=
  if SEQ_LT (get iss c + so_hiwat (so_snd (so c)) * 16) (get snd_max c) then
    match ro_rt (env c) with
    | Some rt =>
        if rt_dst_any rt then c
        else
          let '(rt, i) := close_rtt c rt garbage in
          let '(rt, i) := close_rttvar c rt i in
          with_env (set_rt (close_ssthresh c rt i) (env c)) c
    | None => c
    end
  else c.

Definition free_pcb c : conn E B := MkConn (tp c) true (so c) (env c) (tlog c).

Definition tcp_close c : conn E B :=
  let c := set_queue [] (close_route c) in
  let c := set_flag T_TEMPLATE false c in
  emit Detached (soisdisconnected (free_pcb c)).

Definition tcp_drop (error : Z) c : option (conn E B) :=
  c ← (if TCPS_HAVERCVDSYN (state c) then output (set_state TCPS_CLOSED c) else Some c);
  let error := if (error =? ETIMEDOUT) && negb (get t_softerror c =? 0) then get t_softerror c else error in
  Some (tcp_close (set_error error c)).

(** A segment without data, from the template ([mbuf] false: a keep-alive
    probe) or in the mbuf of the segment it answers. *)
Definition tcp_respond (mbuf : bool) (ack seq : Z) (flags : thflags) c : conn E B :=
  let win := if freed c then 0 else so_space (so_rcv (so c)) in
  let send (flags : thflags) c :=
    let s := MkOut seq ack flags (u16 (if freed c then win else Z.shiftr win (get rcv_scale c))) 0 [] [] in
    emit (Sent s) (with_env (ip_output s false (env c)).2 c) in
  if mbuf then send flags c
  else
    let '(ok, e) := mHdrClGet 128 (env c) in
    if ok then send (MkFl false false false false true false) (with_env e c) else with_env e c.

(** ** The timers *)

Definition tcp_totbackoff : Z := 511.
Definition tcp_maxidle : Z := tcp_keepcnt * tcp_keepintvl.

Definition timer_2msl c : conn E B :=
  if negb (bool_decide (state c = TCPS_TIME_WAIT)) && (get t_idle c <=? tcp_maxidle)
  then set TCPT_2MSL tcp_keepintvl c
  else tcp_close c.

(** "Close the congestion window down to one segment." *)
Definition close_cwnd c : conn E B :=
  let win := Z.min (get snd_wnd c) (get snd_cwnd c) / 2 / get t_maxseg c in
  let win := if win <? 2 then 2 else win in
  let c := set snd_cwnd (get t_maxseg c) c in
  let c := set snd_ssthresh (win * get t_maxseg c) c in
  set t_dupacks 0 c.

Definition rexmt_backoff c : conn E B :=
  let rexmt := REXMTVAL c * backoff c in
  let c := set t_rxtcur (TCPT_RANGESET rexmt (get t_rttmin c) TCPTV_REXMTMAX) c in
  let c := set TCPT_REXMT (get t_rxtcur c) c in
  let c :=
    if Z.quot TCP_MAXRXTSHIFT 4 <? get t_rxtshift c then
      let c := emit Losing c in
      let c := set t_rttvar (get t_rttvar c + Z.shiftr (get t_srtt c) TCP_RTT_SHIFT) c in
      set t_srtt 0 c
    else c in
  let c := set snd_nxt (get snd_una c) c in
  let c := set t_rtt 0 c in
  close_cwnd c.

Definition timer_rexmt c : option (conn E B) :=
  let c := set t_rxtshift (get t_rxtshift c + 1) c in
  if TCP_MAXRXTSHIFT <? get t_rxtshift c then
    let c := set t_rxtshift TCP_MAXRXTSHIFT c in
    tcp_drop (if negb (get t_softerror c =? 0) then get t_softerror c else ETIMEDOUT) c
  else output (rexmt_backoff c).

Definition timer_persist c : option (conn E B) :=
  if (get t_rxtshift c =? TCP_MAXRXTSHIFT) &&
     ((tcp_maxpersistidle <=? get t_idle c) || (REXMTVAL c * tcp_totbackoff <=? get t_idle c))
  then tcp_drop ETIMEDOUT c
  else
    let c := set t_force 1 (tcp_setpersist c) in
    c ← output c;
    Some (set t_force 0 c).

Definition timer_keep c : option (conn E B) :=
  if tcps (state c) <? tcps TCPS_ESTABLISHED then tcp_drop ETIMEDOUT c
  else if sflag SO_KEEPALIVE c && (tcps (state c) <=? tcps TCPS_CLOSE_WAIT) then
    if tcp_keepidle + tcp_maxidle <=? get t_idle c then tcp_drop ETIMEDOUT c
    else
      let c := tcp_respond false (get rcv_nxt c) (u32 (get snd_una c - 1)) no_flags c in
      Some (set TCPT_KEEP tcp_keepintvl c)
  else Some (set TCPT_KEEP tcp_keepidle c).

(** [tcp_timers(tp, timer)]. *)
Definition tcp_timers (timer : field) c : option (conn E B) :=
  match timer with
  | TCPT_2MSL => Some (timer_2msl c)
  | TCPT_REXMT => timer_rexmt c
  | TCPT_PERSIST => timer_persist c
  | TCPT_KEEP => timer_keep c
  | _ => Some c
  end.

(** [if (tp->t_timer[i] && --tp->t_timer[i] == 0)]; nothing more is done for a
    block that is gone. *)
Definition slow_timer (timer : field) c : option (conn E B) :=
  if freed c then Some c
  else if get timer c =? 0 then Some c
  else
    let c := set timer (get timer c - 1) c in
    if get timer c =? 0 then tcp_timers timer c else Some c.

(** One connection at a slow timeout. *)
Definition tcp_slowtimo c : option (conn E B) :=
  if bool_decide (state c = TCPS_LISTEN) then Some (with_env (tcp_tick (env c)) c)
  else
    c ← slow_timer TCPT_REXMT c;
    c ← slow_timer TCPT_PERSIST c;
    c ← slow_timer TCPT_KEEP c;
    c ← slow_timer TCPT_2MSL c;
    let c := if freed c then c
             else
               let c := set t_idle (get t_idle c + 1) c in
               if negb (get t_rtt c =? 0) then set t_rtt (get t_rtt c + 1) c else c in
    Some (with_env (tcp_tick (env c)) c).

(** One connection at a fast timeout. *)
Definition tcp_fasttimo c : option (conn E B) :=
  if negb (freed c) && flag TF_DELACK c then output (set_flag TF_ACKNOW true (set_flag TF_DELACK false c)) else Some c.

End Timer.

(** ** A connection that hears nothing *)

Section Spec.
Context {E B : Type} `{!TcpDefs, !TcpDefsLaws, !SoBuf B, !SoBufLaws B, !TcpEnv E, !TcpEnvLaws E}.
Variables (fuel : nat) (garbage : Z).
Implicit Types c : conn E B.

(** Data may be outstanding, the window is open; the persist and 2MSL timers
    do not run. *)
Record waiting c : Prop := {
  wt_live : freed c = false;
  wt_sync : 4 <= tcps (state c);
  wt_inv : ∃ n m, send_inv n m c;
  wt_ok : send_ok c;
  wt_maxseg : get t_maxseg c < 16384;
  wt_wnd : 0 < get snd_wnd c;
  wt_cwnd : 0 < get snd_cwnd c;
  wt_force : get t_force c = 0;
  wt_persist : get TCPT_PERSIST c = 0;
  wt_2msl : get TCPT_2MSL c = 0;
  wt_shift : 0 <= get t_rxtshift c <= 12;
  wt_rttmin : 0 < get t_rttmin c <= TCPTV_REXMTMAX
}.

(** The retransmit timer runs. *)
Definition armed c : Prop := 0 < get TCPT_REXMT c <= TCPTV_REXMTMAX.

(** Enough rounds for the data in the buffer. *)
Definition enough c : Prop := snd_cc c + 1 < Z.of_nat fuel.

(** The end: the connection is given up with an error. *)
Definition gave_up c : Prop := freed c = true ∧ so_error (so c) ≠ 0.

Lemma output_some n m c : send_inv n m c → send_ok c → never_fails (E := E) → enough c →
  ∃ r c', tcp_output fuel c = Some (r, c') ∧ so c' = so c ∧ ∃ n' m', send_inv n' m' c'.
Proof.
  intros Hi Hk Hnf Hfuel.
  destruct (output_spec fuel n m c) as (r & c' & ss & n' & m' & ? & ? & ? & _); [done|done|by right|done|].
  exists r, c'. split_and!; eauto.
Qed.

Lemma closed_synced : synced TCPS_CLOSED.
Proof. unfold synced. by rewrite outflags_eq. Qed.

Lemma so_close c : so_error (so (tcp_close garbage c)) = so_error (so c).
Proof.
  unfold tcp_close, close_route. destruct (SEQ_LT _ _); [|done].
  destruct (ro_rt _) as [rt|]; [|done]. destruct (rt_dst_any rt); [done|].
  destruct (close_rtt _ _ _) as [? ?], (close_rttvar _ _ _) as [? ?]. done.
Qed.

(** Dropping ends, with the error or the one remembered. *)
Lemma drop_spec n m error c : send_inv n m c → send_ok c → never_fails (E := E) → enough c → error ≠ 0 →
  ∃ c', tcp_drop fuel garbage error c = Some c' ∧ gave_up c'.
Proof.
  intros Hi Hk Hnf Hfuel He. unfold tcp_drop, output.
  assert (Hfin : ∀ c1, gave_up (tcp_close garbage (set_error (if (error =? ETIMEDOUT) && negb (get t_softerror c1 =? 0)
      then get t_softerror c1 else error) c1))).
  { intros c1. split; [done|]. rewrite so_close. change (so_error (so (set_error ?e c1))) with e.
    destruct (_ && _) eqn:Hb; [|done]. apply andb_true_iff in Hb as [_ Hb].
    by apply negb_true_iff, Z.eqb_neq in Hb. }
  destruct (TCPS_HAVERCVDSYN _); [|eexists; split; [reflexivity|apply Hfin]].
  assert (send_inv n m (set_state TCPS_CLOSED c)) as Hi'.
  { destruct Hi. split; try done; [apply closed_synced|]. intros _. change (state (set_state _ _)) with TCPS_CLOSED.
    by rewrite outflags_eq. }
  destruct (output_some n m (set_state TCPS_CLOSED c) Hi') as (r & c' & -> & _); [by destruct Hk|done|done|].
  cbn. eexists. split; [reflexivity|apply Hfin].
Qed.

Lemma backoff_same c : let c' := rexmt_backoff c in
  so c' = so c ∧ freed c' = freed c ∧ state c' = state c ∧ (∀ f, flag f c' = flag f c) ∧
  get snd_una c' = get snd_una c ∧ get snd_wnd c' = get snd_wnd c ∧ get t_maxseg c' = get t_maxseg c ∧
  get t_force c' = get t_force c ∧ get TCPT_PERSIST c' = get TCPT_PERSIST c ∧
  get TCPT_2MSL c' = get TCPT_2MSL c ∧ get t_rxtshift c' = get t_rxtshift c ∧
  get t_rttmin c' = get t_rttmin c ∧ get snd_max c' = get snd_max c ∧
  get snd_nxt c' = store snd_nxt (get snd_una c) ∧ get snd_cwnd c' = store snd_cwnd (get t_maxseg c) ∧
  get TCPT_REXMT c' = store TCPT_REXMT (store t_rxtcur (TCPT_RANGESET (REXMTVAL c * backoff c) (get t_rttmin c) TCPTV_REXMTMAX)).
Proof.
  unfold rexmt_backoff, close_cwnd. cbv zeta. destruct (_ <? get t_rxtshift _); split_and!; try done.
Qed.

Lemma maxseg_pos c : send_ok c → 0 < get t_maxseg c < 65536.
Proof. intros []. unfold opt_len in *. destruct (_ && _); lia. Qed.

Lemma waiting_quiet c c1 n m : waiting c → quiet c c1 → send_inv n m c1 → waiting c1.
Proof.
  intros [] (A1 & A2 & A3 & A4 & A5 & A6) Hi. pose proof (maxseg_pos _ wt_ok0) as Hm.
  rewrite u32_id in A6 by lia.
  split; rewrite ?A2, ?A3, ?A4 by done; try done; [by exists n, m| |lia].
  destruct wt_ok0. split; unfold opt_len in *; rewrite ?A4, ?A5 by done; try done. lia.
Qed.

Lemma armed_quiet c c1 : quiet c c1 → armed c → armed c1.
Proof. intros (_ & _ & _ & A4 & _). unfold armed. by rewrite A4. Qed.

(** The timer fires before the last backoff. *)
Lemma rexmt_step c : waiting c → never_fails (E := E) → enough c → get t_rxtshift c < 12 →
  ∃ c', timer_rexmt fuel garbage c = Some c' ∧ waiting c' ∧ armed c' ∧
    get t_rxtshift c' = get t_rxtshift c + 1 ∧ so c' = so c.
Proof.
  intros Hw Hnf Hfuel Hs. pose proof Hw as []. unfold timer_rexmt. cbv zeta.
  set (c1 := set t_rxtshift (get t_rxtshift c + 1) c).
  assert (get t_rxtshift c1 = get t_rxtshift c + 1) as Hs1 by (unfold c1; conn_simpl; apply store_pos; done || lia).
  rewrite Hs1, MAXRXTSHIFT_eq. destruct (Z.ltb_spec 12 (get t_rxtshift c + 1)); [lia|].
  assert (Hc1 : ∀ f, f ≠ t_rxtshift → get f c1 = get f c) by (intros; by apply get_set_ne).
  destruct (backoff_same c1) as (B1 & B2 & B3 & B4 & B5 & B6 & B7 & B8 & B9 & B10 & B11 & B12 & B13 & B14 & B15 & B16).
  set (c2 := rexmt_backoff c1) in *. rewrite !Hc1 in * by done.
  pose proof (maxseg_pos _ wt_ok0) as Hm. destruct timer_range as (_ & Hmax & _).
  rewrite store_u32, u32_id in B15 by (done || lia).
  match type of B16 with _ = store _ (store _ ?v) => assert (get t_rttmin c <= v <= TCPTV_REXMTMAX) as Hv
    by (apply RANGESET_range; lia) end.
  rewrite (store_pos t_rxtcur), store_pos in B16 by (done || lia).
  destruct wt_inv0 as (n & m & Hi). pose proof Hi as [].
  assert (send_inv 0 m c2) as Hi2.
  { split; unfold snd_cc in *; rewrite ?B1, ?B3, ?B4, ?B5, ?B13, ?B14; try done.
    - by rewrite Z.add_0_r, store_u32 by done.
    - lia. }
  assert (waiting c2) as Hw2.
  { split; rewrite ?B2, ?B3, ?B6, ?B7, ?B8, ?B9, ?B10, ?B11, ?B12, ?B15, ?Hs1; try done; try lia; [by exists 0, m|].
    destruct wt_ok0. split; unfold opt_len in *; rewrite ?B4, ?B6, ?B7, ?B15; try done. lia. }
  assert (armed c2) as Ha2 by (unfold armed; rewrite B16; lia).
  assert (enough c2) as He2 by (unfold enough, snd_cc in *; by rewrite B1).
  pose proof Hw2 as [_ Hsy _ Hok2 Hms2 Hwn2 Hcw2 Hfo2 _ _ _ _].
  destruct (output_some 0 m c2 Hi2 Hok2 Hnf He2) as (r & c' & Hout & Hso & n' & m' & Hi').
  assert (quiet c2 c') as Hq.
  { pose proof (maxseg_pos _ Hok2). destruct Hok2. unfold armed in Ha2.
    eapply output_quiet; try done; try lia. by apply sync_flags. }
  unfold output. rewrite Hout. exists c'. split_and!; [done|by eapply waiting_quiet|by eapply armed_quiet| |].
  - destruct Hq as (_ & _ & _ & A4 & _). by rewrite A4, B11, Hs1.
  - by rewrite Hso, B1.
Qed.

(** The timer fires after the last. *)
Lemma rexmt_last c : waiting c → never_fails (E := E) → enough c → get t_rxtshift c = 12 →
  ∃ c', timer_rexmt fuel garbage c = Some c' ∧ gave_up c'.
Proof.
  intros Hw Hnf Hfuel Hs. pose proof Hw as []. unfold timer_rexmt. cbv zeta.
  rewrite !MAXRXTSHIFT_eq. conn_simpl. rewrite Hs, !store_pos by done. change (12 <? 12 + 1) with true. cbv iota.
  destruct wt_inv0 as (n & m & Hi). apply (drop_spec n m).
  - apply (send_inv_stable n m c); try done.
    apply stable_set; [done|]. apply stable_set; [done|]. apply stable_refl.
  - apply (stable_ok c); [|done]. apply stable_set; [done|]. apply stable_set; [done|]. apply stable_refl.
  - done.
  - done.
  - destruct (Z.eqb_spec (get t_softerror c) 0); cbn [negb]; [|done].
    pose proof errors_nz as He. inversion_clear He. lia.
Qed.

Lemma slow_gone timer c : freed c = true → slow_timer fuel garbage timer c = Some c.
Proof. unfold slow_timer. by intros ->. Qed.

Lemma slow_off timer c : get timer c = 0 → slow_timer fuel garbage timer c = Some c.
Proof. unfold slow_timer. intros ->. by destruct (freed c). Qed.

(** Other members do not matter. *)
Lemma waiting_set f v c : f = TCPT_REXMT ∨ f = TCPT_KEEP ∨ f = t_idle ∨ f = t_rtt →
  waiting c → waiting (set f v c).
Proof.
  intros Hf [].
  assert (Hg : ∀ g, match g with TCPT_REXMT | TCPT_KEEP | t_idle | t_rtt => False | _ => True end →
    get g (set f v c) = get g c).
  { intros g Hg. apply get_set_ne. intros <-. naive_solver. }
  split; rewrite ?Hg by done; try done.
  - destruct wt_inv0 as (n & m & []). exists n, m. split; rewrite ?Hg by done; done.
  - destruct wt_ok0. split; unfold opt_len in *; rewrite ?Hg by done; done.
Qed.

(** The measure: what is left of the backoffs and of the running one. *)
Definition left_ticks c : Z := (12 - get t_rxtshift c) * (TCPTV_REXMTMAX + 1) + get TCPT_REXMT c.

Lemma slow_rexmt c : waiting c → armed c → never_fails (E := E) → enough c →
  ∃ c', slow_timer fuel garbage TCPT_REXMT c = Some c' ∧
    (gave_up c' ∨ waiting c' ∧ armed c' ∧ left_ticks c' < left_ticks c ∧ so c' = so c).
Proof.
  intros Hw Ha Hnf Hfuel. pose proof Hw as []. unfold slow_timer, armed in *. rewrite wt_live0.
  destruct (Z.eqb_spec (get TCPT_REXMT c) 0); [lia|]. cbv zeta.
  destruct timer_range as (_ & Hmax & _). set (c1 := set TCPT_REXMT (get TCPT_REXMT c - 1) c).
  assert (get TCPT_REXMT c1 = get TCPT_REXMT c - 1) as Hr by (unfold c1; conn_simpl; apply store_pos; done || lia).
  assert (get t_rxtshift c1 = get t_rxtshift c) as Hs by done.
  assert (waiting c1) as Hw1 by (apply waiting_set; [by left|done]).
  assert (so c1 = so c) as Hso by done. assert (enough c1) as He by done.
  clearbody c1. unfold left_ticks. rewrite Hr.
  destruct (Z.eqb_spec (get TCPT_REXMT c - 1) 0).
  - cbn [tcp_timers]. destruct (Z.eq_dec (get t_rxtshift c) 12).
    + destruct (rexmt_last c1 Hw1 Hnf He) as (c' & -> & Hg); [congruence|].
      exists c'. split; [done|by left].
    + destruct (rexmt_step c1 Hw1 Hnf He) as (c' & -> & Hw' & Ha' & Hs' & Hso'); [lia|].
      exists c'. split; [done|right]. unfold armed in Ha'. split_and!; try done; try congruence; lia.
  - exists c1. split; [done|right]. rewrite Hs, Hr. split_and!; done || lia.
Qed.

Lemma respond_quiet b ack seq flags c : waiting c → waiting (tcp_respond b ack seq flags c) ∧
  so (tcp_respond b ack seq flags c) = so c ∧
  ∀ f, get f (tcp_respond b ack seq flags c) = get f c.
Proof.
  intros Hw. unfold tcp_respond. cbv zeta.
  destruct b; [|destruct (mHdrClGet _ _) as [[] e]]; split_and!; try done.
  all: destruct Hw; split; try done;
    [destruct wt_inv0 as (n & m & []); by exists n, m|by destruct wt_ok0].
Qed.

Lemma slow_keep c : waiting c → armed c → never_fails (E := E) → enough c →
  ∃ c', slow_timer fuel garbage TCPT_KEEP c = Some c' ∧
    (gave_up c' ∨ waiting c' ∧ armed c' ∧ left_ticks c' = left_ticks c ∧ so c' = so c).
Proof.
  intros Hw Ha Hnf Hfuel. pose proof Hw as []. unfold slow_timer. rewrite wt_live0.
  destruct (_ =? 0); [exists c; split; [done|by right]|]. cbv zeta.
  set (c1 := set TCPT_KEEP (get TCPT_KEEP c - 1) c).
  assert (waiting c1) as Hw1 by (apply waiting_set; [tauto|done]).
  assert (armed c1 ∧ left_ticks c1 = left_ticks c ∧ so c1 = so c ∧ enough c1 ∧ state c1 = state c) as (Ha1 & Hl1 & Hs1 & He1 & Hst1) by done.
  clearbody c1. rewrite <- Hl1, <- Hs1. clear Hl1.
  assert (Hdrop : ∃ c', tcp_drop fuel garbage ETIMEDOUT c1 = Some c' ∧ gave_up c').
  { destruct Hw1 as [_ _ (n & m & Hi) Hok _ _ _ _ _ _ _ _]. apply (drop_spec n m); try done.
    pose proof errors_nz as He. inversion_clear He. lia. }
  destruct (get TCPT_KEEP c1 =? 0); [|exists c1; split; [done|by right]].
  cbn [tcp_timers]. unfold timer_keep. cbv zeta. rewrite Hst1.
  destruct Hdrop as (c2 & Hd & Hg).
  destruct (_ <? _); [exists c2; split; [done|by left]|].
  destruct (_ && _).
  - destruct (_ <=? _); [exists c2; split; [done|by left]|].
    destruct (respond_quiet false (get rcv_nxt c1) (u32 (get snd_una c1 - 1)) no_flags c1 Hw1) as (Hw2 & Hs2 & Hf2).
    eexists. split; [reflexivity|right]. split; [apply waiting_set; [tauto|done]|].
    unfold armed, left_ticks in *. conn_simpl. rewrite !Hf2. split_and!; done || lia.
  - eexists. split; [reflexivity|right]. split; [apply waiting_set; [tauto|done]|].
    unfold armed, left_ticks in *. conn_simpl. split_and!; done || lia.
Qed.

Lemma tick_step c : waiting c → armed c → never_fails (E := E) → enough c →
  ∃ c', tcp_slowtimo fuel garbage c = Some c' ∧
    (gave_up c' ∨ waiting c' ∧ armed c' ∧ left_ticks c' < left_ticks c ∧ so c' = so c).
Proof.
  intros Hw Ha Hnf Hfuel. unfold tcp_slowtimo.
  rewrite bool_decide_false.
  2:{ destruct Hw as [_ Hsy _ _ _ _ _ _ _ _ _ _]. intros He. rewrite He in Hsy.
      pose proof tcps_eq as Ht. injection Ht as _ Ht _. lia. }
  destruct (slow_rexmt c Hw Ha Hnf Hfuel) as (c1 & -> & H1). cbn [mbind option_bind].
  assert (Hgone : ∀ c1, gave_up c1 → ∃ c', (c ← Some c1; c ← slow_timer fuel garbage TCPT_PERSIST c;
      c ← slow_timer fuel garbage TCPT_KEEP c; c ← slow_timer fuel garbage TCPT_2MSL c;
      let c := if freed c then c else
        let c := set t_idle (get t_idle c + 1) c in
        if negb (get t_rtt c =? 0) then set t_rtt (get t_rtt c + 1) c else c in
      Some (with_env (tcp_tick (env c)) c)) = Some c' ∧ gave_up c').
  { intros c0 [Hf He]. cbn [mbind option_bind]. rewrite slow_gone by done. cbn [mbind option_bind].
    rewrite slow_gone by done. cbn [mbind option_bind]. rewrite slow_gone by done. cbn [mbind option_bind].
    rewrite Hf. eexists. split; [reflexivity|]. split; done. }
  destruct H1 as [Hg|(Hw1 & Ha1 & Hl1 & Hs1)].
  { destruct (Hgone c1 Hg) as (c' & Hc' & Hg'). exists c'. split; [exact Hc'|by left]. }
  rewrite slow_off by apply Hw1. cbn [mbind option_bind].
  assert (enough c1) as He1 by (unfold enough, snd_cc in *; by rewrite Hs1).
  destruct (slow_keep c1 Hw1 Ha1 Hnf He1) as (c2 & -> & H2). cbn [mbind option_bind].
  destruct H2 as [[Hf2 He2]|(Hw2 & Ha2 & Hl2 & Hs2)].
  { rewrite slow_gone by done. cbn [mbind option_bind]. rewrite Hf2. eexists. split; [reflexivity|by left]. }
  rewrite slow_off by apply Hw2. cbn [mbind option_bind].
  assert (freed c2 = false) as -> by apply Hw2. cbv zeta.
  assert (Hidle : waiting (set t_idle (get t_idle c2 + 1) c2)) by (apply waiting_set; [tauto|done]).
  eexists. split; [reflexivity|right].
  assert (Hend : ∀ c3, waiting c3 → armed c3 → left_ticks c3 = left_ticks c2 → so c3 = so c2 →
    waiting (with_env (tcp_tick (env c3)) c3) ∧ armed (with_env (tcp_tick (env c3)) c3) ∧
    left_ticks (with_env (tcp_tick (env c3)) c3) < left_ticks c ∧ so (with_env (tcp_tick (env c3)) c3) = so c).
  { intros c3 Hw3 Ha3 Hl3 Hs3. split_and!; [|done| |].
    - destruct Hw3. split; try done; [destruct wt_inv0 as (n & m & []); by exists n, m|by destruct wt_ok0].
    - change (left_ticks c3 < left_ticks c). lia.
    - change (so c3 = so c). congruence. }
  destruct (negb _); apply Hend; try done. apply waiting_set; [tauto|done].
Qed.

(** Slow timeouts with nothing in between. *)
Fixpoint ticks (k : nat) c : option (conn E B) :=
  match k with
  | O => Some c
  | S k => c ← tcp_slowtimo fuel garbage c; ticks k c
  end.

Lemma gives_up k : ∀ c, waiting c → armed c → never_fails (E := E) → enough c → left_ticks c <= Z.of_nat k →
  ∃ j c', (j <= k)%nat ∧ ticks j c = Some c' ∧ gave_up c'.
Proof.
  induction k as [|k IH]; intros c Hw Ha Hnf Hfuel Hk.
  { unfold left_ticks, armed in *. destruct Hw. destruct timer_range as (Hr & _). nia. }
  destruct (tick_step c Hw Ha Hnf Hfuel) as (c1 & Hc1 & [Hg|(Hw1 & Ha1 & Hl & Hs)]).
  - exists 1%nat, c1. split; [lia|]. split; [|done]. cbn [ticks]. by rewrite Hc1.
  - destruct (IH c1 Hw1 Ha1 Hnf) as (j & c' & Hj & Hr & Hg).
    + unfold enough, snd_cc in *. by rewrite Hs.
    + lia.
    + exists (S j), c'. split; [lia|]. split; [|done]. cbn [ticks]. by rewrite Hc1.
Qed.
End Spec.

(** ** A silent peer is given up *)

(** C11: A synchronised connection with the retransmit timer running and the
    window open, which hears nothing more, is given up after at most
    [13 * (TCPTV_REXMTMAX + 1)] slow timeouts: it backs off twelve times, then
    the control block is released and the socket has an error.  Mbufs are
    assumed not to run out. *)
Theorem tcp_gives_up {E B} `{!TcpDefs, !TcpDefsLaws, !SoBuf B, !SoBufLaws B, !TcpEnv E, !TcpEnvLaws E}
  (fuel : nat) (garbage : Z) (c : conn E B) :
  waiting c → armed c → never_fails (E := E) → enough fuel c →
  ∃ k c', Z.of_nat k <= 13 * (TCPTV_REXMTMAX + 1) ∧
    ticks fuel garbage k c = Some c' ∧ freed c' = true ∧ so_error (so c') ≠ 0.
Proof.
  intros Hw Ha Hnf Hfuel.
  assert (0 <= left_ticks c <= 13 * (TCPTV_REXMTMAX + 1)) as Hb.
  { unfold left_ticks, armed in *. destruct Hw. destruct timer_range as (Hr & _). nia. }
  destruct (gives_up fuel garbage (Z.to_nat (left_ticks c)) c Hw Ha Hnf Hfuel) as (j & c' & Hj & Hr & Hf & He); [lia|].
  exists j, c'. split; [lia|]. done.
Qed.

Import Demo SubrDemo.

(** Four bytes outstanding. *)
Definition silent_demo : conn unit bytes :=
  MkConn (MkTcpcb TCPS_ESTABLISHED
            (λ f, match f with
                  | snd_nxt | snd_max => 4294967294 | TCPT_REXMT => 6 | t_rttmin => 2 | _ => out_fields f end)
            (λ f, match f with T_TEMPLATE => true | _ => false end) [])
    false (MkSo [1; 2; 3; 4] [] (λ _, false) 0 0 0) tt [].

(** Twelve retransmissions, a reset and
    the error [ETIMEDOUT]. *)
Example silent_demo_run :
  option_map (λ c, (freed c, so_error (so c), length (List.filter (λ e, match e with Sent _ => true | _ => false end) (tlog c))))
    (ticks 10 0 1300 silent_demo) = Some (true, 60, 13%nat).
Proof. vm_compute. reflexivity. Qed.

Lemma tcp_gives_up_witness :
  ∃ k c', Z.of_nat k <= 13 * (TCPTV_REXMTMAX + 1) ∧
    ticks 10 0 k silent_demo = Some c' ∧ freed c' = true ∧ so_error (so c') ≠ 0.
Proof.
  apply (tcp_gives_up 10 0 silent_demo).
  - split.
    + reflexivity.
    + vm_compute. discriminate.
    + exists 4, 4. split; try reflexivity; try (split; reflexivity); try (vm_compute; discriminate).
      vm_compute. split; discriminate.
    + split; try reflexivity; vm_compute; split; try discriminate; reflexivity.
    + reflexivity.
    + reflexivity.
    + reflexivity.
    + reflexivity.
    + reflexivity.
    + reflexivity.
    + vm_compute. split; discriminate.
    + vm_compute. split; [reflexivity|discriminate].
  - vm_compute. split; [reflexivity|discriminate].
  - split; [reflexivity|discriminate].
  - vm_compute. reflexivity.
Defined.

(** A locked threshold is overwritten, by a value computed from the variance:
    [&&] binds tighter than [||]. *)
Definition locked_rt : rtentry := MkRt false 1500 true false true 1500 0 0 3000 65536.

Example locked_ssthresh_updated :
  let '(rt, i) := close_rttvar silent_demo locked_rt 0 in
  (lock_ssthresh rt, i, rmx_ssthresh (close_ssthresh silent_demo rt i)) = (true, 500000, 3000) ∧
  rmx_ssthresh (close_ssthresh silent_demo locked_rt 40) = 1620.
Proof. vm_compute. split; reflexivity. Qed.
