(* ===== verification/TcpInput.v ===== *)
(** * The input of TCP ([tcp_input.c])

    [tcp_input] on one connection: from the segment, whose header was checked
    and converted, to the new state of the connection.  The source is one
    function with labels; here each of its steps is a function from the local
    variables ([work]) and the connection to the next step or to one of the
    exits ([drop], [dropafterack], [dropwithreset], [findpcb]). *)
From Stdlib Require Import ZArith Lia Bool.
From stdpp Require Import base tactics list numbers option.
From S2P Require Import Prelude TcpDefs TcpReass TcpSubr TcpOutput TcpTimer.

Local Open Scope Z_scope.

(** What a passive open takes from outside. *)
Class TcpInEnv (E : Type) := {
  tcp_iss : E → Z;
  iss_step : E → E;                       (** [tcp_iss += TCP_ISSINCR/4] *)
  landAttackSafe : bool;
  mBufClGet : E → bool * E;
  in_pcbconnect : E → Z * E;              (** not zero is an error *)
  tcp_template : E → bool * E
}.

(** A segment; the options are the first [s_optlen] bytes of the memory
    [s_optmem], the data follows the options. *)
Record tin := MkIn {
  s_seq : Z; s_ack : Z; s_win : Z; s_urp : Z; s_flags : thflags;
  s_optlen : Z; s_optmem : Z → Z; s_data : bytes;
  s_mcast : bool;      (** broadcast or multicast *)
  s_self : bool        (** source and destination are the same *)
}.

(** The local variables that change: [ti_seq], [ti_len], [ti_urp], [tiflags],
    the data, the timestamp and its echo, [needoutput]. *)
Record work := MkWork {
  w_seq : Z; w_len : Z; w_urp : Z; w_flags : thflags; w_data : bytes;
  w_ts : option (Z * Z); w_need : bool
}.

Definition w_start (s : tin) (ts : option (Z * Z)) : work :=
  MkWork (s_seq s) (zlen (s_data s)) (s_urp s) (s_flags s) (s_data s) ts false.
Definition w_setflags (f : thflags) (w : work) : work :=
  MkWork (w_seq w) (w_len w) (w_urp w) f (w_data w) (w_ts w) (w_need w).
Definition w_needed (w : work) : work :=
  MkWork (w_seq w) (w_len w) (w_urp w) (w_flags w) (w_data w) (w_ts w) true.

Definition TSTMP_LT (a b : Z) : bool := s32 (a - b) <? 0.
Definition TSTMP_GEQ (a b : Z) : bool := 0 <=? s32 (a - b).

(** A word in memory, most significant byte first. *)
Definition ntohs (mem : Z → Z) (p : Z) : Z := mem p * 256 + mem (p + 1).
Definition ntohl (mem : Z → Z) (p : Z) : Z := ntohs mem p * 65536 + ntohs mem (p + 2).

Section Input.
Context {E B : Type} `{!TcpDefs} `{!SoBuf B} `{!TcpEnv E} `{!TcpInEnv E}.
Variables (fuel : nat) (garbage : Z).
Implicit Types (c : conn E B) (s : tin) (w : work).

(** ** Options *)

(** "Do quick retrieval of timestamp options"; the result is the timestamp and
    whether the options are still to be parsed. *)
Definition quick_ts s : option (Z * Z) * bool :=
  if s_optlen s =? 0 then (None, false)
  else if ((s_optlen s =? TCPOLEN_TSTAMP_APPA) ||
           ((TCPOLEN_TSTAMP_APPA <? s_optlen s) && (s_optmem s TCPOLEN_TSTAMP_APPA =? TCPOPT_EOL))) &&
          bool_decide (map (s_optmem s) [0; 1; 2; 3] = TCPOPT_TSTAMP_HDR) && negb (TH_SYN (s_flags s))
  then (Some (ntohl (s_optmem s) 4, ntohl (s_optmem s) 8), false)
  else (None, true).

(** One option at [cp], of length [optlen]. *)
Definition do_option s (cp opt optlen : Z) (ts : option (Z * Z)) c : option (Z * Z) * conn E B :=
  if opt =? TCPOPT_MAXSEG then
    if negb (optlen =? TCPOLEN_MAXSEG) || negb (TH_SYN (s_flags s)) then (ts, c)
    else (ts, (tcp_mss (ntohs (s_optmem s) (cp + 2)) c).2)
  else if opt =? TCPOPT_WINDOW then
    if negb (optlen =? TCPOLEN_WINDOW) || negb (TH_SYN (s_flags s)) then (ts, c)
    else (ts, set requested_s_scale (Z.min (s_optmem s (cp + 2)) TCP_MAX_WINSHIFT)
                (set_flag TF_RCVD_SCALE true c))
  else if opt =? TCPOPT_TIMESTAMP then
    if negb (optlen =? TCPOLEN_TIMESTAMP) then (ts, c)
    else
      let val := ntohl (s_optmem s) (cp + 2) in
      let c := if TH_SYN (s_flags s)
               then set ts_recent_age (tcp_now (env c)) (set ts_recent val (set_flag TF_RCVD_TSTMP true c))
               else c in
      (Some (val, ntohl (s_optmem s) (cp + 6)), c)
  else (ts, c).

(** The [for] loop; every option is at least a byte, so that [cnt] rounds are
    enough. *)
Fixpoint dooptions_loop (n : nat) s (cp cnt : Z) (ts : option (Z * Z)) c : option (Z * Z) * conn E B :=
  match n with
  | O => (ts, c)
  | S n =>
      if negb (0 <? cnt) then (ts, c)
      else
        let opt := s_optmem s cp in
        if opt =? TCPOPT_EOL then (ts, c)
        else
          let optlen := if opt =? TCPOPT_NOP then 1 else s_optmem s (cp + 1) in
          if optlen <=? 0 then (ts, c)
          else
            let '(ts, c) := do_option s cp opt optlen ts c in
            dooptions_loop n s (cp + optlen) (cnt - optlen) ts c
  end.

Definition tcp_dooptions s (ts : option (Z * Z)) c : option (Z * Z) * conn E B :=
  dooptions_loop (Z.to_nat (s_optlen s)) s 0 (s_optlen s) ts c.

(** ** Exits *)

Inductive disp :=
  | Go (w : work) (c : conn E B)             (** on to the next step *)
  | Drop (c : conn E B)
  | DropAfterAck (w : work) (c : conn E B)
  | DropWithReset (w : work) (c : conn E B)
  | FindPcb (iss : Z) (c : conn E B)         (** the connection is gone: start over *)
  | Done (c : conn E B).                     (** [return] *)

Definition dropafterack w c : option (conn E B) :=
  if TH_RST (w_flags w) then Some c else output fuel (set_flag TF_ACKNOW true c).

Definition rst_flags (ack : bool) : thflags := MkFl false false true false ack false.

Definition dropwithreset s w c : conn E B :=
  if TH_RST (w_flags w) || s_mcast s then c
  else if TH_ACK (w_flags w) then tcp_respond true 0 (s_ack s) (rst_flags false) c
  else
    let len := if TH_SYN (w_flags w) then w_len w + 1 else w_len w in
    tcp_respond true (u32 (w_seq w + len)) 0 (rst_flags true) c.

(** ** Header prediction *)

(** The window unscaled. *)
Definition tiwin s c : Z :=
  if TH_SYN (s_flags s) then s_win s else u32 (Z.shiftl (s_win s) (get snd_scale c)).

Definition predicted s w win c : bool :=
  bool_decide (state c = TCPS_ESTABLISHED) &&
  (negb (TH_SYN (s_flags s)) && negb (TH_FIN (s_flags s)) && negb (TH_RST (s_flags s)) &&
   negb (TH_URG (s_flags s)) && TH_ACK (s_flags s)) &&
  (match w_ts w with None => true | Some (val, _) => TSTMP_GEQ val (get ts_recent c) end) &&
  (s_seq s =? get rcv_nxt c) && negb (win =? 0) && (win =? get snd_wnd c) &&
  (get snd_nxt c =? get snd_max c).

Definition record_ts (seq : Z) w c : conn E B :=
  match w_ts w with
  | Some (val, _) =>
      if SEQ_LEQ seq (get last_ack_sent c)
      then set ts_recent val (set ts_recent_age (tcp_now (env c)) c) else c
  | None => c
  end.

(** The round trip measured by an acknowledgment. *)
Definition ack_rtt s w c : conn E B :=
  match w_ts w with
  | Some (_, ecr) => tcp_xmit_timer (s16 (tcp_now (env c) - ecr + 1)) c
  | None =>
      if negb (get t_rtt c =? 0) && SEQ_GT (s_ack s) (get t_rtseq c)
      then tcp_xmit_timer (get t_rtt c) c else c
  end.

Definition wake_writer c : conn E B := if so_waiting (so_snd (so c)) then sowwakeup c else c.

(** "This is a pure ack for outstanding data." *)
Definition pure_ack s w c : option (conn E B) :=
  let c := ack_rtt s w c in
  let acked := s32 (s_ack s - get snd_una c) in
  let c := set_snd (so_drop acked (so_snd (so c))) c in
  let c := set snd_una (s_ack s) c in
  let c := if get snd_una c =? get snd_max c then set TCPT_REXMT 0 c
           else if get TCPT_PERSIST c =? 0 then set TCPT_REXMT (get t_rxtcur c) c else c in
  let c := wake_writer c in
  if negb (snd_cc c =? 0) then output fuel c else Some c.

(** "This is a pure, in-sequence data packet." *)
Definition pure_data s w c : conn E B :=
  let c := set rcv_nxt (get rcv_nxt c + w_len w) c in
  let c := sorwakeup (set_rcv (so_append (w_data w) (so_rcv (so c))) c) in
  if TH_PUSH (s_flags s) then set_flag TF_ACKNOW true c else set_flag TF_DELACK true c.

Definition predict s w win c : option (disp) :=
  if predicted s w win c then
    let c := record_ts (s_seq s) w c in
    if w_len w =? 0 then
      if SEQ_GT (s_ack s) (get snd_una c) && SEQ_LEQ (s_ack s) (get snd_max c) &&
         (get snd_wnd c <=? get snd_cwnd c)
      then c ← pure_ack s w c; Some (Done c)
      else Some (Go w c)
    else if (s_ack s =? get snd_una c) && bool_decide (seg_queue (tp c) = []) &&
            (w_len w <=? so_space (so_rcv (so c)))
    then Some (Done (pure_data s w c))
    else Some (Go w c)
  else Some (Go w c).

Definition receive_window c : conn E B :=
  let win := Z.max 0 (so_space (so_rcv (so c))) in
  set rcv_wnd (Z.max win (s32 (get rcv_adv c - get rcv_nxt c))) c.

(** ** Opening *)

(** "Compute proper scaling value from buffer space." *)
Fixpoint scale_loop (n : nat) c : conn E B :=
  match n with
  | O => c
  | S n =>
      if (get request_r_scale c <? TCP_MAX_WINSHIFT) &&
         (Z.shiftl TCP_MAXWIN (get request_r_scale c) <? so_hiwat (so_rcv (so c)))
      then scale_loop n (set request_r_scale (get request_r_scale c + 1) c)
      else c
  end.

(** The connection that [sonewconn] made for a segment on a listening socket. *)
Definition new_listener c : conn E B :=
  scale_loop (Z.to_nat TCP_MAX_WINSHIFT) (set_state TCPS_LISTEN c).

Definition with_fld (g : tcpcb → tcpcb) c : conn E B := with_tp (g (tp c)) c.

(** [trimthenstep6:] *)
Definition trimthenstep6 w c : disp :=
  let seq := u32 (w_seq w + 1) in
  let w :=
    if get rcv_wnd c <? w_len w
    then MkWork seq (get rcv_wnd c) (w_urp w) (set_fin false (w_flags w))
           (adj_bytes (w_data w) (- (w_len w - get rcv_wnd c))) (w_ts w) (w_need w)
    else MkWork seq (w_len w) (w_urp w) (w_flags w) (w_data w) (w_ts w) (w_need w) in
  Go w (set rcv_up seq (set snd_wl1 (seq - 1) c)).

(** [LISTEN]; [iss0] is the sequence number of a connection in TIME_WAIT that
    was given up, or 0, [opts] whether there are options to parse. *)
Definition in_listen s (iss0 : Z) (opts : bool) w c : option (disp) :=
  if s_mcast s then Some (Drop c)
  else if landAttackSafe && s_self s then Some (Drop c)
  else
    let '(ok, e) := mBufClGet (env c) in
    let c := with_env e c in
    if negb ok then Some (Drop c)
    else
      let '(err, e) := in_pcbconnect (env c) in
      let c := with_env e c in
      if negb (err =? 0) then Some (Drop c)
      else
        let '(ok, e) := tcp_template (env c) in
        let c := with_env e c in
        if negb ok then c ← tcp_drop fuel garbage ENOBUFS (set_flag T_TEMPLATE false c); Some (Drop c)
        else
          let c := set_flag T_TEMPLATE true c in
          let '(ts, c) := if opts then tcp_dooptions s (w_ts w) c else (w_ts w, c) in
          let w := MkWork (w_seq w) (w_len w) (w_urp w) (w_flags w) (w_data w) ts (w_need w) in
          let c := set iss (if negb (iss0 =? 0) then iss0 else tcp_iss (env c)) c in
          let c := with_env (iss_step (env c)) c in
          let c := set irs (w_seq w) c in
          let c := with_fld tcp_rcvseqinit (with_fld tcp_sendseqinit c) in
          let c := set_state TCPS_SYN_RECEIVED (set_flag TF_ACKNOW true c) in
          Some (trimthenstep6 w (set TCPT_KEEP tcp_keepinit c)).

(** "Do window scaling on this connection?" *)
Definition do_scaling c : conn E B :=
  if flag TF_RCVD_SCALE c && flag TF_REQ_SCALE c
  then set rcv_scale (get request_r_scale c) (set snd_scale (get requested_s_scale c) c)
  else c.

Definition in_syn_sent s w c : option (disp) :=
  if TH_ACK (w_flags w) && (SEQ_LEQ (s_ack s) (get iss c) || SEQ_GT (s_ack s) (get snd_max c))
  then Some (DropWithReset w c)
  else if TH_RST (w_flags w) then
    if TH_ACK (w_flags w) then c ← tcp_drop fuel garbage ECONNREFUSED c; Some (Drop c)
    else Some (Drop c)
  else if negb (TH_SYN (w_flags w)) then Some (Drop c)
  else
    let c :=
      if TH_ACK (w_flags w) then
        let c := set snd_una (s_ack s) c in
        let c := if SEQ_LT (get snd_nxt c) (get snd_una c) then set snd_nxt (get snd_una c) c else c in
        set TCPT_REXMT 0 c
      else c in
    let c := with_fld tcp_rcvseqinit (set irs (w_seq w) c) in
    let c := set_flag TF_ACKNOW true c in
    let c :=
      if TH_ACK (w_flags w) then
        let c := do_scaling (set_state TCPS_ESTABLISHED (soisconnected c)) in
        let c := (tcp_reass None c).2 in
        if negb (get t_rtt c =? 0) then tcp_xmit_timer (get t_rtt c) c else c
      else set_state TCPS_SYN_RECEIVED c in
    Some (trimthenstep6 w c).

(** ** Trimming *)

Definition TCP_PAWS_IDLE : Z := 24 * 24 * 60 * 60 * PR_SLOWHZ.

Definition paws w c : disp :=
  match w_ts w with
  | Some (val, _) =>
      if negb (TH_RST (w_flags w)) && negb (get ts_recent c =? 0) && TSTMP_LT val (get ts_recent c) then
        if TCP_PAWS_IDLE <? s32 (tcp_now (env c) - get ts_recent_age c)
        then Go w (set ts_recent 0 c)
        else DropAfterAck w c
      else Go w c
  | None => Go w c
  end.

(** The SYN of a segment that begins before the window. *)
Definition trim_syn (todrop : Z) w : Z * work :=
  if TH_SYN (w_flags w) then
    let f := set_syn false (w_flags w) in
    (todrop - 1,
     MkWork (u32 (w_seq w + 1)) (w_len w) (if 1 <? w_urp w then w_urp w - 1 else w_urp w)
       (if 1 <? w_urp w then f else set_urg false f) (w_data w) (w_ts w) (w_need w))
  else (todrop, w).

(** "If segment begins before rcv_nxt, drop leading data (and SYN)." *)
Definition trim_head w c : work * conn E B :=
  let todrop := s32 (get rcv_nxt c - w_seq w) in
  if 0 <? todrop then
    let '(todrop, w) := trim_syn todrop w in
    let dup := (w_len w <? todrop) || ((todrop =? w_len w) && negb (TH_FIN (w_flags w))) in
    let f := if dup then set_fin false (w_flags w) else w_flags w in
    let c := if dup then set_flag TF_ACKNOW true c else c in
    let todrop := if dup then w_len w else todrop in
    (MkWork (u32 (w_seq w + todrop)) (w_len w - todrop)
       (if todrop <? w_urp w then w_urp w - todrop else 0)
       (if todrop <? w_urp w then f else set_urg false f)
       (adj_bytes (w_data w) todrop) (w_ts w) (w_need w), c)
  else (w, c).

(** "If new data are received on a connection after the user processes are
    gone, then RST the other end." *)
Definition after_close w c : disp :=
  if sflag SS_NOFDREF c && (tcps TCPS_CLOSE_WAIT <? tcps (state c)) && negb (w_len w =? 0)
  then DropWithReset w (tcp_close garbage c)
  else Go w c.

(** "If segment ends after window, drop trailing data (and PUSH and FIN); if
    nothing left, just ACK." *)
Definition trim_tail w c : disp :=
  let todrop := s32 ((w_seq w + w_len w) - (get rcv_nxt c + get rcv_wnd c)) in
  let cut c := Go (MkWork (w_seq w) (w_len w - todrop) (w_urp w) (set_push false (set_fin false (w_flags w)))
                     (adj_bytes (w_data w) (- todrop)) (w_ts w) (w_need w)) c in
  if 0 <? todrop then
    if w_len w <=? todrop then
      if TH_SYN (w_flags w) && bool_decide (state c = TCPS_TIME_WAIT) && SEQ_GT (w_seq w) (get rcv_nxt c)
      then FindPcb (u32 (get snd_nxt c + TCP_ISSINCR)) (tcp_close garbage c)
      else if (get rcv_wnd c =? 0) && (w_seq w =? get rcv_nxt c)
      then cut (set_flag TF_ACKNOW true c)
      else DropAfterAck w c
    else cut c
  else Go w c.

Definition record_ts_recent w c : conn E B :=
  match w_ts w with
  | Some (val, _) => if TSTMP_GEQ val (get ts_recent c) then record_ts (w_seq w) w c else c
  | None => c
  end.

(** ** Control bits *)

Definition in_rst w c : disp :=
  if TH_RST (w_flags w) then
    match state c with
    | TCPS_SYN_RECEIVED => Drop (tcp_close garbage (set_state TCPS_CLOSED (set_error ECONNREFUSED c)))
    | TCPS_ESTABLISHED | TCPS_FIN_WAIT_1 | TCPS_FIN_WAIT_2 | TCPS_CLOSE_WAIT =>
        Drop (tcp_close garbage (set_state TCPS_CLOSED (set_error ECONNRESET c)))
    | TCPS_CLOSING | TCPS_LAST_ACK | TCPS_TIME_WAIT => Drop (tcp_close garbage c)
    | _ => Go w c
    end
  else Go w c.

Definition in_syn_ack w c : option (disp) :=
  if TH_SYN (w_flags w) then c ← tcp_drop fuel garbage ECONNRESET c; Some (DropWithReset w c)
  else if negb (TH_ACK (w_flags w)) then Some (Drop c)
  else Some (Go w c).

(** ** Acknowledgments *)

Definition tcprexmtthresh : Z := 3.

(** "Set ssthresh to half the current window and pull our congestion window
    back", resend one segment. *)
Definition fast_retransmit s c : option (conn E B) :=
  let onxt := get snd_nxt c in
  let win := Z.min (get snd_wnd c) (get snd_cwnd c) / 2 / get t_maxseg c in
  let win := if win <? 2 then 2 else win in
  let c := set snd_ssthresh (win * get t_maxseg c) c in
  let c := set t_rtt 0 (set TCPT_REXMT 0 c) in
  let c := set snd_cwnd (get t_maxseg c) (set snd_nxt (s_ack s) c) in
  c ← output fuel c;
  let c := set snd_cwnd (get snd_ssthresh c + get t_maxseg c * get t_dupacks c) c in
  Some (if SEQ_GT onxt (get snd_nxt c) then set snd_nxt onxt c else c).

(** An acknowledgment of nothing new. *)
Definition dup_ack s (tw : Z) w c : option disp :=
  if (w_len w =? 0) && (tw =? get snd_wnd c) then
    if (get TCPT_REXMT c =? 0) || negb (s_ack s =? get snd_una c)
    then Some (Go w (set t_dupacks 0 c))
    else
      let c := set t_dupacks (get t_dupacks c + 1) c in
      if get t_dupacks c =? tcprexmtthresh then c ← fast_retransmit s c; Some (Drop c)
      else if tcprexmtthresh <? get t_dupacks c then
        c ← output fuel (set snd_cwnd (get snd_cwnd c + get t_maxseg c) c); Some (Drop c)
      else Some (Go w c)
  else Some (Go w (set t_dupacks 0 c)).

(** "When new data is acked, open the congestion window." *)
Definition open_cwnd c : conn E B :=
  let cw := get snd_cwnd c in
  let incr := get t_maxseg c in
  let incr := if get snd_ssthresh c <? cw then u32 (incr * incr) / cw else incr in
  set snd_cwnd (Z.min (u32 (cw + incr)) (Z.shiftl TCP_MAXWIN (get snd_scale c))) c.

(** The data acknowledged leaves the send buffer; the result is
    [ourfinisacked]. *)
Definition drop_acked (acked : Z) c : bool * conn E B :=
  if snd_cc c <? u32 acked then
    let c := set snd_wnd (get snd_wnd c - snd_cc c) c in
    (true, set_snd (so_drop (snd_cc c) (so_snd (so c))) c)
  else
    let c := set_snd (so_drop acked (so_snd (so c))) c in
    (false, set snd_wnd (get snd_wnd c - acked) c).

(** The inner [switch]. *)
Definition ack_state (ourfinisacked : bool) w c : disp :=
  match state c with
  | TCPS_FIN_WAIT_1 =>
      if ourfinisacked then
        let c := if sflag SS_CANTRCVMORE c then set TCPT_2MSL tcp_maxidle (soisdisconnected c) else c in
        Go w (set_state TCPS_FIN_WAIT_2 c)
      else Go w c
  | TCPS_CLOSING =>
      if ourfinisacked then
        let c := tcp_canceltimers (set_state TCPS_TIME_WAIT c) in
        Go w (soisdisconnected (set TCPT_2MSL (2 * TCPTV_MSL) c))
      else Go w c
  | TCPS_LAST_ACK => if ourfinisacked then Drop (tcp_close garbage c) else Go w c
  | TCPS_TIME_WAIT => DropAfterAck w (set TCPT_2MSL (2 * TCPTV_MSL) c)
  | _ => Go w c
  end.

(** An acknowledgment of something new. *)
Definition new_ack s w c : disp :=
  let c := if (tcprexmtthresh <? get t_dupacks c) && (get snd_ssthresh c <? get snd_cwnd c)
           then set snd_cwnd (get snd_ssthresh c) c else c in
  let c := set t_dupacks 0 c in
  if SEQ_GT (s_ack s) (get snd_max c) then DropAfterAck w c
  else
    let acked := s32 (s_ack s - get snd_una c) in
    let c := ack_rtt s w c in
    let '(w, c) :=
      if s_ack s =? get snd_max c then (w_needed w, set TCPT_REXMT 0 c)
      else (w, if get TCPT_PERSIST c =? 0 then set TCPT_REXMT (get t_rxtcur c) c else c) in
    let c := open_cwnd c in
    let '(ourfinisacked, c) := drop_acked acked c in
    let c := wake_writer c in
    let c := set snd_una (s_ack s) c in
    let c := if SEQ_LT (get snd_nxt c) (get snd_una c) then set snd_nxt (get snd_una c) c else c in
    ack_state ourfinisacked w c.

Definition ack_rest s (tw : Z) w c : option disp :=
  if SEQ_LEQ (s_ack s) (get snd_una c) then dup_ack s tw w c else Some (new_ack s w c).

(** The [switch] on the state. *)
Definition in_ack s (tw : Z) w c : option disp :=
  match state c with
  | TCPS_SYN_RECEIVED =>
      if SEQ_GT (get snd_una c) (s_ack s) || SEQ_GT (s_ack s) (get snd_max c)
      then Some (DropWithReset w c)
      else
        let c := do_scaling (set_state TCPS_ESTABLISHED (soisconnected c)) in
        let c := (tcp_reass None c).2 in
        ack_rest s tw w (set snd_wl1 (w_seq w - 1) c)
  | TCPS_ESTABLISHED | TCPS_FIN_WAIT_1 | TCPS_FIN_WAIT_2 | TCPS_CLOSE_WAIT | TCPS_CLOSING
  | TCPS_LAST_ACK | TCPS_TIME_WAIT => ack_rest s tw w c
  | _ => Some (Go w c)
  end.

(** ** From [step6:] *)

Definition update_window s (tw : Z) w c : work * conn E B :=
  if TH_ACK (w_flags w) &&
     (SEQ_LT (get snd_wl1 c) (w_seq w) ||
      ((get snd_wl1 c =? w_seq w) &&
       (SEQ_LT (get snd_wl2 c) (s_ack s) || ((get snd_wl2 c =? s_ack s) && (get snd_wnd c <? tw)))))
  then
    let c := set snd_wl2 (s_ack s) (set snd_wl1 (w_seq w) (set snd_wnd tw c)) in
    let c := if get max_sndwnd c <? get snd_wnd c then set max_sndwnd (get snd_wnd c) c else c in
    (w_needed w, c)
  else (w, c).

(** "Pull out of band byte out of a segment." *)
Definition tcp_pulloutofband w c : work * conn E B :=
  let cnt := w_urp w - 1 in
  if (0 <=? cnt) && (cnt <? zlen (w_data w)) then
    (MkWork (w_seq w) (w_len w) (w_urp w) (w_flags w)
       (ztake cnt (w_data w) ++ zdrop (cnt + 1) (w_data w)) (w_ts w) (w_need w),
     set_flag TCPOOB_HAVEDATA true (set t_iobc (nth (Z.to_nat cnt) (w_data w) 0) c))
  else (w, panic c).

Definition in_urg w c : work * conn E B :=
  if TH_URG (w_flags w) && negb (w_urp w =? 0) && negb (TCPS_HAVERCVDFIN (state c)) then
    if sb_max <? u32 (w_urp w + rcv_cc c) then
      (MkWork (w_seq w) (w_len w) 0 (set_urg false (w_flags w)) (w_data w) (w_ts w) (w_need w), c)
    else
      let c :=
        if SEQ_GT (w_seq w + w_urp w) (get rcv_up c) then
          let c := set rcv_up (w_seq w + w_urp w) c in
          let c := set_oobmark (u32 (rcv_cc c + (get rcv_up c - get rcv_nxt c) - 1)) c in
          let c := if so_oobmark (so c) =? 0 then set_sflag SS_RCVATMARK true c else c in
          set_flag TCPOOB_HADDATA false (set_flag TCPOOB_HAVEDATA false (sohasoutofband c))
        else c in
      if (w_urp w <=? w_len w) && negb (sflag SO_OOBINLINE c) then tcp_pulloutofband w c else (w, c)
  else (w, if SEQ_GT (get rcv_nxt c) (get rcv_up c) then set rcv_up (get rcv_nxt c) c else c).

(** "Process the segment text"; the result is whether a FIN is to be
    processed. *)
Definition dodata s w c : bool * conn E B :=
  if (negb (w_len w =? 0) || TH_FIN (w_flags w)) && negb (TCPS_HAVERCVDFIN (state c))
  then TCP_REASS (MkSeg (w_seq w) (w_len w) (TH_FIN (s_flags s)) (w_data w)) c
  else (false, c).

Definition in_fin c : conn E B :=
  let c :=
    if negb (TCPS_HAVERCVDFIN (state c)) then
      let c := set_flag TF_ACKNOW true (socantrcvmore c) in set rcv_nxt (get rcv_nxt c + 1) c
    else c in
  match state c with
  | TCPS_SYN_RECEIVED | TCPS_ESTABLISHED => set_state TCPS_CLOSE_WAIT c
  | TCPS_FIN_WAIT_1 => set_state TCPS_CLOSING c
  | TCPS_FIN_WAIT_2 =>
      let c := tcp_canceltimers (set_state TCPS_TIME_WAIT c) in
      soisdisconnected (set TCPT_2MSL (2 * TCPTV_MSL) c)
  | TCPS_TIME_WAIT => set TCPT_2MSL (2 * TCPTV_MSL) c
  | _ => c
  end.

Definition step6 s (tw : Z) w c : option (conn E B) :=
  let '(w, c) := update_window s tw w c in
  let '(w, c) := in_urg w c in
  let '(fin, c) := dodata s w c in
  let c := if fin then in_fin c else c in
  if w_need w || flag TF_ACKNOW c then output fuel c else Some c.

(** ** The whole *)

Definition bind_disp (d : option disp) (f : work → conn E B → option disp) : option disp :=
  match d with Some (Go w c) => f w c | _ => d end.

(** From the check of timestamps to the acknowledgment. *)
Definition in_other s (tw : Z) w c : option disp :=
  bind_disp (Some (paws w c)) (λ w c,
  let '(w, c) := trim_head w c in
  bind_disp (Some (after_close w c)) (λ w c,
  bind_disp (Some (trim_tail w c)) (λ w c,
  let c := record_ts_recent w c in
  bind_disp (Some (in_rst w c)) (λ w c,
  bind_disp (in_syn_ack w c) (λ w c,
  in_ack s tw w c))))).

(** The segment has been handled, or the search for a connection starts again
    with a sequence number for the new connection. *)
Inductive iresult := Handled (c : conn E B) | Again_with (iss : Z) (c : conn E B).

Definition finish s (tw : Z) (d : option disp) : option iresult :=
  match d with
  | None => None
  | Some (Go w c) => c ← step6 s tw w c; Some (Handled c)
  | Some (Drop c) | Some (Done c) => Some (Handled c)
  | Some (DropAfterAck w c) => c ← dropafterack w c; Some (Handled c)
  | Some (DropWithReset w c) => Some (Handled (dropwithreset s w c))
  | Some (FindPcb iss1 c) => Some (Again_with iss1 c)
  end.

(** From [pcbMatchFound:], on a connection that is not listening for others. *)
Definition tcp_input s (iss0 : Z) c : option iresult :=
  if freed c then Some (Handled (dropwithreset s (w_start s None) c))
  else if bool_decide (state c = TCPS_CLOSED) then Some (Handled c)
  else
    let tw := tiwin s c in
    let c := set TCPT_KEEP tcp_keepidle (set t_idle 0 c) in
    let '(ts, opts) := quick_ts s in
    let '(ts, c) :=
      if opts && negb (bool_decide (state c = TCPS_LISTEN)) then tcp_dooptions s ts c else (ts, c) in
    let w := w_start s ts in
    d ← predict s w tw c;
    finish s tw (bind_disp (Some d) (λ w c,
      let c := receive_window c in
      match state c with
      | TCPS_LISTEN => in_listen s iss0 opts w c
      | TCPS_SYN_SENT => in_syn_sent s w c
      | _ => in_other s tw w c
      end)).

End Input.
Arguments disp : clear implicits.
Arguments iresult : clear implicits.
