(* ===== verification/TcpUsr.v ===== *)
(** * User requests of TCP ([tcp_usrreq.c])

    The requests of the socket layer on a connection, and the options of
    level TCP.  Addresses and ports are kept by the protocol control block,
    which belongs to the environment ([TcpUsrEnv]); requests that only copy
    addresses are left out. *)
From Stdlib Require Import ZArith Lia Bool.
From stdpp Require Import base tactics list numbers option.
From S2P Require Import Prelude TcpDefs TcpSubr TcpOutput TcpTimer TcpInput.

Local Open Scope Z_scope.

Class TcpUsrEnv (E : Type) := {
  EINVAL : Z; EWOULDBLOCK : Z; EOPNOTSUPP : Z; ENOPROTOOPT : Z; EISCONN : Z;
  TCP_LINGERTIME : Z; tcp_sendspace : Z; tcp_recvspace : Z;
  in_pcballoc : E → Z * E;                (** an error or 0 *)
  tcpcb_malloc : E → bool * E;            (** the [MALLOC] of [tcp_newtcpcb] *)
  in_pcbdetach : E → E;                   (** without [SS_NOFDREF] *)
  unbound : E → bool;                     (** [inp_lport == 0] *)
  in_pcbbind : E → Z * E;                 (** an error or 0 *)
  in_pcbdisconnect : E → E
}.

Section Usr.
Context {E B : Type} `{!TcpDefs} `{!SoBuf B} `{!TcpEnv E} `{!TcpInEnv E} `{!TcpUsrEnv E}.
Variables (fuel : nat) (garbage : Z).
Implicit Types c : conn E B.

(** [None] in the result is an allocation that failed. *)
Definition tcp_usrclosed c : conn E B :=
  let c :=
    match state c with
    | TCPS_CLOSED | TCPS_LISTEN | TCPS_SYN_SENT => tcp_close garbage (set_state TCPS_CLOSED c)
    | TCPS_SYN_RECEIVED | TCPS_ESTABLISHED => set_state TCPS_FIN_WAIT_1 c
    | TCPS_CLOSE_WAIT => set_state TCPS_LAST_ACK c
    | _ => c
    end in
  if negb (freed c) && (tcps TCPS_FIN_WAIT_2 <=? tcps (state c)) then soisdisconnected c else c.

Definition tcp_disconnect c : option (conn E B) :=
  if tcps (state c) <? tcps TCPS_ESTABLISHED then Some (tcp_close garbage c)
  else if sflag SO_LINGER c && (so_linger (so c) =? 0) then tcp_drop fuel garbage 0 c
  else
    let c := soisdisconnecting c in
    let c := set_rcv (so_flush (so_rcv (so c))) c in
    let c := tcp_usrclosed c in
    if freed c then Some c else output fuel c.

Definition set_bufs (snd rcv : B) (s : socket B) : socket B :=
  MkSo snd rcv (sfl s) (so_error s) (so_oobmark s) (so_linger s).
Definition set_linger (v : Z) (s : socket B) : socket B :=
  MkSo (so_snd s) (so_rcv s) (sfl s) (so_error s) (so_oobmark s) v.

(** A new control block in state CLOSED for the socket, or the error and what
    was done.  [reserve] is [soreserve]: an error or 0, and the buffers. *)
Definition tcp_attach (reserve : Z → Z → B → B → Z * B * B) (s : socket B) (e : E)
    : (Z * socket B * E) + conn E B :=
  let '(error, s) :=
    if (so_hiwat (so_snd s) =? 0) || (so_hiwat (so_rcv s) =? 0) then
      let '(error, snd, rcv) := reserve tcp_sendspace tcp_recvspace (so_snd s) (so_rcv s) in
      (error, set_bufs snd rcv s)
    else (0, s) in
  if negb (error =? 0) then inl (error, s, e)
  else
    let '(error, e) := in_pcballoc e in
    if negb (error =? 0) then inl (error, s, e)
    else
      let '(ok, e) := tcpcb_malloc e in
      if negb ok then inl (ENOBUFS, s, in_pcbdetach e)
      else inr (set_state TCPS_CLOSED (tcp_newtcpcb s e)).

(** [PRU_ATTACH], for a socket whose connection is [c] if it has one. *)
Definition pru_attach (reserve : Z → Z → B → B → Z * B * B) (c : option (conn E B)) (s : socket B) (e : E)
    : (Z * socket B * E) + conn E B :=
  match c with
  | Some c => inl (EISCONN, so c, env c)
  | None =>
      match tcp_attach reserve s e with
      | inl r => inl r
      | inr c => inr (if sflag SO_LINGER c && (so_linger (so c) =? 0) then with_so (set_linger TCP_LINGERTIME (so c)) c else c)
      end
  end.

(** The requests; [nam] of a timer request is the timer, [SENDOOB] and [SEND]
    carry the data. *)
Inductive request :=
  | PRU_DETACH | PRU_BIND | PRU_LISTEN | PRU_CONNECT | PRU_CONNECT2 | PRU_DISCONNECT
  | PRU_SHUTDOWN | PRU_RCVD | PRU_SEND (m : bytes) | PRU_ABORT | PRU_RCVOOB (peek : bool)
  | PRU_SENDOOB (m : bytes) | PRU_SLOWTIMO (timer : field).

(** The error of the request. *)
Definition quietly (r : option (conn E B)) : option (Z * conn E B) := pair 0 <$> r.

Definition bind_first c : Z * conn E B :=
  if unbound (env c) then let '(err, e) := in_pcbbind (env c) in (err, with_env e c) else (0, c).

(** "Compute window scaling to request": [PRU_CONNECT]. *)
Definition pru_connect c : option (Z * conn E B) :=
  let '(err, c) := bind_first c in
  if negb (err =? 0) then Some (err, c)
  else
    let '(err, e) := in_pcbconnect (env c) in
    let c := with_env e c in
    if negb (err =? 0) then Some (err, c)
    else
      let '(ok, e) := tcp_template (env c) in
      let c := set_flag T_TEMPLATE ok (with_env e c) in
      if negb ok then Some (ENOBUFS, with_env (in_pcbdisconnect (env c)) c)
      else
        let c := soisconnecting (scale_loop (Z.to_nat TCP_MAX_WINSHIFT) c) in
        let c := set TCPT_KEEP tcp_keepinit (set_state TCPS_SYN_SENT c) in
        let c := with_env (iss_step (env c)) (set iss (tcp_iss (env c)) c) in
        tcp_output fuel (with_fld tcp_sendseqinit c).

(** The byte received out of band, if there is one. *)
Definition pru_rcvoob (peek : bool) c : Z * option Z * conn E B :=
  if ((so_oobmark (so c) =? 0) && negb (sflag SS_RCVATMARK c)) || sflag SO_OOBINLINE c ||
     flag TCPOOB_HADDATA c
  then (EINVAL, None, c)
  else if negb (flag TCPOOB_HAVEDATA c) then (EWOULDBLOCK, None, c)
  else
    (0, Some (get t_iobc c),
     if peek then c
     else set_flag TCPOOB_HADDATA (negb (flag TCPOOB_HADDATA c))
            (set_flag TCPOOB_HAVEDATA (negb (flag TCPOOB_HAVEDATA c)) c)).

Definition pru_send (m : bytes) c : option (Z * conn E B) :=
  tcp_output fuel (set_snd (so_append m (so_snd (so c))) c).

Definition pru_sendoob (m : bytes) c : option (Z * conn E B) :=
  if so_space (so_snd (so c)) <? -512 then Some (ENOBUFS, c)
  else
    let c := set_snd (so_append m (so_snd (so c))) c in
    let c := set snd_up (get snd_una c + snd_cc c) c in
    r ← tcp_output fuel (set t_force 1 c);
    Some (r.1, set t_force 0 r.2).

Definition tcp_usrreq (req : request) c : option (Z * conn E B) :=
  match req with
  | PRU_DETACH | PRU_DISCONNECT => quietly (tcp_disconnect c)
  | PRU_BIND => let '(err, e) := in_pcbbind (env c) in Some (err, with_env e c)
  | PRU_LISTEN =>
      let '(err, c) := bind_first c in
      Some (err, if err =? 0 then set_state TCPS_LISTEN c else c)
  | PRU_CONNECT => pru_connect c
  | PRU_CONNECT2 => Some (EOPNOTSUPP, c)
  | PRU_SHUTDOWN =>
      let c := tcp_usrclosed (socantsendmore c) in
      if freed c then Some (0, c) else tcp_output fuel c
  | PRU_RCVD => quietly (output fuel c)
  | PRU_SEND m => pru_send m c
  | PRU_ABORT => quietly (tcp_drop fuel garbage ECONNABORTED c)
  | PRU_RCVOOB peek => let '(err, _, c) := pru_rcvoob peek c in Some (err, c)
  | PRU_SENDOOB m => pru_sendoob m c
  | PRU_SLOWTIMO timer => quietly (tcp_timers fuel garbage timer c)
  end.

(** ** Options of level TCP *)

Inductive tcpopt := TCP_NODELAY | TCP_MAXSEG | TCP_OTHER.

(** [PRCO_SETOPT]; [value] is the integer of the argument, if there is one. *)
Definition tcp_setopt (optname : tcpopt) (value : option Z) c : Z * conn E B :=
  match optname with
  | TCP_NODELAY =>
      match value with
      | None => (EINVAL, c)
      | Some v => (0, set_flag TF_NODELAY (negb (v =? 0)) c)
      end
  | TCP_MAXSEG =>
      match value with
      | Some i => if (0 <? i) && (i <=? get t_maxseg c) then (0, set t_maxseg i c) else (EINVAL, c)
      | None => (EINVAL, c)
      end
  | TCP_OTHER => (ENOPROTOOPT, c)
  end.

(** [PRCO_GETOPT], the mbuf for the result allocated; the flag is reported by
    its bit. *)
Definition tcp_getopt (nodelay_bit : Z) (optname : tcpopt) c : Z * option Z :=
  match optname with
  | TCP_NODELAY => (0, Some (if flag TF_NODELAY c then nodelay_bit else 0))
  | TCP_MAXSEG => (0, Some (get t_maxseg c))
  | TCP_OTHER => (ENOPROTOOPT, None)
  end.

(** ** Listening sockets *)

(** A segment for a listening socket; [new] is the connection made by
    [sonewconn], if it could.  The result is the listening socket and the new
    connection; one that is not kept is aborted. *)
Definition listen_input (s : tin) (iss0 : Z) (new : option (conn E B)) c
    : option (conn E B * option (conn E B)) :=
  let w := w_start s None in
  if TH_RST (s_flags s) || TH_ACK (s_flags s) || negb (TH_SYN (s_flags s)) then
    Some (if TH_ACK (s_flags s) then dropwithreset s w c else c, None)
  else
    match new with
    | None => Some (c, None)
    | Some n =>
        r ← tcp_input fuel garbage s iss0 (new_listener n);
        let n := match r with Handled n => n | Again_with _ n => n end in
        if negb (freed n) && bool_decide (state n = TCPS_LISTEN)
        then n ← tcp_drop fuel garbage ECONNABORTED n; Some (c, Some n)
        else Some (c, Some n)
    end.

End Usr.
