(* ===== verification/TcpStream.v ===== *)
(** * The stream that TCP sends

    The invariant of a connection from ESTABLISHED on, through input, output,
    timers and user requests together: the send buffer is the part of the
    written stream that was not acknowledged, [snd_una] its sequence number,
    and every segment sent carries the bytes of the stream at its sequence
    number. *)
From Stdlib Require Import ZArith Lia Bool.
From stdpp Require Import base tactics list numbers option.
From S2P Require Import Prelude TcpDefs TcpReass TcpSubr TcpOutput TcpTimer TcpInput TcpUsr.

Local Open Scope Z_scope.

Section Stream.
Context {E B : Type} `{!TcpDefs, !TcpDefsLaws, !SoBuf B, !SoBufLaws B, !TcpEnv E, !TcpEnvLaws E, !TcpInEnv E, !TcpUsrEnv E}.
Implicit Types c : conn E B.

(** ** Members in range *)

Definition wf c : Prop := ∀ f, is_u32 f = true → 0 <= get f c < 4294967296.

Lemma wf_set f v c : wf c → wf (set f v c).
Proof.
  intros Hw g Hg. change (get g (set f v c)) with (if Nat.eqb (field_no f) (field_no g) then store f v else get g c).
  destruct (Nat.eqb_spec (field_no f) (field_no g)) as [He|]; [|by apply Hw].
  apply field_no_inj in He as ->. rewrite store_u32 by done. apply u32_range.
Qed.

(** ** Output *)

Definition alters (f : field) : bool :=
  match f with snd_cwnd | t_softerror => true | _ => changes f end.

(** What output keeps in any case. *)
Record keeps c c1 : Prop := {
  kp_so : so c1 = so c;
  kp_state : state c1 = state c;
  kp_freed : freed c1 = freed c;
  kp_get f : alters f = false → get f c1 = get f c;
  kp_flag f : fchanges f = false → flag f c1 = flag f c;
  kp_wf : wf c → wf c1;
  kp_sent : flag TF_SENTFIN c = true → flag TF_SENTFIN c1 = true;
  kp_fin : flag TF_SENTFIN c1 = true → flag TF_SENTFIN c = true ∨ TH_FIN (tcp_outflags (state c)) = true
}.

Lemma keeps_refl c : keeps c c.
Proof. split; try done. by left. Qed.

Lemma keeps_trans c1 c2 c3 : keeps c1 c2 → keeps c2 c3 → keeps c1 c3.
Proof.
  intros [] []. split; try congruence.
  - intros f Hf. by rewrite kp_get1, kp_get0.
  - intros f Hf. by rewrite kp_flag1, kp_flag0.
  - auto.
  - auto.
  - intros [?|?]%kp_fin1; [auto|right; congruence].
Qed.

Lemma keeps_set f v c c1 : alters f = true → keeps c c1 → keeps c (set f v c1).
Proof.
  intros Hf []. split; try done.
  - intros g Hg. rewrite <- (kp_get0 g Hg). apply get_set_ne. congruence.
  - intros Hw. apply wf_set. auto.
Qed.

Lemma keeps_set_flag f b c c1 : fchanges f = true → f ≠ TF_SENTFIN → keeps c c1 → keeps c (set_flag f b c1).
Proof.
  intros Hf Hs []. split; try done.
  - intros g Hg. rewrite <- (kp_flag0 g Hg). apply flag_set_ne. congruence.
  - by rewrite flag_set_ne.
  - by rewrite flag_set_ne.
Qed.

Lemma keeps_sentfin c c1 : TH_FIN (tcp_outflags (state c)) = true → keeps c c1 →
  keeps c (set_flag TF_SENTFIN true c1).
Proof.
  intros Hf []. split; try done.
  - intros g Hg. rewrite <- (kp_flag0 g Hg). apply flag_set_ne. by intros <-.
  - by right.
Qed.

Lemma keeps_env e c c1 : keeps c c1 → keeps c (with_env e c1).
Proof. by intros []. Qed.
Lemma keeps_emit e c c1 : keeps c c1 → keeps c (emit e c1).
Proof. by intros []. Qed.

Ltac keeps :=
  repeat first
    [ done
    | apply keeps_set; [reflexivity|]
    | apply keeps_set_flag; [reflexivity|discriminate|]
    | apply keeps_env
    | apply keeps_emit
    | match goal with |- keeps _ (if ?b then _ else _) => destruct b eqn:? end
    | apply keeps_refl ].

Lemma setpersist_keeps c : keeps c (tcp_setpersist c).
Proof. unfold tcp_setpersist, panic. cbv zeta. keeps. Qed.

Lemma advance_keeps len flags c : (TH_FIN flags = true → TH_FIN (tcp_outflags (state c)) = true) →
  keeps c (out_advance len flags c).
Proof.
  intros Hf. unfold out_advance, arm_rexmt, time_it. cbv zeta. keeps.
  all: try (apply keeps_sentfin; [auto|keeps]).
Qed.

Lemma error_keeps error c c1 : keeps c c1 → keeps c (out_error error c1).2.
Proof. intros Hq. unfold out_error, tcp_quench. destruct (_ =? _); [|destruct (_ && _)]; cbn [snd]; keeps. Qed.

Lemma send_keeps pktSent off len sendalot flags win c : TH_SYN flags = false →
  (TH_FIN flags = true → TH_FIN (tcp_outflags (state c)) = true) →
  keeps c (result (out_send pktSent off len sendalot flags win c)).
Proof.
  intros Hsyn Hfin. unfold out_send, out_opts, syn_opts. rewrite Hsyn. cbv beta iota zeta.
  match goal with |- context [if ?b then (?l, true, ?f, ?o, c) else ?r] =>
    assert (∃ len1 sa1 flags1 opt, (if b then (l, true, f, o, c) else r) = (len1, sa1, flags1, opt, c) ∧
      (TH_FIN flags1 = true → TH_FIN flags = true)) as (len1 & sa1 & flags1 & opt & -> & Hs1) end.
  { destruct (_ <? _); repeat eexists; done. }
  pose proof (alloc_spec off len1 (sizeof_tcpiphdr + zlen opt) c) as Hal.
  destruct (out_alloc off len1 _ c) as [data c1]. destruct Hal as [[e ->] _].
  assert (Hadv : ∀ fl c0, (TH_FIN fl = true → TH_FIN flags = true) → keeps c c0 →
    keeps c (out_advance len1 fl (drag_up c0))).
  { intros fl c0 Hfl Hq. assert (keeps c (drag_up c0)) as Hq2 by (unfold drag_up; keeps).
    eapply keeps_trans; [exact Hq2|]. apply advance_keeps. rewrite (kp_state _ _ Hq2). auto. }
  destruct data as [data|].
  2:{ assert (Hun : keeps c (out_unsent pktSent len1 flags1 (with_env e c))).
      { unfold out_unsent. destruct pktSent; [|apply Hadv; [done|]]; exact (keeps_env e _ _ (keeps_refl c)). }
      pose proof (error_keeps ENOBUFS _ _ Hun) as Hq.
      destruct (out_error ENOBUFS _). exact Hq. }
  match goal with |- context [out_seg len1 _ ?f _ _ _] => set (fl := f) end.
  assert (TH_FIN fl = true → TH_FIN flags = true) as Hs2 by (unfold fl; by destruct (_ && _)).
  set (c1 := resend_fin fl _).
  assert (keeps c c1) as Hq1.
  { unfold c1, resend_fin, panic. keeps. }
  specialize (Hadv fl c1 Hs2 Hq1). set (c2 := out_advance _ _ _) in *.
  destruct (ip_output _ _ _) as [error e']. destruct (negb (error =? 0)).
  - pose proof (error_keeps error c (emit (Sent (out_seg len1 (out_window win c1) fl opt data c1)) (with_env e' c2))
      (keeps_emit _ _ _ (keeps_env _ _ _ Hadv))) as Hq.
    destruct (out_error error _). exact Hq.
  - assert (keeps c (out_sent (out_window win c1) (emit (Sent (out_seg len1 (out_window win c1) fl opt data c1)) (with_env e' c2)))) as Hq.
    { unfold out_sent. cbv zeta. keeps. }
    by destruct sa1.
Qed.

Lemma plan_keeps c : keeps c (out_plan c).2 ∧
  (TH_SYN (tcp_outflags (state c)) = false → TH_SYN (out_plan c).1.2 = false) ∧
  (TH_FIN (out_plan c).1.2 = true → TH_FIN (tcp_outflags (state c)) = true).
Proof.
  unfold out_plan, out_force, out_length.
  destruct (get t_force c =? 0); [|destruct (s32 (Z.min (get snd_wnd c) (get snd_cwnd c)) =? 0)].
  all: destruct (_ <? 0); cbv zeta; cbn [fst snd].
  all: split; [keeps|]; destruct (SEQ_LT _ _); try done; destruct (_ <? snd_cc c); done.
Qed.

Lemma once_keeps idle pktSent c : TH_SYN (tcp_outflags (state c)) = false → keeps c (result (out_once idle pktSent c)).
Proof.
  intros Hs. destruct (plan_keeps c) as (Hp1 & Hp2 & Hp3). unfold out_once.
  destruct (out_plan c) as [[[[off len] sendalot] flags] c1]. cbn [fst snd] in *.
  cbv zeta. eapply keeps_trans; [exact Hp1|]. destruct (_ || _ || _).
  - apply send_keeps; [by apply Hp2|]. by rewrite (kp_state _ _ Hp1).
  - unfold out_nothing. cbn [result]. destruct (_ && _ && _); [|apply keeps_refl].
    eapply keeps_trans; [|apply setpersist_keeps]. keeps.
Qed.

Lemma output_keeps fuel r c c' : tcp_output fuel c = Some (r, c') → TH_SYN (tcp_outflags (state c)) = false →
  keeps c c'.
Proof.
  unfold tcp_output. intros Hout Hs. set (idle := _ =? _) in *. clearbody idle.
  assert (keeps c (slow_start c)) as Hq by (unfold slow_start; keeps).
  revert Hout Hq. generalize (slow_start c), false. revert r c'. induction fuel as [|fuel IH]; intros r c' c1 pktSent Hout Hq; [done|].
  cbn [out_loop] in Hout. pose proof (once_keeps idle pktSent c1) as Ho. rewrite (kp_state _ _ Hq) in Ho. specialize (Ho Hs).
  destruct (out_once idle pktSent c1) as [r1 c2|c2]; cbn [result] in Ho.
  - injection Hout as _ <-. by eapply keeps_trans.
  - eapply IH; [exact Hout|]. by eapply keeps_trans.
Qed.


(** ** Changes that do not concern the send side *)

(** Events that carry no data. *)
Definition noseg (e : tevent) : Prop := match e with Sent s => o_data s = [] | _ => True end.

Definition rel (f : field) : bool :=
  match f with snd_una | snd_nxt | snd_max | t_maxseg => true | _ => false end.

Record irrel c c1 : Prop := {
  ir_freed : freed c1 = freed c;
  ir_state : state c1 = state c;
  ir_snd : so_snd (so c1) = so_snd (so c);
  ir_get f : rel f = true → get f c1 = get f c;
  ir_fin : flag TF_SENTFIN c1 = flag TF_SENTFIN c;
  ir_template : flag T_TEMPLATE c1 = flag T_TEMPLATE c;
  ir_more : sflag SS_CANTSENDMORE c = true → sflag SS_CANTSENDMORE c1 = true;
  ir_wf : wf c → wf c1;
  ir_log : ∃ es, tlog c1 = es ++ tlog c ∧ Forall noseg es
}.

Lemma irrel_refl c : irrel c c.
Proof. split; try done. by exists []. Qed.

Lemma irrel_trans c1 c2 c3 : irrel c1 c2 → irrel c2 c3 → irrel c1 c3.
Proof.
  intros [] []. split; try congruence; try by auto.
  - intros f Hf. by rewrite ir_get1, ir_get0.
  - destruct ir_log0 as (es & He & Hn), ir_log1 as (es' & He' & Hn').
    exists (es' ++ es). rewrite He', He, app_assoc. split; [done|]. by apply Forall_app.
Qed.

Lemma irrel_set f v c c1 : rel f = false → irrel c c1 → irrel c (set f v c1).
Proof.
  intros Hf []. split; try done.
  - intros g Hg. rewrite <- (ir_get0 g Hg). apply get_set_ne. congruence.
  - intros Hw. apply wf_set. auto.
Qed.

Lemma irrel_set_flag f b c c1 : f ≠ TF_SENTFIN → f ≠ T_TEMPLATE → irrel c c1 → irrel c (set_flag f b c1).
Proof. intros Hf Ht []. split; try done; by rewrite flag_set_ne. Qed.

Lemma irrel_set_sflag f b c c1 : f ≠ SS_CANTSENDMORE ∨ b = true → irrel c c1 → irrel c (set_sflag f b c1).
Proof.
  intros Hf []. split; try done. intros Hm. specialize (ir_more0 Hm).
  destruct Hf as [Hf| ->]; [|by destruct f]. destruct f; done.
Qed.

Lemma irrel_set_rcv b c c1 : irrel c c1 → irrel c (set_rcv b c1).
Proof. by intros []. Qed.
Lemma irrel_set_queue q c c1 : irrel c c1 → irrel c (set_queue q c1).
Proof. by intros []. Qed.
Lemma irrel_set_error e c c1 : irrel c c1 → irrel c (set_error e c1).
Proof. by intros []. Qed.
Lemma irrel_set_oobmark e c c1 : irrel c c1 → irrel c (set_oobmark e c1).
Proof. by intros []. Qed.
Lemma irrel_with_env e c c1 : irrel c c1 → irrel c (with_env e c1).
Proof. by intros []. Qed.
Lemma irrel_emit e c c1 : noseg e → irrel c c1 → irrel c (emit e c1).
Proof.
  intros He []. split; try done. destruct ir_log0 as (es & Hl & Hn).
  exists (e :: es). split; [|by constructor]. change (tlog (emit e c1)) with (e :: tlog c1). by rewrite Hl.
Qed.

Ltac irrel :=
  repeat first
    [ done
    | apply irrel_set; [reflexivity|]
    | apply irrel_set_flag; [discriminate|discriminate|]
    | apply irrel_set_sflag; [first [by left|by right]|]
    | apply irrel_set_rcv | apply irrel_set_queue | apply irrel_set_error | apply irrel_set_oobmark
    | apply irrel_with_env
    | apply irrel_emit; [first [exact I|reflexivity]|]
    | match goal with |- irrel _ (if ?b then _ else _) => destruct b eqn:? end
    | apply irrel_refl ].

Lemma irrel_xmit_timer rtt c : irrel c (tcp_xmit_timer rtt c).
Proof.
  unfold tcp_xmit_timer, xmit_smooth, xmit_rttvar, xmit_srtt. cbv zeta. irrel.
Qed.

Lemma irrel_isconnected c : irrel c (soisconnected c).
Proof. unfold soisconnected. cbv zeta. irrel. Qed.
Lemma irrel_isdisconnected c : irrel c (soisdisconnected c).
Proof. unfold soisdisconnected, sowwakeup, sorwakeup. cbv zeta. irrel. Qed.
Lemma irrel_isdisconnecting c : irrel c (soisdisconnecting c).
Proof. unfold soisdisconnecting, sowwakeup, sorwakeup. cbv zeta. irrel. Qed.
Lemma irrel_cantsendmore c : irrel c (socantsendmore c).
Proof. unfold socantsendmore, sowwakeup. irrel. Qed.
Lemma irrel_cantrcvmore c : irrel c (socantrcvmore c).
Proof. unfold socantrcvmore, sorwakeup. irrel. Qed.
Lemma irrel_canceltimers c : irrel c (tcp_canceltimers c).
Proof. unfold tcp_canceltimers. irrel. Qed.

Lemma irrel_present_loop : ∀ q fin c, irrel c (present_loop q fin c).2.
Proof.
  induction q as [|s q IH]; intros fin c; cbn [present_loop]; [apply irrel_refl|].
  destruct (_ =? _); [|apply irrel_refl]. cbv zeta. eapply irrel_trans; [|apply IH]. irrel.
Qed.

Lemma irrel_present c : irrel c (present c).2.
Proof.
  unfold present. destruct (negb _); [apply irrel_refl|].
  destruct (seg_queue (tp c)) as [|s q]; [apply irrel_refl|].
  destruct (negb (_ =? _)); [apply irrel_refl|]. destruct (_ && _); [apply irrel_refl|].
  pose proof (irrel_present_loop (s :: q) false c) as Hp.
  destruct (present_loop (s :: q) false c) as [fin c1]. cbn [snd] in *.
  eapply irrel_trans; [exact Hp|]. unfold sorwakeup. irrel.
Qed.

Lemma irrel_reass ti c : irrel c (tcp_reass ti c).2.
Proof.
  unfold tcp_reass. destruct ti as [ti|]; [|apply irrel_present].
  destruct (seg_insert _ _) as [q|]; [|apply irrel_refl].
  eapply irrel_trans; [|apply irrel_present]. irrel.
Qed.

Lemma irrel_REASS ti c : irrel c (TCP_REASS ti c).2.
Proof.
  unfold TCP_REASS. destruct (_ && _ && _).
  - cbv zeta. cbn [snd]. unfold sorwakeup. irrel.
  - pose proof (irrel_reass (Some ti) c) as Hr. destruct (tcp_reass (Some ti) c) as [fin c1].
    cbn [snd] in *. eapply irrel_trans; [exact Hr|]. irrel.
Qed.

(** ** The invariant *)

(** What was sent is what was written: [base] is the sequence number of the
    first byte of the stream [G]. *)
Definition true_ev (base : Z) (G : bytes) (e : tevent) : Prop :=
  match e with
  | Sent s =>
      o_data s ≠ [] →
      ∃ off, 0 <= off ∧ off + zlen (o_data s) <= zlen G ∧ u32 (o_seq s) = u32 (base + off) ∧
        o_data s = ztake (zlen (o_data s)) (zdrop off G)
  | _ => True
  end.

Lemma seg_true base G A f c s : 0 <= A <= zlen G → sb_bytes (so_snd (so c)) = zdrop A G →
  get snd_una c = u32 (base + A + Z.b2z f) → (f = true → A = zlen G) →
  seg_ok (slow_start c) s → true_ev base G (Sent s).
Proof.
  intros ab_A0 ab_buf0 ab_una0 ab_f0 (_ & _ & _ & _ & Hd & _) Hne. destruct (Hd Hne) as [Hdata Hlen]. clear Hd.
  assert (so (slow_start c) = so c ∧ get snd_una (slow_start c) = get snd_una c) as [Hso Hu]
    by (unfold slow_start; by destruct (_ && _)).
  unfold snd_cc in *. rewrite Hso, Hu, ?ab_buf0, ?ab_una0 in *.
  rewrite zlen_zdrop in Hlen. set (k := u32 (o_seq s - _)) in *.
  pose proof (u32_range (o_seq s - u32 (base + A + Z.b2z f))) as Hk. fold k in Hk.
  assert (0 < zlen (o_data s)) as Hpos.
  { pose proof (zlen_nonneg (o_data s)). destruct (Z.eq_dec (zlen (o_data s)) 0) as [Hz|]; [|lia].
    destruct (o_data s); [done|rewrite zlen_cons in Hz; pose proof (zlen_nonneg l); lia]. }
  assert (f = false) as -> by (destruct f; [specialize (ab_f0 eq_refl); lia|done]).
  exists (A + k). split_and!; [lia|lia| |].
  - destruct (u32_ex (base + A + Z.b2z false)) as [j Hj]. cbn in Hj.
    unfold k. destruct (u32_ex (o_seq s - u32 (base + A + Z.b2z false))) as [i Hi].
    rewrite Hi. cbn [Z.b2z]. rewrite Z.add_0_r in *. rewrite Hj.
    unfold u32. replace (base + (A + (o_seq s - (base + A + j * 4294967296) + i * 4294967296)))
      with (o_seq s + (i - j) * 4294967296) by lia. by rewrite Z.mod_add.
  - rewrite Hdata at 1. by rewrite zdrop_zdrop, (Z.add_comm A k) by lia.
Qed.

Lemma segs_true base G A f c ss : 0 <= A <= zlen G → sb_bytes (so_snd (so c)) = zdrop A G →
  get snd_una c = u32 (base + A + Z.b2z f) → (f = true → A = zlen G) →
  Forall (seg_ok (slow_start c)) ss → Forall (true_ev base G) (map Sent ss).
Proof. intros ? ? ? ? Hss. induction Hss; constructor; [by eapply seg_true|done]. Qed.

(** [A] bytes were acknowledged, and with [f] also the FIN. *)
Record abs (base : Z) (G : bytes) (A : Z) (f : bool) (n m : Z) c : Prop := {
  ab_inv : send_inv n m c;
  ab_fit : TH_FIN (tcp_outflags (state c)) = false → m <= snd_cc c;
  ab_A : 0 <= A <= zlen G;
  ab_buf : sb_bytes (so_snd (so c)) = zdrop A G;
  ab_una : get snd_una c = u32 (base + A + Z.b2z f);
  ab_f : f = true → A = zlen G ∧ flag TF_SENTFIN c = true ∧ TH_FIN (tcp_outflags (state c)) = false
}.

(** Bounds: of the send buffer, and of the rounds of [tcp_output]. *)
Variables (cap : Z) (fuel : nat) (garbage : Z).
Hypothesis cap_fuel : cap + 1 < Z.of_nat fuel.

Record stream_ok (base : Z) (G : bytes) c : Prop := {
  sk_live : freed c = false;
  sk_est : 4 <= tcps (state c);
  sk_wf : wf c;
  sk_abs : ∃ A f n m, abs base G A f n m c;
  sk_early : flag TF_SENTFIN c = true → state c ≠ TCPS_ESTABLISHED ∧ state c ≠ TCPS_CLOSE_WAIT;
  sk_more : state c ≠ TCPS_ESTABLISHED → state c ≠ TCPS_CLOSE_WAIT → sflag SS_CANTSENDMORE c = true;
  sk_maxseg : 32 <= get t_maxseg c < 16384;
  sk_template : flag T_TEMPLATE c = true;
  sk_hiwat : 32 <= so_hiwat (so_snd (so c));
  sk_cap : snd_cc c <= cap;
  sk_log : Forall (true_ev base G) (tlog c)
}.

Lemma noseg_true base G e : noseg e → true_ev base G e.
Proof. destruct e; cbn; done. Qed.

Lemma log_irrel base G c c1 : irrel c c1 → Forall (true_ev base G) (tlog c) → Forall (true_ev base G) (tlog c1).
Proof.
  intros [] Hl. destruct ir_log0 as (es & -> & Hn). apply Forall_app. split; [|done].
  exact (List.Forall_impl _ (noseg_true base G) Hn).
Qed.

Lemma irrel_cc c c1 : irrel c c1 → snd_cc c1 = snd_cc c.
Proof. intros []. unfold snd_cc. by rewrite ir_snd0. Qed.

Lemma irrel_inv n m c c1 : irrel c c1 → send_inv n m c → send_inv n m c1.
Proof.
  intros Hi []. pose proof (irrel_cc _ _ Hi) as Hc. destruct Hi.
  split; rewrite ?ir_state0, ?Hc, ?ir_fin0, ?ir_get0 by done; done.
Qed.

Lemma irrel_abs base G A f n m c c1 : irrel c c1 → abs base G A f n m c → abs base G A f n m c1.
Proof.
  intros Hi []. pose proof (irrel_inv n m _ _ Hi ab_inv0). pose proof (irrel_cc _ _ Hi) as Hc. destruct Hi.
  split; rewrite ?ir_state0, ?Hc, ?ir_fin0, ?ir_snd0, ?ir_get0 by done; done.
Qed.

Lemma stream_irrel base G c c1 : irrel c c1 → stream_ok base G c → stream_ok base G c1.
Proof.
  intros Hi []. pose proof (log_irrel base G _ _ Hi sk_log0). pose proof (irrel_cc _ _ Hi) as Hcc. pose proof Hi as [].
  split; rewrite ?Hcc, ?ir_freed0, ?ir_state0, ?ir_fin0, ?ir_template0, ?ir_snd0, ?ir_get0 by done; try done; auto.
  destruct sk_abs0 as (A & f & n & m & Ha). exists A, f, n, m. by eapply irrel_abs.
Qed.

(** ** Output *)

Lemma est_fin : TH_FIN (tcp_outflags TCPS_ESTABLISHED) = false ∧ TH_FIN (tcp_outflags TCPS_CLOSE_WAIT) = false.
Proof. by rewrite !outflags_eq. Qed.

Lemma stream_send_ok base G c : stream_ok base G c → send_ok c.
Proof.
  intros []. split; try done.
  - by apply sk_wf0.
  - by apply sk_wf0.
  - unfold opt_len. destruct (_ && _); lia.
Qed.

(** A sequence number between [snd_una] and [snd_max]. *)
Definition within (x : Z) c : Prop :=
  ∃ k m, 0 <= k <= m ∧ m <= 1073741825 ∧ u32 x = u32 (get snd_una c + k) ∧
    get snd_max c = u32 (get snd_una c + m).

Lemma abs_bound base G A f n m c : abs base G A f n m c → 0 <= m <= 1073741825.
Proof. intros [[]]. destruct (flag TF_SENTFIN c); cbn in *; lia. Qed.

(** Both have the same offset. *)
Lemma offset_unique u x y : 0 <= x < 2147483648 → 0 <= y < 2147483648 → u32 (u + x) = u32 (u + y) → x = y.
Proof. intros Hx Hy He. pose proof (u32_eqb u x y Hx Hy) as Hb. rewrite He, Z.eqb_refl in Hb. lia. Qed.

Lemma within_nxt base G c : stream_ok base G c → within (get snd_nxt c) c ∧ within (get snd_una c) c.
Proof.
  intros []. destruct sk_abs0 as (A & f & n & m & Ha). pose proof (abs_bound _ _ _ _ _ _ _ Ha).
  destruct Ha as [[]]. split.
  - exists n, m. split_and!; try done; try lia. by rewrite si_nxt, u32_u32.
  - exists 0, m. split_and!; try done; try lia. by rewrite Z.add_0_r.
Qed.

Lemma stream_output base G c : stream_ok base G c → never_fails (E := E) →
  ∃ r c', tcp_output fuel c = Some (r, c') ∧ stream_ok base G c' ∧ so c' = so c ∧ keeps c c' ∧
    ∀ x, within x c → within x c'.
Proof.
  intros Hs Hnf. pose proof (stream_send_ok _ _ _ Hs) as Hok. pose proof Hs as [].
  destruct sk_abs0 as (A & f & n & m & Ha). pose proof Ha as [].
  destruct (output_spec fuel n m c ab_inv0 Hok) as (r & c' & ss & n' & m' & Hout & Hso & Hi' & Hmm & Hfit & Hlog & Hss);
    [by right|lia|].
  assert (keeps c c') as Hk by (eapply output_keeps; [exact Hout|apply ab_inv0]).
  assert (∀ x, within x c → within x c') as Hwi.
  { intros x (k & m0 & Hk0 & Hm0 & Hx & Hmx). pose proof (abs_bound _ _ _ _ _ _ _ Ha). destruct ab_inv0.
    rewrite si_max in Hmx. apply offset_unique in Hmx as <-; [|lia|lia].
    assert (get snd_una c' = get snd_una c) as Hu by (by apply Hk).
    destruct Hi'. exists k, m'. rewrite <- Hu in Hx. split_and!; try done; try lia.
    destruct (flag TF_SENTFIN c'); cbn in *; lia. }
  exists r, c'. split_and!; try done. pose proof Hk as [].
  assert (snd_cc c' = snd_cc c) as Hcc by (unfold snd_cc; by rewrite Hso).
  split; rewrite ?Hcc, ?kp_freed0, ?kp_state0, ?kp_get0, ?kp_flag0, ?kp_so0 by done; try done; auto.
  - exists A, f, n', m'. split; rewrite ?kp_state0, ?Hcc, ?Hso, ?kp_get0 by done; try done.
    + intros HF. specialize (Hfit HF). specialize (ab_fit0 HF). lia.
    + intros Hft. destruct (ab_f0 Hft) as (? & ? & ?). split_and!; auto.
  - intros [?|HF]%kp_fin0; [auto|]. destruct est_fin as [H1 H2].
    split; intros He; rewrite He in HF; congruence.
  - unfold sflag. rewrite Hso. exact sk_more0.
  - rewrite Hlog. apply Forall_app. split; [|done].
    apply (segs_true base G A f c); try done. intros Hft. by apply ab_f0.
Qed.

(** ** The end of a connection *)

(** Every segment sent so far was true. *)
Definition truthful (base : Z) (G : bytes) c : Prop := Forall (true_ev base G) (tlog c).

(** A connection given up, or still in order. *)
Definition good (base : Z) (G : bytes) c : Prop :=
  (freed c = true ∧ truthful base G c) ∨ stream_ok base G c.

Lemma stream_truthful base G c : stream_ok base G c → truthful base G c.
Proof. by intros []. Qed.

Lemma good_truthful base G c : good base G c → truthful base G c.
Proof. intros [[_ ?]|[]]; done. Qed.

Lemma close_log c : ∃ es, tlog (tcp_close garbage c) = es ++ tlog c ∧ Forall noseg es.
Proof.
  assert (tlog (close_route garbage c) = tlog c) as Hr.
  { unfold close_route. destruct (SEQ_LT _ _); [|done]. destruct (ro_rt _) as [rt|]; [|done].
    destruct (rt_dst_any rt); [done|]. destruct (close_rtt _ _ _) as [? ?], (close_rttvar _ _ _) as [? ?]. done. }
  exists [Detached; Called Sorwakeup; Called Sowwakeup; Called Soisdisconnected]. split.
  - rewrite <- Hr. reflexivity.
  - by repeat constructor.
Qed.

Lemma close_good base G c : truthful base G c → good base G (tcp_close garbage c).
Proof.
  intros Ht. left. split; [done|]. destruct (close_log c) as (es & He & Hn). unfold truthful. rewrite He.
  apply Forall_app. split; [|done]. exact (List.Forall_impl _ (noseg_true base G) Hn).
Qed.

(** Dropping a connection: its last segment carries no untruth either. *)
Lemma drop_good base G error c : stream_ok base G c → never_fails (E := E) →
  ∃ c', tcp_drop fuel garbage error c = Some c' ∧ freed c' = true ∧ good base G c'.
Proof.
  intros Hs Hnf. pose proof (stream_send_ok _ _ _ Hs) as Hok. pose proof Hs as [].
  destruct sk_abs0 as (A & f & n & m & []). unfold tcp_drop, output.
  destruct (TCPS_HAVERCVDSYN _).
  - assert (send_inv n m (set_state TCPS_CLOSED c)) as Hi'.
    { destruct ab_inv0. split; try done; [apply closed_synced|]. intros _.
      change (state (set_state _ _)) with TCPS_CLOSED. by rewrite outflags_eq. }
    destruct (output_spec fuel n m _ Hi') as (r & c' & ss & n' & m' & -> & _ & _ & _ & _ & Hlog & Hss);
      [by destruct Hok|by right|change (snd_cc c + 1 < Z.of_nat fuel); lia|].
    cbn. eexists. split; [reflexivity|]. split; [done|]. apply close_good. unfold truthful.
    change (tlog (set_error ?e ?c)) with (tlog c). rewrite Hlog. apply Forall_app. split; [|done].
    apply (segs_true base G A f (set_state TCPS_CLOSED c)); try done. intros Hft. by apply ab_f0.
  - cbn. eexists. split; [reflexivity|]. split; [done|]. by apply close_good.
Qed.

(** ** Changes of state *)

Lemma stream_set_state base G s c : stream_ok base G c → 4 <= tcps s →
  (flag TF_SENTFIN c = true → s ≠ TCPS_ESTABLISHED ∧ s ≠ TCPS_CLOSE_WAIT ∧
     TH_FIN (tcp_outflags s) = TH_FIN (tcp_outflags (state c))) →
  (s ≠ TCPS_ESTABLISHED → s ≠ TCPS_CLOSE_WAIT → sflag SS_CANTSENDMORE c = true) →
  stream_ok base G (set_state s c).
Proof.
  intros [] Hs Hf Hm. destruct sk_abs0 as (A & f & n & m & []). pose proof ab_inv0 as [].
  split; try done.
  - exists A, f, n, m. split; try done.
    + split; try done; [by apply sync_flags|]. intros H1 H2. destruct (Hf H1) as (_ & _ & He).
      change (state (set_state s c)) with s in H2. rewrite H2 in He. auto.
    + change (state (set_state s c)) with s. intros HF. destruct (flag TF_SENTFIN c) eqn:Hsf.
      * destruct (Hf eq_refl) as (_ & _ & He). rewrite He in HF. auto.
      * change (snd_cc (set_state s c)) with (snd_cc c). destruct ab_inv0. rewrite Hsf in *. cbn in *. lia.
    + intros Hft. destruct (ab_f0 Hft) as (? & Hsf & HF). split_and!; try done.
      change (state (set_state s c)) with s. destruct (Hf Hsf) as (_ & _ & He). congruence.
  - change (flag TF_SENTFIN c = true → s ≠ TCPS_ESTABLISHED ∧ s ≠ TCPS_CLOSE_WAIT). intros H1. by destruct (Hf H1) as (? & ? & _).
Qed.

(** ** Where to send next *)

Lemma stream_set_nxt base G v c : stream_ok base G c → within v c → stream_ok base G (set snd_nxt v c).
Proof.
  intros [] (k & m0 & Hk & Hm0 & Hv & Hmx). destruct sk_abs0 as (A & f & n & m & Ha).
  pose proof (abs_bound _ _ _ _ _ _ _ Ha). destruct Ha as [[]].
  rewrite si_max in Hmx. apply offset_unique in Hmx as <-; [|lia|lia].
  split; try done; [by apply wf_set|]. exists A, f, k, m. split; try done. split; try done.
  - conn_simpl. by rewrite store_u32.
Qed.

(** The socket's buffer and what is not about sequence numbers may change in
    between. *)
Lemma within_irrel x c c1 : irrel c c1 → within x c → within x c1.
Proof.
  intros [] (k & m & ? & ? & ? & ?). exists k, m. by rewrite !ir_get0.
Qed.

(** ** Timers *)

Lemma irrel_respond b ack seq flags c : irrel c (tcp_respond b ack seq flags c).
Proof.
  unfold tcp_respond. cbv zeta.
  destruct b; [|destruct (mHdrClGet _ _) as [[] e]]; cbv beta iota; irrel.
Qed.

Lemma irrel_setpersist c : irrel c (tcp_setpersist c).
Proof. unfold tcp_setpersist, panic. cbv zeta. irrel. Qed.

Lemma irrel_close_cwnd c : irrel c (close_cwnd c).
Proof. unfold close_cwnd. cbv zeta. irrel. Qed.

Lemma irrel_backoff c : ∃ c1, irrel c c1 ∧ irrel (set snd_nxt (get snd_una c) c1) (rexmt_backoff c).
Proof.
  unfold rexmt_backoff. cbv zeta. destruct (_ <? get t_rxtshift _).
  all: match goal with |- context [set snd_nxt ?v ?c1] => exists c1 end; split; [irrel|].
  all: eapply irrel_trans; [|apply irrel_close_cwnd]; irrel.
Qed.

Definition nf : Prop := never_fails (E := E).

(** An output whose result is ignored. *)
Lemma good_output base G c : stream_ok base G c → nf →
  ∃ c', output fuel c = Some c' ∧ stream_ok base G c' ∧ ∀ x, within x c → within x c'.
Proof.
  intros Hs Hnf. destruct (stream_output base G c Hs Hnf) as (r & c' & Hout & Hc' & _ & _ & Hw).
  exists c'. unfold output. rewrite Hout. done.
Qed.

(** What a step on a connection in order must do. *)
Definition safe base G (r : option (conn E B)) : Prop := ∃ c', r = Some c' ∧ good base G c'.

Lemma safe_output base G c : stream_ok base G c → nf → safe base G (output fuel c).
Proof. intros Hs Hnf. destruct (good_output base G c Hs Hnf) as (c' & -> & ? & _). exists c'. split; [done|by right]. Qed.

Lemma safe_drop base G error c : stream_ok base G c → nf → safe base G (tcp_drop fuel garbage error c).
Proof. intros Hs Hnf. destruct (drop_good base G error c Hs Hnf) as (c' & -> & ? & ?). by exists c'. Qed.

Lemma safe_some base G c : stream_ok base G c → safe base G (Some c).
Proof. exists c. split; [done|by right]. Qed.

Lemma safe_close base G c : truthful base G c → safe base G (Some (tcp_close garbage c)).
Proof. eexists. split; [done|by apply close_good]. Qed.

Lemma timers_safe base G timer c : stream_ok base G c → nf → safe base G (tcp_timers fuel garbage timer c).
Proof.
  intros Hs Hnf. destruct timer; cbn [tcp_timers]; try by apply safe_some.
  - unfold timer_rexmt. cbv zeta.
    assert (stream_ok base G (set t_rxtshift (get t_rxtshift c + 1) c)) as Hs1.
  { eapply stream_irrel; [|exact Hs]. irrel. }
    set (c1 := set t_rxtshift _ c) in *. clearbody c1. destruct (_ <? _).
    + apply safe_drop; [|done]. eapply stream_irrel; [|exact Hs1]. irrel.
    + apply safe_output; [|done]. destruct (irrel_backoff c1) as (c2 & Hi & Hi').
      eapply stream_irrel; [exact Hi'|]. apply stream_set_nxt; [by apply (stream_irrel _ _ c1)|].
      eapply within_irrel; [exact Hi|]. by apply (within_nxt base G).
  - unfold timer_persist. cbv zeta. destruct (_ && _); [by apply safe_drop|].
    destruct (good_output base G (set t_force 1 (tcp_setpersist c))) as (c' & -> & Hc' & _); [|done|].
    { eapply stream_irrel; [|exact Hs]. apply irrel_set; [done|]. apply irrel_setpersist. }
    apply safe_some. eapply stream_irrel; [|exact Hc']. irrel.
  - unfold timer_keep. cbv zeta. destruct (_ <? _); [by apply safe_drop|].
    destruct (_ && _); [destruct (_ <=? _); [by apply safe_drop|]|].
    all: apply safe_some; eapply stream_irrel; [|exact Hs]; apply irrel_set; [done|].
    + apply irrel_respond.
    + apply irrel_refl.
  - unfold timer_2msl. destruct (_ && _).
    + apply safe_some. eapply stream_irrel; [|exact Hs]. irrel.
    + apply safe_close. by apply stream_truthful.
Qed.

(** From one connection to the next. *)
Lemma safe_bind base G r (f : conn E B → option (conn E B)) : safe base G r →
  (∀ c, good base G c → safe base G (f c)) → safe base G (r ≫= f).
Proof. intros (c & -> & Hg) Hf. by apply Hf. Qed.

Lemma slow_safe base G timer c : rel timer = false → good base G c → nf →
  safe base G (slow_timer fuel garbage timer c).
Proof.
  intros Hr Hg Hnf. unfold slow_timer. destruct Hg as [[Hf Ht]|Hs].
  { rewrite Hf. exists c. split; [done|by left]. }
  assert (freed c = false) as -> by apply Hs. destruct (_ =? _); [by apply safe_some|]. cbv zeta.
  assert (stream_ok base G (set timer (get timer c - 1) c)) as Hs1.
  { eapply stream_irrel; [|exact Hs]. by apply irrel_set; [|apply irrel_refl]. }
  destruct (_ =? _); [by apply timers_safe|by apply safe_some].
Qed.

Lemma slowtimo_safe base G c : good base G c → nf → safe base G (tcp_slowtimo fuel garbage c).
Proof.
  intros Hg Hnf. unfold tcp_slowtimo. destruct (bool_decide _).
  { eexists. split; [reflexivity|]. destruct Hg as [?|Hs]; [by left|right]. eapply stream_irrel; [|exact Hs]. irrel. }
  do 4 (apply safe_bind; [by apply slow_safe|clear dependent c; intros c Hg]).
  eexists. split; [reflexivity|]. destruct Hg as [[Hf Ht]|Hs].
  - rewrite Hf. by left.
  - right. assert (freed c = false) as -> by apply Hs. eapply stream_irrel; [|exact Hs]. cbv zeta. irrel.
Qed.

Lemma fasttimo_safe base G c : good base G c → nf → safe base G (tcp_fasttimo fuel c).
Proof.
  intros Hg Hnf. unfold tcp_fasttimo. destruct Hg as [[Hf Ht]|Hs].
  { rewrite Hf. exists c. split; [done|by left]. }
  destruct (_ && _); [|by apply safe_some]. apply safe_output; [|done]. eapply stream_irrel; [|exact Hs]. irrel.
Qed.

(** ** Options *)

(** Routes give room for data. *)
Definition routes_ok : Prop :=
  ∀ (e : E) rt, ro_rt e = Some rt →
    (rmx_sendpipe rt = 0 ∨ 32 <= rmx_sendpipe rt) ∧ rmx_mtu rt < 16384 ∧ if_mtu rt < 16384.

Lemma stream_set_maxseg base G v c : 32 <= v < 16384 → stream_ok base G c → stream_ok base G (set t_maxseg v c).
Proof.
  intros Hv []. split; try done; [by apply wf_set| |].
  - destruct sk_abs0 as (A & f & n & m & [[]]). exists A, f, n, m. by split.
  - conn_simpl. rewrite store_pos; done || lia.
Qed.

Lemma irrel_mss_rtt rt c : irrel c (mss_rtt rt c).
Proof. unfold mss_rtt. cbv zeta. irrel. Qed.

Lemma route_mss_bound rt c : rmx_mtu rt < 16384 → if_mtu rt < 16384 → route_mss rt c < 16384.
Proof.
  intros Hr Hi. unfold route_mss. destruct sizeof_eq as [_ ->].
  destruct (negb _); [lia|]. destruct (in_localaddr _); lia.
Qed.

Lemma stream_mss base G offer c : routes_ok → stream_ok base G c → stream_ok base G (tcp_mss offer c).2.
Proof.
  intros Hro Hs. unfold tcp_mss. cbv zeta.
  set (c1 := match ro_rt (env c) with None => _ | Some _ => c end).
  assert (stream_ok base G c1) as Hs1.
  { unfold c1. destruct (ro_rt _); [done|]. destruct (faddr_any _); [done|]. eapply stream_irrel; [|exact Hs]. irrel. }
  clearbody c1. destruct (ro_rt (env c1)) as [rt|] eqn:Hrt; [|done].
  destruct (Hro _ _ Hrt) as (Hsp & Hmt & Him). cbv zeta.
  pose proof (stream_irrel base G _ _ (irrel_mss_rtt rt c1) Hs1) as Hs2. set (c2 := mss_rtt rt c1) in *. clearbody c2.
  pose proof (route_mss_bound rt c2 Hmt Him) as Hb.
  set (mss := Z.max _ 32). assert (32 <= mss < 16384) as Hm by (unfold mss; destruct (negb _); lia). clearbody mss.
  match goal with |- context [if ?b then (?x, set t_maxseg ?x c2) else ?r] =>
    assert (∃ mss' c3, (if b then (x, set t_maxseg x c2) else r) = (mss', c3) ∧ stream_ok base G c3) as (mss' & c3 & -> & Hs3) end.
  { destruct (_ || _); [|by exists mss, c2]. eexists _, _. split; [reflexivity|]. apply stream_set_maxseg; [|done].
    pose proof (sk_hiwat _ _ _ Hs2). destruct (Z.eqb_spec (rmx_sendpipe rt) 0); destruct (_ <? mss) eqn:Hlt; lia. }
  cbn [snd]. eapply stream_irrel; [|exact Hs3]. irrel.
Qed.

Lemma stream_option base G s cp opt optlen ts c : routes_ok → stream_ok base G c →
  stream_ok base G (do_option s cp opt optlen ts c).2.
Proof.
  intros Hro Hs. unfold do_option.
  repeat match goal with |- context [if ?b then _ else _] => destruct b end; cbn [snd]; try done.
  - by apply stream_mss.
  - eapply stream_irrel; [|exact Hs]. irrel.
  - eapply stream_irrel; [|exact Hs]. irrel.
Qed.

Lemma stream_dooptions base G s ts c : routes_ok → stream_ok base G c →
  stream_ok base G (tcp_dooptions s ts c).2.
Proof.
  intros Hro. unfold tcp_dooptions. set (n := Z.to_nat _). clearbody n. generalize 0 as cp, (s_optlen s) as cnt.
  revert ts c. induction n as [|n IH]; intros ts c cp cnt Hs; cbn [dooptions_loop]; [done|].
  destruct (negb _); [done|]. cbv zeta. destruct (_ =? TCPOPT_EOL); [done|].
  generalize (if s_optmem s cp =? TCPOPT_NOP then 1 else s_optmem s (cp + 1)) as len. intros len.
  destruct (_ <=? 0); [done|].
  pose proof (stream_option base G s cp (s_optmem s cp) len ts c Hro Hs) as Ho.
  destruct (do_option _ _ _ _ _ _) as [ts1 c1]. by apply IH.
Qed.

(** ** Acknowledgments *)

Lemma irrel_ack_rtt s w c : irrel c (ack_rtt s w c).
Proof.
  unfold ack_rtt. destruct (w_ts w) as [[val ecr]|]; [apply irrel_xmit_timer|].
  destruct (_ && _); [apply irrel_xmit_timer|apply irrel_refl].
Qed.

Lemma irrel_wake_writer c : irrel c (wake_writer c).
Proof. unfold wake_writer, sowwakeup. irrel. Qed.

Lemma irrel_record_ts seq w c : irrel c (record_ts seq w c).
Proof. unfold record_ts. destruct (w_ts w) as [[val ecr]|]; irrel. Qed.

Lemma irrel_open_cwnd c : irrel c (open_cwnd c).
Proof. unfold open_cwnd. cbv zeta. irrel. Qed.

(** An acknowledgment of something new, and nothing that was not sent. *)
Definition acceptable (ack : Z) c : Prop :=
  0 <= ack < 4294967296 ∧ 0 < s32 (ack - get snd_una c) ∧ s32 (ack - get snd_max c) <= 0.

Lemma acceptable_offset base G A f n m ack c : abs base G A f n m c → wf c → acceptable ack c →
  let k := s32 (ack - get snd_una c) in 0 < k <= m ∧ u32 k = k ∧ ack = u32 (get snd_una c + k).
Proof.
  intros Ha Hw (Hr & Hk & Hm) k. pose proof (abs_bound _ _ _ _ _ _ _ Ha) as Hb. destruct Ha as [[]].
  assert (ack = u32 (get snd_una c + k)) as He.
  { unfold k. unfold s32. rewrite Z.mod_eq by done.
    symmetry. apply (u32_is ack (- ((ack - get snd_una c + 2147483648) / 4294967296))); lia. }
  pose proof (Z.mod_pos_bound (ack - get snd_una c + 2147483648) 4294967296 ltac:(done)) as Hkr.
  assert (k < 2147483648) by (unfold k, s32; lia). fold k in Hk.
  split_and!; try done; [|by apply u32_id; lia].
  rewrite si_max, He, s32_seq in Hm by lia. lia.
Qed.

(** The connection after the acknowledged data left the buffer; the state may
    change. *)
Record advanced (ack : Z) c c1 : Prop := {
  ad_freed : freed c1 = freed c;
  ad_snd : so_snd (so c1) = so_drop (Z.min (s32 (ack - get snd_una c)) (snd_cc c)) (so_snd (so c));
  ad_una : get snd_una c1 = ack;
  ad_nxt : get snd_nxt c1 = if SEQ_LT (get snd_nxt c) ack then ack else get snd_nxt c;
  ad_max : get snd_max c1 = get snd_max c;
  ad_maxseg : get t_maxseg c1 = get t_maxseg c;
  ad_fin : flag TF_SENTFIN c1 = flag TF_SENTFIN c;
  ad_template : flag T_TEMPLATE c1 = flag T_TEMPLATE c;
  ad_more : sflag SS_CANTSENDMORE c1 = sflag SS_CANTSENDMORE c;
  ad_wf : wf c → wf c1;
  ad_log : ∃ es, tlog c1 = es ++ tlog c ∧ Forall noseg es
}.

(** Our FIN was acknowledged. *)
Definition fin_acked (ack : Z) c : bool := snd_cc c <? s32 (ack - get snd_una c).

Lemma cc_nonneg c : 0 <= snd_cc c.
Proof. apply zlen_nonneg. Qed.

Lemma buf_left base G A f n m c : abs base G A f n m c → snd_cc c = zlen G - A.
Proof. intros []. unfold snd_cc. rewrite ab_buf0, zlen_zdrop. lia. Qed.

Lemma fin_acked_spec base G A f n m ack c : abs base G A f n m c → wf c → acceptable ack c →
  f = false ∧ (fin_acked ack c = true → flag TF_SENTFIN c = true ∧ TH_FIN (tcp_outflags (state c)) = true ∧
    m = snd_cc c + 1 ∧ s32 (ack - get snd_una c) = m).
Proof.
  intros Ha Hw Hacc. destruct (acceptable_offset _ _ _ _ _ _ _ _ Ha Hw Hacc) as (Hk & _).
  pose proof (buf_left _ _ _ _ _ _ _ Ha) as Hcc. destruct Ha as [[]].
  assert (f = false) as ->.
  { destruct f; [|done]. destruct (ab_f0 eq_refl) as (-> & _ & HF). specialize (ab_fit0 HF). lia. }
  split; [done|]. unfold fin_acked. intros Hlt%Z.ltb_lt.
  destruct (flag TF_SENTFIN c) eqn:Hsf; cbn in *; [|lia]. split_and!; try done; try lia.
  destruct (TH_FIN _); [done|]. specialize (ab_fit0 eq_refl). lia.
Qed.

Lemma advanced_data base G A n m ack c c1 : abs base G A false n m c → wf c → acceptable ack c →
  advanced ack c c1 → fin_acked ack c = false → state c1 = state c →
  let k := s32 (ack - get snd_una c) in
  abs base G (A + k) false (Z.max 0 (n - k)) (m - k) c1 ∧ snd_cc c1 = snd_cc c - k.
Proof.
  intros Ha Hw Hacc [] Hf Hst k. destruct (acceptable_offset _ _ _ _ _ _ _ _ Ha Hw Hacc) as (Hk & _ & Hack).
  fold k in Hk, Hack, ad_snd0. unfold fin_acked in Hf. fold k in Hf. apply Z.ltb_ge in Hf.
  pose proof (buf_left _ _ _ _ _ _ _ Ha) as Hcc. pose proof (abs_bound _ _ _ _ _ _ _ Ha). destruct Ha as [[]].
  rewrite Z.min_l in ad_snd0 by lia.
  assert (sb_bytes (so_snd (so c1)) = zdrop (A + k) G) as Hb.
  { rewrite ad_snd0, so_drop_bytes, ab_buf0, zdrop_zdrop by (unfold snd_cc in *; lia). f_equal. lia. }
  assert (snd_cc c1 = snd_cc c - k) as Hcc1 by (unfold snd_cc at 1; rewrite Hb, zlen_zdrop; lia).
  split; [|done]. rewrite SEQ_LT_eq, si_nxt in ad_nxt0. rewrite Hack in ad_nxt0 at 1. rewrite s32_seq in ad_nxt0 by lia.
  split; rewrite ?Hst, ?Hcc1; try done; try lia.
  - split; rewrite ?Hst, ?Hcc1, ?ad_fin0; try done; try lia.
    + rewrite ad_nxt0, ad_una0. destruct (Z.ltb_spec (n - k) 0).
      * rewrite Z.max_l, Z.add_0_r by lia. by rewrite Hack, u32_u32.
      * rewrite Z.max_r by lia. rewrite Hack, u32_add. f_equal. lia.
    + rewrite ad_max0, ad_una0, si_max, Hack, u32_add. f_equal. lia.
    + by rewrite ad_una0, Hack, u32_u32.
    + intros ? HF. specialize (si_fin ltac:(done) HF). lia.
  - intros HF. specialize (ab_fit0 HF). lia.
  - cbn. rewrite ad_una0, Hack, ab_una0, u32_add. f_equal. cbn. lia.
Qed.

Lemma advanced_fin base G A n m ack c c1 : abs base G A false n m c → wf c → acceptable ack c →
  advanced ack c c1 → fin_acked ack c = true → state c1 = TCPS_FIN_WAIT_2 ∨ state c1 = TCPS_TIME_WAIT →
  abs base G (zlen G) true 0 0 c1 ∧ snd_cc c1 = 0.
Proof.
  intros Ha Hw Hacc [] Hf Hst. destruct (acceptable_offset _ _ _ _ _ _ _ _ Ha Hw Hacc) as (Hk & _ & Hack).
  destruct (fin_acked_spec _ _ _ _ _ _ _ _ Ha Hw Hacc) as (_ & Hfa). destruct (Hfa Hf) as (Hsf & HF & Hm & Hkm).
  set (k := s32 _) in *. rewrite Hkm in Hack, ad_snd0. clear Hk. clearbody k.
  pose proof (buf_left _ _ _ _ _ _ _ Ha) as Hcc. pose proof (abs_bound _ _ _ _ _ _ _ Ha).
  pose proof (cc_nonneg c) as Hc0. destruct Ha as [[]].
  rewrite Z.min_r in ad_snd0 by lia.
  assert (sb_bytes (so_snd (so c1)) = zdrop (zlen G) G) as Hb.
  { rewrite ad_snd0, so_drop_bytes, ab_buf0, zdrop_zdrop by (unfold snd_cc in *; lia). f_equal. lia. }
  assert (snd_cc c1 = 0) as Hcc1 by (unfold snd_cc at 1; rewrite Hb, zlen_zdrop; lia).
  assert (TH_FIN (tcp_outflags (state c1)) = false ∧ synced (state c1)) as [HF1 Hsy].
  { unfold synced. by destruct Hst as [-> | ->]; rewrite outflags_eq. }
  split; [|done]. rewrite SEQ_LT_eq, si_nxt in ad_nxt0. rewrite Hack in ad_nxt0 at 1. rewrite s32_seq in ad_nxt0 by lia.
  split; rewrite ?Hcc1; try done; try (pose proof (zlen_nonneg G); lia).
  - split; rewrite ?Hcc1, ?ad_fin0, ?Hsf, ?HF1; try done; try lia.
    + rewrite ad_nxt0, ad_una0, Z.add_0_r. destruct (Z.ltb_spec (n - m) 0).
      * by rewrite Hack, u32_u32.
      * rewrite Hack, u32_u32. f_equal. lia.
    + by rewrite ad_max0, ad_una0, si_max, Hack, Z.add_0_r, u32_u32.
    + by rewrite ad_una0, Hack, u32_u32.
  - rewrite ad_una0, Hack, ab_una0, u32_add. f_equal. cbn. lia.
  - intros _. by rewrite ad_fin0.
Qed.

Lemma stream_advanced base G ack c c1 : stream_ok base G c → acceptable ack c → advanced ack c c1 →
  (if fin_acked ack c then state c1 = TCPS_FIN_WAIT_2 ∨ state c1 = TCPS_TIME_WAIT else state c1 = state c) →
  stream_ok base G c1.
Proof.
  intros Hs Hacc Had Hst. pose proof Hs as []. destruct sk_abs0 as (A & f & n & m & Ha).
  destruct (fin_acked_spec _ _ _ _ _ _ _ _ Ha sk_wf0 Hacc) as (-> & Hfa).
  assert ((∃ A f n m, abs base G A f n m c1) ∧ snd_cc c1 <= snd_cc c) as [Habs Hcc].
  { destruct (fin_acked ack c) eqn:Hf.
    - destruct (advanced_fin _ _ _ _ _ _ _ _ Ha sk_wf0 Hacc Had Hf Hst) as [? ->]. split; [eauto|apply cc_nonneg].
    - destruct (advanced_data _ _ _ _ _ _ _ _ Ha sk_wf0 Hacc Had Hf Hst) as [? ->]. destruct Hacc. split; [eauto|lia]. }
  destruct Had. destruct ad_log0 as (es & He & Hn).
  assert (4 <= tcps (state c1) ∧ (flag TF_SENTFIN c1 = true → state c1 ≠ TCPS_ESTABLISHED ∧ state c1 ≠ TCPS_CLOSE_WAIT) ∧
    (state c1 ≠ TCPS_ESTABLISHED → state c1 ≠ TCPS_CLOSE_WAIT → sflag SS_CANTSENDMORE c1 = true)) as (H1 & H2 & H3).
  { rewrite ad_fin0, ad_more0. destruct (fin_acked ack c).
    - destruct (Hfa eq_refl) as (Hsf & _). destruct (sk_early0 Hsf).
      pose proof tcps_eq as Ht. injection Ht. intros. split_and!; [destruct Hst as [-> | ->]; lia| |auto].
      destruct Hst as [-> | ->]; done.
    - by rewrite Hst. }
  split; rewrite ?ad_freed0, ?ad_fin0, ?ad_template0, ?ad_maxseg0, ?ad_snd0, ?so_drop_hiwat; try done; try (by auto).
  - by rewrite ad_fin0 in H2.
  - lia.
  - rewrite He. apply Forall_app. split; [|done]. exact (List.Forall_impl _ (noseg_true base G) Hn).
Qed.

(** ** What an acknowledgment does *)

Lemma acceptable_irrel ack c c1 : irrel c c1 → acceptable ack c → acceptable ack c1.
Proof. intros [] (? & ? & ?). unfold acceptable. by rewrite !ir_get0. Qed.

(** The end of the acknowledgment's work on the sequence numbers. *)
Definition move_una (ack : Z) c : conn E B :=
  let c := set snd_una ack (wake_writer c) in
  if SEQ_LT (get snd_nxt c) (get snd_una c) then set snd_nxt (get snd_una c) c else c.

Lemma wake_fields c : let c1 := wake_writer c in
  freed c1 = freed c ∧ so c1 = so c ∧ tp c1 = tp c ∧ ∃ es, tlog c1 = es ++ tlog c ∧ Forall noseg es.
Proof.
  unfold wake_writer, sowwakeup. destruct (so_waiting _); split_and!; try done; [|by exists []].
  exists [Called Sowwakeup]. by repeat constructor.
Qed.

(** A buffer that lost its head, and a window that shrank or not. *)
Lemma move_advanced ack c c1 : 0 <= ack < 4294967296 → freed c1 = freed c → sfl (so c1) = sfl (so c) →
  tlog c1 = tlog c → tfl (tp c1) = tfl (tp c) → (∀ f, rel f = true → get f c1 = get f c) → (wf c → wf c1) →
  so_snd (so c1) = so_drop (Z.min (s32 (ack - get snd_una c)) (snd_cc c)) (so_snd (so c)) →
  advanced ack c (move_una ack c1).
Proof.
  intros Hr Hfr Hsf Hlog Hfl Hg Hwf Hsnd. unfold move_una. cbv zeta.
  destruct (wake_fields c1) as (W1 & W2 & W3 & es & W4 & W5). set (c2 := wake_writer c1) in *. clearbody c2.
  assert (∀ f, get f c2 = get f c1) as W6 by (intros f; unfold get; by rewrite W3).
  assert (∀ f, flag f c2 = flag f c) as W7 by (intros f; unfold flag; by rewrite W3, Hfl).
  assert (∀ f, sflag f c2 = sflag f c) as W8 by (intros f; unfold sflag; by rewrite W2, Hsf).
  assert (get snd_una (set snd_una ack c2) = ack) as Hu.
  { conn_simpl. rewrite store_u32 by done. by rewrite u32_id. }
  assert (wf c → wf (set snd_una ack c2)) as Hw2.
  { intros Hw. apply wf_set. intros f Hf. rewrite W6. by apply Hwf. }
  assert (get snd_nxt (set snd_una ack c2) = get snd_nxt c) as Hn by (conn_simpl; by rewrite W6, Hg).
  rewrite Hu, Hn.
  destruct (SEQ_LT (get snd_nxt c) ack) eqn:Hlt; split; conn_simpl; try (rewrite ?Hlt; done).
  all: rewrite ?W1, ?W2, ?W4, ?W6, ?W7, ?W8, ?Hlog; try done; try by apply Hg.
  all: rewrite ?store_u32, ?u32_id by done; rewrite ?Hlt; try done.
  all: try (by exists es).
  intros Hw. by apply wf_set, Hw2.
Qed.

Lemma drop_advanced base G ack c : stream_ok base G c → acceptable ack c →
  let k := s32 (ack - get snd_una c) in
  (drop_acked k c).1 = fin_acked ack c ∧ advanced ack c (move_una ack (drop_acked k c).2) ∧
  state (move_una ack (drop_acked k c).2) = state c.
Proof.
  intros Hs Hacc k. pose proof Hs as []. destruct sk_abs0 as (A & f & n & m & Ha).
  destruct (acceptable_offset _ _ _ _ _ _ _ _ Ha sk_wf0 Hacc) as (Hk & Hku & _). fold k in Hk, Hku.
  pose proof Hacc as (Hr & _ & _). unfold drop_acked, fin_acked. fold k. rewrite Hku. cbv zeta.
  destruct (Z.ltb_spec (snd_cc c) k); cbn [fst snd]; split; try done; split.
  2,4: unfold move_una, wake_writer; cbv zeta; repeat case_match; done.
  all: apply move_advanced; try done; try (intros; by apply wf_set).
  all: try (by intros []).
  - conn_simpl. fold k. by rewrite Z.min_r by lia.
  - conn_simpl. fold k. by rewrite Z.min_l by lia.
Qed.

(** Where a step of the input leads. *)
Definition disp_ok base G (d : disp E B) : Prop :=
  match d with
  | Go _ c | DropAfterAck _ c => stream_ok base G c
  | Drop c | DropWithReset _ c | FindPcb _ c | Done c => good base G c
  end.

Definition disp_safe base G (d : option (disp E B)) : Prop := ∃ d', d = Some d' ∧ disp_ok base G d'.

Lemma disp_bind base G d f : disp_safe base G d →
  (∀ w c, stream_ok base G c → disp_safe base G (f w c)) → disp_safe base G (bind_disp d f).
Proof. intros (d' & -> & Hd) Hf. destruct d'; cbn [bind_disp]; try (by eexists). by apply Hf. Qed.

Lemma disp_some base G d : disp_ok base G d → disp_safe base G (Some d).
Proof. by exists d. Qed.

Lemma disp_go base G w c : stream_ok base G c → disp_safe base G (Some (Go w c)).
Proof. by eexists. Qed.

(** Output in between, then the segment is dropped. *)
Lemma disp_output base G c : stream_ok base G c → nf →
  disp_safe base G (c ← output fuel c; Some (Drop c)).
Proof.
  intros Hs Hnf. destruct (good_output base G c Hs Hnf) as (c' & -> & Hc' & _). apply disp_some. by right.
Qed.

Lemma truthful_irrel base G c c1 : irrel c c1 → truthful base G c → truthful base G c1.
Proof. apply log_irrel. Qed.

(** The FIN is acknowledged: the connection is in order in its next state. *)
Lemma ack_state_ok base G ack w c c1 : stream_ok base G c → acceptable ack c → advanced ack c c1 →
  state c1 = state c → disp_ok base G (ack_state garbage (fin_acked ack c) w c1).
Proof.
  intros Hs Hacc Had Hst. pose proof (stream_advanced base G ack c) as Hgo.
  assert (truthful base G c1) as Ht.
  { destruct (ad_log _ _ _ Had) as (es & He & Hn). unfold truthful. rewrite He. apply Forall_app.
    split; [exact (List.Forall_impl _ (noseg_true base G) Hn)|apply Hs]. }
  assert (fin_acked ack c = true → TH_FIN (tcp_outflags (state c)) = true) as Hfin.
  { destruct Hs. destruct sk_abs0 as (A & f & n & m & Ha).
    destruct (fin_acked_spec _ _ _ _ _ _ _ _ Ha sk_wf0 Hacc) as [_ Hf]. intros H1. by apply Hf. }
  rewrite outflags_eq in Hfin. unfold ack_state.
  destruct (fin_acked ack c) eqn:Hf.
  - specialize (Hfin eq_refl).
    assert (∀ s, s = TCPS_FIN_WAIT_2 ∨ s = TCPS_TIME_WAIT → stream_ok base G (set_state s c1)) as Hnew.
    { intros s Hs2. apply Hgo; [done|done| |exact Hs2]. by destruct Had. }
    rewrite Hst. destruct (state c); try done; cbn [disp_ok].
    + specialize (Hnew TCPS_FIN_WAIT_2 ltac:(by left)). destruct (sflag SS_CANTRCVMORE c1); [|done].
      eapply stream_irrel; [|exact Hnew].
      change (irrel (set_state TCPS_FIN_WAIT_2 c1) (set TCPT_2MSL tcp_maxidle (soisdisconnected (set_state TCPS_FIN_WAIT_2 c1)))).
      apply irrel_set; [done|apply irrel_isdisconnected].
    + specialize (Hnew TCPS_TIME_WAIT ltac:(by right)).
      eapply stream_irrel; [|exact Hnew]. eapply irrel_trans; [|apply irrel_isdisconnected].
      apply irrel_set; [done|apply irrel_canceltimers].
    + by apply close_good.
  - assert (stream_ok base G c1) as Hs1 by (by apply Hgo).
    destruct (state c1); cbn [disp_ok]; try done. eapply stream_irrel; [|exact Hs1]. irrel.
Qed.

Lemma new_ack_ok base G s w c : stream_ok base G c → 0 <= s_ack s < 4294967296 →
  SEQ_LEQ (s_ack s) (get snd_una c) = false → disp_ok base G (new_ack garbage s w c).
Proof.
  intros Hs Hr Hnew. unfold new_ack. cbv zeta.
  match goal with |- context [set t_dupacks 0 ?x] => assert (irrel c (set t_dupacks 0 x)) as Hi by irrel end.
  match type of Hi with irrel _ ?x => set (c1 := x) in * end. clearbody c1.
  pose proof (stream_irrel base G _ _ Hi Hs) as Hs1.
  destruct (SEQ_GT (s_ack s) (get snd_max c1)) eqn:Hmax; [done|].
  assert (acceptable (s_ack s) c1) as Hacc.
  { rewrite SEQ_LEQ_eq in Hnew. rewrite SEQ_GT_eq in Hmax. split; [done|]. rewrite !(ir_get _ _ Hi) in * by done. lia. }
  match goal with |- context [drop_acked ?k (open_cwnd _)] => set (acked := k) end.
  set (c2 := ack_rtt s w c1).
  match goal with |- context [if ?b then (w_needed w, ?x) else (w, ?y)] =>
    assert (∃ w1 c3, (if b then (w_needed w, x) else (w, y)) = (w1, c3) ∧ irrel c1 c3) as (w1 & c3 & -> & Hi3) end.
  { pose proof (irrel_ack_rtt s w c1) as Hi2. fold c2 in Hi2. clearbody c2.
    destruct (_ =? get snd_max c2); eexists _, _; (split; [reflexivity|]); (eapply irrel_trans; [exact Hi2|irrel]). }
  pose proof (irrel_trans _ _ _ Hi3 (irrel_open_cwnd c3)) as Hi4. set (c4 := open_cwnd c3) in *. clearbody c2 c4.
  pose proof (stream_irrel base G _ _ Hi4 Hs1) as Hs4. pose proof (acceptable_irrel _ _ _ Hi4 Hacc) as Hacc4.
  destruct (drop_advanced base G (s_ack s) c4 Hs4 Hacc4) as (Hfa & Had & Hst).
  rewrite (ir_get _ _ Hi4) in Hfa, Had, Hst by done. fold acked in Hfa, Had, Hst.
  destruct (drop_acked acked c4) as [fin c5]. cbn [fst snd] in *. subst fin.
  change (disp_ok base G (ack_state garbage (fin_acked (s_ack s) c4) w1 (move_una (s_ack s) c5))).
  by apply ack_state_ok.
Qed.

(** *** Duplicates *)

Lemma fast_retransmit_ok base G s c : stream_ok base G c → nf → s_ack s = get snd_una c →
  disp_safe base G (c ← fast_retransmit fuel s c; Some (Drop c)).
Proof.
  intros Hs Hnf Hack. unfold fast_retransmit. cbv zeta.
  match goal with |- context [set snd_nxt (s_ack s) ?x] => assert (irrel c x) as Hi by irrel; set (c1 := x) in * end.
  match goal with |- context [set snd_cwnd ?v (set snd_nxt _ c1)] => set (v1 := v) end.
  pose proof (within_nxt base G c Hs) as [Hwn Hwu].
  assert (stream_ok base G (set snd_nxt (s_ack s) c1)) as Hs1.
  { apply stream_set_nxt; [by eapply stream_irrel|]. rewrite Hack. by eapply within_irrel. }
  assert (within (get snd_nxt c) (set snd_cwnd v1 (set snd_nxt (s_ack s) c1))) as Hw1.
  { by apply (within_irrel _ _ _ Hi) in Hwn. }
  clearbody c1 v1.
  destruct (good_output base G (set snd_cwnd v1 (set snd_nxt (s_ack s) c1))) as (c2 & -> & Hs2 & Hw2); [|done|].
  { eapply stream_irrel; [|exact Hs1]. irrel. }
  cbn [mbind option_bind]. specialize (Hw2 _ Hw1).
  match goal with |- context [set snd_cwnd ?v c2] => set (v2 := v) end.
  assert (irrel c2 (set snd_cwnd v2 c2)) as Hi2 by irrel.
  apply disp_some. right. pose proof (stream_irrel base G _ _ Hi2 Hs2) as Hs3.
  destruct (SEQ_GT _ _); [|done]. apply stream_set_nxt; [done|by eapply within_irrel].
Qed.

Lemma dup_ack_ok base G s tw w c : stream_ok base G c → nf → disp_safe base G (dup_ack fuel s tw w c).
Proof.
  intros Hs Hnf. unfold dup_ack.
  assert (∀ v, stream_ok base G (set t_dupacks v c)) as Hd by (intros v; eapply stream_irrel; [|exact Hs]; irrel).
  destruct (_ && _); [|by apply disp_go]. destruct (_ || _) eqn:Hb; [by apply disp_go|].
  apply orb_false_iff in Hb as [_ Hb]. apply negb_false_iff, Z.eqb_eq in Hb. cbv zeta.
  destruct (_ =? tcprexmtthresh); [by apply fast_retransmit_ok|].
  destruct (_ <? _); [|by apply disp_go]. apply disp_output; [|done]. eapply stream_irrel; [|exact Hs]. irrel.
Qed.

Lemma ack_rest_ok base G s tw w c : stream_ok base G c → nf → 0 <= s_ack s < 4294967296 →
  disp_safe base G (ack_rest fuel garbage s tw w c).
Proof.
  intros Hs Hnf Hr. unfold ack_rest. destruct (SEQ_LEQ _ _) eqn:Hl; [by apply dup_ack_ok|].
  apply disp_some. by apply new_ack_ok.
Qed.

Lemma in_ack_ok base G s tw w c : stream_ok base G c → nf → 0 <= s_ack s < 4294967296 →
  disp_safe base G (in_ack fuel garbage s tw w c).
Proof.
  intros Hs Hnf Hr. unfold in_ack. pose proof (sk_est _ _ _ Hs) as He.
  destruct (state c) eqn:Hst; try (by apply ack_rest_ok); try (by apply disp_go).
  pose proof tcps_eq as Ht. injection Ht. intros. lia.
Qed.

(** ** Input *)

Lemma pure_ack_safe base G s w c : stream_ok base G c → nf → acceptable (s_ack s) c →
  state c = TCPS_ESTABLISHED → get snd_nxt c = get snd_max c → safe base G (pure_ack fuel s w c).
Proof.
  intros Hs Hnf Hacc Hst Hnm. unfold pure_ack. cbv zeta.
  pose proof (irrel_ack_rtt s w c) as Hi. set (c1 := ack_rtt s w c) in *. clearbody c1.
  pose proof (stream_irrel base G _ _ Hi Hs) as Hs1. pose proof (acceptable_irrel _ _ _ Hi Hacc) as Hacc1.
  assert (fin_acked (s_ack s) c1 = false ∧ SEQ_LT (get snd_nxt c1) (s_ack s) = false) as [Hfa Hlt].
  { pose proof Hs1 as []. destruct sk_abs0 as (A & f & n & m & Ha).
    destruct (fin_acked_spec _ _ _ _ _ _ _ _ Ha sk_wf0 Hacc1) as [_ Hf].
    destruct (acceptable_offset _ _ _ _ _ _ _ _ Ha sk_wf0 Hacc1) as (Hk & _ & Hack). split.
    - destruct (fin_acked _ _); [|done]. destruct (Hf eq_refl) as (Hsf & _). destruct (sk_early0 Hsf) as [Hne _].
      by rewrite (ir_state _ _ Hi) in Hne.
    - pose proof (abs_bound _ _ _ _ _ _ _ Ha). destruct Ha as [[]]. rewrite (ir_get _ _ Hi), Hnm, <- (ir_get _ _ Hi), si_max, Hack by done.
      rewrite SEQ_LT_eq, s32_seq; lia. }
  set (k := s32 _). match goal with |- context [set snd_una (s_ack s) ?x] => set (c2 := set snd_una (s_ack s) x) end.
  assert (stream_ok base G c2) as Hs2.
  { apply (stream_advanced base G (s_ack s) c1); [done|done| |by rewrite Hfa].
    unfold fin_acked in Hfa. apply Z.ltb_ge in Hfa. destruct Hacc1 as (Hr & _).
    split; try done.
    - change (so_drop k (so_snd (so c1)) = so_drop (Z.min k (snd_cc c1)) (so_snd (so c1))). by rewrite Z.min_l by done.
    - unfold c2. conn_simpl. by rewrite store_u32, u32_id.
    - by rewrite Hlt.
    - intros Hw. by apply wf_set.
    - by exists []. }
  clearbody c2.
  match goal with |- context [wake_writer ?x] => assert (irrel c2 (wake_writer x)) as Hi3 end.
  { eapply irrel_trans; [|apply irrel_wake_writer]. irrel. }
  match type of Hi3 with irrel _ ?x => set (c3 := x) in *; clearbody c3 end.
  pose proof (stream_irrel base G _ _ Hi3 Hs2) as Hs3. destruct (negb _); [by apply safe_output|by apply safe_some].
Qed.

Lemma irrel_pure_data s w c : irrel c (pure_data s w c).
Proof. unfold pure_data, sorwakeup. cbv zeta. irrel. Qed.

Lemma predict_ok base G s w win c : stream_ok base G c → nf → 0 <= s_ack s < 4294967296 →
  disp_safe base G (predict fuel s w win c).
Proof.
  intros Hs Hnf Hr. unfold predict. destruct (predicted s w win c) eqn:Hp; [|by apply disp_go].
  pose proof (irrel_record_ts (s_seq s) w c) as Hi. set (c1 := record_ts _ _ _) in *.
  pose proof (stream_irrel base G _ _ Hi Hs) as Hs1. cbv zeta.
  unfold predicted in Hp. rewrite !andb_true_iff in Hp. destruct Hp as [[[[[[Hst _] _] _] _] _] Hnm].
  apply bool_decide_eq_true in Hst. apply Z.eqb_eq in Hnm.
  destruct (w_len w =? 0).
  - destruct (_ && _ && _) eqn:Hb; [|by apply disp_go]. rewrite !andb_true_iff in Hb. destruct Hb as [[Hg Hl] _].
    rewrite SEQ_GT_eq in Hg. rewrite SEQ_LEQ_eq in Hl.
    destruct (pure_ack_safe base G s w c1) as (c' & -> & Hg'); try done.
    + split; [done|]. lia.
    + by rewrite (ir_state _ _ Hi).
    + by rewrite !(ir_get _ _ Hi).
    + by apply disp_some.
  - destruct (_ && _ && _); [|by apply disp_go]. apply disp_some. right. by apply (stream_irrel _ _ _ _ (irrel_pure_data s w c1)).
Qed.

Lemma irrel_receive_window c : irrel c (receive_window c).
Proof. unfold receive_window. cbv zeta. irrel. Qed.

Lemma paws_ok base G w c : stream_ok base G c → disp_ok base G (paws w c).
Proof.
  intros Hs. unfold paws. destruct (w_ts w) as [[val ecr]|]; [|done].
  destruct (_ && _); [|done]. destruct (_ <? _); [|done]. cbn. eapply stream_irrel; [|exact Hs]. irrel.
Qed.

Lemma irrel_trim_head w c : irrel c (trim_head w c).2.
Proof.
  unfold trim_head. destruct (_ <? _); [|apply irrel_refl]. destruct (trim_syn _ _) as [todrop w1]. cbv zeta.
  cbn [snd]. irrel.
Qed.

Lemma after_close_ok base G w c : stream_ok base G c → disp_ok base G (after_close garbage w c).
Proof. intros Hs. unfold after_close. destruct (_ && _); [|done]. by apply close_good, stream_truthful. Qed.

Lemma trim_tail_ok base G w c : stream_ok base G c → disp_ok base G (trim_tail garbage w c).
Proof.
  intros Hs. unfold trim_tail. cbv zeta. destruct (_ <? _); [|done]. destruct (_ <=? _); [|done].
  destruct (_ && _ && _); [by apply close_good, stream_truthful|]. destruct (_ && _); [|done].
  cbn. eapply stream_irrel; [|exact Hs]. irrel.
Qed.

Lemma irrel_record_ts_recent w c : irrel c (record_ts_recent w c).
Proof.
  unfold record_ts_recent. destruct (w_ts w) as [[val ecr]|]; [|apply irrel_refl].
  destruct (TSTMP_GEQ _ _); [apply irrel_record_ts|apply irrel_refl].
Qed.

Lemma in_rst_ok base G w c : stream_ok base G c → disp_ok base G (in_rst garbage w c).
Proof.
  intros Hs. unfold in_rst. destruct (TH_RST _); [|done].
  destruct (state c); cbn [disp_ok]; try done; apply close_good; exact (stream_truthful _ _ _ Hs).
Qed.

Lemma in_syn_ack_ok base G w c : stream_ok base G c → nf → disp_safe base G (in_syn_ack fuel garbage w c).
Proof.
  intros Hs Hnf. unfold in_syn_ack. destruct (TH_SYN _).
  { destruct (safe_drop base G ECONNRESET c Hs Hnf) as (c' & -> & Hg). by apply disp_some. }
  destruct (negb _); [apply disp_some; by right|by apply disp_go].
Qed.

Lemma in_other_ok base G s tw w c : stream_ok base G c → nf → 0 <= s_ack s < 4294967296 →
  disp_safe base G (in_other fuel garbage s tw w c).
Proof.
  intros Hs Hnf Hr. unfold in_other. apply disp_bind; [by apply disp_some, paws_ok|]. clear dependent c. clear w. intros w c Hs.
  pose proof (irrel_trim_head w c) as Hi. destruct (trim_head w c) as [w1 c1]. cbn [snd] in Hi.
  apply disp_bind; [apply disp_some, after_close_ok; by eapply stream_irrel|]. clear dependent c. clear w. intros w c Hs.
  apply disp_bind; [by apply disp_some, trim_tail_ok|]. clear dependent c. clear w. intros w c Hs. cbv zeta.
  apply disp_bind; [apply disp_some, in_rst_ok, (stream_irrel _ _ _ _ (irrel_record_ts_recent w c) Hs)|].
  clear dependent c. clear w. intros w c Hs.
  apply disp_bind; [by apply in_syn_ack_ok|]. clear dependent c. clear w. intros w c Hs. by apply in_ack_ok.
Qed.

(** From [step6:]. *)
Lemma irrel_update_window s tw w c : irrel c (update_window s tw w c).2.
Proof. unfold update_window. destruct (_ && _); [|apply irrel_refl]. cbv zeta. cbn [snd]. irrel. Qed.

Lemma irrel_pulloutofband w c : irrel c (tcp_pulloutofband w c).2.
Proof. unfold tcp_pulloutofband, panic. cbv zeta. destruct (_ && _); cbn [snd]; irrel. Qed.

Lemma irrel_in_urg w c : irrel c (in_urg w c).2.
Proof.
  unfold in_urg, sohasoutofband. destruct (_ && _ && _); [|cbn [snd]; irrel].
  destruct (_ <? _); [apply irrel_refl|]. cbv zeta.
  match goal with |- context [tcp_pulloutofband w ?x] => assert (irrel c x) as Hi by irrel; set (c1 := x) in * end.
  clearbody c1. destruct (_ && _); [|done]. eapply irrel_trans; [exact Hi|apply irrel_pulloutofband].
Qed.

Lemma irrel_dodata s w c : irrel c (dodata s w c).2.
Proof. unfold dodata. destruct (_ && _); [apply irrel_REASS|apply irrel_refl]. Qed.

Lemma in_fin_ok base G c : stream_ok base G c → stream_ok base G (in_fin c).
Proof.
  intros Hs. unfold in_fin. cbv zeta.
  match goal with |- context [state (if ?b then ?x else c)] => assert (irrel c (if b then x else c)) as Hi end.
  { irrel. }
  match type of Hi with irrel _ ?x => set (c1 := x) in *; clearbody c1 end.
  pose proof (stream_irrel base G _ _ Hi Hs) as Hs1. clear Hi Hs c.
  pose proof tcps_eq as Ht. injection Ht. intros. pose proof Hs1 as []. clear Ht.
  assert (∀ s, (state c1 = TCPS_ESTABLISHED ∧ s = TCPS_CLOSE_WAIT) ∨ (state c1 = TCPS_FIN_WAIT_1 ∧ s = TCPS_CLOSING) ∨
    (state c1 = TCPS_FIN_WAIT_2 ∧ s = TCPS_TIME_WAIT) → stream_ok base G (set_state s c1)) as Hnew.
  { intros s Hc. apply stream_set_state; [done| | |].
    - destruct Hc as [[_ ->]|[[_ ->]|[_ ->]]]; lia.
    - intros Hsf. destruct (sk_early0 Hsf). rewrite !outflags_eq.
      destruct Hc as [[Hst ->]|[[-> ->]|[-> ->]]]; by split_and!.
    - intros ? ?. apply sk_more0; destruct Hc as [[-> ->]|[[-> ->]|[-> ->]]]; done. }
  destruct (state c1); try done.
  - lia.
  - apply Hnew. by left.
  - apply Hnew. right. by left.
  - assert (stream_ok base G (set_state TCPS_TIME_WAIT c1)) as Hs2 by (apply Hnew; by do 2 right).
    eapply stream_irrel; [|exact Hs2]. eapply irrel_trans; [|apply irrel_isdisconnected].
    apply irrel_set; [done|apply irrel_canceltimers].
  - eapply stream_irrel; [|exact Hs1]. irrel.
Qed.

Lemma step6_ok base G s tw w c : stream_ok base G c → nf →
  ∃ c', step6 fuel s tw w c = Some c' ∧ stream_ok base G c'.
Proof.
  intros Hs Hnf. unfold step6.
  pose proof (irrel_update_window s tw w c) as H1. destruct (update_window s tw w c) as [w1 c1]. cbn [snd] in H1.
  pose proof (irrel_in_urg w1 c1) as H2. destruct (in_urg w1 c1) as [w2 c2]. cbn [snd] in H2.
  pose proof (irrel_dodata s w2 c2) as H3. destruct (dodata s w2 c2) as [fin c3]. cbn [snd] in H3.
  assert (stream_ok base G c3) as Hs3.
  { eapply stream_irrel; [|exact Hs]. eapply irrel_trans; [exact H1|]. by eapply irrel_trans. }
  cbv zeta. assert (stream_ok base G (if fin then in_fin c3 else c3)) as Hs4 by (destruct fin; [by apply in_fin_ok|done]).
  destruct (_ || _); [|by eexists]. destruct (good_output base G _ Hs4 Hnf) as (c' & ? & ? & _). by exists c'.
Qed.

Lemma irrel_dropwithreset s w c : irrel c (dropwithreset s w c).
Proof. unfold dropwithreset. repeat case_match; try apply irrel_refl; apply irrel_respond. Qed.

Lemma good_irrel base G c c1 : irrel c c1 → good base G c → good base G c1.
Proof.
  intros Hi [[Hf Ht]|Hs]; [left|right; by eapply stream_irrel].
  split; [by rewrite (ir_freed _ _ Hi)|by eapply truthful_irrel].
Qed.

(** The connection that a segment was for. *)
Definition iconn (r : iresult E B) : conn E B := match r with Handled c | Again_with _ c => c end.

Lemma finish_ok base G s tw d : disp_safe base G d → nf →
  ∃ r, finish fuel s tw d = Some r ∧ good base G (iconn r).
Proof.
  intros (d' & -> & Hd) Hnf. destruct d' as [w c|c|w c|w c|i c|c]; cbn [finish disp_ok] in *; try (by eexists).
  - destruct (step6_ok base G s tw w c Hd Hnf) as (c' & -> & ?). eexists. split; [reflexivity|by right].
  - unfold dropafterack. destruct (TH_RST _); [eexists; split; [reflexivity|by right]|].
    destruct (safe_output base G (set_flag TF_ACKNOW true c)) as (c' & -> & ?); [|done|by eexists].
    eapply stream_irrel; [|exact Hd]. irrel.
  - eexists. split; [reflexivity|]. exact (good_irrel _ _ _ _ (irrel_dropwithreset s w c) Hd).
Qed.

Lemma input_safe base G s iss0 c : good base G c → nf → routes_ok → 0 <= s_ack s < 4294967296 →
  ∃ r, tcp_input fuel garbage s iss0 c = Some r ∧ good base G (iconn r).
Proof.
  intros Hg Hnf Hro Hr. unfold tcp_input. pose proof Hg as [[Hf Ht]|Hs].
  { rewrite Hf. eexists. split; [reflexivity|]. exact (good_irrel _ _ _ _ (irrel_dropwithreset s _ c) Hg). }
  assert (freed c = false) as -> by apply Hs. destruct (bool_decide _); [by eexists|]. cbv zeta.
  match goal with |- context [set TCPT_KEEP ?v ?x] => assert (irrel c (set TCPT_KEEP v x)) as Hi by irrel;
    set (c1 := set TCPT_KEEP v x) in * end.
  pose proof (stream_irrel base G _ _ Hi Hs) as Hs1. clearbody c1.
  destruct (quick_ts s) as [ts opts].
  assert (∃ ts1 c2, (if opts && negb (bool_decide (state c1 = TCPS_LISTEN)) then tcp_dooptions s ts c1 else (ts, c1)) = (ts1, c2) ∧
    stream_ok base G c2) as (ts1 & c2 & -> & Hs2).
  { destruct (_ && _); [|by exists ts, c1]. pose proof (stream_dooptions base G s ts c1 Hro Hs1) as Hd.
    destruct (tcp_dooptions s ts c1) as [ts1 c2]. by exists ts1, c2. }
  destruct (predict_ok base G s (w_start s ts1) (tiwin s c) c2 Hs2 Hnf Hr) as (d & -> & Hd). cbn [mbind option_bind].
  apply finish_ok; [|done]. apply disp_bind; [by apply disp_some|]. intros w c3 Hs3. cbv zeta.
  pose proof (stream_irrel base G _ _ (irrel_receive_window c3) Hs3) as Hs4.
  pose proof (sk_est _ _ _ Hs4) as He. pose proof tcps_eq as Htc. injection Htc. intros.
  destruct (state (receive_window c3)); try (by apply in_other_ok); lia.
Qed.

(** ** User requests *)

(** More of the stream. *)
Lemma true_more base G x e : true_ev base G e → true_ev base (G ++ x) e.
Proof.
  destruct e; try done. intros Ht Hne. destruct (Ht Hne) as (off & ? & Hl & ? & Hd). exists off.
  rewrite zlen_app. pose proof (zlen_nonneg x). split_and!; try done; [lia|].
  pose proof (zlen_nonneg (o_data s)). rewrite zdrop_app_le by lia. rewrite ztake_app_le; [done|]. rewrite zlen_zdrop. lia.
Qed.

Lemma truthful_more base G x c : truthful base G c → truthful base (G ++ x) c.
Proof. apply List.Forall_impl, true_more. Qed.

Hypothesis cap_small : cap < 1073741824.

Lemma stream_append base G x c : stream_ok base G c → sflag SS_CANTSENDMORE c = false → snd_cc c + zlen x <= cap →
  stream_ok base (G ++ x) (set_snd (so_append x (so_snd (so c))) c).
Proof.
  intros [] Hmore Hc. destruct sk_abs0 as (A & f & n & m & [[]]). pose proof (zlen_nonneg x).
  assert (flag TF_SENTFIN c = false) as Hsf.
  { destruct (flag TF_SENTFIN c); [|done]. destruct (sk_early0 eq_refl). rewrite sk_more0 in Hmore by done. done. }
  assert (f = false) as -> by (destruct f; [destruct (ab_f0 eq_refl) as (_ & ? & _); congruence|done]).
  set (c1 := set_snd _ c).
  assert (sb_bytes (so_snd (so c1)) = zdrop A (G ++ x)) as Hb.
  { change (so_snd (so c1)) with (so_append x (so_snd (so c))). rewrite so_append_bytes, ab_buf0, zdrop_app_le by lia. done. }
  assert (snd_cc c1 = snd_cc c + zlen x) as Hcc.
  { unfold snd_cc. change (so_snd (so c1)) with (so_append x (so_snd (so c))). by rewrite so_append_bytes, zlen_app. }
  assert (flag TF_SENTFIN c1 = false) as Hsf1 by done.
  split; rewrite ?Hcc; try done.
  - exists A, false, n, m. split; rewrite ?Hcc; try done.
    + split; rewrite ?Hcc, ?Hsf1; try done; rewrite ?Hsf in *; lia.
    + intros HF. specialize (ab_fit0 HF). lia.
    + rewrite zlen_app. lia.
  - change (32 <= so_hiwat (so_append x (so_snd (so c)))). by rewrite so_append_hiwat.
  - exact (truthful_more base G x c sk_log0).
Qed.

Lemma usrclosed_ok base G c : stream_ok base G c → sflag SS_CANTSENDMORE c = true →
  stream_ok base G (tcp_usrclosed garbage c).
Proof.
  intros Hs Hm. pose proof Hs as []. pose proof tcps_eq as Ht. injection Ht. intros. clear Ht.
  unfold tcp_usrclosed.
  match goal with |- context [freed ?x] => assert (stream_ok base G x) as Hs1; [|set (c1 := x) in *; clearbody c1] end.
  { destruct (state c) eqn:Hst; try done; try lia.
    - apply stream_set_state; [done|lia| |done]. intros Hsf. destruct (sk_early0 Hsf). congruence.
    - apply stream_set_state; [done|lia| |done]. intros Hsf. destruct (sk_early0 Hsf). congruence. }
  cbv zeta. destruct (_ && _); [|done]. eapply stream_irrel; [|exact Hs1]. apply irrel_isdisconnected.
Qed.

Lemma closed_output base G c : stream_ok base G c → sflag SS_CANTSENDMORE c = true → nf →
  let c1 := tcp_usrclosed garbage c in
  freed c1 = false ∧ ∃ r c', tcp_output fuel c1 = Some (r, c') ∧ stream_ok base G c'.
Proof.
  intros Hs Hm Hnf c1. pose proof (usrclosed_ok base G c Hs Hm) as Hs1. fold c1 in Hs1. split; [by destruct Hs1|].
  destruct (stream_output base G c1 Hs1 Hnf) as (r & c' & ? & ? & _). by exists r, c'.
Qed.

Lemma disconnect_safe base G c : stream_ok base G c → nf → safe base G (tcp_disconnect fuel garbage c).
Proof.
  intros Hs Hnf. unfold tcp_disconnect. pose proof tcps_eq as Ht. injection Ht. intros. clear Ht.
  pose proof (sk_est _ _ _ Hs). destruct (Z.ltb_spec (tcps (state c)) (tcps TCPS_ESTABLISHED)); [lia|].
  destruct (_ && _); [by apply safe_drop|]. cbv zeta.
  set (c1 := set_rcv _ (soisdisconnecting c)).
  assert (irrel c c1) as Hi by (apply irrel_set_rcv, irrel_isdisconnecting).
  destruct (closed_output base G c1) as (-> & r & c' & Hout & Hs'); [by eapply stream_irrel|done|done|].
  unfold output. rewrite Hout. by apply safe_some.
Qed.

(** A request with its error. *)
Definition safe_req base G (r : option (Z * conn E B)) : Prop := safe base G (snd <$> r).

Lemma quietly_safe base G r : safe base G r → safe_req base G (quietly r).
Proof. intros (c & -> & Hg). by exists c. Qed.

Lemma output_req base G c : stream_ok base G c → nf → safe_req base G (tcp_output fuel c).
Proof. apply safe_output. Qed.

Lemma shutdown_safe base G c : stream_ok base G c → nf → safe_req base G (tcp_usrreq fuel garbage PRU_SHUTDOWN c).
Proof.
  intros Hs Hnf. cbn [tcp_usrreq]. cbv zeta.
  destruct (closed_output base G (socantsendmore c)) as (-> & r & c' & Hout & Hs'); [|done|done|].
  - eapply stream_irrel; [|exact Hs]. apply irrel_cantsendmore.
  - rewrite Hout. exists c'. split; [done|by right].
Qed.

Lemma rcvoob_safe base G peek c : stream_ok base G c → safe_req base G (tcp_usrreq fuel garbage (PRU_RCVOOB peek) c).
Proof.
  intros Hs. cbn [tcp_usrreq]. unfold pru_rcvoob.
  destruct (_ || _ || _); [by apply safe_some|]. destruct (negb _); [by apply safe_some|].
  destruct peek; [by apply safe_some|]. apply (safe_some base G). eapply stream_irrel; [|exact Hs]. irrel.
Qed.

Lemma sendoob_safe base G x c : stream_ok base G c → sflag SS_CANTSENDMORE c = false → snd_cc c + zlen x <= cap → nf →
  safe_req base (if so_space (so_snd (so c)) <? -512 then G else G ++ x) (tcp_usrreq fuel garbage (PRU_SENDOOB x) c).
Proof.
  intros Hs Hm Hc Hnf. cbn [tcp_usrreq]. unfold pru_sendoob. destruct (_ <? -512); [by apply safe_some|]. cbv zeta.
  pose proof (stream_append base G x c Hs Hm Hc) as Hs1. set (c1 := set_snd _ c) in *. clearbody c1.
  match goal with |- context [tcp_output fuel ?y] => assert (irrel c1 y) as Hi by irrel; set (c2 := y) in *; clearbody c2 end.
  destruct (stream_output base (G ++ x) c2) as (r & c' & -> & Hs' & _); [by eapply stream_irrel|done|].
  cbn. apply (safe_some base (G ++ x)). eapply stream_irrel; [|exact Hs']. irrel.
Qed.

(** ** Runs *)

(** What can happen to a connection: segments, timeouts, and the requests the
    socket layer makes of a connected socket.  [PRU_CONNECT] is not among
    them, since [soconnect] refuses it; [PRU_LISTEN], which [solisten] passes on
    without a check, ends a connection's stream: see
    [listen_on_connection]. *)
Inductive event :=
  | Segment (s : tin)
  | SlowTimeout | FastTimeout
  | Write (x : bytes) | WriteUrgent (x : bytes) | WasRead | ReadUrgent (peek : bool)
  | Shutdown | Disconnect | Abort | Bind
  | NoDelay (on : bool) | MaxSeg (size : Z).

(** The socket layer accepts data when the sender has not shut down and there
    is space. *)
Definition accepts (x : bytes) c : bool := negb (sflag SS_CANTSENDMORE c) && (snd_cc c + zlen x <=? cap).

(** The stream written so far is a ghost value; a connection given up hears
    nothing more. *)
Definition step_event (e : event) (cg : conn E B * bytes) : option (conn E B * bytes) :=
  let '(c, G) := cg in
  let keep r := c ← r; Some (c, G) in
  if freed c then Some (c, G) else
  match e with
  | Segment s => r ← tcp_input fuel garbage s 0 c; Some (iconn r, G)
  | SlowTimeout => keep (tcp_slowtimo fuel garbage c)
  | FastTimeout => keep (tcp_fasttimo fuel c)
  | Write x =>
      if accepts x c then r ← tcp_usrreq fuel garbage (PRU_SEND x) c; Some (r.2, G ++ x) else Some (c, G)
  | WriteUrgent x =>
      if accepts x c then
        r ← tcp_usrreq fuel garbage (PRU_SENDOOB x) c;
        Some (r.2, if so_space (so_snd (so c)) <? -512 then G else G ++ x)
      else Some (c, G)
  | WasRead => keep (snd <$> tcp_usrreq fuel garbage PRU_RCVD c)
  | ReadUrgent peek => keep (snd <$> tcp_usrreq fuel garbage (PRU_RCVOOB peek) c)
  | Shutdown => keep (snd <$> tcp_usrreq fuel garbage PRU_SHUTDOWN c)
  | Disconnect => keep (snd <$> tcp_usrreq fuel garbage PRU_DISCONNECT c)
  | Abort => keep (snd <$> tcp_usrreq fuel garbage PRU_ABORT c)
  | Bind => keep (snd <$> tcp_usrreq fuel garbage PRU_BIND c)
  | NoDelay on => keep (Some (tcp_setopt TCP_NODELAY (Some (Z.b2z on)) c).2)
  | MaxSeg size => keep (Some (tcp_setopt TCP_MAXSEG (Some size) c).2)
  end.

Fixpoint run_events (es : list event) (cg : conn E B * bytes) : option (conn E B * bytes) :=
  match es with
  | [] => Some cg
  | e :: es => cg ← step_event e cg; run_events es cg
  end.

(** The acknowledgment of a segment is a number of 32 bits, and the user
    leaves room for data beside the options of a segment: with [TCP_MAXSEG] 12
    and timestamps [tcp_output] does not return ([tcp_output_livelock]). *)
Definition event_ok (e : event) : Prop :=
  match e with Segment s => 0 <= s_ack s < 4294967296 | MaxSeg size => 32 <= size | _ => True end.

Lemma keep_safe base G r : safe base G r →
  ∃ c' x, (c ← r; Some (c, G)) = Some (c', G ++ x) ∧ good base (G ++ x) c'.
Proof. intros (c' & -> & Hg). exists c', []. by rewrite app_nil_r. Qed.

Lemma step_event_ok base e G c : good base G c → event_ok e → nf → routes_ok →
  ∃ c' x, step_event e (c, G) = Some (c', G ++ x) ∧ good base (G ++ x) c'.
Proof.
  intros Hg He Hnf Hro. unfold step_event.
  assert (∃ c' x, Some (c, G) = Some (c', G ++ x) ∧ good base (G ++ x) c') as Hsame
    by (exists c, []; by rewrite app_nil_r).
  pose proof Hg as [[Hf Ht]|Hs]; [by rewrite Hf|]. assert (freed c = false) as -> by apply Hs.
  destruct e as [s| | |x|x| |peek| | | | |on|size]; cbv zeta; cbn [event_ok] in He; try apply keep_safe.
  - destruct (input_safe base G s 0 c Hg Hnf Hro He) as (r & -> & Hr). exists (iconn r), []. by rewrite app_nil_r.
  - by apply slowtimo_safe.
  - by apply fasttimo_safe.
  - destruct (accepts x c) eqn:Ha; [|exact Hsame].
    apply andb_true_iff in Ha as [Hm%negb_true_iff Hc%Z.leb_le].
    destruct (stream_output base (G ++ x) _ (stream_append base G x c Hs Hm Hc) Hnf) as (r & c' & Hout & Hs' & _).
    cbn [tcp_usrreq]. unfold pru_send. rewrite Hout. exists c', x. split; [done|by right].
  - destruct (accepts x c) eqn:Ha; [|exact Hsame].
    apply andb_true_iff in Ha as [Hm%negb_true_iff Hc%Z.leb_le].
    destruct (sendoob_safe base G x c Hs Hm Hc Hnf) as (c' & Hr & Hg').
    destruct (tcp_usrreq _ _ _ _) as [[r c1]|]; [|done]. injection Hr as ->. cbn. exists c'.
    destruct (_ <? -512); [exists []|by exists x]. by rewrite app_nil_r.
  - by apply quietly_safe, safe_output.
  - by apply rcvoob_safe.
  - by apply shutdown_safe.
  - by apply quietly_safe, disconnect_safe.
  - by apply quietly_safe, safe_drop.
  - cbn [tcp_usrreq]. destruct (in_pcbbind (env c)) as [err e]. apply (safe_some base G). eapply stream_irrel; [|exact Hs]. irrel.
  - apply safe_some. cbn. eapply stream_irrel; [|exact Hs]. irrel.
  - apply safe_some. pose proof (sk_maxseg _ _ _ Hs). cbn [tcp_setopt].
    destruct ((0 <? size) && (size <=? get t_maxseg c)) eqn:Hsz; [|done]. apply andb_true_iff in Hsz as [_ ?%Z.leb_le].
    apply stream_set_maxseg; [lia|done].
Qed.

Lemma run_events_ok base es : ∀ G c, good base G c → Forall event_ok es → nf → routes_ok →
  ∃ c' x, run_events es (c, G) = Some (c', G ++ x) ∧ good base (G ++ x) c'.
Proof.
  induction es as [|e es IH]; intros G c Hg He Hnf Hro; cbn [run_events].
  { exists c, []. by rewrite app_nil_r. }
  inversion_clear He as [|? ? He1 He2].
  destruct (step_event_ok base e G c Hg He1 Hnf Hro) as (c1 & x & -> & Hg1).
  destruct (IH (G ++ x) c1 Hg1 He2 Hnf Hro) as (c2 & y & Hr & Hg2). exists c2, (x ++ y).
  cbn [mbind option_bind]. by rewrite Hr, app_assoc.
Qed.

(** ** The handshake *)

(** Our SYN was sent, nothing else. *)
Record syn_sent (G : bytes) c : Prop := {
  ss_live : freed c = false;
  ss_state : state c = TCPS_SYN_SENT;
  ss_wf : wf c;
  ss_max : get snd_max c = u32 (get iss c + 1);
  ss_nxt : get snd_nxt c = get snd_max c ∨ get snd_nxt c = get iss c;
  ss_fin : flag TF_SENTFIN c = false;
  ss_buf : sb_bytes (so_snd (so c)) = G;
  ss_maxseg : 32 <= get t_maxseg c < 16384;
  ss_template : flag T_TEMPLATE c = true;
  ss_hiwat : 32 <= so_hiwat (so_snd (so c));
  ss_cap : zlen G <= cap;
  ss_log : ∀ s, Sent s ∈ tlog c → o_data s = []
}.

Lemma established_start base G c : freed c = false → wf c → get snd_una c = u32 base →
  get snd_nxt c = u32 base → get snd_max c = u32 base → flag TF_SENTFIN c = false →
  sb_bytes (so_snd (so c)) = G → 32 <= get t_maxseg c < 16384 → flag T_TEMPLATE c = true →
  32 <= so_hiwat (so_snd (so c)) → zlen G <= cap → truthful base G c →
  stream_ok base G (set_state TCPS_ESTABLISHED c).
Proof.
  intros Hf Hw Hu Hn Hm Hsf Hb Hms Ht Hh Hc Hl. pose proof tcps_eq as Htc. injection Htc. intros. clear Htc.
  assert (snd_cc c = zlen G) as Hcc by (unfold snd_cc; by rewrite Hb). pose proof (zlen_nonneg G).
  split; try done.
  - change (4 <= tcps TCPS_ESTABLISHED). lia.
  - exists 0, false, 0, 0. split; try done.
    + split; try done.
      * by apply sync_flags; change (4 <= tcps TCPS_ESTABLISHED); lia.
      * rewrite Z.add_0_r. conn_simpl. by rewrite Hn, Hu, u32_u32.
      * rewrite Z.add_0_r. conn_simpl. by rewrite Hm, Hu, u32_u32.
      * conn_simpl. by rewrite Hu, u32_u32.
      * change (0 <= snd_cc c + Z.b2z (flag TF_SENTFIN c)). rewrite Hsf. cbn. lia.
      * change (flag TF_SENTFIN c = true → TH_FIN (tcp_outflags TCPS_ESTABLISHED) = true → 0 = snd_cc c + 1). by rewrite Hsf.
      * change (snd_cc c < 1073741824). lia.
    + intros _. change (0 <= snd_cc c). lia.
    + change (get snd_una c = u32 (base + 0 + 0)). by rewrite !Z.add_0_r.
  - change (flag TF_SENTFIN c = true → TCPS_ESTABLISHED ≠ TCPS_ESTABLISHED ∧ TCPS_ESTABLISHED ≠ TCPS_CLOSE_WAIT). by rewrite Hsf.
  - change (snd_cc c <= cap). lia.
Qed.

Lemma irrel_rcvseqinit c : irrel c (with_fld tcp_rcvseqinit c).
Proof.
  destruct (rcvseqinit_eq (tp c)) as (H1 & H2 & H3 & H4).
  assert (∀ f, get f (with_fld tcp_rcvseqinit c) = match f with rcv_adv | rcv_nxt => store f (get irs c + 1) | _ => get f c end)
    as Hg by exact H4.
  split; try done.
  - intros f Hf. rewrite Hg. by destruct f.
  - change (tfl (tcp_rcvseqinit (tp c)) TF_SENTFIN = flag TF_SENTFIN c). by rewrite H2.
  - change (tfl (tcp_rcvseqinit (tp c)) T_TEMPLATE = flag T_TEMPLATE c). by rewrite H2.
  - intros Hw f Hf. rewrite Hg. destruct f; try (by apply Hw); rewrite store_u32 by done; apply u32_range.
  - by exists [].
Qed.

Lemma irrel_scaling c : irrel c (do_scaling c).
Proof. unfold do_scaling. irrel. Qed.

Lemma irrel_trimthen w c : ∃ w1 c1, trimthenstep6 w c = Go w1 c1 ∧ irrel c c1.
Proof. unfold trimthenstep6. cbv zeta. eexists _, _. split; [reflexivity|]. irrel. Qed.

(** The only acknowledgment that is accepted. *)
Lemma syn_ack_number G ack c : syn_sent G c → 0 <= ack < 4294967296 →
  SEQ_LEQ ack (get iss c) || SEQ_GT ack (get snd_max c) = false → ack = u32 (get iss c + 1).
Proof.
  intros [] Hr [Hl Hg]%orb_false_iff. rewrite SEQ_LEQ_eq in Hl. rewrite SEQ_GT_eq, ss_max0 in Hg.
  pose proof (ss_wf0 iss eq_refl) as Hi. destruct (u32_ex (get iss c + 1)) as [k Hk].
  pose proof (u32_range (get iss c + 1)). rewrite Hk in *.
  assert (k = 0 ∨ k = -1) as [-> | ->] by lia; unfold s32 in *; Z.div_mod_to_equations; lia.
Qed.

Lemma syn_ack_ok G s w c : syn_sent G c → 0 <= s_ack s < 4294967296 →
  TH_SYN (w_flags w) = true → TH_ACK (w_flags w) = true → TH_RST (w_flags w) = false →
  SEQ_LEQ (s_ack s) (get iss c) || SEQ_GT (s_ack s) (get snd_max c) = false →
  ∃ w1 c1, in_syn_sent fuel garbage s w c = Some (Go w1 c1) ∧ stream_ok (get iss c + 1) G c1.
Proof.
  intros Hc Hr Hsyn Hack Hrst Hok. pose proof (syn_ack_number _ _ _ Hc Hr Hok) as Ha. pose proof Hc as [].
  unfold in_syn_sent. rewrite Hsyn, Hack, Hrst, Hok. cbn [andb negb]. cbv zeta.
  set (c1 := set TCPT_REXMT 0 _).
  assert (freed c1 = freed c ∧ so c1 = so c ∧ tlog c1 = tlog c ∧ tfl (tp c1) = tfl (tp c) ∧
    get t_maxseg c1 = get t_maxseg c ∧ get snd_max c1 = get snd_max c ∧ get snd_una c1 = s_ack s ∧
    get snd_nxt c1 = s_ack s ∧ wf c1) as (B1 & B2 & B3 & B4 & B5 & B6 & B7 & B8 & B9).
  { assert (get snd_una (set snd_una (s_ack s) c) = s_ack s) as Hu by (conn_simpl; by rewrite store_u32, u32_id).
    assert (get snd_nxt (set snd_una (s_ack s) c) = get snd_nxt c) as Hn by done.
    unfold c1. rewrite Hu, Hn. destruct (SEQ_LT (get snd_nxt c) (s_ack s)) eqn:Hlt; split_and!; try done; try (repeat apply wf_set; done).
    - conn_simpl. by rewrite store_u32, u32_id.
    - destruct ss_nxt0 as [He|He]; [conn_simpl; by rewrite He, ss_max0|].
      rewrite SEQ_LT_eq, He, Ha in Hlt. exfalso. destruct (u32_ex (get iss c + 1)) as [k Hk].
      rewrite Hk, (s32_is (-1) (- k)) in Hlt by lia. done. }
  clearbody c1. clear ss_nxt0.
  set (c2 := with_fld tcp_rcvseqinit _).
  assert (irrel c1 (soisconnected (set_flag TF_ACKNOW true c2))) as Hi.
  { eapply irrel_trans; [|apply irrel_isconnected]. apply irrel_set_flag; [done|done|].
    unfold c2. eapply irrel_trans; [|apply irrel_rcvseqinit]. irrel. }
  set (c3 := soisconnected _) in *. clearbody c3. clear c2.
  assert (stream_ok (get iss c + 1) G (set_state TCPS_ESTABLISHED c3)) as Hs.
  { apply established_start; rewrite ?(ir_freed _ _ Hi), ?(ir_snd _ _ Hi), ?(ir_get _ _ Hi), ?(ir_fin _ _ Hi),
      ?(ir_template _ _ Hi), ?B1, ?B2, ?B5, ?B6, ?B7, ?B8 by done; try done.
    - by apply Hi.
    - unfold flag. by rewrite B4.
    - unfold flag. by rewrite B4.
    - eapply truthful_irrel; [exact Hi|]. unfold truthful. rewrite B3. apply list.Forall_forall.
      intros e He. apply noseg_true. destruct e; try done. by apply ss_log0. }
  pose proof (irrel_scaling (set_state TCPS_ESTABLISHED c3)) as H1. set (c4 := do_scaling _) in *.
  pose proof (irrel_reass None c4) as H2. set (c5 := (tcp_reass None c4).2) in *. clearbody c4 c5.
  match goal with |- context [trimthenstep6 w ?x] => assert (irrel c5 x) as H3 end.
  { destruct (negb _); [apply irrel_xmit_timer|apply irrel_refl]. }
  match type of H3 with irrel _ ?x => set (c6 := x) in *; clearbody c6 end.
  destruct (irrel_trimthen w c6) as (w1 & c7 & -> & H4). exists w1, c7. split; [done|].
  eapply stream_irrel; [|exact Hs]. eapply irrel_trans; [exact H1|]. eapply irrel_trans; [exact H2|]. by eapply irrel_trans.
Qed.

End Stream.

(** ** The stream is sent as it was written *)

(** C1: As long as the pool of mbufs never runs out ([never_fails]) and
    routes give segments room for data ([routes_ok]: MTUs below 16384, send
    pipes of at least 32 bytes): whatever of the following happens to a
    connection in order, in any sequence -- segments, timeouts, writing,
    urgent data, reading, shutdown, disconnecting, aborting, binding,
    [TCP_NODELAY], and [TCP_MAXSEG] of at least 32 bytes, but not [listen] on
    the connected socket -- every operation returns, and every segment that
    was ever sent with data carries the bytes of the written stream that belong
    at its sequence number; while the connection lives, the send buffer is the
    part of the stream that was not acknowledged, and [snd_una] is its sequence
    number, or the one after our FIN.  Without mbufs [snd_max] may move past
    the FIN ([fin_resent_without_buffer]). *)
Theorem tcp_stream_safe {E B} `{!TcpDefs, !TcpDefsLaws, !SoBuf B, !SoBufLaws B, !TcpEnv E, !TcpEnvLaws E, !TcpInEnv E, !TcpUsrEnv E}
  (cap : Z) (fuel : nat) (garbage base : Z) (G : bytes) (c : conn E B) (es : list event) :
  cap < 1073741824 → cap + 1 < Z.of_nat fuel → stream_ok cap base G c →
  never_fails (E := E) → routes_ok (E := E) → Forall event_ok es →
  ∃ c' x, run_events cap fuel garbage es (c, G) = Some (c', G ++ x) ∧
    (∀ s, Sent s ∈ tlog c' → o_data s ≠ [] →
       ∃ off, 0 <= off ∧ off + zlen (o_data s) <= zlen (G ++ x) ∧ u32 (o_seq s) = u32 (base + off) ∧
         o_data s = ztake (zlen (o_data s)) (zdrop off (G ++ x))) ∧
    (freed c' = false → ∃ A (f : bool), 0 <= A <= zlen (G ++ x) ∧
       sb_bytes (so_snd (so c')) = zdrop A (G ++ x) ∧ get snd_una c' = u32 (base + A + Z.b2z f) ∧
       (f = true → A = zlen (G ++ x) ∧ flag TF_SENTFIN c' = true)).
Proof.
  intros Hcap Hfuel Hs Hnf Hro He.
  destruct (run_events_ok cap fuel garbage Hfuel Hcap base es G c) as (c' & x & Hr & Hg); try done; [by right|].
  exists c', x. split; [done|]. split.
  - intros s Hin. apply good_truthful in Hg. unfold truthful in Hg. rewrite list.Forall_forall in Hg. exact (Hg _ Hin).
  - intros Hf. destruct Hg as [[? _]|Hs']; [congruence|]. destruct (sk_abs _ _ _ _ Hs') as (A & f & n & m & Ha).
    exists A, f. destruct Ha as [_ _ HA Hb Hu Hft]. split_and!; try done; [lia|lia|].
    intros Hf1. by destruct (Hft Hf1) as (? & ? & _).
Qed.

(** C6: The segment that completes the three-way handshake -- SYN and an
    acceptable acknowledgment of our SYN -- leads, when mbufs do not run
    out, to a connection in order in state ESTABLISHED or, when it carries a FIN, CLOSE_WAIT: the stream is what
    is in the send buffer, and its first sequence number is [iss + 1]. *)
Theorem tcp_handshake_stream {E B} `{!TcpDefs, !TcpDefsLaws, !SoBuf B, !SoBufLaws B, !TcpEnv E, !TcpEnvLaws E, !TcpInEnv E, !TcpUsrEnv E}
  (cap : Z) (fuel : nat) (garbage tw : Z) (G : bytes) (s : tin) (w : work) (c : conn E B) :
  cap < 1073741824 → cap + 1 < Z.of_nat fuel → syn_sent cap G c → never_fails (E := E) →
  0 <= s_ack s < 4294967296 →
  TH_SYN (w_flags w) = true → TH_ACK (w_flags w) = true → TH_RST (w_flags w) = false →
  SEQ_LEQ (s_ack s) (get iss c) || SEQ_GT (s_ack s) (get snd_max c) = false →
  ∃ c', finish fuel s tw (in_syn_sent fuel garbage s w c) = Some (Handled c') ∧
    stream_ok cap (get iss c + 1) G c'.
Proof.
  intros Hcap Hfuel Hc Hnf Hr Hsyn Hack Hrst Hok.
  destruct (syn_ack_ok cap fuel garbage Hcap G s w c) as (w1 & c1 & -> & Hs); try done.
  destruct (step6_ok cap fuel Hfuel (get iss c + 1) G s tw w1 c1 Hs Hnf) as (c' & Hc' & Hs').
  exists c'. cbn [finish]. by rewrite Hc'.
Qed.

(** ** A run *)

Module StreamDemo.

#[export] Instance demo_in_env : TcpInEnv unit := {|
  tcp_iss _ := 64000; iss_step e := e; landAttackSafe := true;
  mBufClGet e := (true, e); in_pcbconnect e := (0, e); tcp_template e := (true, e)
|}.

#[export] Instance demo_usr_env : TcpUsrEnv unit := {|
  EINVAL := 22; EWOULDBLOCK := 70; EOPNOTSUPP := 45; ENOPROTOOPT := 42; EISCONN := 56;
  TCP_LINGERTIME := 120; tcp_sendspace := 8192; tcp_recvspace := 8192;
  in_pcballoc e := (0, e); tcpcb_malloc e := (true, e); in_pcbdetach e := e;
  unbound _ := false; in_pcbbind e := (0, e); in_pcbdisconnect e := e
|}.

End StreamDemo.

Import Demo SubrDemo StreamDemo.

(** A segment without data, acknowledging [ack]. *)
Definition ack_seg (flags : thflags) (seq ack : Z) : tin :=
  MkIn seq ack 4096 0 flags 0 (λ _, 0) [] false false.

Definition stream_fields (f : field) : Z :=
  match f with
  | snd_una | snd_nxt | snd_max | snd_up => 4294967295
  | rcv_nxt | rcv_up => 9000 | rcv_adv => 17192 | snd_wnd | max_sndwnd => 4096 | snd_cwnd => 1024
  | snd_wl1 => 9000 | t_maxseg => 512 | t_rxtcur => 6 | t_rttmin => 2 | _ => 0
  end.

Definition stream_demo : conn unit bytes :=
  MkConn (MkTcpcb TCPS_ESTABLISHED stream_fields
            (λ f, match f with T_TEMPLATE => true | _ => false end) [])
    false (MkSo [] [] (λ _, false) 0 0 0) tt [].

Definition ack_flags : thflags := MkFl false false false false true false.

(** Four bytes across the end of the sequence space, of which two are
    acknowledged; the others are sent again after the timeout, followed by two
    more and the FIN, which is acknowledged. *)
Definition stream_events : list event :=
  MaxSeg 64 :: Write [1; 2; 3; 4] :: Segment (ack_seg ack_flags 9000 1) :: repeat SlowTimeout 7 ++
  [Write [5; 6]; Shutdown; Segment (ack_seg ack_flags 9000 3); Segment (ack_seg ack_flags 9000 6)].

Definition sent_data (c : conn unit bytes) : list (Z * bytes * bool) :=
  rev (omap (λ e, match e with Sent s => Some (o_seq s, o_data s, TH_FIN (o_flags s)) | _ => None end) (tlog c)).

Example stream_demo_run :
  option_map (λ '(c, G), (sent_data c, G, state c, freed c)) (run_events 100 200 0 stream_events (stream_demo, [])) =
  Some ([(4294967295, [1; 2; 3; 4], false); (1, [3; 4], false); (3, [5; 6], true)],
        [1; 2; 3; 4; 5; 6], TCPS_FIN_WAIT_2, false).
Proof. vm_compute. reflexivity. Qed.

(** [listen] on a connected socket. *)
Example listen_on_connection :
  option_map (λ r, (r.1, state r.2)) (tcp_usrreq 200 0 PRU_LISTEN stream_demo) = Some (0, TCPS_LISTEN).
Proof. reflexivity. Qed.

Lemma tcp_stream_safe_witness :
  ∃ c' x, run_events 100 200 0 stream_events (stream_demo, []) = Some (c', [] ++ x) ∧
    (∀ s, Sent s ∈ tlog c' → o_data s ≠ [] →
       ∃ off, 0 <= off ∧ off + zlen (o_data s) <= zlen ([] ++ x) ∧ u32 (o_seq s) = u32 (4294967295 + off) ∧
         o_data s = ztake (zlen (o_data s)) (zdrop off ([] ++ x))) ∧
    (freed c' = false → ∃ A (f : bool), 0 <= A <= zlen ([] ++ x) ∧
       sb_bytes (so_snd (so c')) = zdrop A ([] ++ x) ∧ get snd_una c' = u32 (4294967295 + A + Z.b2z f) ∧
       (f = true → A = zlen ([] ++ x) ∧ flag TF_SENTFIN c' = true)).
Proof.
  apply (tcp_stream_safe 100 200 0 4294967295 [] stream_demo stream_events).
  - reflexivity.
  - reflexivity.
  - split.
    + reflexivity.
    + vm_compute. discriminate.
    + intros [] Hf; try discriminate Hf; vm_compute; split; try discriminate; reflexivity.
    + exists 0, false, 0, 0. split.
      * split; try reflexivity; try (split; reflexivity); try (vm_compute; discriminate); try discriminate.
      * intros _. vm_compute. discriminate.
      * split; discriminate.
      * reflexivity.
      * reflexivity.
      * discriminate.
    + discriminate.
    + intros Hc. exfalso. apply Hc. reflexivity.
    + vm_compute. split; [discriminate|reflexivity].
    + reflexivity.
    + vm_compute. discriminate.
    + vm_compute. discriminate.
    + constructor.
  - split; [reflexivity|discriminate].
  - intros e rt Hrt. discriminate Hrt.
  - repeat (constructor; [first [exact I|split; [discriminate|reflexivity]|vm_compute; discriminate]|]). constructor.
Defined.

(** The answer to our SYN with number [64000], which has three bytes waiting. *)
Definition syn_sent_demo : conn unit bytes :=
  MkConn (MkTcpcb TCPS_SYN_SENT
            (λ f, match f with
                  | iss | snd_una | snd_up => 64000 | snd_nxt | snd_max => 64001 | snd_cwnd => 1024
                  | t_maxseg => 512 | t_rxtcur => 6 | t_rttmin => 2 | TCPT_REXMT => 6 | _ => 0 end)
            (λ f, match f with T_TEMPLATE => true | _ => false end) [])
    false (MkSo [7; 8; 9] [] (λ _, false) 0 0 0) tt [].

Definition syn_ack_seg : tin := ack_seg (MkFl false true false false true false) 9000 64001.

Example syn_sent_demo_run :
  match finish 10 syn_ack_seg 4096 (in_syn_sent 10 0 syn_ack_seg (w_start syn_ack_seg None) syn_sent_demo) with
  | Some (Handled c) => (state c, sent_data c, get rcv_nxt c) | _ => (TCPS_CLOSED, [], 0)
  end = (TCPS_ESTABLISHED, [(64001, [7; 8; 9], false)], 9001).
Proof. vm_compute. reflexivity. Qed.

Lemma tcp_handshake_stream_witness :
  ∃ c', finish 10 syn_ack_seg 4096 (in_syn_sent 10 0 syn_ack_seg (w_start syn_ack_seg None) syn_sent_demo) =
    Some (Handled c') ∧ stream_ok 8 (64000 + 1) [7; 8; 9] c'.
Proof.
  apply (tcp_handshake_stream 8 10 0 4096 [7; 8; 9] syn_ack_seg (w_start syn_ack_seg None) syn_sent_demo).
  - reflexivity.
  - reflexivity.
  - split; try reflexivity.
    + intros [] Hf; try discriminate Hf; vm_compute; split; try discriminate; reflexivity.
    + left. reflexivity.
    + vm_compute. split; [discriminate|reflexivity].
    + vm_compute. discriminate.
    + vm_compute. discriminate.
    + intros s Hs. inversion Hs.
  - split; [reflexivity|discriminate].
  - split; [discriminate|reflexivity].
  - reflexivity.
  - reflexivity.
  - reflexivity.
  - vm_compute. reflexivity.
Defined.
